(** * The dialogue pipeline of the character interaction engine

    A shallow embedding of the retrieval-augmented dialogue pipeline:
    - [app/services/embedding.py]   (embedding provider, cosine similarity),
    - [app/services/knowledge.py]   (knowledge similarity retrieval),
    - [app/memory/service.py]       (memory store and its search ladder),
    - [app/core/langgraph_orchestration.py] (the five-stage graph).

    Python values that the code treats dynamically (MongoDB documents,
    the [Any]-typed parts of the graph state) are values of [pyval];
    exceptions are the [Raise] outcome of a small state-and-exception
    monad over the database; everything the code obtains from outside
    (the sentence encoder, the chat completion API, the Atlas search
    index, the server's regex engine and its reading of a filter
    document, the driver's new [ObjectId]s, [str()] of non-string
    values, and what pydantic, numpy and [list.sort] do with values
    outside their ordinary domain) is a field of the environment
    [Env], over which every statement below is quantified.  The database is
    the [World]: its collections, the clock, and the outcome of the
    database calls to come, so that any pattern of store failures is
    one of the worlds. *)

From Stdlib Require Import ZArith NArith Bool List String Ascii Lia.
From Stdlib Require Import Sorting.Sorted Sorting.Permutation.
From Stdlib Require Import Reals Lra.
From Stdlib Require Import Floats.PrimFloat Floats.SpecFloat Floats.FloatOps.
From Stdlib Require Import Floats.FloatAxioms.
From Stdlib Require Import DecimalString.
Import ListNotations.

Set Warnings "-register-all".

Local Open Scope string_scope.
Local Open Scope list_scope.
Local Open Scope Z_scope.

Infix "+++" := String.append (right associativity, at level 60).

(** ** Python string methods used by the pipeline *)

Module PyStr.

Definition is_upper (c : ascii) : bool :=
  let n := nat_of_ascii c in (Nat.leb 65 n && Nat.leb n 90)%bool.

Definition is_lower (c : ascii) : bool :=
  let n := nat_of_ascii c in (Nat.leb 97 n && Nat.leb n 122)%bool.

(** Cased characters; the model covers ASCII letters, every other
    byte is uncased. *)
Definition is_cased (c : ascii) : bool := (is_upper c || is_lower c)%bool.

Definition to_upper (c : ascii) : ascii :=
  if is_lower c then ascii_of_nat (nat_of_ascii c - 32) else c.

Definition to_lower (c : ascii) : ascii :=
  if is_upper c then ascii_of_nat (nat_of_ascii c + 32) else c.

Fixpoint lower (s : string) : string :=
  match s with
  | EmptyString => EmptyString
  | String c s' => String (to_lower c) (lower s')
  end.

(** [s.capitalize()] *)
Definition capitalize (s : string) : string :=
  match s with
  | EmptyString => EmptyString
  | String c s' => String (to_upper c) (lower s')
  end.

(** [s.title()]: a cased character is upper-cased when it follows an
    uncased one (or starts the string) and lower-cased otherwise. *)
Fixpoint title_from (prev_cased : bool) (s : string) : string :=
  match s with
  | EmptyString => EmptyString
  | String c s' =>
      if is_cased c
      then String (if prev_cased then to_lower c else to_upper c)
                  (title_from true s')
      else String c (title_from false s')
  end.

Definition title (s : string) : string := title_from false s.

(** [s.startswith(p)] *)
Definition startswith (s p : string) : bool := String.prefix p s.

(** [s.replace(old, new)] for a non-empty [old]: every non-overlapping
    occurrence, scanning from the left.  [skip] counts the characters
    of a matched occurrence that are still to be dropped. *)
Fixpoint replace_from (old new s : string) (skip : nat) : string :=
  match s with
  | EmptyString => EmptyString
  | String c s' =>
      match skip with
      | S k => replace_from old new s' k
      | O =>
          if String.prefix old s
          then new +++ replace_from old new s' (String.length old - 1)
          else String c (replace_from old new s' 0)
      end
  end.

Definition replace (s old new : string) : string := replace_from old new s 0.

(** [s[n:]] *)
Fixpoint drop (n : nat) (s : string) : string :=
  match n, s with
  | O, _ => s
  | S k, EmptyString => EmptyString
  | S k, String _ s' => drop k s'
  end.

(** [sub in s] *)
Fixpoint contains_b (sub s : string) : bool :=
  (String.prefix sub s ||
   match s with
   | EmptyString => false
   | String _ s' => contains_b sub s'
   end)%bool.

Definition contains (sub s : string) : Prop :=
  exists pre post, s = pre +++ sub +++ post.

Definition is_hex (c : ascii) : bool :=
  let n := nat_of_ascii c in
  ((Nat.leb 48 n && Nat.leb n 57) || (Nat.leb 97 n && Nat.leb n 102)
   || (Nat.leb 65 n && Nat.leb n 70))%bool.

Fixpoint all_hex (s : string) : bool :=
  match s with
  | EmptyString => true
  | String c s' => (is_hex c && all_hex s')%bool
  end.

End PyStr.

(** ** Numbers

    The vectors and scores of the code are Python floats, binary64
    numbers.  The definitions are written once over the operations
    [cosine_similarity] and [list.sort] use on them; [np.dot] is one
    of these operations, since the order in which numpy's linear
    algebra kernel adds the products, and so the rounding of the sum,
    is the kernel's own. *)

Class Scalar (F : Type) : Type := {
  f_zero : F;
  (** [float(z)] *)
  f_of_Z : Z -> F;
  f_mul : F -> F -> F;
  f_div : F -> F -> F;
  f_sqrt : F -> F;
  f_eqb : F -> F -> bool;
  f_ltb : F -> F -> bool;
  (** [np.dot] of two vectors of one length *)
  f_dot : list F -> list F -> F
}.

(** The sum of the products taken from left to right, with one
    rounding for each product and each sum. *)
Definition dot_in_order (v1 v2 : list float) : float :=
  fold_left (fun acc p => PrimFloat.add acc (PrimFloat.mul (fst p) (snd p)))
            (combine v1 v2) PrimFloat.zero.

(** Binary64 with a given [np.dot].  [float(z)] is the float nearest
    to the integer (ties to even); an integer beyond the range of
    binary64, which no 64-bit integer of a stored document is, gives
    infinity here where Python raises [OverflowError]. *)
Definition Scalar_float_with (np_dot : list float -> list float -> float)
  : Scalar float := {|
  f_zero := PrimFloat.zero;
  f_of_Z := fun z => SF2Prim (binary_normalize prec emax z 0 false);
  f_mul := PrimFloat.mul;
  f_div := PrimFloat.div;
  f_sqrt := PrimFloat.sqrt;
  f_eqb := PrimFloat.eqb;
  f_ltb := PrimFloat.ltb;
  f_dot := np_dot
|}.

(** Binary64 as the examples run it.  The general statements below
    are over every number system, and so over every [np.dot]; the
    vectors of the examples are such that the sum of their products
    is the same in every order. *)
#[export] Instance Scalar_float : Scalar float := Scalar_float_with dot_in_order.

(** ** Outcomes: a value, or a raised exception with its message *)

Inductive Outcome (A : Type) : Type :=
| Ok (a : A)
| Raise (msg : string).
Arguments Ok {A} a.
Arguments Raise {A} msg.

Definition is_ok {A} (o : Outcome A) : bool :=
  match o with Ok _ => true | Raise _ => false end.

Definition obind {A B} (o : Outcome A) (k : A -> Outcome B) : Outcome B :=
  match o with
  | Ok a => k a
  | Raise e => Raise e
  end.

Notation "x <~ o ;; k" := (obind o (fun x => k))
  (at level 61, o at next level, right associativity).

(** [[f(x) for x in l]] for an [f] that may raise *)
Fixpoint map_outcome {A B} (f : A -> Outcome B) (l : list A) : Outcome (list B) :=
  match l with
  | [] => Ok []
  | x :: l' =>
      match f x with
      | Raise e => Raise e
      | Ok y =>
          match map_outcome f l' with
          | Raise e => Raise e
          | Ok ys => Ok (y :: ys)
          end
      end
  end.

Definition string_of_nat (n : nat) : string :=
  NilEmpty.string_of_uint (Nat.to_uint n).

(** ** Python values and MongoDB documents *)

Section Values.
Context {F : Type} {SF : Scalar F}.

(** The dynamically typed values the code handles: JSON-like data,
    floats, and [datetime] values (a timestamp). *)
Inductive pyval : Type :=
| PNone
| PBool (b : bool)
| PInt (z : Z)
| PFloat (x : F)
| PStr (s : string)
| PDate (t : N)
| PList (l : list pyval)
| PDict (d : list (string * pyval)).

(** A Python [dict] with string keys, in insertion order. *)
Definition dict : Type := list (string * pyval).

(** [d.get(k)] *)
Fixpoint dict_get (k : string) (d : dict) : option pyval :=
  match d with
  | [] => None
  | (k', v) :: d' => if String.eqb k k' then Some v else dict_get k d'
  end.

(** [d.get(k, default)] *)
Definition dict_get_default (k : string) (default : pyval) (d : dict) : pyval :=
  match dict_get k d with Some v => v | None => default end.

(** [d[k] = v] *)
Fixpoint dict_set (k : string) (v : pyval) (d : dict) : dict :=
  match d with
  | [] => [(k, v)]
  | (k', v') :: d' =>
      if String.eqb k k' then (k, v) :: d' else (k', v') :: dict_set k v d'
  end.

(** [k in d] *)
Definition dict_has (k : string) (d : dict) : bool :=
  match dict_get k d with Some _ => true | None => false end.

(** Truthiness, as [if v:] and [not v] test it. *)
Definition truthy (v : pyval) : bool :=
  match v with
  | PNone => false
  | PBool b => b
  | PInt z => negb (Z.eqb z 0)
  | PFloat x => negb (f_eqb x f_zero)
  | PStr s => negb (String.eqb s "")
  | PDate _ => true
  | PList l => match l with [] => false | _ => true end
  | PDict d => match d with [] => false | _ => true end
  end.

Definition truthy_str (s : option string) : bool :=
  match s with Some s' => negb (String.eqb s' "") | None => false end.

(** Identity of stored values: the same type and the same content
    (embedded documents field by field, in order).  It is what tells
    [update_one] whether it modified the document. *)
Fixpoint pyval_eqb (a b : pyval) : bool :=
  match a, b with
  | PNone, PNone => true
  | PBool x, PBool y => Bool.eqb x y
  | PInt x, PInt y => Z.eqb x y
  | PFloat x, PFloat y => f_eqb x y
  | PStr x, PStr y => String.eqb x y
  | PDate x, PDate y => N.eqb x y
  | PList x, PList y =>
      (fix go (l1 l2 : list pyval) : bool :=
         match l1, l2 with
         | [], [] => true
         | u :: l1', v :: l2' => (pyval_eqb u v && go l1' l2')%bool
         | _, _ => false
         end) x y
  | PDict x, PDict y =>
      (fix go (l1 l2 : list (string * pyval)) : bool :=
         match l1, l2 with
         | [], [] => true
         | (k1, u) :: l1', (k2, v) :: l2' =>
             (String.eqb k1 k2 && pyval_eqb u v && go l1' l2')%bool
         | _, _ => false
         end) x y
  | _, _ => false
  end.

(** A value as a number: a float, or the float of an integer or of a
    boolean; [None] for a value that is no number. *)
Definition number_of (v : pyval) : option F :=
  match v with
  | PFloat x => Some x
  | PInt z => Some (f_of_Z z)
  | PBool b => Some (f_of_Z (if b then 1 else 0))
  | _ => None
  end.

(** A list of numbers as the float array [np.array] makes of it for
    [np.dot] with a float array; [None] for a list that holds a value
    that is no number. *)
Fixpoint as_numbers (l : list pyval) : option (list F) :=
  match l with
  | [] => Some []
  | v :: l' =>
      match number_of v, as_numbers l' with
      | Some x, Some xs => Some (x :: xs)
      | _, _ => None
      end
  end.

(** Equality of two values as a query compares them: numbers by their
    value whatever their type (and NaN equal to NaN), other values by
    type and content, embedded documents field by field, in order. *)
Fixpoint query_eqb (a b : pyval) : bool :=
  match a, b with
  | PNone, PNone => true
  | PBool x, PBool y => Bool.eqb x y
  | PInt x, PInt y => Z.eqb x y
  | PInt x, PFloat y => f_eqb (f_of_Z x) y
  | PFloat x, PInt y => f_eqb x (f_of_Z y)
  | PFloat x, PFloat y => (f_eqb x y || (negb (f_eqb x x) && negb (f_eqb y y)))%bool
  | PStr x, PStr y => String.eqb x y
  | PDate x, PDate y => N.eqb x y
  | PList x, PList y =>
      (fix go (l1 l2 : list pyval) : bool :=
         match l1, l2 with
         | [], [] => true
         | u :: l1', v :: l2' => (query_eqb u v && go l1' l2')%bool
         | _, _ => false
         end) x y
  | PDict x, PDict y =>
      (fix go (l1 l2 : list (string * pyval)) : bool :=
         match l1, l2 with
         | [], [] => true
         | (k1, u) :: l1', (k2, v) :: l2' =>
             (String.eqb k1 k2 && query_eqb u v && go l1' l2')%bool
         | _, _ => false
         end) x y
  | _, _ => false
  end.

Definition of_floats (xs : list F) : pyval := PList (map PFloat xs).

(** The [_id] of a stored document: a BSON [ObjectId] (written by its
    24 hexadecimal digits) or a plain string. *)
Inductive DocId : Type :=
| ObjectId (hex : string)
| StrId (s : string).

(** [str(_id)] *)
Definition str_id (i : DocId) : string :=
  match i with ObjectId h => h | StrId s => s end.

Definition DocId_eqb (a b : DocId) : bool :=
  match a, b with
  | ObjectId x, ObjectId y => String.eqb x y
  | StrId x, StrId y => String.eqb x y
  | _, _ => false
  end.

(** [ObjectId(s)]: accepts exactly the 24-digit hexadecimal strings
    (in either case) and raises [InvalidId] on anything else. *)
Definition ObjectId_parse (s : string) : Outcome DocId :=
  if (Nat.eqb (String.length s) 24 && PyStr.all_hex s)%bool
  then Ok (ObjectId (PyStr.lower s))
  else Raise ("'" +++ s +++ "' is not a valid ObjectId").

(** A stored document: its [_id] and its other fields. *)
Record Doc : Type := mkDoc {
  doc_id : DocId;
  doc_fields : dict
}.

(** [doc["id"] = str(doc.pop("_id"))] *)
Definition doc_to_dict (d : Doc) : dict :=
  dict_set "id" (PStr (str_id (doc_id d))) (doc_fields d).

(** The value at a dotted path inside a document. *)
Fixpoint path_get (path : list string) (d : dict) : option pyval :=
  match path with
  | [] => None
  | [k] => dict_get k d
  | k :: rest =>
      match dict_get k d with
      | Some (PDict d') => path_get rest d'
      | _ => None
      end
  end.

(** The equality match of a query filter, [{field: value}], for a
    value that is no document (a document as the value of a filter is
    a list of operators when its first key starts with a dollar): the
    field equals the value, or is an array with an element equal to
    it; a document that lacks the field matches the null value, and
    that one only. *)
Definition field_matches (fv : option pyval) (v : pyval) : bool :=
  match fv with
  | None => match v with PNone => true | _ => false end
  | Some x =>
      (query_eqb x v ||
       match x with PList l => existsb (fun y => query_eqb y v) l | _ => false end)%bool
  end.

(** Splitting a field name at its dots. *)
Fixpoint split_dots (acc s : string) : list string :=
  match s with
  | EmptyString => [acc]
  | String c s' =>
      if Ascii.eqb c "."%char then acc :: split_dots "" s'
      else split_dots (acc +++ String c "") s'
  end.

(** Operations on a collection, in its natural (insertion) order. *)
Fixpoint find_first (p : Doc -> bool) (l : list Doc) : option Doc :=
  match l with
  | [] => None
  | d :: l' => if p d then Some d else find_first p l'
  end.

Fixpoint update_first (p : Doc -> bool) (f : Doc -> Doc) (l : list Doc) : list Doc :=
  match l with
  | [] => []
  | d :: l' => if p d then f d :: l' else d :: update_first p f l'
  end.

Fixpoint remove_first (p : Doc -> bool) (l : list Doc) : list Doc :=
  match l with
  | [] => []
  | d :: l' => if p d then l' else d :: remove_first p l'
  end.

Definition has_id (i : DocId) (d : Doc) : bool := DocId_eqb (doc_id d) i.

Definition field_is (k : string) (v : pyval) (d : Doc) : bool :=
  field_matches (dict_get k (doc_fields d)) v.

(** [{"$set": updates}] *)
Definition apply_set (updates : dict) (d : Doc) : Doc :=
  mkDoc (doc_id d)
        (fold_left (fun acc kv => dict_set (fst kv) (snd kv) acc) updates (doc_fields d)).

(** [{"$inc": {k: 1}}] *)
Definition apply_inc (k : string) (d : Doc) : Doc :=
  mkDoc (doc_id d)
        (dict_set k
           (match dict_get k (doc_fields d) with
            | Some (PInt n) => PInt (n + 1)
            | _ => PInt 1
            end)
           (doc_fields d)).

(** Python's [l[:n]]: a negative bound counts from the end. *)
Definition slice_to {A} (n : Z) (l : list A) : list A :=
  if n <? 0 then firstn (Z.to_nat (Z.of_nat (List.length l) + n)) l
  else firstn (Z.to_nat n) l.

(** [l[-n:]] for a positive [n]: the last [n] elements. *)
Definition last_n {A} (n : nat) (l : list A) : list A :=
  skipn (List.length l - n) l.

(** ** The database and the ambient state *)

Record World : Type := mkWorld {
  knowledge_chunks : list Doc;
  memories : list Doc;            (* collection "character_memories" *)
  memory_embeddings : list Doc;   (* collection "memory_embeddings" *)
  characters : list Doc;
  conversations : list Doc;
  clock : N;                      (* datetime.utcnow() *)
  oid_counter : nat;              (* number of ObjectIds generated so far *)
  faults : list (option string)   (* outcome of the coming database calls:
                                     [Some msg] makes the call raise *)
}.

(** What the code obtains from outside the repository. *)
Record Env : Type := mkEnv {
  (** [SentenceTransformer.encode(text).tolist()]; [None] when the
      model failed to load *)
  encoder : option (string -> Outcome (list F));
  (** [llm.chat.completions.create(...).choices[0].message.content],
      from the system and the user message *)
  llm_create : string -> string -> Outcome (option string);
  (** the Atlas [$search]/[knnBeta] stage over the memory collection *)
  atlas_knn : list Doc -> list F -> Z -> Outcome (list Doc);
  (** the server's case-insensitive [$regex]: compiling the pattern
      (an invalid one raises) gives the test of a field value *)
  regex_match : string -> Outcome (pyval -> bool);
  (** the server's reading of a filter document that is not empty:
      the test of a stored document, or the error of a filter the
      server refuses (an unknown operator, say) *)
  query_filter : dict -> Outcome (Doc -> bool);
  (** pydantic's reading, as a [float], of a value that is neither a
      float nor an integer (a numeric string, say): the number, or a
      validation error *)
  lax_float : pyval -> Outcome F;
  (** pydantic's reading, as a [datetime], of a value that is not one
      (a timestamp, an ISO string): the time, or a validation error *)
  lax_datetime : pyval -> Outcome N;
  (** [cosine_similarity] of a vector and a stored value that is not a
      list of numbers, where numpy computes on whatever array
      [np.array] makes of it, or raises *)
  np_cosine : list F -> pyval -> Outcome pyval;
  (** the order in which [list.sort(reverse=True)] leaves keys that
      are not all numbers it orders consistently: the positions of the
      keys in the order of the result, or the [TypeError] of two keys
      it cannot compare *)
  py_sort : list pyval -> Outcome (list nat);
  (** the hexadecimal digits of the n-th generated [ObjectId] *)
  gen_oid : nat -> string;
  (** [str(v)] as an f-string renders a value that is not a string *)
  py_repr : pyval -> string
}.

End Values.

Arguments pyval F : clear implicits.
Arguments dict F : clear implicits.
Arguments Doc F : clear implicits.
Arguments World F : clear implicits.
Arguments Env F : clear implicits.

(** ** The database monad

    A computation runs against the database and either returns a value
    or raises; what it wrote before raising stays written. *)

Section Monad.
Context {F : Type}.

Definition M (A : Type) : Type := World F -> Outcome A * World F.

Definition ret {A} (a : A) : M A := fun w => (Ok a, w).

Definition bind {A B} (m : M A) (k : A -> M B) : M B :=
  fun w =>
    match m w with
    | (Ok a, w') => k a w'
    | (Raise e, w') => (Raise e, w')
    end.

Definition raise {A} (msg : string) : M A := fun w => (Raise msg, w).

(** [try: m  except Exception as e: handler(str(e))] *)
Definition try_catch {A} (m : M A) (handler : string -> M A) : M A :=
  fun w =>
    match m w with
    | (Ok a, w') => (Ok a, w')
    | (Raise e, w') => handler e w'
    end.

Definition lift {A} (o : Outcome A) : M A := fun w => (o, w).

Definition get_world : M (World F) := fun w => (Ok w, w).

Definition put_world (w' : World F) : M unit := fun _ => (Ok tt, w').

(** [datetime.utcnow()] *)
Definition utcnow : M N := fun w => (Ok (clock w), w).

(** One round trip to the database server: it raises when the next
    entry of the fault plan says so. *)
Definition db_call : M unit :=
  fun w =>
    match faults w with
    | [] => (Ok tt, w)
    | o :: rest =>
        let w' := mkWorld (knowledge_chunks w) (memories w) (memory_embeddings w)
                          (characters w) (conversations w) (clock w)
                          (oid_counter w) rest in
        match o with
        | None => (Ok tt, w')
        | Some msg => (Raise msg, w')
        end
    end.

End Monad.

Notation "x <- c1 ;; c2" := (bind c1 (fun x => c2))
  (at level 61, c1 at next level, right associativity).
Notation "c1 ;;; c2" := (bind c1 (fun _ => c2))
  (at level 61, right associativity).

Section Loops.
Context {F : Type}.

(** [for x in l: acc = body(acc, x)] *)
Fixpoint for_each {A B} (body : B -> A -> M (F:=F) B) (l : list A) (acc : B) : M B :=
  match l with
  | [] => ret acc
  | x :: l' => acc' <- body acc x ;; for_each body l' acc'
  end.

(** The same loop for a body that touches no database. *)
Fixpoint for_each_pure {A B} (body : B -> A -> Outcome B) (l : list A) (acc : B) : Outcome B :=
  match l with
  | [] => Ok acc
  | x :: l' =>
      match body acc x with
      | Ok acc' => for_each_pure body l' acc'
      | Raise e => Raise e
      end
  end.

End Loops.

(** ** Collections and the driver calls the services make *)

Inductive Collection : Type :=
| KNOWLEDGE_CHUNKS
| MEMORY_COLLECTION
| MEMORY_EMBEDDINGS_COLLECTION
| CHARACTER_COLLECTION
| CONVERSATIONS.

Section Store.
Context {F : Type} {SF : Scalar F}.
Variable env : Env F.

Definition coll_get (c : Collection) (w : World F) : list (Doc F) :=
  match c with
  | KNOWLEDGE_CHUNKS => knowledge_chunks w
  | MEMORY_COLLECTION => memories w
  | MEMORY_EMBEDDINGS_COLLECTION => memory_embeddings w
  | CHARACTER_COLLECTION => characters w
  | CONVERSATIONS => conversations w
  end.

Definition coll_put (c : Collection) (l : list (Doc F)) (w : World F) : World F :=
  match c with
  | KNOWLEDGE_CHUNKS =>
      mkWorld l (memories w) (memory_embeddings w) (characters w)
              (conversations w) (clock w) (oid_counter w) (faults w)
  | MEMORY_COLLECTION =>
      mkWorld (knowledge_chunks w) l (memory_embeddings w) (characters w)
              (conversations w) (clock w) (oid_counter w) (faults w)
  | MEMORY_EMBEDDINGS_COLLECTION =>
      mkWorld (knowledge_chunks w) (memories w) l (characters w)
              (conversations w) (clock w) (oid_counter w) (faults w)
  | CHARACTER_COLLECTION =>
      mkWorld (knowledge_chunks w) (memories w) (memory_embeddings w) l
              (conversations w) (clock w) (oid_counter w) (faults w)
  | CONVERSATIONS =>
      mkWorld (knowledge_chunks w) (memories w) (memory_embeddings w)
              (characters w) l (clock w) (oid_counter w) (faults w)
  end.

Definition next_oid (w : World F) : World F :=
  mkWorld (knowledge_chunks w) (memories w) (memory_embeddings w) (characters w)
          (conversations w) (clock w) (S (oid_counter w)) (faults w).

(** [collection.insert_one(fields)]: the driver gives the document a
    new [ObjectId]. *)
Definition insert_one (c : Collection) (fields : dict F) : M DocId :=
  db_call ;;;
  w <- get_world ;;
  let oid := ObjectId (gen_oid env (oid_counter w)) in
  put_world (next_oid (coll_put c (coll_get c w ++ [mkDoc oid fields]) w)) ;;;
  ret oid.

(** [collection.find_one(filter)] *)
Definition find_one (c : Collection) (p : Doc F -> bool) : M (option (Doc F)) :=
  db_call ;;;
  w <- get_world ;;
  ret (find_first p (coll_get c w)).

(** [collection.find(filter)], read to its end *)
Definition find_all (c : Collection) (p : Doc F -> bool) : M (list (Doc F)) :=
  db_call ;;;
  w <- get_world ;;
  ret (filter p (coll_get c w)).

(** The test a filter document the caller supplies stands for: the
    empty document selects every document, any other is read by the
    server, which raises on one it refuses. *)
Definition read_filter (filter_document : dict F) : Outcome (Doc F -> bool) :=
  match filter_document with
  | [] => Ok (fun _ => true)
  | _ :: _ => query_filter env filter_document
  end.

(** [collection.find(filter_document)], read to its end *)
Definition find_query (c : Collection) (filter_document : dict F) : M (list (Doc F)) :=
  db_call ;;;
  selects <- lift (read_filter filter_document) ;;
  w <- get_world ;;
  ret (filter selects (coll_get c w)).

Definition doc_eqb (a b : Doc F) : bool :=
  (DocId_eqb (doc_id a) (doc_id b)
   && pyval_eqb (PDict (doc_fields a)) (PDict (doc_fields b)))%bool.

(** [collection.update_one(filter, update)]; the result is
    [modified_count > 0]. *)
Definition update_one (c : Collection) (p : Doc F -> bool) (f : Doc F -> Doc F) : M bool :=
  db_call ;;;
  w <- get_world ;;
  put_world (coll_put c (update_first p f (coll_get c w)) w) ;;;
  ret (match find_first p (coll_get c w) with
       | Some d => negb (doc_eqb d (f d))
       | None => false
       end).

(** [collection.delete_one(filter)]; the result is [deleted_count > 0]. *)
Definition delete_one (c : Collection) (p : Doc F -> bool) : M bool :=
  db_call ;;;
  w <- get_world ;;
  put_world (coll_put c (remove_first p (coll_get c w)) w) ;;;
  ret (match find_first p (coll_get c w) with Some _ => true | None => false end).

(** [collection.count_documents({})] *)
Definition count_documents (c : Collection) : M nat :=
  db_call ;;;
  w <- get_world ;;
  ret (List.length (coll_get c w)).

(** [cursor.limit(n)]: zero means no limit, a negative bound is taken
    by its absolute value. *)
Definition cursor_limit (n : Z) (l : list (Doc F)) : list (Doc F) :=
  if n =? 0 then l else firstn (Z.to_nat (Z.abs n)) l.

(** [str(v)] inside an f-string *)
Definition py_str (v : pyval F) : string :=
  match v with PStr s => s | _ => py_repr env v end.

(** [l.sort(key=..., reverse=True)]: a stable sort, largest key
    first; [lt a b] says that the key of [a] is below the key of [b]. *)
Fixpoint insert_desc {A} (lt : A -> A -> bool) (x : A) (l : list A) : list A :=
  match l with
  | [] => [x]
  | y :: l' => if lt x y then y :: insert_desc lt x l' else x :: y :: l'
  end.

Definition sort_desc {A} (lt : A -> A -> bool) (l : list A) : list A :=
  fold_right (insert_desc lt) [] l.

(** A sort key that [list.sort] compares as a number: a float, a
    boolean, or an integer that is a float exactly (so that comparing
    the floats compares the integers). *)
Definition numeric_key (v : pyval F) : bool :=
  match v with
  | PFloat _ | PBool _ => true
  | PInt z => Z.abs z <=? 2 ^ 53
  | _ => false
  end.

(** A numeric key that is equal to itself: any but NaN. *)
Definition orderly (v : pyval F) : bool :=
  (numeric_key v
   && match number_of v with Some x => f_eqb x x | None => false end)%bool.

(** [a < b] for two numeric keys *)
Definition key_lt (a b : pyval F) : bool :=
  match number_of a, number_of b with
  | Some x, Some y => f_ltb x y
  | _, _ => false
  end.

(** No key is below the key that follows it. *)
Fixpoint no_rise (keys : list (pyval F)) : bool :=
  match keys with
  | a :: ((b :: _) as rest) => (negb (key_lt a b) && no_rise rest)%bool
  | _ => true
  end.

(** The elements of [l] at the given positions, when these are the
    positions of [l], each once; [l] as it is otherwise. *)
Definition rearrange {A} (positions : list nat) (l : list A) : list A :=
  if (Nat.eqb (List.length positions) (List.length l)
      && forallb (fun i => existsb (Nat.eqb i) positions) (seq 0 (List.length l)))%bool
  then flat_map (fun i => match nth_error l i with Some a => [a] | None => [] end)
                positions
  else l.

(** [l.sort(key=key, reverse=True)].  A list of fewer than two
    elements is never compared.  Keys that are all orderly are
    sorted, largest first, equal keys in their former order.  Numeric
    keys with a NaN among them (which is neither below nor above any
    number) are left as they are when none is below the next: the
    sort, which first looks for a run already in order, finds the
    whole list to be one.  Any other keys (a string, a dictionary, a
    NaN amid keys out of order) are left in the order the sort of
    Python arrives at, or raise. *)
Definition sort_by_key {A} (key : A -> pyval F) (l : list A) : Outcome (list A) :=
  if Nat.ltb (List.length l) 2 then Ok l
  else if forallb (fun a => orderly (key a)) l
  then Ok (sort_desc (fun a b => key_lt (key a) (key b)) l)
  else if (forallb (fun a => numeric_key (key a)) l && no_rise (map key l))%bool
  then Ok l
  else positions <~ py_sort env (map key l) ;; Ok (rearrange positions l).

End Store.

(** ** [app/services/embedding.py] *)

Section EmbeddingService.
Context {F : Type} {SF : Scalar F}.
Variable env : Env F.

(** [[0.0] * 384] *)
Definition zero_vector : list F := repeat f_zero 384.

(** [EmbeddingService.get_embedding] *)
Definition get_embedding (text : string) : M (F:=F) (list F) :=
  try_catch
    (match encoder env with
     | None => raise "Embedding model not loaded"
     | Some encode => lift (encode text)
     end)
    (fun _ => ret zero_vector).

(** [np.dot] of two vectors of one length *)
Definition dot (v1 v2 : list F) : F := f_dot v1 v2.

(** [np.linalg.norm], the square root of [x.dot(x)] *)
Definition norm (v : list F) : F := f_sqrt (dot v v).

(** [EmbeddingService.cosine_similarity]; [np.dot] raises on vectors
    of different lengths. *)
Definition cosine_similarity (vec1 vec2 : list F) : Outcome F :=
  if Nat.eqb (List.length vec1) (List.length vec2) then
    let dot_product := dot vec1 vec2 in
    let norm_vec1 := norm vec1 in
    let norm_vec2 := norm vec2 in
    if (f_eqb norm_vec1 f_zero || f_eqb norm_vec2 f_zero)%bool then Ok f_zero
    else Ok (f_div dot_product (f_mul norm_vec1 norm_vec2))
  else Raise "shapes not aligned".

(** [cosine_similarity_score] of [app/services/embeddings.py] *)
Definition cosine_similarity_score (v1 v2 : list F) : Outcome F :=
  if Nat.eqb (List.length v1) (List.length v2) then
    let dot_product := dot v1 v2 in
    let norm_v1 := norm v1 in
    let norm_v2 := norm v2 in
    if (f_eqb norm_v1 f_zero || f_eqb norm_v2 f_zero)%bool then Ok f_zero
    else Ok (f_div dot_product (f_mul norm_v1 norm_v2))
  else Raise "shapes not aligned".

(** The same call on a stored value: on a list of numbers it is the
    computation above on their floats; on anything else it is what
    numpy makes of the value. *)
Definition cosine_similarity_value (vec1 : list F) (v : pyval F) : Outcome (pyval F) :=
  match v with
  | PList l =>
      match as_numbers l with
      | Some vec2 => similarity <~ cosine_similarity vec1 vec2 ;; Ok (PFloat similarity)
      | None => np_cosine env vec1 v
      end
  | _ => np_cosine env vec1 v
  end.

End EmbeddingService.

(** ** [app/schemas/knowledge.py] and [app/services/knowledge.py] *)

Section KnowledgeService.
Context {F : Type} {SF : Scalar F}.
Variable env : Env F.

Record KnowledgeChunk : Type := mkChunk {
  chunk_id : string;
  created_at : N;
  updated_at : N;
  source : string;
  content : string;
  vector_embedding : option (list F);
  metadata : dict F
}.

Record KnowledgeQuery : Type := mkQuery {
  query : string;
  top_k : Z;
  filter_metadata : option (dict F)
}.

(** The validation of a [float] field: a float is itself, an integer
    becomes its float, any other value is read by pydantic's lax
    rules. *)
Definition validate_float (v : pyval F) : Outcome F :=
  match v with
  | PFloat x => Ok x
  | PInt z => Ok (f_of_Z z)
  | _ => lax_float env v
  end.

(** The validation of a [datetime] field. *)
Definition validate_datetime (v : pyval F) : Outcome N :=
  match v with
  | PDate t => Ok t
  | _ => lax_datetime env v
  end.

(** The constructor [KnowledgeChunk], called on the fields of a stored
    document: their validation.
    [id], [source] and [content] must be strings ([source] and
    [content] are required), the embedding is absent, null or a list
    of values valid as floats, the metadata absent or a dictionary,
    [created_at] absent or valid as a datetime; [updated_at] is set
    to the time of the call by the validator of [BaseSchema]; fields
    the schema does not declare are ignored. *)
Definition KnowledgeChunk_of (now : N) (d : dict F) : Outcome KnowledgeChunk :=
  match dict_get "id" d, dict_get "source" d, dict_get "content" d with
  | Some (PStr i), Some (PStr s), Some (PStr c) =>
      match
        (match dict_get "vector_embedding" d with
         | None | Some PNone => Ok None
         | Some (PList l) =>
             match map_outcome validate_float l with
             | Ok v => Ok (Some v)
             | Raise _ => Raise "validation error for KnowledgeChunk"
             end
         | Some _ => Raise "validation error for KnowledgeChunk"
         end),
        (match dict_get "metadata" d with
         | None => Ok []
         | Some (PDict m) => Ok m
         | Some _ => Raise "validation error for KnowledgeChunk"
         end),
        (match dict_get "created_at" d with
         | None => Ok now
         | Some v =>
             match validate_datetime v with
             | Ok t => Ok t
             | Raise _ => Raise "validation error for KnowledgeChunk"
             end
         end)
      with
      | Ok ve, Ok m, Ok t => Ok (mkChunk i t now s c ve m)
      | _, _, _ => Raise "validation error for KnowledgeChunk"
      end
  | _, _, _ => Raise "validation error for KnowledgeChunk"
  end.

(** [chunk.dict()] *)
Definition chunk_dict (c : KnowledgeChunk) : dict F :=
  [ ("id", PStr (chunk_id c));
    ("created_at", PDate (created_at c));
    ("updated_at", PDate (updated_at c));
    ("source", PStr (source c));
    ("content", PStr (content c));
    ("vector_embedding",
      match vector_embedding c with Some v => of_floats v | None => PNone end);
    ("metadata", PDict (metadata c)) ].

(** The body of the scoring loop of [retrieve_similar]. *)
Definition score_chunk (query_embedding : list F) (c : KnowledgeChunk)
  : Outcome KnowledgeChunk :=
  match vector_embedding c with
  | Some (x :: v) =>
      match cosine_similarity query_embedding (x :: v) with
      | Ok similarity =>
          Ok (mkChunk (chunk_id c) (created_at c) (updated_at c) (source c)
                      (content c) (vector_embedding c)
                      (dict_set "similarity_score" (PFloat similarity) (metadata c)))
      | Raise e => Raise e
      end
  | _ => Ok c
  end.

(** [c.metadata.get("similarity_score", 0)] *)
Definition similarity_key (c : KnowledgeChunk) : pyval F :=
  dict_get_default "similarity_score" (PInt 0) (metadata c).

(** [chunks.sort(key=lambda c: c.metadata.get("similarity_score", 0),
    reverse=True)] *)
Definition sort_chunks (chunks : list KnowledgeChunk) : Outcome (list KnowledgeChunk) :=
  sort_by_key env similarity_key chunks.

(** The filter document of [retrieve_similar],
    [{f"metadata.{key}": value for key, value in ...}]: the entries
    of a non-empty [filter_metadata], each under its ["metadata."]
    path (a key that occurs twice keeps its first place and its last
    value, as in any dictionary). *)
Definition filter_query_of (q : KnowledgeQuery) : dict F :=
  match filter_metadata q with
  | Some fm =>
      fold_left (fun filter_query kv =>
                   dict_set ("metadata." +++ fst kv) (snd kv) filter_query)
                fm []
  | None => []
  end.

(** The three loops of [retrieve_similar] over the fetched documents:
    conversion to chunks, scoring, sorting. *)
Definition rank_chunks (now : N) (query_embedding : list F) (results : list (Doc F))
  : Outcome (list KnowledgeChunk) :=
  chunks <~ map_outcome (fun r => KnowledgeChunk_of now (doc_to_dict r)) results ;;
  chunks <~ map_outcome (score_chunk query_embedding) chunks ;;
  sort_chunks chunks.

(** [KnowledgeService.retrieve_similar] *)
Definition retrieve_similar (q : KnowledgeQuery) : M (F:=F) (list KnowledgeChunk) :=
  query_embedding <- get_embedding env (query q) ;;
  _ <- count_documents KNOWLEDGE_CHUNKS ;;
  try_catch
    (matching <- find_query env KNOWLEDGE_CHUNKS (filter_query_of q) ;;
     let results := firstn 100 matching in
     now <- utcnow ;;
     chunks <- lift (rank_chunks now query_embedding results) ;;
     ret (slice_to (top_k q) chunks))
    (fun _ => ret []).

End KnowledgeService.

Arguments KnowledgeChunk F : clear implicits.
Arguments KnowledgeQuery F : clear implicits.

(** ** [app/memory/service.py] *)

Section MemoryService.
Context {F : Type} {SF : Scalar F}.
Variable env : Env F.

(** [MemoryService.create_embedding] *)
Definition create_embedding (text : string) : M (F:=F) (list F) :=
  try_catch (get_embedding env text) (fun e => raise e).

(** [MemoryService.create_memory] *)
Definition create_memory (character_id content source : string) (importance : Z)
           (metadata : option (dict F)) : M (F:=F) string :=
  now <- utcnow ;;
  let memory : dict F :=
    [ ("character_id", PStr character_id);
      ("content", PStr content);
      ("source", PStr source);
      ("importance", PInt importance);
      ("metadata", PDict (match metadata with Some m => m | None => [] end));
      ("created_at", PDate now);
      ("last_accessed", PDate now);
      ("access_count", PInt 0) ] in
  inserted_id <- insert_one env MEMORY_COLLECTION memory ;;
  let memory_id := str_id inserted_id in
  embedding <- create_embedding content ;;
  let embedding_doc : dict F :=
    [ ("memory_id", PStr memory_id);
      ("character_id", PStr character_id);
      ("embedding", of_floats embedding);
      ("created_at", PDate now) ] in
  _ <- insert_one env MEMORY_EMBEDDINGS_COLLECTION embedding_doc ;;
  ret memory_id.

(** The update of the access statistics:
    [{"$set": {"last_accessed": now}, "$inc": {"access_count": 1}}] *)
Definition touch (now : N) (d : Doc F) : Doc F :=
  apply_inc "access_count" (apply_set [("last_accessed", PDate now)] d).

(** [MemoryService.get_memory] *)
Definition get_memory (memory_id : pyval F) : M (F:=F) (option (dict F)) :=
  try_catch
    (result <-
       try_catch
         (object_id <- lift (match memory_id with
                             | PStr s => ObjectId_parse s
                             | _ => Raise "id must be an instance of str"
                             end) ;;
          find_one MEMORY_COLLECTION (has_id object_id))
         (fun _ =>
            find_one MEMORY_COLLECTION
                     (fun d => match memory_id with
                               | PStr s => has_id (StrId s) d
                               | _ => false
                               end)) ;;
     match result with
     | Some d =>
         now <- utcnow ;;
         _ <- update_one MEMORY_COLLECTION (has_id (doc_id d)) (touch now) ;;
         ret (Some (doc_to_dict d))
     | None => ret None
     end)
    (fun _ => ret None).

(** [result["metadata"]["similarity_score"] = score], after
    [if "metadata" not in result: result["metadata"] = {}] *)
Definition set_similarity (score : pyval F) (d : dict F) : Outcome (dict F) :=
  let d1 := if dict_has "metadata" d then d else dict_set "metadata" (PDict []) d in
  match dict_get "metadata" d1 with
  | Some (PDict m) =>
      Ok (dict_set "metadata" (PDict (dict_set "similarity_score" score m)) d1)
  | _ => Raise "object does not support item assignment"
  end.

(** The order of the database on stored values, for [cursor.sort]:
    null, then numbers, strings, documents, arrays, booleans, dates;
    two integers are compared as integers, and NaN is below every
    other number. *)
Definition bson_rank (v : option (pyval F)) : Z :=
  match v with
  | None | Some PNone => 1
  | Some (PInt _) | Some (PFloat _) => 2
  | Some (PStr _) => 3
  | Some (PDict _) => 4
  | Some (PList _) => 5
  | Some (PBool _) => 8
  | Some (PDate _) => 9
  end.

Definition bson_lt (a b : option (pyval F)) : bool :=
  if bson_rank a <? bson_rank b then true
  else if bson_rank a =? bson_rank b then
    match a, b with
    | Some (PStr x), Some (PStr y) => String.ltb x y
    | Some (PDate x), Some (PDate y) => N.ltb x y
    | Some (PBool x), Some (PBool y) => (negb x && y)%bool
    | Some (PInt x), Some (PInt y) => x <? y
    | Some x, Some y =>
        match number_of x, number_of y with
        | Some n, Some m =>
            if f_eqb n n then (f_eqb m m && f_ltb n m)%bool else f_eqb m m
        | _, _ => false
        end
    | _, _ => false
    end
  else false.

(** [MemoryService.get_character_memories]; [to_list] refuses a
    negative length before the query is sent. *)
Definition get_character_memories (character_id : string) (limit : Z)
           (sort_by : string) (source : option string) : M (F:=F) (list (dict F)) :=
  let matches (d : Doc F) : bool :=
    (field_is "character_id" (PStr character_id) d
     && match source with
        | Some s => if String.eqb s "" then true else field_is "source" (PStr s) d
        | None => true
        end)%bool in
  let sort_field :=
    if String.eqb sort_by "created_at" then "created_at"
    else if String.eqb sort_by "last_accessed" then "last_accessed"
    else "importance" in
  if limit <? 0 then raise "length must be non-negative"
  else
    found <- find_all MEMORY_COLLECTION matches ;;
    let sorted :=
      sort_desc (fun a b => bson_lt (dict_get sort_field (doc_fields a))
                                    (dict_get sort_field (doc_fields b))) found in
    let results := firstn (Z.to_nat limit) (cursor_limit limit sorted) in
    ret (map (@doc_to_dict F) results).

(** The native rung: the [$search], [$match], [$limit] pipeline and
    what the code does with a non-empty result.  [None] stands for an
    empty result. *)
Definition vector_index_search (character_id : string) (query_embedding : list F)
           (limit : Z) : M (F:=F) (option (list (dict F))) :=
  db_call ;;;
  w <- get_world ;;
  hits <- lift (atlas_knn env (memories w) query_embedding limit) ;;
  (if limit <=? 0 then raise "the limit must be positive" else ret tt) ;;;
  let results :=
    firstn (Z.to_nat limit) (filter (field_is "character_id" (PStr character_id)) hits) in
  match results with
  | [] => ret None
  | _ :: _ =>
      processed <-
        lift (map_outcome
                (fun r : Doc F =>
                   let result := doc_to_dict r in
                   match dict_get "vector_embedding" result with
                   | Some v =>
                       match cosine_similarity_value env query_embedding v with
                       | Ok similarity => set_similarity similarity result
                       | Raise e => Raise e
                       end
                   | None => Ok result
                   end)
                results) ;;
      now <- utcnow ;;
      for_each
        (fun (_ : unit) (memory : dict F) =>
           _ <- update_one MEMORY_COLLECTION
                  (fun d => match dict_get "id" memory with
                            | Some (PStr s) => has_id (StrId s) d
                            | _ => false
                            end)
                  (touch now) ;;
           ret tt)
        processed tt ;;;
      ret (Some processed)
  end.

(** The scoring loop of the manual scan over the embedding records. *)
Definition score_embeddings (query_embedding : list F) (docs : list (Doc F))
  : Outcome (list (pyval F * pyval F)) :=
  for_each_pure
    (fun (embedding_results : list (pyval F * pyval F)) (doc : Doc F) =>
       match dict_get "embedding" (doc_fields doc) with
       | Some (PList l) =>
           match cosine_similarity_value env query_embedding (PList l) with
           | Ok similarity =>
               match dict_get "memory_id" (doc_fields doc) with
               | Some mid => Ok (embedding_results ++ [(mid, similarity)])
               | None => Raise "'memory_id'"
               end
           | Raise e => Raise e
           end
       | _ => Ok embedding_results
       end)
    docs [].

(** [embedding_results.sort(key=lambda x: x["score"], reverse=True)]
    followed by [embedding_results[:limit]] *)
Definition rank_embeddings (limit : Z) (embedding_results : list (pyval F * pyval F))
  : Outcome (list (pyval F * pyval F)) :=
  sorted <~ sort_by_key env snd embedding_results ;;
  Ok (slice_to limit sorted).

(** The body of the loop that loads the memory of each ranked record:
    a memory that is found gets the score in its metadata and joins
    the list. *)
Definition append_scored_memory (memories : list (dict F)) (result : pyval F * pyval F)
  : M (F:=F) (list (dict F)) :=
  memory <- get_memory (fst result) ;;
  match memory with
  | Some (kv :: m) =>
      m' <- lift (set_similarity (snd result) (kv :: m)) ;;
      ret (memories ++ [m'])
  | _ => ret memories
  end.

(** The manual scan. *)
Definition manual_search (character_id : string) (query_embedding : list F)
           (limit : Z) : M (F:=F) (list (dict F)) :=
  docs <- find_all MEMORY_EMBEDDINGS_COLLECTION
                   (field_is "character_id" (PStr character_id)) ;;
  embedding_results <- lift (score_embeddings query_embedding docs) ;;
  embedding_results <- lift (rank_embeddings limit embedding_results) ;;
  for_each append_scored_memory embedding_results [].

(** The text rung: the regex query, capped by [.limit(limit)]. *)
Definition text_search (character_id query : string) (limit : Z)
  : M (F:=F) (list (dict F)) :=
  db_call ;;;
  query_regex <- lift (regex_match env query) ;;
  w <- get_world ;;
  let field_hit (path : list string) (d : Doc F) : bool :=
    match path_get path (doc_fields d) with
    | Some v => query_regex v
    | None => false
    end in
  let matches (d : Doc F) : bool :=
    (field_is "character_id" (PStr character_id) d
     && (field_hit ["content"] d || field_hit ["metadata"; "topic"] d
         || field_hit ["metadata"; "category"] d))%bool in
  ret (map (@doc_to_dict F) (cursor_limit limit (filter matches (memories w)))).

(** [MemoryService.search_memories] *)
Definition search_memories (character_id query : string) (limit : Z)
  : M (F:=F) (list (dict F)) :=
  try_catch
    (query_embedding <- create_embedding query ;;
     native <- try_catch (vector_index_search character_id query_embedding limit)
                         (fun _ => ret None) ;;
     match native with
     | Some results => ret results
     | None => manual_search character_id query_embedding limit
     end)
    (fun _ =>
       try_catch
         (results <- text_search character_id query limit ;;
          match results with
          | _ :: _ => ret results
          | [] => get_character_memories character_id limit "importance" None
          end)
         (fun _ => get_character_memories character_id limit "importance" None)).

(** The updates [update_memory] applies: all but the restricted
    fields. *)
Definition safe_updates_of (updates : dict F) : dict F :=
  filter (fun kv => negb (String.eqb (fst kv) "_id"
                          || String.eqb (fst kv) "character_id"
                          || String.eqb (fst kv) "created_at")) updates.

(** [MemoryService.update_memory]; a new content that is not a string
    is one the encoder cannot embed. *)
Definition update_memory (memory_id : string) (updates : dict F) : M (F:=F) bool :=
  let safe_updates := safe_updates_of updates in
  modified <- update_one MEMORY_COLLECTION (has_id (StrId memory_id))
                         (apply_set safe_updates) ;;
  match dict_get "content" safe_updates with
  | Some new_content =>
      memory <- find_one MEMORY_COLLECTION (has_id (StrId memory_id)) ;;
      match memory with
      | Some _ =>
          new_embedding <- match new_content with
                           | PStr text => create_embedding text
                           | _ => ret zero_vector
                           end ;;
          _ <- update_one MEMORY_EMBEDDINGS_COLLECTION
                 (field_is "memory_id" (PStr memory_id))
                 (apply_set [("embedding", of_floats new_embedding)]) ;;
          ret modified
      | None => ret modified
      end
  | None => ret modified
  end.

(** [MemoryService.delete_memory] *)
Definition delete_memory (memory_id : string) : M (F:=F) bool :=
  deleted <- delete_one MEMORY_COLLECTION (has_id (StrId memory_id)) ;;
  (if deleted
   then _ <- delete_one MEMORY_EMBEDDINGS_COLLECTION
               (field_is "memory_id" (PStr memory_id)) ;;
        ret tt
   else ret tt) ;;;
  ret deleted.

End MemoryService.

(** ** [app/core/langgraph_orchestration.py] *)

Definition nl : string := String (ascii_of_nat 10) EmptyString.
Definition dquote : string := String (ascii_of_nat 34) EmptyString.

Section Orchestration.
Context {F : Type} {SF : Scalar F}.
Variable env : Env F.

(** [GraphState] *)
Record GraphState : Type := mkState {
  (* input fields *)
  user_input : string;
  character_id : string;
  conversation_id : option string;
  prompt_version_id : option string;
  context : dict F;
  (* working fields *)
  knowledge_context : list (dict F);
  character_memories : list (dict F);
  character_info : dict F;
  conversation_history : pyval F;
  assembled_context : string;
  (* output fields *)
  response : option string;
  updated_memory : dict F;
  completed : bool;
  error : option string
}.

Inductive NodeNames : Type :=
| KNOWLEDGE_RETRIEVAL
| MEMORY_RETRIEVAL
| CONTEXT_ASSEMBLY
| DIALOGUE_GENERATION
| MEMORY_INTEGRATION.

(** Field assignments, [state[k] = v]. *)
Definition set_knowledge (kc : list (dict F)) (ci : dict F) (s : GraphState) :=
  mkState (user_input s) (character_id s) (conversation_id s) (prompt_version_id s)
          (context s) kc (character_memories s) ci (conversation_history s)
          (assembled_context s) (response s) (updated_memory s) (completed s) (error s).

Definition set_character_info (ci : dict F) (s : GraphState) :=
  set_knowledge (knowledge_context s) ci s.

Definition set_conversation_history (h : pyval F) (s : GraphState) :=
  mkState (user_input s) (character_id s) (conversation_id s) (prompt_version_id s)
          (context s) (knowledge_context s) (character_memories s) (character_info s) h
          (assembled_context s) (response s) (updated_memory s) (completed s) (error s).

Definition set_character_memories (m : list (dict F)) (s : GraphState) :=
  mkState (user_input s) (character_id s) (conversation_id s) (prompt_version_id s)
          (context s) (knowledge_context s) m (character_info s) (conversation_history s)
          (assembled_context s) (response s) (updated_memory s) (completed s) (error s).

Definition set_assembled_context (a : string) (s : GraphState) :=
  mkState (user_input s) (character_id s) (conversation_id s) (prompt_version_id s)
          (context s) (knowledge_context s) (character_memories s) (character_info s)
          (conversation_history s) a (response s) (updated_memory s) (completed s) (error s).

Definition set_response (r : option string) (s : GraphState) :=
  mkState (user_input s) (character_id s) (conversation_id s) (prompt_version_id s)
          (context s) (knowledge_context s) (character_memories s) (character_info s)
          (conversation_history s) (assembled_context s) r (updated_memory s)
          (completed s) (error s).

Definition set_error (e : string) (s : GraphState) :=
  mkState (user_input s) (character_id s) (conversation_id s) (prompt_version_id s)
          (context s) (knowledge_context s) (character_memories s) (character_info s)
          (conversation_history s) (assembled_context s) (response s) (updated_memory s)
          (completed s) (Some e).

(** [state["updated_memory"] = m; state["completed"] = True] *)
Definition set_completed (m : dict F) (s : GraphState) :=
  mkState (user_input s) (character_id s) (conversation_id s) (prompt_version_id s)
          (context s) (knowledge_context s) (character_memories s) (character_info s)
          (conversation_history s) (assembled_context s) (response s) m true (error s).

(** The placeholder profile of the exception handlers. *)
Definition fallback_character_info (character_id : string) : dict F :=
  [ ("name", PStr character_id);
    ("description", PStr "A fictional character");
    ("personality", PStr "Friendly and helpful") ].

(** The display name derived from an id,
    [character_id.replace('character_', '').replace('_', ' ').title()] *)
Definition character_name_of_id (character_id : string) : string :=
  PyStr.title (PyStr.replace (PyStr.replace character_id "character_" "") "_" " ").

(** The knowledge query [knowledge_retrieval] builds. *)
Definition knowledge_query_of (st : GraphState) (info : dict F) : KnowledgeQuery F :=
  let query_text :=
    user_input st +++ " Context: Character is "
      +++ py_str env (dict_get_default "name" (PStr "") info) +++ "." in
  let filter_metadata :=
    if PyStr.startswith (character_id st) "character_"
    then [("character", PStr (character_name_of_id (character_id st)))]
    else [("character", dict_get_default "name" (PStr "") info)] in
  mkQuery query_text 5 (Some filter_metadata).

(** The conversation lookup with the projection
    [{"messages": {"$slice": -5}}]. *)
Definition recent_messages (conv_id : string) : M (F:=F) (pyval F) :=
  try_catch
    (result <- find_one CONVERSATIONS (has_id (StrId conv_id)) ;;
     match result with
     | Some d =>
         match dict_get "messages" (doc_fields d) with
         | Some (PList l) => ret (PList (last_n 5 l))
         | Some v => ret v
         | None => ret (PList [])
         end
     | None => ret (PList [])
     end)
    (fun _ => ret (PList [])).

(** [knowledge_retrieval] *)
Definition knowledge_retrieval (state : GraphState) : M (F:=F) GraphState :=
  let failed (e : string) : M GraphState :=
    ret (set_error ("Knowledge retrieval error: " +++ e)
           (set_conversation_history (PList [])
              (set_knowledge [] (fallback_character_info (character_id state)) state))) in
  try_catch
    (try_catch
       (character_result <-
          find_one CHARACTER_COLLECTION (has_id (StrId (character_id state))) ;;
        let character_info : dict F :=
          match character_result with
          | Some c =>
              let r := doc_fields c in
              [ ("name", dict_get_default "name" (PStr (character_id state)) r);
                ("description", dict_get_default "description" (PStr "") r);
                ("personality", dict_get_default "personality" (PStr "") r);
                ("knowledge_base", dict_get_default "knowledge_base" (PStr "") r) ]
          | None =>
              [ ("name", PStr (character_id state));
                ("description", PStr "A fictional character");
                ("personality", PStr "Friendly and helpful");
                ("knowledge_base", PStr "") ]
          end in
        knowledge_chunks <- retrieve_similar env (knowledge_query_of state character_info) ;;
        let state1 := set_knowledge (map (@chunk_dict F) knowledge_chunks) character_info state in
        conversation_history <-
          (if truthy_str (conversation_id state)
           then recent_messages (match conversation_id state with
                                 | Some c => c | None => "" end)
           else ret (PList [])) ;;
        ret (set_conversation_history conversation_history state1))
       failed)
    failed.

(** [memory_retrieval] *)
Definition memory_retrieval (state : GraphState) : M (F:=F) GraphState :=
  let failed (e : string) : M GraphState :=
    ret (set_character_memories []
           (set_error ("Memory retrieval error: " +++ e) state)) in
  try_catch
    (try_catch
       (found <- search_memories env (character_id state) (user_input state) 3 ;;
        character_memories <-
          match found with
          | [] => get_character_memories (character_id state) 3 "importance" None
          | _ :: _ => ret found
          end ;;
        ret (set_character_memories character_memories state))
       failed)
    failed.

(** The sentinel for an empty knowledge list. *)
Definition NO_KNOWLEDGE : string :=
  "NO KNOWLEDGE CHUNKS AVAILABLE. Inform the user you don't have specific information about their query in your knowledge base.".

(** [v.get(k, default)]; only a dictionary has the method. *)
Definition get_of (v : pyval F) (k : string) (default : pyval F) : Outcome (pyval F) :=
  match v with
  | PDict d => Ok (dict_get_default k default d)
  | _ => Raise "object has no attribute 'get'"
  end.

(** [for x in v] *)
Definition iterate (v : pyval F) : Outcome (list (pyval F)) :=
  match v with
  | PList l => Ok l
  | PStr s => Ok (map (fun c => PStr (String c EmptyString)) (list_ascii_of_string s))
  | PDict d => Ok (map (fun kv => PStr (fst kv)) d)
  | _ => Raise "object is not iterable"
  end.

(** One round of the loop over [enumerate(state["knowledge_context"])]. *)
Definition render_chunk (i : nat) (chunk : dict F) : Outcome string :=
  let content := dict_get_default "content" (PStr "No content available") chunk in
  let meta := dict_get_default "metadata" (PDict []) chunk in
  source <~ get_of meta "source" (PStr "Unknown source") ;;
  score <~ get_of meta "similarity_score" (PStr "N/A") ;;
  Ok ("CHUNK " +++ string_of_nat (i + 1) +++ ": " +++ py_str env content +++ nl
      +++ "Source: " +++ py_str env source +++ nl
      +++ "Relevance Score: " +++ py_str env score +++ nl +++ nl).

Definition render_knowledge (knowledge : list (dict F)) : Outcome string :=
  match knowledge with
  | [] => Ok NO_KNOWLEDGE
  | _ :: _ =>
      r <~ for_each_pure
             (fun (acc : string * nat) chunk =>
                t <~ render_chunk (snd acc) chunk ;;
                Ok (fst acc +++ t, S (snd acc)))
             knowledge
             ("RELEVANT KNOWLEDGE CHUNKS (USE ONLY THIS INFORMATION):" +++ nl +++ nl, O) ;;
      Ok (fst r)
  end.

Definition render_memories (mems : list (dict F)) : string :=
  match mems with
  | [] => ""
  | _ :: _ =>
      fold_left
        (fun acc memory =>
           acc +++ "- "
               +++ py_str env (dict_get_default "content" (PStr "No memory content") memory)
               +++ nl)
        mems ("Character memories:" +++ nl)
  end.

Definition render_character (info : dict F) : string :=
  ("Character: " +++ py_str env (dict_get_default "name" (PStr "Character") info) +++ nl)
  +++ ("Description: "
       +++ py_str env (dict_get_default "description" (PStr "No description") info) +++ nl)
  +++ ("Personality: "
       +++ py_str env (dict_get_default "personality" (PStr "No personality defined") info)
       +++ nl).

Definition render_history (history : pyval F) : Outcome string :=
  if truthy history then
    msgs <~ iterate history ;;
    for_each_pure
      (fun acc msg =>
         role <~ get_of msg "role" (PStr "unknown") ;;
         content <~ get_of msg "content" (PStr "") ;;
         match role with
         | PStr r => Ok (acc +++ PyStr.capitalize r +++ ": " +++ py_str env content +++ nl)
         | _ => Raise "object has no attribute 'capitalize'"
         end)
      msgs ("Previous conversation:" +++ nl)
  else Ok "".

(** The text the [try] block of [context_assembly] builds. *)
Definition render_context (state : GraphState) : Outcome string :=
  knowledge_text <~ render_knowledge (knowledge_context state) ;;
  let memories_text := render_memories (character_memories state) in
  let character_text := render_character (character_info state) in
  history_text <~ render_history (conversation_history state) ;;
  Ok (nl +++ "CHARACTER INFORMATION:" +++ nl +++ character_text +++ nl +++ nl
      +++ "KNOWLEDGE CONTEXT:" +++ nl +++ knowledge_text +++ nl +++ nl
      +++ memories_text +++ nl +++ nl
      +++ history_text +++ nl +++ nl
      +++ "USER INPUT:" +++ nl +++ user_input state +++ nl).

(** [if ... not state["character_info"]: state["character_info"] = {...}];
    the same guard on the knowledge list assigns the empty list to an
    empty list. *)
Definition ensure_character_info (state : GraphState) : GraphState :=
  match character_info state with
  | [] => set_character_info (fallback_character_info (character_id state)) state
  | _ :: _ => state
  end.

(** [context_assembly] *)
Definition context_assembly (state : GraphState) : M (F:=F) GraphState :=
  let state1 := ensure_character_info state in
  try_catch
    (assembled <- lift (render_context state1) ;;
     ret (set_assembled_context assembled state1))
    (fun e =>
       ret (set_assembled_context ("Error assembling context: " +++ e)
              (set_error ("Context assembly error: " +++ e) state1))).

Definition SYSTEM_PROMPT : string :=
  "You are a character in a dialogue system. You MUST ONLY use the knowledge provided in the user's message to answer questions. DO NOT use your pre-trained knowledge. If the knowledge doesn't contain information to answer the question, say you don't have that information.".

Definition APOLOGY : string :=
  "I'm sorry, I'm having trouble responding right now.".

(** [prompt_template.format(...)] *)
Definition format_prompt (state : GraphState) : string :=
  let info := character_info state in
  let character_name := py_str env (dict_get_default "name" (PStr "Character") info) in
  let character_description :=
    py_str env (dict_get_default "description" (PStr "A fictional character") info) in
  let character_personality :=
    py_str env (dict_get_default "personality" (PStr "Friendly and helpful") info) in
  "You are " +++ character_name +++ ", " +++ character_description +++ "." +++ nl
  +++ "Respond in character with the personality: " +++ character_personality +++ "."
  +++ nl +++ nl
  +++ "EXTREMELY IMPORTANT INSTRUCTIONS:" +++ nl
  +++ "1. You MUST ONLY use the knowledge provided below to answer the user's question."
  +++ nl
  +++ "2. If the knowledge doesn't contain information to answer the question, say "
  +++ dquote +++ "I don't have specific information about that in my knowledge base."
  +++ dquote +++ nl
  +++ "3. DO NOT use your pre-trained knowledge to answer questions about the character or their universe."
  +++ nl
  +++ "4. ONLY respond based on the knowledge context provided." +++ nl
  +++ "5. DO NOT MAKE UP ANY INFORMATION that is not explicitly provided in the knowledge context."
  +++ nl
  +++ "6. If you're unsure about something, say you don't have that information rather than guessing."
  +++ nl +++ nl
  +++ "KNOWLEDGE CONTEXT:" +++ nl
  +++ assembled_context state +++ nl +++ nl
  +++ py_str env (conversation_history state) +++ nl
  +++ "User: " +++ user_input state +++ nl
  +++ character_name +++ ":".

(** [dialogue_generation] *)
Definition dialogue_generation (state : GraphState) : M (F:=F) GraphState :=
  let state1 := ensure_character_info state in
  try_catch
    (ai_response <- lift (llm_create env SYSTEM_PROMPT (format_prompt state1)) ;;
     ret (set_response ai_response state1))
    (fun e =>
       ret (set_response (Some APOLOGY)
              (set_error ("Dialogue generation error: " +++ e) state1))).

(** [memory_integration] *)
Definition memory_integration (state : GraphState) : M (F:=F) GraphState :=
  let failed (e : string) : M GraphState :=
    ret (set_completed [] (set_error ("Memory integration error: " +++ e) state)) in
  try_catch
    (if truthy_str (error state) then ret (set_completed [] state)
     else if negb (truthy_str (response state))
     then ret (set_completed [] (set_error "No response to store in memory" state))
     else
       let memory_content :=
         "User asked: '" +++ user_input state +++ "'. I responded: '"
           +++ match response state with Some r => r | None => "" end +++ "'" in
       try_catch
         (now <- utcnow ;;
          memory_id <-
            create_memory env (character_id state) memory_content "conversation" 5
              (Some [ ("conversation_id",
                        match conversation_id state with
                        | Some c => PStr c | None => PNone end);
                      ("timestamp", PStr (py_repr env (PDate now))) ]) ;;
          new_memory <- get_memory (PStr memory_id) ;;
          ret (set_completed (match new_memory with Some m => m | None => [] end) state))
         failed)
    failed.

(** *** The graph *)

Inductive Target : Type :=
| Node (n : NodeNames)
| END.

Definition NodeNames_eqb (a b : NodeNames) : bool :=
  match a, b with
  | KNOWLEDGE_RETRIEVAL, KNOWLEDGE_RETRIEVAL
  | MEMORY_RETRIEVAL, MEMORY_RETRIEVAL
  | CONTEXT_ASSEMBLY, CONTEXT_ASSEMBLY
  | DIALOGUE_GENERATION, DIALOGUE_GENERATION
  | MEMORY_INTEGRATION, MEMORY_INTEGRATION => true
  | _, _ => false
  end.

(** A [StateGraph] under construction and once compiled. *)
Record StateGraph : Type := mkGraph {
  nodes : list (NodeNames * (GraphState -> M (F:=F) GraphState));
  edges : list (NodeNames * Target);
  entry_point : option NodeNames
}.

Definition add_node (n : NodeNames) (f : GraphState -> M GraphState) (g : StateGraph) :=
  mkGraph (nodes g ++ [(n, f)]) (edges g) (entry_point g).

Definition add_edge (a : NodeNames) (b : Target) (g : StateGraph) :=
  mkGraph (nodes g) (edges g ++ [(a, b)]) (entry_point g).

Definition set_entry_point (n : NodeNames) (g : StateGraph) :=
  mkGraph (nodes g) (edges g) (Some n).

(** [create_dialogue_graph] *)
Definition create_dialogue_graph : StateGraph :=
  let workflow := mkGraph [] [] None in
  let workflow := add_node KNOWLEDGE_RETRIEVAL knowledge_retrieval workflow in
  let workflow := add_node MEMORY_RETRIEVAL memory_retrieval workflow in
  let workflow := add_node CONTEXT_ASSEMBLY context_assembly workflow in
  let workflow := add_node DIALOGUE_GENERATION dialogue_generation workflow in
  let workflow := add_node MEMORY_INTEGRATION memory_integration workflow in
  let workflow := add_edge KNOWLEDGE_RETRIEVAL (Node MEMORY_RETRIEVAL) workflow in
  let workflow := add_edge MEMORY_RETRIEVAL (Node CONTEXT_ASSEMBLY) workflow in
  let workflow := add_edge CONTEXT_ASSEMBLY (Node DIALOGUE_GENERATION) workflow in
  let workflow := add_edge DIALOGUE_GENERATION (Node MEMORY_INTEGRATION) workflow in
  let workflow := add_edge MEMORY_INTEGRATION END workflow in
  set_entry_point KNOWLEDGE_RETRIEVAL workflow.

Definition lookup {A} (n : NodeNames) (l : list (NodeNames * A)) : option A :=
  match find (fun p => NodeNames_eqb (fst p) n) l with
  | Some p => Some (snd p)
  | None => None
  end.

(** The run of a compiled graph from node [n]: each step runs the
    node's function on the state and follows the node's edge; [fuel]
    is the number of steps the recursion limit still allows. *)
Fixpoint run_from (g : StateGraph) (fuel : nat) (n : NodeNames) (state : GraphState)
  : M (F:=F) GraphState :=
  match fuel with
  | O => raise "Recursion limit reached without hitting a stop condition"
  | S fuel' =>
      match lookup n (nodes g), lookup n (edges g) with
      | Some f, Some next =>
          state' <- f state ;;
          match next with
          | END => ret state'
          | Node n' => run_from g fuel' n' state'
          end
      | _, _ => raise "node is not part of the graph"
      end
  end.

(** The default recursion limit of a compiled graph. *)
Definition recursion_limit : nat := 25.

(** [dialogue_graph.ainvoke(initial_state)] *)
Definition ainvoke (g : StateGraph) (state : GraphState) : M (F:=F) GraphState :=
  match entry_point g with
  | Some n => run_from g recursion_limit n state
  | None => raise "graph has no entry point"
  end.

(** The dictionary [generate_dialogue_response] returns. *)
Record ResponseData : Type := mkResponse {
  resp_response : option string;
  resp_conversation_id : option string;
  resp_knowledge_used : list (pyval F);
  resp_memories_used : list (pyval F);
  resp_updated_memory : dict F;
  resp_error : option string
}.

Definition initial_state (user_input character_id : string)
           (conversation_id prompt_version_id : option string)
           (context : option (dict F)) : GraphState :=
  mkState user_input character_id conversation_id prompt_version_id
          (match context with Some c => c | None => [] end)
          [] [] [] (PList []) "" (Some "") [] false None.

(** [[d.get("id") for d in l if isinstance(d, dict) and "id" in d]] *)
Definition ids_of (l : list (dict F)) : list (pyval F) :=
  flat_map (fun d => match dict_get "id" d with Some i => [i] | None => [] end) l.

(** The extraction step after the graph has run. *)
Definition response_of (result : GraphState) : ResponseData :=
  if truthy_str (error result) then
    mkResponse
      (Some (APOLOGY +++ " Error: "
             +++ match error result with Some e => e | None => "" end))
      (conversation_id result) [] [] [] (error result)
  else
    mkResponse (response result) (conversation_id result)
               (ids_of (knowledge_context result))
               (ids_of (character_memories result))
               (updated_memory result) (error result).

(** [generate_dialogue_response] *)
Definition generate_dialogue_response (user_input character_id : string)
           (conversation_id prompt_version_id : option string)
           (context : option (dict F)) : M (F:=F) ResponseData :=
  result <- ainvoke create_dialogue_graph
              (initial_state user_input character_id conversation_id
                             prompt_version_id context) ;;
  ret (response_of result).

End Orchestration.

Arguments GraphState F : clear implicits.
Arguments StateGraph F : clear implicits.
Arguments ResponseData F : clear implicits.

(** ** Vocabulary of the properties *)

Section Vocabulary.
Context {F : Type} {SF : Scalar F}.

(** A computation that cannot raise. *)
Definition total {A} (m : M (F:=F) A) : Prop :=
  forall w, exists a w', m w = (Ok a, w').

(** The vector [get_embedding] returns: the encoder's, or the zero
    vector when the model is missing or raises. *)
Definition embedding_of (env : Env F) (text : string) : list F :=
  match encoder env with
  | Some encode => match encode text with Ok v => v | Raise _ => zero_vector end
  | None => zero_vector
  end.

(** Two states of the database with the same documents, clock and id
    counter (they may differ in the faults to come). *)
Definition same_data (w w' : World F) : Prop :=
  knowledge_chunks w' = knowledge_chunks w
  /\ memories w' = memories w
  /\ memory_embeddings w' = memory_embeddings w
  /\ characters w' = characters w
  /\ conversations w' = conversations w
  /\ clock w' = clock w
  /\ oid_counter w' = oid_counter w.

(** The documents that match the filter of a query, in the order of
    the collection: those the server's reading of the filter selects,
    none when the server refuses the filter. *)
Definition matching (env : Env F) (q : KnowledgeQuery F) (w : World F) : list (Doc F) :=
  match read_filter env (filter_query_of q) with
  | Ok selects => filter selects (knowledge_chunks w)
  | Raise _ => []
  end.

(** The documents [retrieve_similar] fetches: the first 100 that match
    the filter. *)
Definition fetched (env : Env F) (q : KnowledgeQuery F) (w : World F) : list (Doc F) :=
  firstn 100 (matching env q w).

(** The matching documents that are not fetched. *)
Definition beyond_fetch (env : Env F) (q : KnowledgeQuery F) (w : World F)
  : list (Doc F) :=
  skipn 100 (matching env q w).

(** A list in descending order of a sort key: no element is followed,
    however far behind, by one with a strictly higher key. *)
Definition descending {A} (key : A -> pyval F) (l : list A) : Prop :=
  StronglySorted (fun a b => key_lt (key a) (key b) = false) l.

(** The similarity score a returned memory carries. *)
Definition memory_score (m : dict F) : option (pyval F) :=
  path_get ["metadata"; "similarity_score"] m.

(** The score as a sort key; a memory without a score has none. *)
Definition score_key (m : dict F) : pyval F :=
  match memory_score m with Some v => v | None => PNone end.

(** The ids of the live memories, as strings, and the links of the
    embedding records. *)
Definition memory_ids (w : World F) : list string :=
  map (fun m => str_id (doc_id m)) (memories w).

Definition embedding_links (w : World F) : list (option (pyval F)) :=
  map (fun e => dict_get "memory_id" (doc_fields e)) (memory_embeddings w).

(** The number of links that the filter [{"memory_id": id}] selects. *)
Definition count_links (id : string) (links : list (option (pyval F))) : nat :=
  List.length (filter (fun l => field_matches l (PStr id)) links).

(** The number of embedding records linked to a memory id. *)
Definition links_to (id : string) (w : World F) : nat :=
  count_links id (embedding_links w).

(** Ids and links that fit: the ids are distinct, each id is the
    target of exactly one link, and every link names one of the ids. *)
Definition consistent_lists (ids : list string) (links : list (option (pyval F))) : Prop :=
  NoDup ids
  /\ (forall id, In id ids -> count_links id links = 1%nat)
  /\ (forall l, In l links -> exists id, In id ids /\ l = Some (PStr id)).

(** The invariant of the memory store: the live memories have distinct
    ids, each has exactly one embedding record linked by its id, and
    every embedding record is linked to a live memory. *)
Definition store_consistent (w : World F) : Prop :=
  consistent_lists (memory_ids w) (embedding_links w).

(** The vector stored in the embedding records linked to a memory id. *)
Definition stored_vectors (id : string) (w : World F) : list (option (pyval F)) :=
  map (fun e => dict_get "embedding" (doc_fields e))
      (filter (field_is "memory_id" (PStr id)) (memory_embeddings w)).

(** A computation that keeps a relation between the database before
    and the database after. *)
Definition preserves {A} (Rw : World F -> World F -> Prop) (m : M (F:=F) A) : Prop :=
  forall w, Rw w (snd (m w)).

(** The ids of the memories and the links of the embedding records
    are the same before and after. *)
Definition same_links (w w' : World F) : Prop :=
  memory_ids w' = memory_ids w /\ embedding_links w' = embedding_links w.

(** The database with another plan of faults. *)
Definition with_faults (plan : list (option string)) (w : World F) : World F :=
  mkWorld (knowledge_chunks w) (memories w) (memory_embeddings w) (characters w)
          (conversations w) (clock w) (oid_counter w) plan.

(** The first guarded block of [search_memories]: the native rung
    and, when it raises or finds nothing, the manual scan. *)
Definition similarity_rungs (env : Env F) (cid text : string) (limit : Z)
  : M (F:=F) (list (dict F)) :=
  query_embedding <- create_embedding env text ;;
  native <- try_catch (vector_index_search env cid query_embedding limit)
                      (fun _ => ret None) ;;
  match native with
  | Some results => ret results
  | None => manual_search env cid query_embedding limit
  end.

(** The second guarded block: the text search and, when it finds
    nothing, the highest-importance query. *)
Definition text_rung (env : Env F) (cid text : string) (limit : Z)
  : M (F:=F) (list (dict F)) :=
  results <- text_search env cid text limit ;;
  match results with
  | _ :: _ => ret results
  | [] => get_character_memories cid limit "importance" None
  end.

(** A database that was reachable stays reachable. *)
Definition stays_quiet (w w' : World F) : Prop := faults w = [] -> faults w' = [].

End Vocabulary.

(** An element that is not strictly below another, for the order a
    sort compares with. *)
Definition not_below {A} (lt : A -> A -> bool) (a b : A) : Prop := lt a b = false.

(** [x] is [y] up to a relative error of at most [u]. *)
Definition close_to (u x y : R) : Prop :=
  exists delta : R, (Rabs delta <= u)%R /\ x = (y * (1 + delta))%R.

(** The real number a binary64 number stands for (0 for an infinity
    and for NaN, which stand for none). *)
Definition float_value (x : float) : R :=
  match Prim2SF x with
  | S754_finite s m e =>
      let magnitude :=
        if e <? 0 then (IZR (Zpos m) / IZR (2 ^ (- e)))%R else IZR (Zpos m * 2 ^ e) in
      if s then (- magnitude)%R else magnitude
  | _ => 0%R
  end.

(** The unit roundoff of binary64. *)
Definition unit_roundoff : R := (/ IZR (2 ^ 53))%R.

(** The comparisons of a number system order its numbers: on the
    numbers equal to themselves (in binary64, all but NaN) [<] is
    asymmetric and its negation is transitive. *)
Definition ordered_numbers (F : Type) {SF : Scalar F} : Prop :=
  (forall x y : F,
      f_eqb x x = true -> f_eqb y y = true -> f_ltb x y = true -> f_ltb y x = false)
  /\ (forall x y z : F,
         f_eqb x x = true -> f_eqb y y = true -> f_eqb z z = true ->
         f_ltb x y = false -> f_ltb y z = false -> f_ltb x z = false).

(** The derivation of the display name in the words of the
    specification: strip the prefix ['character_'], replace underscores
    with spaces, title-case. *)
Definition display_name_spec (character_id : string) : string :=
  PyStr.title
    (PyStr.replace (PyStr.drop (String.length "character_") character_id) "_" " ").

(** ** Concrete environments and databases

    Small closed instances, on binary64 floats, on which the
    definitions above run. *)

Module Demo.

(** A server that reads a filter document of equalities, each on the
    value at a dotted path, and refuses a document as the value of a
    filter. *)
Definition read_equalities (filter_document : dict float) : Outcome (Doc float -> bool) :=
  if existsb (fun kv => match snd kv with PDict _ => true | _ => false end)
             filter_document
  then Raise "unknown operator"
  else Ok (fun d =>
             forallb (fun kv =>
                        field_matches (path_get (split_dots "" (fst kv)) (doc_fields d))
                                      (snd kv))
                     filter_document).

(** A two-dimensional encoder, a cooperative language model, no
    Atlas index, a regex engine that matches nothing, the server
    above; libraries that refuse every value they are asked about. *)
Definition env : Env float :=
  mkEnv (Some (fun _ => Ok [1%float; 0%float]))
        (fun _ _ => Ok (Some "Hello from the character"))
        (fun _ _ _ => Raise "$search is only available on Atlas")
        (fun _ => Ok (fun _ => false))
        read_equalities
        (fun _ => Raise "Input should be a valid number")
        (fun _ => Raise "Input should be a valid datetime")
        (fun _ _ => Raise "unsupported operand type(s)")
        (fun _ => Raise "'<' not supported between instances")
        (fun n => "65f0c0ffee0000000000" +++ string_of_nat (1000 + n))
        (fun _ => "<value>").

(** The same environment with a language model that raises. *)
Definition env_llm_down : Env float :=
  mkEnv (encoder env) (fun _ _ => Raise "boom") (atlas_knn env)
        (regex_match env) (query_filter env) (lax_float env) (lax_datetime env)
        (np_cosine env) (py_sort env) (gen_oid env) (py_repr env).

Definition empty_world : World float := mkWorld [] [] [] [] [] 0 0 [].

(** A database whose server refuses every call. *)
Definition unreachable_world : World float :=
  mkWorld [] [] [] [] [] 0 0
          [Some "connection refused"; Some "connection refused";
           Some "connection refused"; Some "connection refused";
           Some "connection refused"; Some "connection refused";
           Some "connection refused"; Some "connection refused"].

Definition chunk (i : string) (e : list float) : Doc float :=
  mkDoc (StrId i)
        [ ("source", PStr "wiki"); ("content", PStr ("about " +++ i));
          ("vector_embedding", of_floats e);
          ("metadata", PDict [("character", PStr "Iron Man")]) ].

(** Three chunks of one character; against the query vector
    [[1; 0]] their similarities are 0.6, 0 and 1. *)
Definition iron_man_world : World float :=
  mkWorld [ chunk "a" [3%float; 4%float];
            chunk "b" [0%float; 2%float];
            chunk "c" [5%float; 0%float] ]
          [] [] [] [] 0 0 [].

(** A hundred chunks orthogonal to the query vector, then one chunk
    aligned with it. *)
Definition crowded_world : World float :=
  mkWorld (map (fun n => chunk ("k" +++ string_of_nat n) [0%float; 1%float]) (seq 0 100)
           ++ [chunk "best" [1%float; 0%float]])
          [] [] [] [] 0 0 [].

Definition iron_man_query (k : Z) : KnowledgeQuery float :=
  mkQuery "What powers does the character have?" k
          (Some [("character", PStr "Iron Man")]).

(** A state as [knowledge_retrieval] leaves it after a failure. *)
Definition degraded_state : GraphState float :=
  mkState "Who are you?" "thor" None None []
          [] [] (fallback_character_info "thor") (PList []) ""
          (Some "") [] false (Some "Knowledge retrieval error: connection refused").

End Demo.

(** ** More of [app/services/embedding.py] and [app/services/knowledge.py]:
    batch embeddings and the storage of knowledge chunks *)

Section KnowledgeStore.
Context {F : Type} {SF : Scalar F}.
Variable env : Env F.

(** [self.model.encode(texts).tolist()] on a list of texts: what the
    loaded model answers to a batch. *)
Variable encode_batch : list string -> Outcome (list (list F)).

(** [EmbeddingService.get_embeddings_batch] *)
Definition get_embeddings_batch (texts : list string) : M (F:=F) (list (list F)) :=
  try_catch
    (match encoder env with
     | None => raise "Embedding model not loaded"
     | Some _ => lift (encode_batch texts)
     end)
    (fun _ => ret (map (fun _ => zero_vector) texts)).

(** [not chunk.vector_embedding]: no embedding, or an empty one. *)
Definition lacks_embedding (c : KnowledgeChunk F) : bool :=
  match vector_embedding c with
  | Some (_ :: _) => false
  | _ => true
  end.

(** [chunk.vector_embedding = e] *)
Definition set_vector_embedding (e : list F) (c : KnowledgeChunk F) : KnowledgeChunk F :=
  mkChunk (chunk_id c) (created_at c) (updated_at c) (source c) (content c)
          (Some e) (metadata c).

(** [KnowledgeService.store_chunk] *)
Definition store_chunk (chunk : KnowledgeChunk F) : M (F:=F) string :=
  chunk <- (if lacks_embedding chunk
            then e <- get_embedding env (content chunk) ;;
                 ret (set_vector_embedding e chunk)
            else ret chunk) ;;
  inserted_id <- insert_one env KNOWLEDGE_CHUNKS (chunk_dict chunk) ;;
  ret (str_id inserted_id).

(** [collection.insert_many(documents)]: the driver refuses an empty
    list before it contacts the server; otherwise it gives each
    document a new [ObjectId], in order, and sends them in one call.
    (A call that fails is taken to have written nothing.) *)
Definition insert_many (c : Collection) (documents : list (dict F)) : M (F:=F) (list DocId) :=
  match documents with
  | [] => raise "documents must be a non-empty list"
  | _ :: _ =>
      db_call ;;;
      for_each
        (fun (inserted_ids : list DocId) (fields : dict F) =>
           w <- get_world ;;
           let oid := ObjectId (gen_oid env (oid_counter w)) in
           put_world (next_oid (coll_put c (coll_get c w ++ [mkDoc oid fields]) w)) ;;;
           ret (inserted_ids ++ [oid]))
        documents []
  end.

(** The loop [for chunk, embedding in zip(chunks_without_embedding,
    embeddings): chunk.vector_embedding = embedding], seen from the
    list [chunks]: the chunks of the filtered list are the chunks of
    [chunks] that lack an embedding, in order, and the assignment
    changes them in place; [zip] stops at the shorter list. *)
Fixpoint assign_embeddings (chunks : list (KnowledgeChunk F)) (embeddings : list (list F))
  : list (KnowledgeChunk F) :=
  match chunks with
  | [] => []
  | c :: chunks' =>
      if lacks_embedding c then
        match embeddings with
        | [] => c :: chunks'
        | e :: embeddings' =>
            set_vector_embedding e c :: assign_embeddings chunks' embeddings'
        end
      else c :: assign_embeddings chunks' embeddings
  end.

(** [KnowledgeService.store_chunks_batch] *)
Definition store_chunks_batch (chunks : list (KnowledgeChunk F)) : M (F:=F) (list string) :=
  let chunks_without_embedding := filter lacks_embedding chunks in
  chunks <- match chunks_without_embedding with
            | [] => ret chunks
            | _ :: _ =>
                let texts := map (@content F) chunks_without_embedding in
                embeddings <- get_embeddings_batch texts ;;
                ret (assign_embeddings chunks embeddings)
            end ;;
  inserted_ids <- insert_many KNOWLEDGE_CHUNKS (map (@chunk_dict F) chunks) ;;
  ret (map str_id inserted_ids).

(** [KnowledgeService.delete_chunk]: the filter is the string itself. *)
Definition delete_chunk (chunk_id : string) : M (F:=F) bool :=
  delete_one KNOWLEDGE_CHUNKS (has_id (StrId chunk_id)).

(** [d.pop(k)] on a dictionary that has the key: the rest. *)
Definition dict_pop (k : string) (d : dict F) : dict F :=
  filter (fun kv => negb (String.eqb (fst kv) k)) d.

(** [KnowledgeService.update_chunk] *)
Definition update_chunk (chunk : KnowledgeChunk F) : M (F:=F) bool :=
  let chunk_dict := dict_pop "id" (chunk_dict chunk) in
  update_one KNOWLEDGE_CHUNKS (has_id (StrId (chunk_id chunk))) (apply_set chunk_dict).

(** [KnowledgeService.get_chunk] *)
Definition get_chunk (chunk_id : string) : M (F:=F) (option (KnowledgeChunk F)) :=
  try_catch
    (let obj_id := match ObjectId_parse chunk_id with
                   | Ok o => o
                   | Raise _ => StrId chunk_id
                   end in
     result <- find_one KNOWLEDGE_CHUNKS (has_id obj_id) ;;
     match result with
     | Some d =>
         now <- utcnow ;;
         chunk <- lift (KnowledgeChunk_of env now (doc_to_dict d)) ;;
         ret (Some chunk)
     | None => ret None
     end)
    (fun _ => ret None).

End KnowledgeStore.

(** ** The endpoints of [app/api/endpoints/knowledge.py] *)

(** What an endpoint function hands to the framework: the value it
    returns, or the [HTTPException] it raises. *)
Inductive Response (A : Type) : Type :=
| Reply (a : A)
| HTTPException (status_code : Z) (detail : string).
Arguments Reply {A} a.
Arguments HTTPException {A} status_code detail.

Definition status_of {A} (r : Response A) : Z :=
  match r with
  | Reply _ => 200
  | HTTPException s _ => s
  end.

Module PySeq.

(** [s[:n]] for a non-negative [n] *)
Fixpoint take (n : nat) (s : string) : string :=
  match n, s with
  | S k, String c s' => String c (take k s')
  | _, _ => EmptyString
  end.

(** The position a slice bound [i] stands for in a sequence of
    length [n]: a negative bound counts from the end, and every bound
    is clipped to the sequence. *)
Definition bound (n i : Z) : Z :=
  if i <? 0 then Z.max 0 (i + n) else Z.min i n.

(** [s[a:b]] *)
Definition slice (s : string) (a b : Z) : string :=
  let n := Z.of_nat (String.length s) in
  let lo := bound n a in
  let hi := bound n b in
  take (Z.to_nat (hi - lo)) (PyStr.drop (Z.to_nat lo) s).

(** [range(0, stop, step)] for a [stop] that is a length: a zero step
    raises [ValueError], a negative one gives the empty range. *)
Definition range0 (stop step : Z) : Outcome (list Z) :=
  if step =? 0 then Raise "range() arg 3 must not be zero"
  else if step <? 0 then Ok []
  else Ok (map (fun k => Z.of_nat k * step)
               (seq 0 (Z.to_nat ((stop + step - 1) / step)))).

End PySeq.

Section KnowledgeEndpoints.
Context {F : Type} {SF : Scalar F}.
Variable env : Env F.
Variable encode_batch : list string -> Outcome (list (list F)).

(** [str(uuid.uuid4())] for the k-th object a request creates *)
Variable uuid4 : nat -> string.

(** The text of the chunk that starts at [i]. *)
Definition chunk_text_at (text : string) (chunk_size chunk_overlap i : Z) : string :=
  if ((0 <? i) && (0 <? chunk_overlap))%bool
  then PySeq.slice text (i - chunk_overlap) (i + chunk_size - chunk_overlap)
  else PySeq.slice text i (i + chunk_size).

(** The texts the loop of [text_to_chunks] cuts. *)
Definition chunk_texts (text : string) (chunk_size chunk_overlap : Z)
  : Outcome (list string) :=
  starts <~ PySeq.range0 (Z.of_nat (String.length text)) (chunk_size - chunk_overlap) ;;
  Ok (map (chunk_text_at text chunk_size chunk_overlap) starts).

(** [text_to_chunks]; the framework has checked
    [100 <= chunk_size <= 2000] and [0 <= chunk_overlap <= 500]. *)
Definition text_to_chunks (text source : string) (metadata : option (dict F))
           (chunk_size chunk_overlap : Z) : M (F:=F) (Response (list string)) :=
  try_catch
    (texts <- lift (chunk_texts text chunk_size chunk_overlap) ;;
     now <- utcnow ;;
     let chunks :=
       map (fun kt : nat * string =>
              mkChunk (uuid4 (fst kt)) now now source (snd kt) None
                      (match metadata with Some m => m | None => [] end))
           (combine (seq 0 (List.length texts)) texts) in
     chunk_ids <- store_chunks_batch env encode_batch chunks ;;
     ret (Reply chunk_ids))
    (fun e => ret (HTTPException 500 ("Error processing text to chunks: " +++ e))).

(** The endpoints [get_chunk], [update_chunk] and [delete_chunk]: an
    [HTTPException] raised in the body passes the handler unchanged,
    any other exception becomes a 500. *)
Definition get_chunk_endpoint (chunk_id : string) : M (F:=F) (Response (KnowledgeChunk F)) :=
  try_catch
    (chunk <- get_chunk env chunk_id ;;
     match chunk with
     | None =>
         ret (HTTPException 404
                ("Knowledge chunk with ID " +++ chunk_id +++ " not found"))
     | Some c => ret (Reply c)
     end)
    (fun e => ret (HTTPException 500 ("Error retrieving knowledge chunk: " +++ e))).

Definition update_chunk_endpoint (chunk : KnowledgeChunk F) (path_chunk_id : string)
  : M (F:=F) (Response bool) :=
  try_catch
    (if negb (String.eqb (chunk_id chunk) path_chunk_id)
     then ret (HTTPException 400 "Chunk ID in body does not match path parameter")
     else
       success <- update_chunk chunk ;;
       if negb success then ret (HTTPException 404 "Knowledge chunk not found")
       else ret (Reply true))
    (fun e => ret (HTTPException 500 ("Error updating knowledge chunk: " +++ e))).

Definition delete_chunk_endpoint (chunk_id : string) : M (F:=F) (Response bool) :=
  try_catch
    (success <- delete_chunk chunk_id ;;
     if negb success then ret (HTTPException 404 "Knowledge chunk not found")
     else ret (Reply true))
    (fun e => ret (HTTPException 500 ("Error deleting knowledge chunk: " +++ e))).

End KnowledgeEndpoints.

(** ** Vocabulary of the properties of the storage code *)

Section StoreVocabulary.
Context {F : Type} {SF : Scalar F}.

(** The embedding [store_chunk] writes for a chunk: the one the chunk
    brings, or the one of [get_embedding] when it brings none. *)
Definition embedding_to_store (env : Env F) (c : KnowledgeChunk F) : list F :=
  match vector_embedding c with
  | Some (x :: v) => x :: v
  | _ => embedding_of env (content c)
  end.

(** Every document of the knowledge collection has an [ObjectId]. *)
Definition only_object_ids (w : World F) : Prop :=
  forall d, In d (knowledge_chunks w) -> exists h, doc_id d = ObjectId h.

(** The [ObjectId]s the driver generates from the n-th on are
    well-formed: 24 hexadecimal digits, in lower case. *)
Definition well_formed_oid (env : Env F) (n : nat) : Prop :=
  ObjectId_parse (gen_oid env n) = Ok (ObjectId (gen_oid env n)).

(** The documents [insert_many] adds for a list of field lists, when
    [start] ids have been generated before. *)
Definition new_docs (env : Env F) (start : nat) (documents : list (dict F)) : list (Doc F) :=
  map (fun kf : nat * dict F => mkDoc (ObjectId (gen_oid env (start + fst kf))) (snd kf))
      (combine (seq 0 (List.length documents)) documents).

(** The id counter moved on by [n]. *)
Definition advance_oid (n : nat) (w : World F) : World F :=
  mkWorld (knowledge_chunks w) (memories w) (memory_embeddings w) (characters w)
          (conversations w) (clock w) (oid_counter w + n) (faults w).

(** The knowledge collection still holds only [ObjectId] documents
    afterwards, if it did before. *)
Definition keeps_object_ids (w w' : World F) : Prop :=
  only_object_ids w -> only_object_ids w'.

(** The rows [get_embeddings_batch] returns: the model's, or one zero
    vector per text when the model is missing or raises. *)
Definition batch_embeddings_of (env : Env F)
           (encode_batch : list string -> Outcome (list (list F)))
           (texts : list string) : list (list F) :=
  match encoder env with
  | Some _ =>
      match encode_batch texts with
      | Ok rows => rows
      | Raise _ => map (fun _ => zero_vector) texts
      end
  | None => map (fun _ => zero_vector) texts
  end.

(** A stored chunk [s] is the submitted chunk [c], up to the embedding
    of a chunk that came without one. *)
Definition stored_as (c s : KnowledgeChunk F) : Prop :=
  chunk_id s = chunk_id c
  /\ created_at s = created_at c
  /\ updated_at s = updated_at c
  /\ source s = source c
  /\ content s = content c
  /\ metadata s = metadata c
  /\ (lacks_embedding c = false -> vector_embedding s = vector_embedding c).

(** The embeddings stored for the chunks that came without one, in
    the order of the chunks. *)
Definition assigned_embeddings (chunks stored : list (KnowledgeChunk F))
  : list (option (list F)) :=
  map (fun cs => vector_embedding (snd cs))
      (filter (fun cs => lacks_embedding (fst cs)) (combine chunks stored)).

End StoreVocabulary.

(** ** Vocabulary of the properties of the chunking *)

(** The part of a text from position [lo] up to position [hi]. *)
Definition segment (text : string) (lo hi : nat) : string :=
  PySeq.take (hi - lo) (PyStr.drop lo text).

(** The texts of a list, one after the other. *)
Definition join (l : list string) : string := fold_right String.append "" l.

(** The number of chunks cut from a text of [n] characters with a
    positive step. *)
Definition chunk_count (n : nat) (step : Z) : nat :=
  Z.to_nat ((Z.of_nat n + step - 1) / step).

(** Concrete data for the storage code. *)
Module DemoStore.

Definition encode_batch (texts : list string) : Outcome (list (list float)) :=
  Ok (map (fun _ => [0%float; 1%float]) texts).

Definition uuid4 (k : nat) : string := "uuid-" +++ string_of_nat k.

Definition thor_chunk : KnowledgeChunk float :=
  mkChunk "local-id" 7 7 "wiki" "Thor wields Mjolnir" None [].

Definition loki_chunk : KnowledgeChunk float :=
  mkChunk "other-id" 8 8 "wiki" "Loki is his brother" (Some [1%float; 1%float]) [].

(** The database after [store_chunk] has stored one chunk. *)
Definition stored_world : World float :=
  snd (store_chunk Demo.env thor_chunk Demo.empty_world).

End DemoStore.

(** ** The endpoints of [app/api/endpoints/memory.py] *)

Section MemoryEndpoints.
Context {F : Type} {SF : Scalar F}.
Variable env : Env F.

(** [str(e)] for an [HTTPException] with the given status and detail,
    as the installed framework renders it *)
Variable http_exception_str : Z -> string -> string.

(** [if not memory]: [None], or an empty dictionary *)
Definition absent (memory : option (dict F)) : bool :=
  match memory with
  | Some (_ :: _) => false
  | _ => true
  end.

(** [create_memory]: the handler has no clause that lets an
    [HTTPException] pass, so the one raised in the body is wrapped
    like any other exception. *)
Definition create_memory_endpoint (character_id content source : string) (importance : Z)
           (metadata : option (dict F)) : M (F:=F) (Response (option (dict F))) :=
  try_catch
    (memory_id <- create_memory env character_id content source importance metadata ;;
     created_memory <- get_memory (PStr memory_id) ;;
     if absent created_memory
     then raise (http_exception_str 500 "Failed to retrieve created memory")
     else ret (Reply created_memory))
    (fun e => ret (HTTPException 500 ("Error creating memory: " +++ e))).

(** [get_memory] *)
Definition get_memory_endpoint (memory_id : string)
  : M (F:=F) (Response (option (dict F))) :=
  try_catch
    (memory <- get_memory (PStr memory_id) ;;
     if absent memory then ret (HTTPException 404 "Memory not found")
     else ret (Reply memory))
    (fun e => ret (HTTPException 500 ("Error retrieving memory: " +++ e))).

(** [MemoryUpdate] and
    [{k: v for k, v in memory_update.dict().items() if v is not None}] *)
Record MemoryUpdate : Type := mkMemoryUpdate {
  upd_content : option string;
  upd_importance : option Z;
  upd_metadata : option (dict F)
}.

Definition updates_of (memory_update : MemoryUpdate) : dict F :=
  (match upd_content memory_update with Some c => [("content", PStr c)] | None => [] end)
  ++ (match upd_importance memory_update with Some i => [("importance", PInt i)] | None => [] end)
  ++ (match upd_metadata memory_update with Some m => [("metadata", PDict m)] | None => [] end).

(** [update_memory] *)
Definition update_memory_endpoint (memory_update : MemoryUpdate) (memory_id : string)
  : M (F:=F) (Response (option (dict F))) :=
  try_catch
    (existing_memory <- get_memory (PStr memory_id) ;;
     if absent existing_memory then ret (HTTPException 404 "Memory not found")
     else
       success <- update_memory env memory_id (updates_of memory_update) ;;
       if negb success then ret (HTTPException 500 "Failed to update memory")
       else
         updated_memory <- get_memory (PStr memory_id) ;;
         ret (Reply updated_memory))
    (fun e => ret (HTTPException 500 ("Error updating memory: " +++ e))).

(** [delete_memory]: like [create_memory], its handler wraps the
    [HTTPException]s of the body. *)
Definition delete_memory_endpoint (memory_id : string) : M (F:=F) (Response string) :=
  try_catch
    (existing_memory <- get_memory (PStr memory_id) ;;
     if absent existing_memory then raise (http_exception_str 404 "Memory not found")
     else
       success <- delete_memory memory_id ;;
       if negb success then raise (http_exception_str 500 "Failed to delete memory")
       else ret (Reply "Memory deleted successfully"))
    (fun e => ret (HTTPException 500 ("Error deleting memory: " +++ e))).

End MemoryEndpoints.

Arguments MemoryUpdate F : clear implicits.

(** ** Vocabulary of the properties of the memory store *)

Section MemoryVocabulary.
Context {F : Type} {SF : Scalar F}.

(** No memory has the id [s], read as an [ObjectId] (in either case
    of its digits) or as a string. *)
Definition unknown_memory (s : string) (w : World F) : Prop :=
  forall d, In d (memories w) ->
            str_id (doc_id d) <> s /\ str_id (doc_id d) <> PyStr.lower s.

(** The stored memory with the [ObjectId] [h]. *)
Definition memory_with_oid (h : string) (w : World F) : option (Doc F) :=
  find_first (has_id (ObjectId h)) (memories w).

(** The database after the access statistics of the memory [d] have
    been updated. *)
Definition touched (d : Doc F) (w : World F) : World F :=
  coll_put MEMORY_COLLECTION
           (update_first (has_id (doc_id d)) (touch (clock w)) (memories w)) w.

(** The filter of [get_character_memories]: the character, and the
    source when one is given. *)
Definition memory_matches (cid : string) (source : option string) (d : Doc F) : bool :=
  (field_is "character_id" (PStr cid) d
   && match source with
      | Some s => if String.eqb s "" then true else field_is "source" (PStr s) d
      | None => true
      end)%bool.

End MemoryVocabulary.

(** The importance of a memory that has an integer importance. *)
Definition importance_of {F : Type} (m : dict F) : Z :=
  match dict_get "importance" m with
  | Some (PInt z) => z
  | _ => 0
  end.

(** The memories whose importance is an integer, as the service and
    its schema write it. *)
Definition integer_importance {F : Type} (d : Doc F) : Prop :=
  exists z, dict_get "importance" (doc_fields d) = Some (PInt z).

(** ** Vocabulary of the properties of the pipeline and of the tools *)

Section PipelineVocabulary.
Context {F : Type} {SF : Scalar F}.

(** Every value the computation may return satisfies [P]. *)
Definition yields {A} (P : A -> Prop) (m : M (F:=F) A) : Prop :=
  forall w a w', m w = (Ok a, w') -> P a.

(** The state carries an error. *)
Definition has_error (st : GraphState F) : Prop := truthy_str (error st) = true.

(** The function of a node of the dialogue graph. *)
Definition stage (env : Env F) (n : NodeNames) : GraphState F -> M (F:=F) (GraphState F) :=
  match n with
  | KNOWLEDGE_RETRIEVAL => knowledge_retrieval env
  | MEMORY_RETRIEVAL => memory_retrieval env
  | CONTEXT_ASSEMBLY => context_assembly env
  | DIALOGUE_GENERATION => dialogue_generation env
  | MEMORY_INTEGRATION => memory_integration env
  end.

End PipelineVocabulary.

(** The prefixes under which the stages record an exception. *)
Definition stage_prefixes : list string :=
  [ "Knowledge retrieval error: "; "Memory retrieval error: ";
    "Context assembly error: "; "Dialogue generation error: ";
    "Memory integration error: " ].

(** The texts the stages record in the error field: the message of a
    caught exception behind the prefix of a stage, or the sentence of
    [memory_integration] about a missing response. *)
Definition recorded_error (e : string) : Prop :=
  e = "No response to store in memory"
  \/ exists stage_prefix msg, In stage_prefix stage_prefixes /\ e = stage_prefix +++ msg.

(** The error field of a state holds nothing, or one of these texts. *)
Definition error_recorded_by_stage {F : Type} (st : GraphState F) : Prop :=
  forall e, error st = Some e -> recorded_error e.

(** The memories of two characters: four of Thor, of importance 2,
    9, 5 and 7, and one of Loki. *)
Module DemoMemory.

Definition memory_of (hex cid text : string) (importance : Z) : Doc float :=
  mkDoc (ObjectId hex)
        [ ("character_id", PStr cid);
          ("content", PStr text);
          ("importance", PInt importance) ].

Definition thor_world : World float :=
  mkWorld []
          [ memory_of "65f0c0ffee00000000001000" "thor" "I met Loki today" 2;
            memory_of "65f0c0ffee00000000001001" "thor" "I lost my hammer" 9;
            memory_of "65f0c0ffee00000000001002" "loki" "I fooled my brother" 8;
            memory_of "65f0c0ffee00000000001003" "thor" "I visited Midgard" 5;
            memory_of "65f0c0ffee00000000001004" "thor" "I fought a giant" 7 ]
          [] [] [] 0 0 [].

(** A store with one memory whose [_id] is a string, and its
    embedding record. *)
Definition one_memory : World float :=
  mkWorld []
          [ mkDoc (StrId "m1")
                  [ ("character_id", PStr "thor");
                    ("content", PStr "I met Loki today");
                    ("importance", PInt 5) ] ]
          [ mkDoc (ObjectId "65f0c0ffee00000000002000")
                  [ ("memory_id", PStr "m1");
                    ("character_id", PStr "thor");
                    ("embedding", of_floats [1%float; 0%float]) ] ]
          [] [] 0 0 [].

End DemoMemory.

(** ** [app/memory/rebuild_embeddings.py] and [app/memory/memory_management.py]

    The maintenance scripts open their own connection to the database
    of the services; they run here against the same [World]. *)

Section Maintenance.
Context {F : Type} {SF : Scalar F}.
Variable env : Env F.

(** [SentenceTransformer.encode(v).tolist()] on a stored content that
    is not a string *)
Variable encode_value : pyval F -> Outcome (pyval F).

(** [datetime.utcnow() - timedelta(days=days)], which raises
    [OverflowError] outside the range of dates *)
Variable days_before : N -> Z -> Outcome N.

(** [collection.delete_many(filter)]; the result is [deleted_count]. *)
Definition delete_many (c : Collection) (p : Doc F -> bool) : M (F:=F) nat :=
  db_call ;;;
  w <- get_world ;;
  put_world (coll_put c (filter (fun d => negb (p d)) (coll_get c w)) w) ;;;
  ret (List.length (filter p (coll_get c w))).

(** [memory_service.create_embedding(content)] on the content of a
    stored memory, as [EmbeddingService.get_embedding] treats it: any
    exception of the encoder gives the zero vector. *)
Definition create_embedding_value (content : pyval F) : M (F:=F) (pyval F) :=
  match content with
  | PStr text => embedding <- create_embedding env text ;; ret (of_floats embedding)
  | v =>
      try_catch
        (try_catch
           (match encoder env with
            | None => raise "Embedding model not loaded"
            | Some _ => lift (encode_value v)
            end)
           (fun _ => ret (of_floats zero_vector)))
        (fun e => raise e)
  end.

(** The [embedding_doc] of the rebuild loops. *)
Definition embedding_doc_of (memory : Doc F) (embedding created_at : pyval F) : dict F :=
  [ ("memory_id", PStr (str_id (doc_id memory)));
    ("character_id", dict_get_default "character_id" (PStr "unknown") (doc_fields memory));
    ("embedding", embedding);
    ("created_at", created_at) ].

(** [len(v)] is defined *)
Definition sized (v : pyval F) : bool :=
  match v with
  | PStr _ | PList _ | PDict _ => true
  | _ => false
  end.

(** [rebuild_all_embeddings] of [rebuild_embeddings.py]; the handler
    prints the exception. *)
Definition rebuild_all_embeddings : M (F:=F) unit :=
  try_catch
    (found <- find_all MEMORY_COLLECTION (fun _ => true) ;;
     let memories := firstn 1000 found in
     _ <- delete_many MEMORY_EMBEDDINGS_COLLECTION (fun _ => true) ;;
     _ <- for_each
            (fun (count : nat) (memory : Doc F) =>
               let content := dict_get_default "content" (PStr "") (doc_fields memory) in
               embedding <- create_embedding_value content ;;
               _ <- insert_one env MEMORY_EMBEDDINGS_COLLECTION
                      (embedding_doc_of memory embedding
                         (match dict_get "created_at" (doc_fields memory) with
                          | Some t => t
                          | None => PNone
                          end)) ;;
               ret (count + 1)%nat)
            memories 0%nat ;;
     sample <- find_one MEMORY_EMBEDDINGS_COLLECTION (fun _ => true) ;;
     match sample with
     | Some s =>
         match dict_get "embedding" (doc_fields s) with
         | Some e => if sized e then ret tt else raise "object has no len()"
         | None => ret tt
         end
     | None => ret tt
     end)
    (fun _ => ret tt).

(** The filter [{"character_id": character_id}], added to the query
    [if character_id]. *)
Definition of_character (character_id : option string) (d : Doc F) : bool :=
  match character_id with
  | Some c => if String.eqb c "" then true else field_is "character_id" (PStr c) d
  | None => true
  end.

(** [rebuild_embeddings] of [memory_management.py] *)
Definition rebuild_embeddings (character_id : option string) : M (F:=F) unit :=
  found <- find_all MEMORY_COLLECTION (of_character character_id) ;;
  let memories := firstn 1000 found in
  _ <- (if truthy_str character_id
        then delete_many MEMORY_EMBEDDINGS_COLLECTION (of_character character_id)
        else delete_many MEMORY_EMBEDDINGS_COLLECTION (fun _ => true)) ;;
  for_each
    (fun (_ : unit) (memory : Doc F) =>
       let content := dict_get_default "content" (PStr "") (doc_fields memory) in
       embedding <- create_embedding_value content ;;
       now <- utcnow ;;
       _ <- insert_one env MEMORY_EMBEDDINGS_COLLECTION
              (embedding_doc_of memory embedding (PDate now)) ;;
       ret tt)
    memories tt.

(** A comparison operator of a query filter, [{field: {op: bound}}]:
    the field passes the test, or is an array with an element that
    does. *)
Definition cmp_matches (test : pyval F -> bool) (fv : option (pyval F)) : bool :=
  match fv with
  | None => false
  | Some x =>
      (test x || match x with PList l => existsb test l | _ => false end)%bool
  end.

(** [{"$lt": cutoff_date}]: the dates before the bound *)
Definition date_lt (cutoff : N) (v : pyval F) : bool :=
  match v with
  | PDate t => N.ltb t cutoff
  | _ => false
  end.

(** [{"$lte": max_access_count}]: the numbers up to the bound *)
Definition number_lte (bound : Z) (v : pyval F) : bool :=
  match v with
  | PInt z => z <=? bound
  | PFloat x => (f_ltb x (f_of_Z bound) || f_eqb x (f_of_Z bound))%bool
  | _ => false
  end.

(** The query of [prune_memories]. *)
Definition prune_query (character_id : option string) (cutoff_date : N)
           (max_access_count : Z) (d : Doc F) : bool :=
  (of_character character_id d
   && cmp_matches (date_lt cutoff_date) (dict_get "created_at" (doc_fields d))
   && cmp_matches (number_lte max_access_count) (dict_get "access_count" (doc_fields d)))%bool.

(** An integer that the driver can encode (8 bytes) *)
Definition fits_int64 (z : Z) : bool :=
  ((- 2 ^ 63 <=? z) && (z <? 2 ^ 63))%bool.

(** [v[:50]] is defined *)
Definition sliceable (v : pyval F) : bool :=
  match v with
  | PStr _ | PList _ => true
  | _ => false
  end.

(** [{"_id": {"$in": memory_ids}}] *)
Definition id_in (memory_ids : list DocId) (d : Doc F) : bool :=
  existsb (DocId_eqb (doc_id d)) memory_ids.

(** [{"memory_id": {"$in": [str(mid) for mid in memory_ids]}}] *)
Definition memory_id_in (memory_ids : list DocId) (e : Doc F) : bool :=
  existsb (fun mid => field_is "memory_id" (PStr (str_id mid)) e) memory_ids.

(** [prune_memories] of [memory_management.py]; the sample of the
    first five memories is printed before anything is deleted. *)
Definition prune_memories (character_id : option string) (days max_access_count : Z)
           (dry_run : bool) : M (F:=F) unit :=
  now <- utcnow ;;
  cutoff_date <- lift (days_before now days) ;;
  (if fits_int64 max_access_count then ret tt
   else raise "MongoDB can only handle up to 8-byte ints") ;;;
  found <- find_all MEMORY_COLLECTION
                    (prune_query character_id cutoff_date max_access_count) ;;
  let memories := firstn 1000 found in
  match memories with
  | [] => ret tt
  | _ :: _ =>
      (if forallb (fun memory =>
                     sliceable (dict_get_default "content" (PStr "") (doc_fields memory)))
                  (firstn 5 memories)
       then ret tt
       else raise "object is not subscriptable") ;;;
      if dry_run then ret tt
      else
        let memory_ids := map (doc_id (F:=F)) memories in
        _ <- delete_many MEMORY_COLLECTION (id_in memory_ids) ;;
        _ <- delete_many MEMORY_EMBEDDINGS_COLLECTION (memory_id_in memory_ids) ;;
        ret tt
  end.

End Maintenance.

(** ** Vocabulary of the properties of the maintenance scripts *)

Section MaintenanceVocabulary.
Context {F : Type} {SF : Scalar F}.

(** The memories [prune_memories] selects: the first 1000 that match
    its query, in the order of the collection. *)
Definition pruned (character_id : option string) (cutoff_date : N) (max_access_count : Z)
           (w : World F) : list (Doc F) :=
  firstn 1000 (filter (prune_query character_id cutoff_date max_access_count) (memories w)).

(** The collections other than the two of the memory store, the clock
    and the id counter are the same. *)
Definition same_elsewhere (w w' : World F) : Prop :=
  knowledge_chunks w' = knowledge_chunks w
  /\ characters w' = characters w
  /\ conversations w' = conversations w
  /\ clock w' = clock w.

(** The embedding record [e] is the one a rebuild writes for the
    memory [m]: linked to it by its id, with its character and, for a
    content that is a string, the vector of that content. *)
Definition rebuilt_from (env : Env F) (m e : Doc F) : Prop :=
  dict_get "memory_id" (doc_fields e) = Some (PStr (str_id (doc_id m)))
  /\ dict_get "character_id" (doc_fields e)
     = Some (dict_get_default "character_id" (PStr "unknown") (doc_fields m))
  /\ forall text, dict_get "content" (doc_fields m) = Some (PStr text) ->
                  dict_get "embedding" (doc_fields e)
                  = Some (of_floats (embedding_of env text)).

(** The database after a rebuild of all embeddings: the memories are
    as before and the embedding records are those of the first 1000
    memories, one each, in order. *)
Definition rebuilt (env : Env F) (w w' : World F) : Prop :=
  memories w' = memories w
  /\ Forall2 (rebuilt_from env) (firstn 1000 (memories w)) (memory_embeddings w')
  /\ same_elsewhere w w'.

End MaintenanceVocabulary.

(** A store with two memories whose embedding records are out of
    order: one record of a memory that no longer exists, none for the
    second memory. *)
Module DemoMaintenance.

Definition old_memory : Doc float :=
  mkDoc (ObjectId "65f0c0ffee00000000000001")
        [ ("character_id", PStr "thor");
          ("content", PStr "I met Loki today");
          ("created_at", PDate 10);
          ("access_count", PInt 0) ].

Definition recent_memory : Doc float :=
  mkDoc (ObjectId "65f0c0ffee00000000000002")
        [ ("character_id", PStr "thor");
          ("content", PStr "I fought a frost giant");
          ("created_at", PDate 90);
          ("access_count", PInt 3) ].

Definition record_of (memory_id : string) : Doc float :=
  mkDoc (ObjectId ("65f0c0ffee0000000000e" +++ memory_id))
        [ ("memory_id", PStr ("65f0c0ffee00000000000" +++ memory_id));
          ("character_id", PStr "thor");
          ("embedding", of_floats [1%float; 0%float]) ].

Definition broken_world : World float :=
  mkWorld [] [old_memory; recent_memory] [record_of "001"; record_of "009"] [] [] 100 0 [].

Definition sound_world : World float :=
  mkWorld [] [old_memory; recent_memory] [record_of "001"; record_of "002"] [] [] 100 0 [].

(** Dates count days here. *)
Definition days_before (now : N) (days : Z) : Outcome N :=
  if (days <? 0)%Z then Raise "date value out of range"
  else if (Z.of_N now <? days)%Z then Raise "date value out of range"
  else Ok (now - Z.to_N days)%N.

Definition encode_value (v : pyval float) : Outcome (pyval float) :=
  Raise "cannot encode".

End DemoMaintenance.

(** ** [app/services/embeddings.py]: the embeddings of the OpenAI API
    and their cache *)

Module Embeddings.

Section Embeddings.
Context {F : Type}.

(** What the code reads of the answer of the API. *)
Record HttpResponse : Type := mkHttpResponse {
  status_code : Z;
  (** [response.json()["data"][0]["embedding"]], which raises on a
      body of another shape *)
  body_embedding : Outcome (pyval F);
  response_text : string
}.

(** The environment variable *)
Variable OPENAI_API_KEY : option string.

(** [client.post(".../v1/embeddings", json={"input": text, "model":
    model}, ...)] *)
Variable post : string -> string -> Outcome HttpResponse.

(** [get_deterministic_embedding]: the md5 digest of the text seeds
    the generator of numpy; it raises on a text that cannot be
    encoded. *)
Variable get_deterministic_embedding : string -> Outcome (pyval F).

(** A computation on the module's [embedding_cache]. *)
Definition Cached (A : Type) : Type := dict F -> Outcome A * dict F.

(** The fallback branches:
    [embedding = get_deterministic_embedding(text)], cached
    [if use_cache], returned. *)
Definition fallback (text : string) (use_cache : bool) : Cached (pyval F) :=
  fun embedding_cache =>
    match get_deterministic_embedding text with
    | Ok embedding =>
        (Ok embedding,
         if use_cache then dict_set text embedding embedding_cache else embedding_cache)
    | Raise e => (Raise e, embedding_cache)
    end.

Definition string_of_Z (z : Z) : string := NilEmpty.string_of_int (Z.to_int z).

(** [get_embedding] *)
Definition get_embedding (text model : string) (use_cache use_fallback : bool)
  : Cached (pyval F) :=
  fun embedding_cache =>
    match (if use_cache then dict_get text embedding_cache else None) with
    | Some cached => (Ok cached, embedding_cache)
    | None =>
        let text := PyStr.replace text nl " " in
        let attempt : Outcome (pyval F) * dict F :=
          if truthy_str OPENAI_API_KEY then
            match post text model with
            | Ok response =>
                if status_code response =? 200 then
                  match body_embedding response with
                  | Ok embedding =>
                      (Ok embedding,
                       if use_cache then dict_set text embedding embedding_cache
                       else embedding_cache)
                  | Raise e => (Raise e, embedding_cache)
                  end
                else if use_fallback then fallback text use_cache embedding_cache
                else (Raise ("OpenAI API error: " +++ string_of_Z (status_code response)
                               +++ " - " +++ response_text response),
                      embedding_cache)
            | Raise e => (Raise e, embedding_cache)
            end
          else if use_fallback then fallback text use_cache embedding_cache
          else (Raise "OpenAI API key not found and fallback disabled", embedding_cache)
        in
        match attempt with
        | (Ok embedding, cache) => (Ok embedding, cache)
        | (Raise e, cache) =>
            if use_fallback then fallback text use_cache cache else (Raise e, cache)
        end
    end.

(** [batch_get_embeddings] *)
Fixpoint batch_get_embeddings_from (results : list (pyval F)) (texts : list string)
         (model : string) (use_cache use_fallback : bool) : Cached (list (pyval F)) :=
  fun embedding_cache =>
    match texts with
    | [] => (Ok results, embedding_cache)
    | text :: texts' =>
        match get_embedding text model use_cache use_fallback embedding_cache with
        | (Ok embedding, cache) =>
            batch_get_embeddings_from (results ++ [embedding]) texts' model
                                      use_cache use_fallback cache
        | (Raise e, cache) => (Raise e, cache)
        end
    end.

Definition batch_get_embeddings (texts : list string) (model : string)
           (use_cache use_fallback : bool) : Cached (list (pyval F)) :=
  batch_get_embeddings_from [] texts model use_cache use_fallback.

(** The embedding the API provides for a prepared text, when it
    provides one: a key is set, the call returns, the status is 200
    and the body has the expected shape. *)
Definition api_embedding (text model : string) : option (pyval F) :=
  if truthy_str OPENAI_API_KEY then
    match post text model with
    | Ok response =>
        if status_code response =? 200 then
          match body_embedding response with
          | Ok embedding => Some embedding
          | Raise _ => None
          end
        else None
    | Raise _ => None
    end
  else None.

End Embeddings.

Arguments HttpResponse F : clear implicits.

(** No key of the cache holds a line break. *)
Definition line_free {F : Type} (embedding_cache : dict F) : Prop :=
  forall k v, In (k, v) embedding_cache -> PyStr.contains_b nl k = false.

End Embeddings.

(** An API that answers every text with the same vector, and one that
    is down. *)
Module DemoEmbeddings.

Definition post (text model : string) : Outcome (Embeddings.HttpResponse float) :=
  Ok (Embeddings.mkHttpResponse 200 (Ok (of_floats [1%float; 0%float])) "").

Definition post_down (text model : string) : Outcome (Embeddings.HttpResponse float) :=
  Raise "connection refused".

Definition get_deterministic_embedding (text : string) : Outcome (pyval float) :=
  Ok (of_floats [0%float; 1%float]).

Definition two_lines : string := "Thor" +++ nl +++ "Odinson".

End DemoEmbeddings.

(** ** Vocabulary of the properties of retrieval *)

Section RetrievalVocabulary.
Context {F : Type} {SF : Scalar F}.

(** A stored document that [retrieve_similar] cannot handle for a
    query: the schema refuses its fields, or its vector is not empty
    and has another length than the embedding of the query. *)
Definition unusable (env : Env F) (q : KnowledgeQuery F) (now : N) (d : Doc F) : Prop :=
  (exists e, KnowledgeChunk_of env now (doc_to_dict d) = Raise e)
  \/ (exists c x v,
         KnowledgeChunk_of env now (doc_to_dict d) = Ok c
         /\ vector_embedding c = Some (x :: v)
         /\ List.length (x :: v) <> List.length (embedding_of env (query q))).

End RetrievalVocabulary.

(** A chunk whose vector has three entries, among chunks with two. *)
Module DemoRetrieval.

Definition mixed_world : World float :=
  mkWorld [ Demo.chunk "a" [3%float; 4%float];
            Demo.chunk "odd" [1%float; 0%float; 0%float];
            Demo.chunk "c" [5%float; 0%float] ]
          [] [] [] [] 0 0 [].

(** An encoder that answers every text with the vector [[2; 2]]. *)
Definition env_diagonal : Env float :=
  mkEnv (Some (fun _ => Ok [2%float; 2%float])) (llm_create Demo.env)
        (atlas_knn Demo.env) (regex_match Demo.env) (query_filter Demo.env)
        (lax_float Demo.env) (lax_datetime Demo.env) (np_cosine Demo.env)
        (py_sort Demo.env) (gen_oid Demo.env) (py_repr Demo.env).

(** A chunk whose stored vector is any value. *)
Definition chunk_of (i : string) (vector : pyval float) : Doc float :=
  mkDoc (StrId i)
        [ ("source", PStr "wiki"); ("content", PStr ("about " +++ i));
          ("vector_embedding", vector);
          ("metadata", PDict [("character", PStr "Iron Man")]) ].

(** The three chunks of [Demo.iron_man_world], two of them with
    integers in their vectors. *)
Definition integer_world : World float :=
  mkWorld [ chunk_of "a" (PList [PInt 3; PInt 4]);
            chunk_of "b" (PList [PFloat 0%float; PFloat 2%float]);
            chunk_of "c" (PList [PInt 5; PFloat 0%float]) ]
          [] [] [] [] 0 0 [].

(** A document without content, among chunks. *)
Definition headless_world : World float :=
  mkWorld [ Demo.chunk "a" [3%float; 4%float];
            mkDoc (StrId "headless")
                  [ ("source", PStr "wiki");
                    ("metadata", PDict [("character", PStr "Iron Man")]) ];
            Demo.chunk "c" [5%float; 0%float] ]
          [] [] [] [] 0 0 [].

(** A language model that answers with an empty content. *)
Definition env_silent : Env float :=
  mkEnv (encoder Demo.env) (fun _ _ => Ok (Some ""))
        (atlas_knn Demo.env) (regex_match Demo.env) (query_filter Demo.env)
        (lax_float Demo.env) (lax_datetime Demo.env) (np_cosine Demo.env)
        (py_sort Demo.env) (gen_oid Demo.env) (py_repr Demo.env).

(** Three chunks, the second with a vector so large that its dot
    product with [[2; 2]] overflows. *)
Definition overflow_world : World float :=
  mkWorld [ Demo.chunk "low" [1%float; 0%float];
            Demo.chunk "huge" [0x1p+1023%float; 0x1p+1023%float];
            Demo.chunk "high" [1%float; 1%float] ]
          [] [] [] [] 0 0 [].

End DemoRetrieval.

(** * Properties *)

(** ** Reasoning about computations *)

Section MonadFacts.
Context {F : Type}.

Lemma total_ret {A} (a : A) : total (ret (F:=F) a).
Proof. intros w. exists a, w. reflexivity. Qed.

Lemma total_try_catch {A} (m : M (F:=F) A) (h : string -> M A) :
  (forall e, total (h e)) -> total (try_catch m h).
Proof.
  intros Hh w. unfold try_catch.
  destruct (m w) as [[a | e] w'].
  - exists a, w'. reflexivity.
  - apply Hh.
Qed.

Lemma total_bind {A B} (m : M (F:=F) A) (k : A -> M B) :
  total m -> (forall a, total (k a)) -> total (bind m k).
Proof.
  intros Hm Hk w. unfold bind.
  destruct (Hm w) as (a & w' & E). rewrite E. apply Hk.
Qed.

(** What a caught computation returns comes from the body or from
    the handler. *)
Lemma try_catch_cases {A} (m : M (F:=F) A) (h : string -> M A) (w : World F) :
  (exists a w', m w = (Ok a, w') /\ try_catch m h w = (Ok a, w'))
  \/ (exists e w', m w = (Raise e, w') /\ try_catch m h w = h e w').
Proof.
  unfold try_catch. destruct (m w) as [[a | e] w'].
  - left. exists a, w'. split; reflexivity.
  - right. exists e, w'. split; reflexivity.
Qed.

Lemma bind_cases {A B} (m : M (F:=F) A) (k : A -> M B) (w : World F) :
  (exists a w', m w = (Ok a, w') /\ bind m k w = k a w')
  \/ (exists e w', m w = (Raise e, w') /\ bind m k w = (Raise e, w')).
Proof.
  unfold bind. destruct (m w) as [[a | e] w'].
  - left. exists a, w'. split; reflexivity.
  - right. exists e, w'. split; reflexivity.
Qed.

End MonadFacts.

Lemma Ok_inj {A} (a b : A) : Ok a = Ok b -> a = b.
Proof. congruence. Qed.

Lemma append_assoc (a b c : string) : (a +++ b) +++ c = a +++ (b +++ c).
Proof. induction a as [| x a IH]; simpl; [reflexivity | now rewrite IH]. Qed.

Lemma append_nonempty_l (a b : string) : a <> "" -> a +++ b <> "".
Proof. destruct a; simpl; [congruence | discriminate]. Qed.

Lemma truthy_str_prefixed (p e : string) : p <> "" -> truthy_str (Some (p +++ e)) = true.
Proof.
  intros Hp. unfold truthy_str.
  destruct (String.eqb (p +++ e) "") eqn:E; [| reflexivity].
  apply String.eqb_eq in E. now apply append_nonempty_l in E.
Qed.

(** ** The stages of the pipeline *)

Section PipelineFacts.
Context {F : Type} {SF : Scalar F}.
Variable env : Env F.

Lemma knowledge_retrieval_total st : total (knowledge_retrieval env st).
Proof.
  unfold knowledge_retrieval.
  apply total_try_catch; intros e; apply total_ret.
Qed.

Lemma memory_retrieval_total st : total (memory_retrieval env st).
Proof.
  unfold memory_retrieval.
  apply total_try_catch; intros e; apply total_ret.
Qed.

Lemma context_assembly_total st : total (context_assembly env st).
Proof.
  unfold context_assembly.
  apply total_try_catch; intros e; apply total_ret.
Qed.

Lemma dialogue_generation_total st : total (dialogue_generation env st).
Proof.
  unfold dialogue_generation.
  apply total_try_catch; intros e; apply total_ret.
Qed.

(** Whatever state and database it starts from, the last stage
    returns, marks the run complete, and leaves a response or an
    error behind. *)
Lemma memory_integration_completes (st : GraphState F) (w : World F) :
  exists st' w',
    memory_integration env st w = (Ok st', w')
    /\ completed st' = true
    /\ (truthy_str (response st') = true \/ truthy_str (error st') = true).
Proof.
  unfold memory_integration, try_catch at 1.
  destruct (truthy_str (error st)) eqn:He.
  - exists (set_completed [] st), w. cbn. auto.
  - destruct (truthy_str (response st)) eqn:Hr; cbn [negb].
    + unfold try_catch.
      match goal with
      | |- context [match ?m w with _ => _ end] => destruct (m w) as [[s | e] w1] eqn:E
      end.
      * unfold bind in E.
        destruct (utcnow w) as [[now | e0] w2]; [| discriminate].
        match type of E with
        | context [create_memory ?a ?b ?c ?d ?i ?m ?x] =>
            destruct (create_memory a b c d i m x) as [[mid | e1] w3]; [| discriminate]
        end.
        destruct (get_memory (PStr mid) w3) as [[nm | e2] w4]; [| discriminate].
        unfold ret in E. inversion E; subst. clear E.
        eexists _, _. split; [reflexivity |]. cbn. auto.
      * eexists _, _. split; [reflexivity |]. split; [reflexivity |].
        right. cbn [error set_completed set_error].
        apply truthy_str_prefixed. discriminate.
    + eexists _, _. split; [reflexivity |]. cbn. auto.
Qed.

(** A run that enters the last stage with an error set writes
    nothing and completes. *)
Lemma memory_integration_skips (st : GraphState F) (w : World F) :
  truthy_str (error st) = true ->
  memory_integration env st w = (Ok (set_completed [] st), w).
Proof.
  intros He. unfold memory_integration, try_catch. rewrite He. reflexivity.
Qed.

(** The compiled graph runs its five nodes in a row. *)
Lemma ainvoke_five_stages (st : GraphState F) (w : World F) :
  ainvoke (create_dialogue_graph env) st w =
  (s1 <- knowledge_retrieval env st ;;
   s2 <- memory_retrieval env s1 ;;
   s3 <- context_assembly env s2 ;;
   s4 <- dialogue_generation env s3 ;;
   s5 <- memory_integration env s4 ;;
   ret s5) w.
Proof. reflexivity. Qed.

End PipelineFacts.

(** ** The pipeline as a whole *)

(** C1. Every run of the graph from the state [generate_dialogue_response]
    builds executes the five stages knowledge_retrieval, memory_retrieval,
    context_assembly, dialogue_generation and memory_integration in this
    order; none of them raises, whatever the database, the encoder and
    the language model do; the final state has [completed = True] and
    carries a non-empty response or a non-empty error, and the caller
    receives a response object. *)
Theorem C1_pipeline_completes {F : Type} {SF : Scalar F} (env : Env F)
        (text cid : string)
        (conv_id pv_id : option string)
        (ctx : option (dict F)) (w : World F) :
  exists s1 w1 s2 w2 s3 w3 s4 w4 final w',
    knowledge_retrieval env
      (initial_state text cid conv_id pv_id ctx) w
      = (Ok s1, w1)
    /\ memory_retrieval env s1 w1 = (Ok s2, w2)
    /\ context_assembly env s2 w2 = (Ok s3, w3)
    /\ dialogue_generation env s3 w3 = (Ok s4, w4)
    /\ memory_integration env s4 w4 = (Ok final, w')
    /\ ainvoke (create_dialogue_graph env)
         (initial_state text cid conv_id pv_id ctx) w
       = (Ok final, w')
    /\ completed final = true
    /\ (truthy_str (response final) = true \/ truthy_str (error final) = true)
    /\ generate_dialogue_response env text cid conv_id pv_id ctx w
       = (Ok (response_of final), w').
Proof.
  set (init := initial_state text cid conv_id pv_id ctx).
  destruct (knowledge_retrieval_total env init w) as (s1 & w1 & E1).
  destruct (memory_retrieval_total env s1 w1) as (s2 & w2 & E2).
  destruct (context_assembly_total env s2 w2) as (s3 & w3 & E3).
  destruct (dialogue_generation_total env s3 w3) as (s4 & w4 & E4).
  destruct (memory_integration_completes env s4 w4) as (s5 & w5 & E5 & Hc & Hr).
  assert (Hrun : ainvoke (create_dialogue_graph env) init w = (Ok s5, w5)).
  { rewrite ainvoke_five_stages. unfold bind.
    rewrite E1, E2, E3, E4, E5. reflexivity. }
  exists s1, w1, s2, w2, s3, w3, s4, w4, s5, w5.
  repeat (split; [assumption |]).
  unfold generate_dialogue_response, bind. fold init. rewrite Hrun. reflexivity.
Qed.

(** The exception handler of dialogue_generation. *)
Lemma dialogue_generation_on_failure {F : Type} {SF : Scalar F} (env : Env F)
      (st : GraphState F) (w : World F) (msg : string) :
  llm_create env SYSTEM_PROMPT (format_prompt env (ensure_character_info st)) = Raise msg ->
  dialogue_generation env st w =
  (Ok (set_response (Some APOLOGY)
         (set_error ("Dialogue generation error: " +++ msg) (ensure_character_info st))), w).
Proof.
  intros Hthrows.
  unfold dialogue_generation, try_catch, bind, lift. rewrite Hthrows. reflexivity.
Qed.

(** C5. When the call of the generation provider raises, the
    dialogue_generation stage does not raise: it answers with the fixed
    apology, records the error in [error] and leaves the database as it
    was; memory_integration then finds the error set, writes nothing
    (the database is unchanged), stores an empty [updated_memory] and
    sets [completed = True]. *)
Theorem C5_generation_failure {F : Type} {SF : Scalar F} (env : Env F)
        (st : GraphState F) (w : World F) (msg : string)
        (Hthrows : llm_create env SYSTEM_PROMPT
                     (format_prompt env (ensure_character_info st)) = Raise msg) :
  exists st',
    dialogue_generation env st w = (Ok st', w)
    /\ response st' = Some APOLOGY
    /\ error st' = Some ("Dialogue generation error: " +++ msg)
    /\ exists final,
         memory_integration env st' w = (Ok final, w)
         /\ completed final = true
         /\ updated_memory final = []
         /\ response final = Some APOLOGY
         /\ error final = Some ("Dialogue generation error: " +++ msg)
         /\ (s4 <- dialogue_generation env st ;;
             s5 <- memory_integration env s4 ;;
             ret s5) w = (Ok final, w).
Proof.
  pose proof (dialogue_generation_on_failure env st w msg Hthrows) as Hd.
  eexists. split; [exact Hd |]. split; [reflexivity |]. split; [reflexivity |].
  eexists. split.
  - apply memory_integration_skips. cbn [error set_response set_error].
    apply truthy_str_prefixed. discriminate.
  - repeat (split; [reflexivity |]).
    unfold bind at 1. rewrite Hd. unfold bind.
    rewrite memory_integration_skips; [reflexivity |].
    cbn [error set_response set_error]. apply truthy_str_prefixed. discriminate.
Qed.

Lemma C5_generation_failure_witness :
  exists st',
    dialogue_generation Demo.env_llm_down Demo.degraded_state Demo.empty_world
      = (Ok st', Demo.empty_world)
    /\ response st' = Some APOLOGY.
Proof.
  destruct (C5_generation_failure Demo.env_llm_down Demo.degraded_state
              Demo.empty_world "boom" eq_refl) as (st' & H1 & H2 & _).
  exists st'. split; assumption.
Defined.

(** The run of a whole pipeline whose provider call raises: the
    database that leaves context_assembly is the one the run ends with,
    so the run writes no memory after the failure. *)
Corollary run_with_failing_provider {F : Type} {SF : Scalar F} (env : Env F)
          (init s3 : GraphState F) (w w3 : World F) (msg : string) :
  (s1 <- knowledge_retrieval env init ;;
   s2 <- memory_retrieval env s1 ;;
   context_assembly env s2) w = (Ok s3, w3) ->
  llm_create env SYSTEM_PROMPT (format_prompt env (ensure_character_info s3)) = Raise msg ->
  exists final,
    ainvoke (create_dialogue_graph env) init w = (Ok final, w3)
    /\ completed final = true
    /\ response final = Some APOLOGY
    /\ updated_memory final = [].
Proof.
  intros Hpre Hllm.
  pose proof (dialogue_generation_on_failure env s3 w3 msg Hllm) as Hd.
  eexists. split.
  - rewrite ainvoke_five_stages.
    unfold bind in Hpre |- *.
    destruct (knowledge_retrieval env init w) as [[s1 | e] w1]; [| discriminate].
    destruct (memory_retrieval env s1 w1) as [[s2 | e] w2]; [| discriminate].
    rewrite Hpre, Hd.
    rewrite memory_integration_skips; [reflexivity |].
    cbn [error set_response set_error]. apply truthy_str_prefixed. discriminate.
  - repeat split; reflexivity.
Qed.

(** ** Context assembly and the final extraction *)

Section ContextFacts.
Context {F : Type} {SF : Scalar F}.
Variable env : Env F.

Lemma ensure_character_info_knowledge (st : GraphState F) :
  knowledge_context (ensure_character_info st) = knowledge_context st.
Proof. unfold ensure_character_info. destruct (character_info st); reflexivity. Qed.

Lemma ensure_character_info_history (st : GraphState F) :
  conversation_history (ensure_character_info st) = conversation_history st.
Proof. unfold ensure_character_info. destruct (character_info st); reflexivity. Qed.

Lemma ensure_character_info_error (st : GraphState F) :
  error (ensure_character_info st) = error st.
Proof. unfold ensure_character_info. destruct (character_info st); reflexivity. Qed.

(** With no knowledge the rendered block shows the sentinel. *)
Lemma render_context_sentinel (st : GraphState F) (s : string) :
  knowledge_context st = [] ->
  render_context env st = Ok s ->
  PyStr.contains NO_KNOWLEDGE s.
Proof.
  intros Hk Hr. unfold render_context in Hr. rewrite Hk in Hr.
  cbn [render_knowledge obind] in Hr.
  destruct (render_history env (conversation_history st)) as [h | e]; [| discriminate].
  cbn [obind] in Hr. apply Ok_inj in Hr. subst s.
  exists (nl +++ "CHARACTER INFORMATION:" +++ nl
             +++ render_character env (character_info st) +++ nl +++ nl
             +++ "KNOWLEDGE CONTEXT:" +++ nl).
  exists (nl +++ nl +++ render_memories env (character_memories st) +++ nl +++ nl
             +++ h +++ nl +++ nl +++ "USER INPUT:" +++ nl +++ user_input st +++ nl).
  repeat rewrite append_assoc. reflexivity.
Qed.

(** An empty history renders without an error. *)
Lemma render_context_no_history (st : GraphState F) :
  knowledge_context st = [] ->
  truthy (conversation_history st) = false ->
  exists s, render_context env st = Ok s.
Proof.
  intros Hk Hh. unfold render_context, render_history. rewrite Hk, Hh.
  cbn [render_knowledge obind]. eexists. reflexivity.
Qed.

End ContextFacts.

(** C6. For a state whose knowledge list is empty, context_assembly
    never raises and leaves a non-empty assembled context.  When the
    rendering meets no internal error the assembled context is the
    rendered block and contains the "no knowledge available" sentinel;
    an internal error is captured: the assembled context is then the
    string "Error assembling context: ..." and the error field records
    it.  After a knowledge retrieval that failed entirely (no
    conversation history either) the first case applies. *)
Theorem C6_context_assembly_sentinel {F : Type} {SF : Scalar F} (env : Env F)
        (st : GraphState F) (w : World F)
        (Hempty : knowledge_context st = []) :
  exists st',
    context_assembly env st w = (Ok st', w)
    /\ assembled_context st' <> ""
    /\ (forall s, render_context env (ensure_character_info st) = Ok s ->
                  assembled_context st' = s
                  /\ PyStr.contains NO_KNOWLEDGE (assembled_context st')
                  /\ error st' = error st)
    /\ (forall e, render_context env (ensure_character_info st) = Raise e ->
                  assembled_context st' = "Error assembling context: " +++ e
                  /\ error st' = Some ("Context assembly error: " +++ e))
    /\ (truthy (conversation_history st) = false ->
        PyStr.contains NO_KNOWLEDGE (assembled_context st') /\ error st' = error st).
Proof.
  pose proof (ensure_character_info_knowledge st) as Hk. rewrite Hempty in Hk.
  unfold context_assembly, try_catch, bind, lift.
  destruct (render_context env (ensure_character_info st)) as [s | e] eqn:Er.
  - eexists. split; [reflexivity |].
    pose proof (@render_context_sentinel _ _ env _ _ Hk Er) as Hs.
    cbn [assembled_context set_assembled_context error].
    split.
    { destruct Hs as (pre & post & ->). unfold NO_KNOWLEDGE.
      destruct pre; cbn; discriminate. }
    split.
    { intros s' Hs'. inversion Hs'; subst.
      split; [reflexivity |]. split; [assumption |].
      apply ensure_character_info_error. }
    split; [intros e He; discriminate |].
    intros _. split; [assumption | apply ensure_character_info_error].
  - eexists. split; [reflexivity |].
    cbn [assembled_context set_assembled_context error set_error].
    split; [cbn; discriminate |].
    split; [intros s Hs; discriminate |].
    split.
    { intros e' He'. inversion He'; subst. split; reflexivity. }
    intros Hh.
    destruct (render_context_no_history env (ensure_character_info st)) as (s & Hs).
    + assumption.
    + now rewrite ensure_character_info_history.
    + rewrite Hs in Er. discriminate.
Qed.

Lemma C6_context_assembly_sentinel_witness :
  exists st',
    context_assembly Demo.env Demo.degraded_state Demo.empty_world
      = (Ok st', Demo.empty_world)
    /\ PyStr.contains NO_KNOWLEDGE (assembled_context st').
Proof.
  destruct (C6_context_assembly_sentinel Demo.env Demo.degraded_state
              Demo.empty_world eq_refl) as (st' & H1 & _ & _ & _ & H4).
  exists st'. split; [exact H1 | exact (proj1 (H4 eq_refl))].
Defined.
(** ** Cosine similarity *)

Section CosineFacts.
Context {F : Type} {SF : Scalar F}.

(** On vectors of one length the function returns: the guard takes
    the zero-norm case, the division the other. *)
Lemma cosine_similarity_returns (v1 v2 : list F) :
  List.length v1 = List.length v2 ->
  cosine_similarity v1 v2 =
  Ok (if (f_eqb (norm v1) f_zero || f_eqb (norm v2) f_zero)%bool then f_zero
      else f_div (dot v1 v2) (f_mul (norm v1) (norm v2))).
Proof.
  intros Hlen. unfold cosine_similarity.
  rewrite Hlen, Nat.eqb_refl.
  destruct (f_eqb (norm v1) f_zero || f_eqb (norm v2) f_zero)%bool; reflexivity.
Qed.

(** The two copies of the function agree. *)
Lemma cosine_similarity_score_eq (v1 v2 : list F) :
  cosine_similarity_score v1 v2 = cosine_similarity v1 v2.
Proof. reflexivity. Qed.

End CosineFacts.

Lemma Rabs_bounds (x y : R) : (Rabs x <= y)%R -> (- y <= x <= y)%R.
Proof. unfold Rabs. destruct (Rcase_abs x); lra. Qed.

(** The three roundings of a self-similarity: a quotient of the
    squared norm by the rounded square of its rounded root. *)
Lemma three_roundings (u d1 d2 d3 : R) :
  (0 <= u <= 1 / 8)%R ->
  (Rabs d1 <= u)%R -> (Rabs d2 <= u)%R -> (Rabs d3 <= u)%R ->
  (Rabs ((1 + d3) / ((1 + d1) * (1 + d1) * (1 + d2)) - 1) <= 8 * u)%R.
Proof.
  intros Hu H1 H2 H3.
  apply Rabs_bounds in H1, H2, H3.
  set (t := ((1 + d1) * (1 + d1) * (1 + d2))%R).
  assert (Hsq_lo : (1 - 2 * u <= (1 + d1) * (1 + d1))%R) by nra.
  assert (Hsq_hi : ((1 + d1) * (1 + d1) <= 1 + 2 * u + u * u)%R) by nra.
  assert (Hlo : (1 - 3 * u <= t)%R) by (unfold t; nra).
  assert (Hhi : (t <= 1 + 4 * u)%R) by (unfold t; nra).
  assert (Ht : (0 < t)%R) by lra.
  apply Rabs_le. split.
  - apply Rle_trans with ((1 - u) / (1 + 4 * u) - 1)%R.
    + assert (Hq : ((1 - 8 * u) * (1 + 4 * u) <= 1 - u)%R) by nra.
      apply Rplus_le_reg_r with 1%R. ring_simplify.
      apply Rmult_le_reg_r with (1 + 4 * u)%R; [lra |].
      replace ((1 - u) / (1 + 4 * u) * (1 + 4 * u))%R with (1 - u)%R by (field; lra).
      lra.
    + apply Rplus_le_compat_r.
      apply Rle_trans with ((1 - u) / t)%R.
      * unfold Rdiv. apply Rmult_le_compat_l; [lra |].
        apply Rinv_le_contravar; lra.
      * unfold Rdiv. apply Rmult_le_compat_r; [| lra].
        apply Rlt_le, Rinv_0_lt_compat, Ht.
  - apply Rle_trans with ((1 + u) / (1 - 3 * u) - 1)%R.
    + apply Rplus_le_compat_r.
      apply Rle_trans with ((1 + u) / t)%R.
      * unfold Rdiv. apply Rmult_le_compat_r; [| lra].
        apply Rlt_le, Rinv_0_lt_compat, Ht.
      * unfold Rdiv. apply Rmult_le_compat_l; [lra |].
        apply Rinv_le_contravar; lra.
    + assert (Hq : (1 + u <= (1 + 8 * u) * (1 - 3 * u))%R) by nra.
      apply Rplus_le_reg_r with 1%R. ring_simplify.
      apply Rmult_le_reg_r with (1 - 3 * u)%R; [lra |].
      replace ((1 + u) / (1 - 3 * u) * (1 - 3 * u))%R with (1 + u)%R by (field; lra).
      lra.
Qed.

(** The self-similarity under roundings of bounded relative error. *)
Lemma self_similarity_close {F : Type} {SF : Scalar F} (val : F -> R) (u : R)
      (v : list F) :
  (0 <= u <= 1 / 8)%R ->
  (0 < val (dot v v))%R ->
  f_eqb (norm v) f_zero = false ->
  close_to u (val (norm v)) (R_sqrt.sqrt (val (dot v v))) ->
  close_to u (val (f_mul (norm v) (norm v))) (val (norm v) * val (norm v)) ->
  close_to u (val (f_div (dot v v) (f_mul (norm v) (norm v))))
           (val (dot v v) / val (f_mul (norm v) (norm v))) ->
  exists x,
    cosine_similarity v v = Ok x /\ (Rabs (val x - 1) <= 8 * u)%R.
Proof.
  intros Hu Hd Hguard (d1 & H1 & E1) (d2 & H2 & E2) (d3 & H3 & E3).
  rewrite cosine_similarity_returns by reflexivity.
  rewrite Hguard. cbn [orb]. eexists. split; [reflexivity |].
  rewrite E3, E2, E1.
  set (d := val (dot v v)) in *.
  assert (Hs : (R_sqrt.sqrt d * R_sqrt.sqrt d = d)%R) by (apply sqrt_sqrt; lra).
  assert (Hs0 : (0 < R_sqrt.sqrt d)%R) by (apply sqrt_lt_R0; exact Hd).
  pose proof (Rabs_bounds _ _ H1) as B1. pose proof (Rabs_bounds _ _ H2) as B2.
  replace (d / (R_sqrt.sqrt d * (1 + d1) * (R_sqrt.sqrt d * (1 + d1)) * (1 + d2)) * (1 + d3))%R
    with ((1 + d3) / ((1 + d1) * (1 + d1) * (1 + d2)))%R.
  - now apply three_roundings.
  - rewrite <- Hs at 1. field. repeat split; lra.
Qed.

(** C8 (as the code has it).  On two vectors of one length both cosine
    functions return a number and never raise; the result is 0.0
    whenever the computed norm of either vector is zero, because the
    guard precedes the division.  The similarity of a vector with
    itself is computed from the squared norm [d = np.dot(v, v)] by a
    square root, a product and a quotient: when [d] is positive, the
    computed norm is not zero, and each of the three results has a
    relative error of at most [u <= 1/8], the similarity returned is
    within [8 u] of 1. *)
Theorem C8_cosine_similarity :
  (forall (F : Type) (SF : Scalar F) (v1 v2 : list F),
      List.length v1 = List.length v2 ->
      (exists x, cosine_similarity v1 v2 = Ok x /\ cosine_similarity_score v1 v2 = Ok x)
      /\ (f_eqb (norm v1) f_zero = true \/ f_eqb (norm v2) f_zero = true ->
          cosine_similarity v1 v2 = Ok f_zero
          /\ cosine_similarity_score v1 v2 = Ok f_zero))
  /\ (forall (F : Type) (SF : Scalar F) (val : F -> R) (u : R) (v : list F),
         (0 <= u <= 1 / 8)%R ->
         (0 < val (dot v v))%R ->
         f_eqb (norm v) f_zero = false ->
         close_to u (val (norm v)) (R_sqrt.sqrt (val (dot v v))) ->
         close_to u (val (f_mul (norm v) (norm v))) (val (norm v) * val (norm v)) ->
         close_to u (val (f_div (dot v v) (f_mul (norm v) (norm v))))
                  (val (dot v v) / val (f_mul (norm v) (norm v))) ->
         exists x,
           cosine_similarity v v = Ok x
           /\ cosine_similarity_score v v = Ok x
           /\ (Rabs (val x - 1) <= 8 * u)%R).
Proof.
  split.
  - intros F SF v1 v2 Hlen.
    change (cosine_similarity_score v1 v2) with (cosine_similarity v1 v2).
    rewrite (cosine_similarity_returns v1 v2 Hlen). split.
    + eexists. split; reflexivity.
    + intros Hz.
      assert (Hg : (f_eqb (norm v1) f_zero || f_eqb (norm v2) f_zero)%bool = true).
      { destruct Hz as [-> | ->]; [reflexivity | apply orb_true_r]. }
      rewrite Hg. split; reflexivity.
  - intros F SF val u v Hu Hd Hg H1 H2 H3.
    change (cosine_similarity_score v v) with (cosine_similarity v v).
    destruct (self_similarity_close val u v Hu Hd Hg H1 H2 H3) as (x & E & Hx).
    exists x. repeat split; assumption.
Qed.

(** *** The rounding bounds on binary64 numbers *)

Lemma float_value_finite (x : float) (s : bool) (m : positive) (e : Z) :
  Prim2SF x = S754_finite s m e ->
  float_value x
  = let magnitude :=
      if e <? 0 then (IZR (Zpos m) / IZR (2 ^ (- e)))%R else IZR (Zpos m * 2 ^ e) in
    if s then (- magnitude)%R else magnitude.
Proof. intros H. unfold float_value. now rewrite H. Qed.

Lemma le_mul_sqrt (a b c : R) :
  (0 <= b)%R -> (0 <= c)%R -> (a * a <= b * b * c)%R -> (a <= b * R_sqrt.sqrt c)%R.
Proof.
  intros Hb Hc H. destruct (Rle_dec a 0) as [Ha | Ha].
  - apply Rle_trans with 0%R; [exact Ha |].
    apply Rmult_le_pos; [exact Hb | apply sqrt_pos].
  - apply Rnot_le_lt in Ha.
    rewrite <- (sqrt_square a) by lra. rewrite <- (sqrt_square b) at 1 by exact Hb.
    rewrite <- sqrt_mult by nra. apply sqrt_le_1_alt. exact H.
Qed.

Lemma mul_sqrt_le (a b c : R) :
  (0 <= a)%R -> (0 <= b)%R -> (0 <= c)%R -> (b * b * c <= a * a)%R ->
  (b * R_sqrt.sqrt c <= a)%R.
Proof.
  intros Ha Hb Hc H.
  rewrite <- (sqrt_square a) by lra. rewrite <- (sqrt_square b) at 1 by exact Hb.
  rewrite <- sqrt_mult by nra. apply sqrt_le_1_alt. exact H.
Qed.

(** A positive number between [(1 - u) y] and [(1 + u) y] is [y] up
    to the relative error [u]. *)
Lemma close_to_bounds (u x y : R) :
  (0 < y)%R -> ((1 - u) * y <= x <= (1 + u) * y)%R -> close_to u x y.
Proof.
  intros Hy [Hlo Hhi]. exists (x / y - 1)%R. split.
  - apply Rabs_le. split.
    + apply Rplus_le_reg_r with 1%R. ring_simplify.
      apply Rmult_le_reg_r with y; [exact Hy |].
      unfold Rdiv. rewrite Rmult_assoc, Rinv_l by lra. lra.
    + apply Rplus_le_reg_r with 1%R. ring_simplify.
      apply Rmult_le_reg_r with y; [exact Hy |].
      unfold Rdiv. rewrite Rmult_assoc, Rinv_l by lra. lra.
  - field. lra.
Qed.

(** The same for a square root, from bounds on the square. *)
Lemma close_to_sqrt (u s c : R) :
  (0 <= u < 1)%R -> (0 < s)%R -> (0 < c)%R ->
  ((1 - u) * (1 - u) * c <= s * s)%R ->
  (s * s <= (1 + u) * (1 + u) * c)%R ->
  close_to u s (R_sqrt.sqrt c).
Proof.
  intros Hu Hs Hc Hlo Hhi.
  apply close_to_bounds; [apply sqrt_lt_R0; exact Hc |]. split.
  - apply mul_sqrt_le; lra.
  - apply le_mul_sqrt; lra.
Qed.

Ltac float_values :=
  cbv beta iota zeta delta
      [Z.ltb Z.compare Z.opp Z.pow Z.pow_pos Pos.iter Z.mul Pos.mul].

(** In binary64 the vector [[1; 1; 1]] has the squared norm 3; its
    norm, the product of the norms and the quotient are each rounded,
    within the unit roundoff [2^-53], and the similarity of the vector
    with itself, 1.0000000000000002, is within [2^-50] of 1. *)
Lemma C8_cosine_similarity_witness :
  exists x,
    cosine_similarity [1%float; 1%float; 1%float] [1%float; 1%float; 1%float] = Ok x
    /\ x = 0x1.0000000000001p+0%float
    /\ (Rabs (float_value x - 1) <= 8 * unit_roundoff)%R.
Proof.
  set (v := [1%float; 1%float; 1%float]).
  destruct C8_cosine_similarity as [_ H].
  assert (Ed : float_value (dot v v) = 3%R).
  { rewrite (float_value_finite _ false 6755399441055744 (-51))
      by (vm_compute; reflexivity).
    float_values. lra. }
  assert (Es : float_value (norm v) = (7800463371553962 / 4503599627370496)%R).
  { rewrite (float_value_finite _ false 7800463371553962 (-52))
      by (vm_compute; reflexivity).
    float_values. reflexivity. }
  assert (Ep : float_value (f_mul (norm v) (norm v))
               = (6755399441055743 / 2251799813685248)%R).
  { rewrite (float_value_finite _ false 6755399441055743 (-51))
      by (vm_compute; reflexivity).
    float_values. reflexivity. }
  assert (Er : float_value (f_div (dot v v) (f_mul (norm v) (norm v)))
               = (4503599627370497 / 4503599627370496)%R).
  { rewrite (float_value_finite _ false 4503599627370497 (-52))
      by (vm_compute; reflexivity).
    float_values. reflexivity. }
  assert (Eu : unit_roundoff = (/ 9007199254740992)%R).
  { unfold unit_roundoff. float_values. reflexivity. }
  destruct (H float Scalar_float float_value unit_roundoff v) as (x & E & _ & Hx).
  - rewrite Eu. lra.
  - rewrite Ed. lra.
  - vm_compute. reflexivity.
  - rewrite Es, Ed, Eu. apply close_to_sqrt; lra.
  - rewrite Ep, Es, Eu. apply close_to_bounds; lra.
  - rewrite Er, Ed, Ep, Eu. apply close_to_bounds; lra.
  - exists x. split; [exact E |]. split; [| exact Hx].
    vm_compute in E. injection E as <-. reflexivity.
Defined.

(** C8, the claim as stated, fails in binary64 at both ends of the
    range.  The squared norm of the one-element vector [2^600]
    overflows: its norm is infinite (not zero) and its similarity
    with itself is not a number.  The squared norm of the one-element
    vector [2^-600], which is not the zero vector, underflows to
    zero: the guard takes it for a vector of zero norm and its
    similarity with itself is 0.0. *)
Lemma C8_self_similarity_overflow_underflow :
  (exists x,
      cosine_similarity [0x1p+600%float] [0x1p+600%float] = Ok x
      /\ f_eqb (norm [0x1p+600%float]) f_zero = false
      /\ PrimFloat.is_nan x = true
      /\ PrimFloat.eqb x 1%float = false)
  /\ (cosine_similarity [0x1p-600%float] [0x1p-600%float] = Ok 0%float
      /\ PrimFloat.eqb 0x1p-600%float 0%float = false
      /\ f_eqb (norm [0x1p-600%float]) f_zero = true).
Proof.
  split.
  - eexists. split; [vm_compute; reflexivity |].
    repeat split; vm_compute; reflexivity.
  - repeat split; vm_compute; reflexivity.
Qed.

(** ** The metadata filter of knowledge retrieval *)

Lemma prefix_split (p s : string) :
  String.prefix p s = true -> s = p +++ PyStr.drop (String.length p) s.
Proof.
  revert s. induction p as [| c p IH]; intros s H.
  - destruct s; reflexivity.
  - destruct s as [| c' s']; [discriminate |].
    cbn [String.prefix] in H.
    destruct (Ascii.ascii_dec c c') as [E | Hne]; [| discriminate].
    subst c'. cbn [String.length PyStr.drop String.append].
    f_equal. apply IH. exact H.
Qed.

Lemma prefix_append (p r : string) : String.prefix p (p +++ r) = true.
Proof.
  induction p as [| c p IH].
  - destruct r; reflexivity.
  - cbn [String.append String.prefix].
    destruct (Ascii.ascii_dec c c) as [_ | Hne]; [exact IH | contradiction].
Qed.

(** Skipping the rest of a matched occurrence. *)
Lemma replace_from_skip (old new p r : string) :
  PyStr.replace_from old new (p +++ r) (String.length p) = PyStr.replace_from old new r 0.
Proof.
  induction p as [| c p IH].
  - destruct r; reflexivity.
  - cbn [String.append String.length PyStr.replace_from]. exact IH.
Qed.

Lemma replace_at_occurrence (c : ascii) (old' new r : string) :
  PyStr.replace_from (String c old') new (String c old' +++ r) 0 =
  new +++ PyStr.replace_from (String c old') new r 0.
Proof.
  cbn [String.append PyStr.replace_from].
  change (String c (old' +++ r)) with (String c old' +++ r).
  rewrite prefix_append.
  cbn [String.length]. rewrite Nat.sub_1_r. cbn [Nat.pred].
  now rewrite replace_from_skip.
Qed.

(** Where the searched text does not occur, [replace] changes nothing. *)
Lemma replace_absent (old new s : string) :
  PyStr.contains_b old s = false -> PyStr.replace_from old new s 0 = s.
Proof.
  induction s as [| c s IH]; intros H.
  - reflexivity.
  - cbn [PyStr.contains_b] in H. apply orb_false_iff in H. destruct H as [Hp Hc].
    cbn [PyStr.replace_from]. rewrite Hp. f_equal. apply IH. exact Hc.
Qed.

(** On an id in which ['character_'] occurs as the prefix only, the
    code derives the name the specification describes. *)
Lemma character_name_of_id_spec (character_id : string) :
  PyStr.startswith character_id "character_" = true ->
  PyStr.contains_b "character_" (PyStr.drop 10 character_id) = false ->
  character_name_of_id character_id = display_name_spec character_id.
Proof.
  intros Hp Hc. unfold character_name_of_id, display_name_spec.
  unfold PyStr.startswith in Hp. apply prefix_split in Hp.
  change (String.length "character_") with 10%nat in *.
  set (rest := PyStr.drop 10 character_id) in *.
  rewrite Hp. unfold PyStr.replace at 2.
  rewrite replace_at_occurrence.
  rewrite (replace_absent _ "" rest Hc).
  reflexivity.
Qed.

(** C9.  The query of the knowledge_retrieval stage has [top_k = 5];
    for an id that starts with ['character_'] its filter is the name
    derived from the id, for any other id the name of the character
    record.  The derivation yields 'Iron Man' for 'character_iron_man',
    but it removes every occurrence of ['character_'], not the prefix
    alone: for 'character_the_character_one' the code filters by
    'The One' where stripping the prefix gives 'The Character One'. *)
Theorem C9_name_derivation :
  character_name_of_id "character_iron_man" = "Iron Man"
  /\ character_name_of_id "character_the_character_one" = "The One"
  /\ display_name_spec "character_the_character_one" = "The Character One"
  /\ (forall (F : Type) (SF : Scalar F) (env : Env F) (st : GraphState F) (info : dict F),
         top_k (knowledge_query_of env st info) = 5
         /\ filter_metadata (knowledge_query_of env st info) =
            Some [("character",
                    if PyStr.startswith (character_id st) "character_"
                    then PStr (character_name_of_id (character_id st))
                    else dict_get_default "name" (PStr "") info)]).
Proof.
  split; [reflexivity |]. split; [reflexivity |]. split; [reflexivity |].
  intros F SF env st info. split; [reflexivity |].
  unfold knowledge_query_of. cbn [filter_metadata].
  destruct (PyStr.startswith (character_id st) "character_"); reflexivity.
Qed.

(** ** Sorting, slicing and dictionaries *)

Section SortFacts.
Context {A : Type} (lt : A -> A -> bool).

Lemma insert_desc_perm (x : A) (l : list A) :
  Permutation (insert_desc lt x l) (x :: l).
Proof.
  induction l as [| y l IH]; simpl.
  - apply Permutation_refl.
  - destruct (lt x y).
    + apply Permutation_trans with (y :: x :: l).
      * apply perm_skip. exact IH.
      * apply perm_swap.
    + apply Permutation_refl.
Qed.

Lemma sort_desc_perm (l : list A) : Permutation (sort_desc lt l) l.
Proof.
  induction l as [| x l IH]; simpl.
  - apply perm_nil.
  - apply Permutation_trans with (x :: sort_desc lt l).
    + apply insert_desc_perm.
    + apply perm_skip. exact IH.
Qed.

Lemma sort_desc_length (l : list A) : List.length (sort_desc lt l) = List.length l.
Proof. apply Permutation_length, sort_desc_perm. Qed.

Lemma sort_desc_In (x : A) (l : list A) : In x (sort_desc lt l) <-> In x l.
Proof.
  split; apply Permutation_in; [| apply Permutation_sym]; apply sort_desc_perm.
Qed.

(** The order of the result: no element is strictly below a later one.
    It needs [lt] to behave as a strict weak order on the elements
    that are sorted. *)
Variable P : A -> Prop.
Hypothesis lt_asym : forall a b, P a -> P b -> lt a b = true -> lt b a = false.
Hypothesis lt_negtrans :
  forall a b c, P a -> P b -> P c -> lt a b = false -> lt b c = false -> lt a c = false.

Lemma insert_desc_sorted (x : A) (l : list A) :
  P x -> Forall P l ->
  StronglySorted (not_below lt) l -> StronglySorted (not_below lt) (insert_desc lt x l).
Proof.
  intros Px Pl Hs. induction Hs as [| y l Hs IH Hy]; simpl.
  - constructor; constructor.
  - inversion Pl as [| ? ? Py Pl']; subst.
    destruct (lt x y) eqn:E.
    + constructor; [apply IH; assumption |].
      apply Forall_forall. intros z Hz.
      apply (Permutation_in _ (insert_desc_perm x l)) in Hz.
      destruct Hz as [<- | Hz].
      * apply lt_asym; assumption.
      * rewrite Forall_forall in Hy. apply Hy. exact Hz.
    + constructor; [constructor; assumption |].
      constructor; [exact E |].
      apply Forall_forall. intros z Hz.
      rewrite Forall_forall in Hy, Pl'.
      apply (lt_negtrans x y z); auto. apply Hy. exact Hz.
Qed.

Lemma sort_desc_sorted (l : list A) :
  Forall P l -> StronglySorted (not_below lt) (sort_desc lt l).
Proof.
  induction l as [| x l IH]; intros Hl; simpl.
  - constructor.
  - inversion Hl as [| ? ? Px Pl]; subst. apply insert_desc_sorted.
    + exact Px.
    + apply Forall_forall. intros z Hz. apply (proj1 (sort_desc_In z l)) in Hz.
      rewrite Forall_forall in Pl. apply Pl. exact Hz.
    + apply IH. exact Pl.
Qed.

End SortFacts.

Lemma In_firstn {A} (x : A) (n : nat) (l : list A) : In x (firstn n l) -> In x l.
Proof.
  revert n. induction l as [| y l IH]; intros [| n] H; simpl in *; try contradiction.
  destruct H as [-> | H]; [now left | right; eauto].
Qed.

Lemma StronglySorted_firstn {A} (R : A -> A -> Prop) (n : nat) (l : list A) :
  StronglySorted R l -> StronglySorted R (firstn n l).
Proof.
  intros Hs. revert n. induction Hs as [| x l Hs IH Hx]; intros [| n]; simpl;
    try constructor.
  - apply IH.
  - apply Forall_forall. intros y Hy. rewrite Forall_forall in Hx.
    apply Hx. eapply In_firstn; eauto.
Qed.

Lemma slice_to_In {A} (x : A) (n : Z) (l : list A) : In x (slice_to n l) -> In x l.
Proof. unfold slice_to. destruct (n <? 0); apply In_firstn. Qed.

Lemma slice_to_sorted {A} (R : A -> A -> Prop) (n : Z) (l : list A) :
  StronglySorted R l -> StronglySorted R (slice_to n l).
Proof. unfold slice_to. destruct (n <? 0); apply StronglySorted_firstn. Qed.

(** A slice with a bound that is not negative keeps the first
    [min n (len l)] elements. *)
Lemma slice_to_length {A} (n : Z) (l : list A) :
  0 <= n -> List.length (slice_to n l) = Nat.min (Z.to_nat n) (List.length l).
Proof.
  intros Hn. unfold slice_to.
  destruct (n <? 0) eqn:E; [apply Z.ltb_lt in E; lia |].
  apply length_firstn.
Qed.

Lemma map_outcome_Forall2 {A B} (f : A -> Outcome B) (l : list A) (l' : list B) :
  map_outcome f l = Ok l' -> Forall2 (fun x y => f x = Ok y) l l'.
Proof.
  revert l'. induction l as [| x l IH]; intros l' H; simpl in H.
  - inversion H. constructor.
  - destruct (f x) as [y | e] eqn:E; [| discriminate].
    destruct (map_outcome f l) as [ys | e]; [| discriminate].
    inversion H; subst. constructor; auto.
Qed.

Lemma Forall2_length_eq {A B} (R : A -> B -> Prop) (l : list A) (l' : list B) :
  Forall2 R l l' -> List.length l = List.length l'.
Proof. induction 1; simpl; congruence. Qed.

Lemma Forall2_In_r {A B} (R : A -> B -> Prop) (l : list A) (l' : list B) (y : B) :
  Forall2 R l l' -> In y l' -> exists x, In x l /\ R x y.
Proof.
  induction 1 as [| a b l l' Hab _ IH]; intros Hin; simpl in *.
  - contradiction.
  - destruct Hin as [<- | Hin].
    + exists a. auto.
    + destruct (IH Hin) as (x & Hx & Hr). exists x. auto.
Qed.

Section DictFacts.
Context {F : Type}.

Lemma dict_get_set_same (k : string) (v : pyval F) (d : dict F) :
  dict_get k (dict_set k v d) = Some v.
Proof.
  induction d as [| [k' v'] d IH]; simpl.
  - now rewrite String.eqb_refl.
  - destruct (String.eqb k k') eqn:E; simpl; rewrite ?E, ?String.eqb_refl; auto.
Qed.

Lemma dict_get_set_other (k k' : string) (v : pyval F) (d : dict F) :
  k' <> k -> dict_get k' (dict_set k v d) = dict_get k' d.
Proof.
  intros Hne. induction d as [| [k0 v0] d IH]; simpl.
  - apply String.eqb_neq in Hne. now rewrite Hne.
  - destruct (String.eqb k k0) eqn:E; simpl.
    + apply String.eqb_eq in E. subst k0.
      apply String.eqb_neq in Hne. now rewrite Hne.
    + destruct (String.eqb k' k0); auto.
Qed.

End DictFacts.

(** ** The sort of Python *)

Lemma flat_map_nth_error_from {A} (l1 l2 : list A) :
  flat_map (fun i => match nth_error (l1 ++ l2) i with Some a => [a] | None => [] end)
           (seq (List.length l1) (List.length l2))
  = l2.
Proof.
  revert l1. induction l2 as [| x l2 IH]; intros l1; simpl.
  - reflexivity.
  - rewrite nth_error_app2 by lia. rewrite Nat.sub_diag. simpl. f_equal.
    specialize (IH (l1 ++ [x])). rewrite <- app_assoc in IH. simpl in IH.
    rewrite length_app in IH. simpl in IH. rewrite Nat.add_1_r in IH. exact IH.
Qed.

Lemma flat_map_nth_error {A} (l : list A) :
  flat_map (fun i => match nth_error l i with Some a => [a] | None => [] end)
           (seq 0 (List.length l))
  = l.
Proof. exact (flat_map_nth_error_from [] l). Qed.

(** A rearrangement keeps the elements. *)
Lemma rearrange_perm {A} (positions : list nat) (l : list A) :
  Permutation (rearrange positions l) l.
Proof.
  unfold rearrange.
  destruct (Nat.eqb (List.length positions) (List.length l)) eqn:Elen; simpl;
    [| apply Permutation_refl].
  destruct (forallb _ (seq 0 (List.length l))) eqn:Eall; [| apply Permutation_refl].
  apply Nat.eqb_eq in Elen. rewrite forallb_forall in Eall.
  assert (Hp : Permutation (seq 0 (List.length l)) positions).
  { apply NoDup_Permutation_bis.
    - apply seq_NoDup.
    - rewrite length_seq. lia.
    - intros i Hi. apply Eall in Hi. apply existsb_exists in Hi.
      destruct Hi as (j & Hj & E). apply Nat.eqb_eq in E. now subst j. }
  eapply Permutation_trans;
    [apply Permutation_flat_map, Permutation_sym, Hp |].
  rewrite flat_map_nth_error. apply Permutation_refl.
Qed.

Section SortByKey.
Context {F : Type} {SF : Scalar F}.
Variable env : Env F.

(** A sort, when it returns, returns the elements it was given. *)
Lemma sort_by_key_perm {A} (key : A -> pyval F) (l l' : list A) :
  sort_by_key env key l = Ok l' -> Permutation l' l.
Proof.
  unfold sort_by_key.
  destruct (Nat.ltb (List.length l) 2).
  { intros H. inversion H. apply Permutation_refl. }
  destruct (forallb (fun a => orderly (key a)) l).
  { intros H. inversion H. apply sort_desc_perm. }
  destruct (forallb _ l && no_rise _)%bool.
  { intros H. inversion H. apply Permutation_refl. }
  destruct (py_sort env (map key l)) as [positions | e]; simpl; intros H; inversion H.
  apply rearrange_perm.
Qed.

Lemma orderly_number (v : pyval F) :
  orderly v = true -> exists x, number_of v = Some x /\ f_eqb x x = true.
Proof.
  unfold orderly. intros H. apply andb_prop in H. destruct H as [_ H].
  destruct (number_of v) as [x |]; [| discriminate]. now exists x.
Qed.

(** Orderly keys leave the sort in descending order. *)
Lemma sort_by_key_sorted {A} (key : A -> pyval F) (l l' : list A) :
  ordered_numbers F ->
  Forall (fun a => orderly (key a) = true) l ->
  sort_by_key env key l = Ok l' ->
  descending key l'.
Proof.
  intros [Hasym Hneg] Hall. unfold sort_by_key, descending.
  destruct (Nat.ltb (List.length l) 2) eqn:Eshort.
  { intros H. inversion H; subst l'. apply Nat.ltb_lt in Eshort.
    destruct l as [| x [| y l]]; simpl in Eshort; try lia; repeat constructor. }
  assert (Eall : forallb (fun a => orderly (key a)) l = true).
  { apply forallb_forall. now apply Forall_forall. }
  rewrite Eall. intros H. inversion H; subst l'.
  apply (sort_desc_sorted (fun a b => key_lt (key a) (key b))
                          (fun a => orderly (key a) = true)).
  - intros a b Pa Pb. unfold key_lt.
    destruct (orderly_number _ Pa) as (x & -> & Hx).
    destruct (orderly_number _ Pb) as (y & -> & Hy). now apply Hasym.
  - intros a b c Pa Pb Pc. unfold key_lt.
    destruct (orderly_number _ Pa) as (x & -> & Hx).
    destruct (orderly_number _ Pb) as (y & -> & Hy).
    destruct (orderly_number _ Pc) as (z & -> & Hz). now apply Hneg.
  - exact Hall.
Qed.

End SortByKey.

(** *** The order of binary64

    The comparison of two numbers that are not NaN is the comparison
    of their sign, exponent and mantissa, in this order. *)

Definition sf_key (f : spec_float) : Z * (Z * Z) :=
  match f with
  | S754_nan => (0, (0, 0))
  | S754_zero _ => (0, (0, 0))
  | S754_infinity true => (-2, (0, 0))
  | S754_infinity false => (2, (0, 0))
  | S754_finite true m e => (-1, (- e, - Zpos m))
  | S754_finite false m e => (1, (e, Zpos m))
  end.

Definition lex_lt (a b : Z * (Z * Z)) : Prop :=
  fst a < fst b
  \/ (fst a = fst b
      /\ (fst (snd a) < fst (snd b)
          \/ (fst (snd a) = fst (snd b) /\ snd (snd a) < snd (snd b)))).

Lemma SFltb_key (x y : spec_float) :
  x <> S754_nan -> y <> S754_nan ->
  (SFltb x y = true <-> lex_lt (sf_key x) (sf_key y)).
Proof.
  intros Hx Hy. unfold SFltb, lex_lt.
  destruct x as [sx | sx | | sx mx ex], y as [sy | sy | | sy my ey];
    try congruence; cbn [SFcompare sf_key fst snd];
    try (destruct sx); try (destruct sy); cbn [sf_key fst snd];
    try (split; [discriminate | lia]); try (split; [reflexivity | lia]);
    try (split; [intros _; lia | reflexivity]).
  - destruct (Z.compare_spec ex ey) as [He | He | He].
    + change (Pos.compare_cont Eq mx my) with (Pos.compare mx my).
      destruct (Pos.compare_spec mx my) as [Hm | Hm | Hm]; cbn;
        (split; [try discriminate; intros _; lia | try reflexivity; lia]).
    + split; [discriminate | lia].
    + split; [intros _; lia | reflexivity].
  - destruct (Z.compare_spec ex ey) as [He | He | He].
    + change (Pos.compare_cont Eq mx my) with (Pos.compare mx my).
      destruct (Pos.compare_spec mx my) as [Hm | Hm | Hm]; cbn;
        (split; [try discriminate; intros _; lia | try reflexivity; lia]).
    + split; [intros _; lia | reflexivity].
    + split; [discriminate | lia].
Qed.

Lemma eqb_refl_not_nan (x : float) :
  PrimFloat.eqb x x = true -> Prim2SF x <> S754_nan.
Proof. rewrite eqb_spec. intros H E. rewrite E in H. discriminate. Qed.

Lemma float_ltb_asym (x y : float) :
  PrimFloat.eqb x x = true -> PrimFloat.eqb y y = true ->
  PrimFloat.ltb x y = true -> PrimFloat.ltb y x = false.
Proof.
  intros Hx Hy H. apply eqb_refl_not_nan in Hx, Hy.
  rewrite ltb_spec in *.
  apply (SFltb_key _ _ Hx Hy) in H.
  destruct (SFltb (Prim2SF y) (Prim2SF x)) eqn:E; [| reflexivity].
  apply (SFltb_key _ _ Hy Hx) in E. unfold lex_lt in *. lia.
Qed.

Lemma float_ltb_negtrans (x y z : float) :
  PrimFloat.eqb x x = true -> PrimFloat.eqb y y = true -> PrimFloat.eqb z z = true ->
  PrimFloat.ltb x y = false -> PrimFloat.ltb y z = false -> PrimFloat.ltb x z = false.
Proof.
  intros Hx Hy Hz H1 H2. apply eqb_refl_not_nan in Hx, Hy, Hz.
  rewrite ltb_spec in *.
  destruct (SFltb (Prim2SF x) (Prim2SF z)) eqn:E; [| reflexivity].
  apply (SFltb_key _ _ Hx Hz) in E.
  assert (N1 : ~ lex_lt (sf_key (Prim2SF x)) (sf_key (Prim2SF y))).
  { intros C. apply (SFltb_key _ _ Hx Hy) in C. congruence. }
  assert (N2 : ~ lex_lt (sf_key (Prim2SF y)) (sf_key (Prim2SF z))).
  { intros C. apply (SFltb_key _ _ Hy Hz) in C. congruence. }
  unfold lex_lt in *. lia.
Qed.

(** Binary64 orders its numbers, whatever [np.dot] computes. *)
Lemma float_ordered (np_dot : list float -> list float -> float) :
  @ordered_numbers float (Scalar_float_with np_dot).
Proof.
  split.
  - intros x y. apply float_ltb_asym.
  - intros x y z. apply float_ltb_negtrans.
Qed.

(** ** Knowledge retrieval *)

Section RetrievalFacts.
Context {F : Type} {SF : Scalar F}.
Variable env : Env F.

Lemma get_embedding_returns (text : string) (w : World F) :
  get_embedding env text w = (Ok (embedding_of env text), w).
Proof.
  unfold get_embedding, embedding_of, try_catch, raise, lift, ret.
  destruct (encoder env) as [encode |]; [| reflexivity].
  destruct (encode text); reflexivity.
Qed.

Lemma create_embedding_returns (text : string) (w : World F) :
  create_embedding env text w = (Ok (embedding_of env text), w).
Proof. unfold create_embedding, try_catch. now rewrite get_embedding_returns. Qed.

Lemma same_data_refl (w : World F) : same_data w w.
Proof. repeat split. Qed.

Lemma db_call_same_data (w : World F) :
  exists o w', db_call w = (o, w') /\ same_data w w'.
Proof.
  unfold db_call. destruct (faults w) as [| [msg |] rest].
  - exists (Ok tt), w. split; [reflexivity | apply same_data_refl].
  - eexists _, _. split; [reflexivity | repeat split].
  - eexists _, _. split; [reflexivity | repeat split].
Qed.

Lemma db_call_quiet (w : World F) : faults w = [] -> db_call w = (Ok tt, w).
Proof. intros H. unfold db_call. now rewrite H. Qed.

(** What [retrieve_similar] returns: nothing, or the slice of the
    ranking of the first 100 documents that match the filter. *)
Lemma retrieve_similar_cases (q : KnowledgeQuery F) (w w' : World F)
      (res : list (KnowledgeChunk F)) :
  retrieve_similar env q w = (Ok res, w') ->
  res = []
  \/ exists ranked,
       rank_chunks env (clock w) (embedding_of env (query q))
                   (fetched env q w) = Ok ranked
       /\ res = slice_to (top_k q) ranked.
Proof.
  unfold fetched, matching.
  unfold retrieve_similar. unfold bind at 1. rewrite get_embedding_returns.
  unfold bind at 1, count_documents. unfold bind at 1.
  destruct (db_call_same_data w) as (o1 & w1 & E1 & D1). rewrite E1.
  destruct o1 as [[] | e1]; [| discriminate].
  unfold bind at 1, get_world, ret at 1.
  unfold try_catch, find_query. unfold bind at 1. unfold bind at 1.
  destruct (db_call_same_data w1) as (o2 & w2 & E2 & D2). rewrite E2.
  destruct o2 as [[] | e2].
  - unfold bind at 1, lift at 1.
    destruct (read_filter env (filter_query_of q)) as [selects | e3].
    + unfold bind, get_world, ret, utcnow, lift.
      destruct D1 as (K1 & _ & _ & _ & _ & C1 & _).
      destruct D2 as (K2 & _ & _ & _ & _ & C2 & _).
      cbn [coll_get]. rewrite K2, K1, C2, C1.
      destruct (rank_chunks _ _ _ _) as [ranked | e] eqn:Er; intros H; inversion H; subst.
      * right. exists ranked. split; reflexivity.
      * left. reflexivity.
    + unfold ret. intros H. inversion H. left. reflexivity.
  - unfold ret. intros H. inversion H. left. reflexivity.
Qed.

(** With a reachable database the result is exactly that slice. *)
Lemma retrieve_similar_quiet (q : KnowledgeQuery F) (w : World F)
      (ranked : list (KnowledgeChunk F)) :
  faults w = [] ->
  (exists selects, read_filter env (filter_query_of q) = Ok selects) ->
  rank_chunks env (clock w) (embedding_of env (query q))
              (fetched env q w) = Ok ranked ->
  retrieve_similar env q w = (Ok (slice_to (top_k q) ranked), w).
Proof.
  intros Hq [selects Hf] Hr. unfold fetched, matching in Hr. rewrite Hf in Hr.
  unfold retrieve_similar. unfold bind at 1. rewrite get_embedding_returns.
  unfold count_documents, find_query, try_catch, bind.
  rewrite (db_call_quiet w Hq). unfold get_world, ret, utcnow, lift.
  rewrite (db_call_quiet w Hq). rewrite Hf. cbn [coll_get]. rewrite Hr. reflexivity.
Qed.

Lemma KnowledgeChunk_of_id (now : N) (d : Doc F) (c : KnowledgeChunk F) :
  KnowledgeChunk_of env now (doc_to_dict d) = Ok c -> chunk_id c = str_id (doc_id d).
Proof.
  unfold KnowledgeChunk_of, doc_to_dict. rewrite dict_get_set_same.
  intros H.
  repeat match type of H with
         | match ?x with _ => _ end = _ => destruct x; try discriminate
         end.
  all: inversion H; reflexivity.
Qed.

Lemma score_chunk_id (qe : list F) (c c' : KnowledgeChunk F) :
  score_chunk qe c = Ok c' -> chunk_id c' = chunk_id c.
Proof.
  unfold score_chunk. intros H.
  destruct (vector_embedding c) as [[| x v] |].
  - inversion H; reflexivity.
  - destruct (cosine_similarity qe (x :: v)); inversion H; reflexivity.
  - inversion H; reflexivity.
Qed.

Lemma sort_chunks_perm (l l' : list (KnowledgeChunk F)) :
  sort_chunks env l = Ok l' -> Permutation l' l.
Proof.
  apply sort_by_key_perm.
Qed.

(** The ranking keeps one chunk per fetched document, under the
    document's id. *)
Lemma rank_chunks_ids (now : N) (qe : list F) (results : list (Doc F))
      (ranked : list (KnowledgeChunk F)) :
  rank_chunks env now qe results = Ok ranked ->
  List.length ranked = List.length results
  /\ forall c, In c ranked -> exists d, In d results /\ chunk_id c = str_id (doc_id d).
Proof.
  unfold rank_chunks, obind. intros H.
  destruct (map_outcome _ results) as [c0 | e] eqn:E0; [| discriminate].
  destruct (map_outcome _ c0) as [c1 | e] eqn:E1; [| discriminate].
  apply map_outcome_Forall2 in E0, E1.
  pose proof (sort_chunks_perm _ _ H) as Hp.
  split.
  - rewrite (Permutation_length Hp).
    rewrite <- (Forall2_length_eq _ _ _ E1). symmetry. apply (Forall2_length_eq _ _ _ E0).
  - intros c Hc. apply (Permutation_in _ Hp) in Hc.
    destruct (Forall2_In_r _ _ _ _ E1 Hc) as (c' & Hc' & Hs).
    destruct (Forall2_In_r _ _ _ _ E0 Hc') as (d & Hd & Hk).
    exists d. split; [exact Hd |].
    rewrite (score_chunk_id _ _ _ Hs). now apply KnowledgeChunk_of_id with (now := now).
Qed.

End RetrievalFacts.

Lemma slice_to_length_le {A} (n : Z) (l : list A) :
  (List.length (slice_to n l) <= List.length l)%nat.
Proof.
  unfold slice_to. destruct (n <? 0); rewrite length_firstn; apply Nat.le_min_r.
Qed.

Lemma fetched_length {F : Type} {SF : Scalar F} (env : Env F) (q : KnowledgeQuery F)
      (w : World F) :
  (List.length (fetched env q w) <= 100)%nat.
Proof. unfold fetched. apply firstn_le_length. Qed.

(** C10.  [retrieve_similar] reads at most 100 of the documents that
    match the metadata filter (as the database server reads it), the
    first 100 in the order of the collection: every chunk it returns
    is one of them, it returns at most 100, and a matching document
    beyond the first 100 (whose id none of them bears) is never
    returned, whatever its similarity to the query. *)
Theorem C10_first_hundred {F : Type} {SF : Scalar F} (env : Env F)
        (q : KnowledgeQuery F) (w w' : World F) (res : list (KnowledgeChunk F))
        (Hret : retrieve_similar env q w = (Ok res, w')) :
  (List.length res <= 100)%nat
  /\ (forall c, In c res ->
                exists d, In d (fetched env q w) /\ chunk_id c = str_id (doc_id d))
  /\ (forall d,
         In d (beyond_fetch env q w) ->
         (forall d', In d' (fetched env q w) -> str_id (doc_id d') <> str_id (doc_id d)) ->
         forall c, In c res -> chunk_id c <> str_id (doc_id d)).
Proof.
  assert (Hin : forall c, In c res ->
                          exists d, In d (fetched env q w) /\ chunk_id c = str_id (doc_id d)).
  { destruct (retrieve_similar_cases env q w w' res Hret) as [-> | (ranked & Hr & ->)].
    - intros c [].
    - intros c Hc. apply slice_to_In in Hc.
      apply (proj2 (rank_chunks_ids _ _ _ _ _ Hr)). exact Hc. }
  split; [| split].
  - destruct (retrieve_similar_cases env q w w' res Hret) as [-> | (ranked & Hr & ->)].
    + simpl. lia.
    + pose proof (slice_to_length_le (top_k q) ranked) as H1.
      rewrite (proj1 (rank_chunks_ids _ _ _ _ _ Hr)) in H1.
      pose proof (fetched_length env q w). lia.
  - exact Hin.
  - intros d _ Hfresh c Hc Heq.
    destruct (Hin c Hc) as (d' & Hd' & E).
    apply (Hfresh d' Hd'). congruence.
Qed.

(** Among 101 matching chunks of which the last is the closest to the
    query, the five returned are among the first hundred, and the
    last one is not among them. *)
Lemma C10_first_hundred_witness :
  exists res w',
    retrieve_similar Demo.env (Demo.iron_man_query 5) Demo.crowded_world = (Ok res, w')
    /\ List.length res = 5%nat
    /\ (forall c, In c res ->
                  exists d, In d (fetched Demo.env (Demo.iron_man_query 5) Demo.crowded_world)
                            /\ chunk_id c = str_id (doc_id d))
    /\ (forall c, In c res -> chunk_id c <> "best").
Proof.
  destruct (retrieve_similar Demo.env (Demo.iron_man_query 5) Demo.crowded_world)
    as [[res | e] w'] eqn:E; [| vm_compute in E; discriminate E].
  exists res, w'. split; [reflexivity |].
  destruct (C10_first_hundred Demo.env (Demo.iron_man_query 5)
              Demo.crowded_world w' res E) as (_ & Hin & Hbeyond).
  split; [vm_compute in E; injection E as <- _; reflexivity |].
  split; [exact Hin |].
  apply (Hbeyond (Demo.chunk "best" [1%float; 0%float])).
  - vm_compute. left. reflexivity.
  - intros d' Hd'. vm_compute in Hd'.
    repeat (destruct Hd' as [<- | Hd']; [vm_compute; discriminate |]).
    contradiction.
Defined.

(** The 101st matching chunk is the one closest to the query, and the
    five chunks returned are others. *)
Example retrieve_similar_misses_the_101st :
  match retrieve_similar Demo.env (Demo.iron_man_query 5) Demo.crowded_world with
  | (Ok res, _) => map (@chunk_id float) res
  | (Raise _, _) => []
  end = ["k0"; "k1"; "k2"; "k3"; "k4"].
Proof. vm_compute. reflexivity. Qed.

(** The scenario of the specification: of three matching chunks the
    two with the highest scores come back, highest first. *)
Example retrieve_similar_top_two :
  match retrieve_similar Demo.env (Demo.iron_man_query 2) Demo.iron_man_world with
  | (Ok res, _) => map (@chunk_id float) res
  | (Raise _, _) => []
  end = ["c"; "a"].
Proof. vm_compute. reflexivity. Qed.
(** ** The order of similarity results *)

Lemma StronglySorted_weaken {A} (R1 R2 : A -> A -> Prop) (l : list A) :
  (forall a b, In a l -> In b l -> R1 a b -> R2 a b) ->
  StronglySorted R1 l -> StronglySorted R2 l.
Proof.
  intros Himp Hs. induction Hs as [| x l Hs IH Hx].
  - constructor.
  - constructor.
    + apply IH. intros a b Ha Hb. apply Himp; now right.
    + rewrite Forall_forall in *. intros y Hy.
      apply Himp; [now left | now right | now apply Hx].
Qed.

Lemma StronglySorted_map {A B} (f : A -> B) (R : B -> B -> Prop) (l : list A) :
  StronglySorted (fun a b => R (f a) (f b)) l -> StronglySorted R (map f l).
Proof.
  induction 1 as [| x l Hs IH Hx]; simpl; constructor; auto.
  rewrite Forall_forall in *. intros y Hy.
  apply in_map_iff in Hy. destruct Hy as (a & <- & Ha). now apply Hx.
Qed.

Lemma StronglySorted_of_map {A B} (f : A -> B) (R : B -> B -> Prop) (l : list A) :
  StronglySorted R (map f l) -> StronglySorted (fun a b => R (f a) (f b)) l.
Proof.
  induction l as [| x l IH]; simpl; intros H.
  - constructor.
  - inversion H as [| ? ? Hs Hx]; subst. constructor; [now apply IH |].
    rewrite Forall_forall in *. intros y Hy. apply Hx. now apply in_map.
Qed.

Section RankingFacts.
Context {F : Type} {SF : Scalar F}.
Variable env : Env F.
Hypothesis Hord : ordered_numbers F.

(** Chunks with orderly keys leave the ranking in descending order
    of their keys. *)
Lemma rank_chunks_sorted (now : N) (qe : list F) (results : list (Doc F))
      (ranked : list (KnowledgeChunk F)) :
  rank_chunks env now qe results = Ok ranked ->
  Forall (fun c => orderly (similarity_key c) = true) ranked ->
  descending (@similarity_key F) ranked.
Proof.
  unfold rank_chunks, obind. intros H Hall.
  destruct (map_outcome _ results) as [c0 | e]; [| discriminate].
  destruct (map_outcome _ c0) as [c1 | e]; [| discriminate].
  apply (sort_by_key_sorted env (@similarity_key F) c1 ranked Hord); [| exact H].
  pose proof (sort_by_key_perm env _ _ _ H) as Hp.
  rewrite Forall_forall in *. intros c Hc. apply Hall.
  apply (Permutation_in _ (Permutation_sym Hp)). exact Hc.
Qed.

(** Records with orderly scores leave their ranking in descending
    order of score. *)
Lemma rank_embeddings_sorted (limit : Z) (l ranked : list (pyval F * pyval F)) :
  rank_embeddings env limit l = Ok ranked ->
  Forall (fun r => orderly (snd r) = true) l ->
  StronglySorted (fun a b => key_lt a b = false) (map snd ranked).
Proof.
  unfold rank_embeddings, obind. intros H Hall.
  destruct (sort_by_key env snd l) as [sorted |] eqn:Es; [| discriminate].
  inversion H; subst ranked.
  apply StronglySorted_map, slice_to_sorted.
  exact (sort_by_key_sorted env snd l sorted Hord Hall Es).
Qed.

Lemma rank_embeddings_length (limit : Z) (l ranked : list (pyval F * pyval F)) :
  rank_embeddings env limit l = Ok ranked ->
  0 <= limit ->
  (List.length ranked <= Z.to_nat limit)%nat.
Proof.
  unfold rank_embeddings, obind. intros H Hl.
  destruct (sort_by_key env snd l) as [sorted |]; [| discriminate].
  inversion H; subst ranked. rewrite (slice_to_length _ _ Hl). apply Nat.le_min_l.
Qed.

End RankingFacts.

Section ManualScanFacts.
Context {F : Type} {SF : Scalar F}.

Lemma set_similarity_score (s : pyval F) (d d' : dict F) :
  set_similarity s d = Ok d' -> memory_score d' = Some s.
Proof.
  unfold set_similarity, memory_score. intros H.
  destruct (dict_get "metadata" _) as [[| | | | | | | m] |]; try discriminate.
  apply Ok_inj in H. subst d'.
  cbn [path_get]. rewrite dict_get_set_same. apply dict_get_set_same.
Qed.

(** The loop over the ranked records: what it appends carries the
    scores of a subsequence of the records, in their order. *)
Lemma append_scored_loop (R : pyval F -> pyval F -> Prop) (l : list (pyval F * pyval F)) :
  StronglySorted R (map snd l) ->
  forall (acc : list (dict F)) (w w' : World F) (res : list (dict F)),
    for_each append_scored_memory l acc w = (Ok res, w') ->
    exists sub scores,
      res = acc ++ sub
      /\ map memory_score sub = map Some scores
      /\ StronglySorted R scores
      /\ (forall s, In s scores -> In s (map snd l))
      /\ (List.length sub <= List.length l)%nat.
Proof.
  induction l as [| x l IH]; intros Hs acc w w' res H.
  - cbn in H. unfold ret in H. inversion H; subst.
    exists [], []. rewrite app_nil_r. repeat split; try constructor. intros s [].
  - cbn [for_each] in H. unfold bind at 1 in H.
    destruct (append_scored_memory acc x w) as [[acc' | e] w1] eqn:E; [| discriminate].
    inversion Hs as [| ? ? Hs' Hx]; subst.
    destruct (IH Hs' acc' w1 w' res H) as (sub & scores & -> & Hm & Hss & Hin & Hlen).
    unfold append_scored_memory, bind in E.
    destruct (get_memory (fst x) w) as [[[[| kv m] |] | e] w2]; try discriminate.
    + unfold ret in E. inversion E; subst.
      exists sub, scores. repeat split; auto.
      * intros s Hs0. right. auto.
      * simpl. lia.
    + unfold lift, ret in E.
      destruct (set_similarity (snd x) (kv :: m)) as [m' | e] eqn:Es; [| discriminate].
      inversion E; subst.
      exists (m' :: sub), (snd x :: scores). repeat split.
      * now rewrite <- app_assoc.
      * simpl. rewrite Hm. f_equal. now apply set_similarity_score in Es.
      * constructor; [exact Hss |].
        rewrite Forall_forall in *. intros s Hs0. apply Hx. now apply Hin.
      * intros s [<- | Hs0]; [now left | right; auto].
      * simpl. lia.
    + unfold ret in E. inversion E; subst.
      exists sub, scores. repeat split; auto.
      * intros s Hs0. right. auto.
      * simpl. lia.
Qed.

Lemma scores_as_keys (res : list (dict F)) (scores : list (pyval F)) :
  map memory_score res = map Some scores -> map score_key res = scores.
Proof.
  revert scores. induction res as [| m res IH]; intros [| s scores] H;
    simpl in *; try discriminate; [reflexivity |].
  injection H as Hm Hrest. unfold score_key at 1. rewrite Hm. f_equal. now apply IH.
Qed.

Lemma db_call_embeddings (w w1 : World F) (u : unit) :
  db_call w = (Ok u, w1) -> memory_embeddings w1 = memory_embeddings w.
Proof.
  unfold db_call. destruct (faults w) as [| [msg |] rest]; intros H; inversion H; reflexivity.
Qed.

End ManualScanFacts.




(** ** The memory store *)

Section StoreFacts.
Context {F : Type} {SF : Scalar F}.
Variable env : Env F.

Lemma faults_coll_put (c : Collection) (l : list (Doc F)) (w : World F) :
  faults (coll_put c l w) = faults w.
Proof. destruct c; reflexivity. Qed.

Lemma insert_one_quiet (c : Collection) (fields : dict F) (w : World F) :
  faults w = [] ->
  insert_one env c fields w =
  (Ok (ObjectId (gen_oid env (oid_counter w))),
   next_oid (coll_put c (coll_get c w ++ [mkDoc (ObjectId (gen_oid env (oid_counter w))) fields]) w)).
Proof.
  intros Hq. unfold insert_one, bind. rewrite (db_call_quiet w Hq). reflexivity.
Qed.

Lemma find_one_quiet (c : Collection) (p : Doc F -> bool) (w : World F) :
  faults w = [] -> find_one c p w = (Ok (find_first p (coll_get c w)), w).
Proof.
  intros Hq. unfold find_one, bind. rewrite (db_call_quiet w Hq). reflexivity.
Qed.

Lemma update_one_quiet (c : Collection) (p : Doc F -> bool) (f : Doc F -> Doc F)
      (w : World F) :
  faults w = [] ->
  exists b, update_one c p f w = (Ok b, coll_put c (update_first p f (coll_get c w)) w).
Proof.
  intros Hq. unfold update_one, bind. rewrite (db_call_quiet w Hq).
  eexists. reflexivity.
Qed.

Lemma delete_one_quiet (c : Collection) (p : Doc F -> bool) (w : World F) :
  faults w = [] ->
  delete_one c p w =
  (Ok (match find_first p (coll_get c w) with Some _ => true | None => false end),
   coll_put c (remove_first p (coll_get c w)) w).
Proof.
  intros Hq. unfold delete_one, bind. rewrite (db_call_quiet w Hq). reflexivity.
Qed.

(** An update that keeps the ids keeps the list of ids. *)
Lemma update_first_map {B} (g : Doc F -> B) (p : Doc F -> bool) (f : Doc F -> Doc F)
      (l : list (Doc F)) :
  (forall d, g (f d) = g d) -> map g (update_first p f l) = map g l.
Proof.
  intros Hg. induction l as [| d l IH]; simpl; [reflexivity |].
  destruct (p d); simpl; [now rewrite Hg | now rewrite IH].
Qed.

(** Removing the first match: nothing matches and the list stays, or
    the list splits around the match. *)
Lemma remove_first_cases (p : Doc F -> bool) (l : list (Doc F)) :
  (find_first p l = None /\ remove_first p l = l
   /\ forall d, In d l -> p d = false)
  \/ (exists l1 d l2,
         l = l1 ++ d :: l2 /\ p d = true /\ find_first p l = Some d
         /\ remove_first p l = l1 ++ l2
         /\ forall d', In d' l1 -> p d' = false).
Proof.
  induction l as [| x l IH]; simpl.
  - left. repeat split. intros d [].
  - destruct (p x) eqn:Ex.
    + right. exists [], x, l. repeat split; auto. intros d' [].
    + destruct IH as [(Hf & Hr & Hn) | (l1 & d & l2 & -> & Hd & Hf & Hr & Hn)].
      * left. rewrite Hr. repeat split; auto.
        intros d [<- | Hd]; auto.
      * right. exists (x :: l1), d, l2. rewrite Hr. repeat split; auto.
        intros d' [<- | Hd']; auto.
Qed.

Lemma coll_put_same (c : Collection) (w : World F) : coll_put c (coll_get c w) w = w.
Proof. destruct w, c; reflexivity. Qed.

(** The link of an embedding record that names a memory matches the
    filter of exactly that memory id. *)
Lemma link_matches (s id : string) :
  field_matches (Some (PStr s : pyval F)) (PStr id) = String.eqb s id.
Proof. cbn. apply orb_false_r. Qed.

(** The invariant speaks of the ids and of the links only. *)
Lemma store_consistent_ext (w w' : World F) :
  memory_ids w' = memory_ids w ->
  embedding_links w' = embedding_links w ->
  store_consistent w -> store_consistent w'.
Proof.
  unfold store_consistent. intros -> ->. auto.
Qed.

End StoreFacts.

Section LinkFacts.
Context {F : Type} {SF : Scalar F}.

Lemma count_links_app (id : string) (l1 l2 : list (option (pyval F))) :
  count_links id (l1 ++ l2) = (count_links id l1 + count_links id l2)%nat.
Proof. unfold count_links. now rewrite filter_app, length_app. Qed.

Lemma count_links_cons_str (id s : string) (l : list (option (pyval F))) :
  count_links id (Some (PStr s) :: l)
  = ((if String.eqb s id then 1 else 0) + count_links id l)%nat.
Proof.
  unfold count_links. cbn [filter]. rewrite link_matches.
  destruct (String.eqb s id); reflexivity.
Qed.

(** No link names an id that is not live. *)
Lemma count_links_absent (ids : list string) (links : list (option (pyval F)))
      (id : string) :
  (forall l, In l links -> exists id', In id' ids /\ l = Some (PStr id')) ->
  ~ In id ids ->
  count_links id links = 0%nat.
Proof.
  intros Hl Hn. induction links as [| l links IH]; [reflexivity |].
  destruct (Hl l (or_introl eq_refl)) as (id' & Hin & ->).
  rewrite count_links_cons_str.
  destruct (String.eqb id' id) eqn:E.
  - apply String.eqb_eq in E. subst. contradiction.
  - apply IH. intros l Hl'. apply Hl. now right.
Qed.

(** A new memory with its one embedding record. *)
Lemma consistent_append (ids : list string) (links : list (option (pyval F)))
      (id : string) :
  consistent_lists ids links ->
  ~ In id ids ->
  consistent_lists (ids ++ [id]) (links ++ [Some (PStr id)])
  /\ count_links id (links ++ [Some (PStr id)]) = 1%nat.
Proof.
  intros (Hnd & Hone & Hlive) Hfresh.
  assert (Hnew : count_links id (links ++ [Some (PStr id)]) = 1%nat).
  { rewrite count_links_app, count_links_cons_str, String.eqb_refl.
    rewrite (count_links_absent ids links id Hlive Hfresh). reflexivity. }
  split; [| exact Hnew].
  split; [| split].
  - apply (Permutation_NoDup (Permutation_cons_append ids id)).
    constructor; assumption.
  - intros id' Hin. apply in_app_or in Hin. destruct Hin as [Hin | [<- | []]].
    + rewrite count_links_app, count_links_cons_str.
      destruct (String.eqb id id') eqn:E.
      * apply String.eqb_eq in E. subst. contradiction.
      * rewrite (Hone id' Hin). reflexivity.
    + exact Hnew.
  - intros l Hin. apply in_app_or in Hin. destruct Hin as [Hin | [<- | []]].
    + destruct (Hlive l Hin) as (id' & Hid & ->).
      exists id'. split; [apply in_or_app; now left | reflexivity].
    + exists id. split; [apply in_or_app; right; now left | reflexivity].
Qed.

(** A memory removed together with its embedding record. *)
Lemma consistent_remove (ids1 ids2 : list string) (links1 links2 : list (option (pyval F)))
      (id : string) :
  consistent_lists (ids1 ++ id :: ids2) (links1 ++ Some (PStr id) :: links2) ->
  consistent_lists (ids1 ++ ids2) (links1 ++ links2)
  /\ ~ In id (ids1 ++ ids2)
  /\ count_links id (links1 ++ links2) = 0%nat.
Proof.
  intros (Hnd & Hone & Hlive).
  pose proof (NoDup_remove_1 _ _ _ Hnd) as Hnd'.
  pose proof (NoDup_remove_2 _ _ _ Hnd) as Hnot.
  assert (Hzero : count_links id (links1 ++ links2) = 0%nat).
  { pose proof (Hone id (in_elt id ids1 ids2)) as H1.
    rewrite count_links_app, count_links_cons_str, String.eqb_refl in H1.
    rewrite count_links_app. lia. }
  split; [| split; assumption].
  split; [exact Hnd' | split].
  - intros id' Hin.
    assert (Hin' : In id' (ids1 ++ id :: ids2)).
    { apply in_app_or in Hin. apply in_or_app.
      destruct Hin; [now left | right; now right]. }
    pose proof (Hone id' Hin') as H1.
    rewrite count_links_app, count_links_cons_str in H1.
    destruct (String.eqb id id') eqn:E.
    + apply String.eqb_eq in E. subst. contradiction.
    + rewrite count_links_app. exact H1.
  - intros l Hin.
    assert (Hin' : In l (links1 ++ Some (PStr id) :: links2)).
    { apply in_app_or in Hin. apply in_or_app.
      destruct Hin; [now left | right; now right]. }
    destruct (Hlive l Hin') as (id' & Hid & ->).
    exists id'. split; [| reflexivity].
    destruct (String.eqb id' id) eqn:E.
    + apply String.eqb_eq in E. subst id'. exfalso.
      apply in_split in Hin. destruct Hin as (la & lb & Hs).
      rewrite Hs, count_links_app, count_links_cons_str, String.eqb_refl in Hzero. lia.
    + apply in_app_or in Hid. apply in_or_app.
      destruct Hid as [Hid | [Heq | Hid]]; [now left | | now right].
      subst id'. rewrite String.eqb_refl in E. discriminate.
Qed.

End LinkFacts.

Section StoreOperations.
Context {F : Type} {SF : Scalar F}.
Variable env : Env F.

(** [create_memory] on a reachable database: one memory document and
    one embedding record, linked by the new id, are appended. *)
Lemma create_memory_appends (cid text src : string) (imp : Z) (md : option (dict F))
      (w : World F) :
  faults w = [] ->
  exists m e w',
    create_memory env cid text src imp md w = (Ok (gen_oid env (oid_counter w)), w')
    /\ memories w' = memories w ++ [m]
    /\ memory_embeddings w' = memory_embeddings w ++ [e]
    /\ doc_id m = ObjectId (gen_oid env (oid_counter w))
    /\ dict_get "content" (doc_fields m) = Some (PStr text)
    /\ dict_get "memory_id" (doc_fields e) = Some (PStr (gen_oid env (oid_counter w)))
    /\ dict_get "embedding" (doc_fields e) = Some (of_floats (embedding_of env text))
    /\ faults w' = [].
Proof.
  intros Hq. unfold create_memory.
  unfold bind at 1, utcnow at 1. unfold bind at 1.
  rewrite (insert_one_quiet env _ _ w Hq).
  unfold bind at 1. rewrite create_embedding_returns.
  unfold bind at 1.
  rewrite insert_one_quiet by (cbn; exact Hq).
  eexists _, _, _. split; [reflexivity |].
  cbn. repeat split; auto.
Qed.

End StoreOperations.

Section StoreInvariant.
Context {F : Type} {SF : Scalar F}.
Variable env : Env F.

Lemma filter_links (v : pyval F) (docs : list (Doc F)) :
  map (fun e => dict_get "memory_id" (doc_fields e)) (filter (field_is "memory_id" v) docs)
  = filter (fun l => field_matches l v)
           (map (fun e => dict_get "memory_id" (doc_fields e)) docs).
Proof.
  induction docs as [| d docs IH]; simpl; [reflexivity |].
  unfold field_is at 1.
  destruct (field_matches (dict_get "memory_id" (doc_fields d)) v); simpl; now rewrite IH.
Qed.

Lemma linked_records_count (id : string) (w : World F) :
  List.length (filter (field_is "memory_id" (PStr id)) (memory_embeddings w)) = links_to id w.
Proof.
  unfold links_to, count_links, embedding_links.
  rewrite <- filter_links. now rewrite length_map.
Qed.

(** [create_memory] keeps the invariant and links exactly one
    embedding record, with the vector of the content, to the new id. *)
Lemma create_memory_consistent (cid text src : string) (imp : Z) (md : option (dict F))
      (w : World F) :
  store_consistent w ->
  faults w = [] ->
  ~ In (gen_oid env (oid_counter w)) (memory_ids w) ->
  exists w',
    create_memory env cid text src imp md w = (Ok (gen_oid env (oid_counter w)), w')
    /\ store_consistent w'
    /\ In (gen_oid env (oid_counter w)) (memory_ids w')
    /\ links_to (gen_oid env (oid_counter w)) w' = 1%nat
    /\ stored_vectors (gen_oid env (oid_counter w)) w'
       = [Some (of_floats (embedding_of env text))]
    /\ List.length (memories w') = S (List.length (memories w))
    /\ List.length (memory_embeddings w') = S (List.length (memory_embeddings w)).
Proof.
  intros Hc Hq Hfresh.
  destruct (create_memory_appends env cid text src imp md w Hq)
    as (m & e & w' & Hrun & Hm & He & Hid & _ & Hlink & Hvec & _).
  set (mid := gen_oid env (oid_counter w)) in *.
  assert (Hids : memory_ids w' = memory_ids w ++ [mid]).
  { unfold memory_ids. rewrite Hm, map_app. cbn. now rewrite Hid. }
  assert (Hlinks : embedding_links w' = embedding_links w ++ [Some (PStr mid)]).
  { unfold embedding_links. rewrite He, map_app. cbn. now rewrite Hlink. }
  destruct (consistent_append (memory_ids w) (embedding_links w) mid Hc Hfresh)
    as (Hc' & Hone).
  exists w'. split; [exact Hrun |].
  split; [unfold store_consistent; now rewrite Hids, Hlinks |].
  split; [rewrite Hids; apply in_or_app; right; now left |].
  split; [unfold links_to; now rewrite Hlinks |].
  split.
  - unfold stored_vectors. rewrite He, filter_app.
    assert (Hnone : filter (field_is "memory_id" (PStr mid)) (memory_embeddings w) = []).
    { apply length_zero_iff_nil. rewrite linked_records_count.
      destruct Hc as (_ & _ & Hlive).
      apply (count_links_absent (memory_ids w)); assumption. }
    rewrite Hnone. cbn [filter app]. unfold field_is. rewrite Hlink, link_matches.
    rewrite String.eqb_refl. cbn [map]. now rewrite Hvec.
  - rewrite Hm, He, !length_app. cbn. split; lia.
Qed.

(** Updating the first match of a filter that the update does not
    disturb updates the first of the matching documents. *)
Lemma filter_update_first (p : Doc F -> bool) (f : Doc F -> Doc F) (l : list (Doc F)) :
  (forall d, p (f d) = p d) ->
  filter p (update_first p f l)
  = match filter p l with [] => [] | d :: r => f d :: r end.
Proof.
  intros Hp. induction l as [| d l IH]; simpl; [reflexivity |].
  destruct (p d) eqn:E; simpl.
  - now rewrite Hp, E.
  - now rewrite E, IH.
Qed.

Lemma find_first_update_first (p : Doc F -> bool) (f : Doc F -> Doc F)
      (l : list (Doc F)) (d : Doc F) :
  (forall x, p (f x) = p x) ->
  find_first p l = Some d ->
  find_first p (update_first p f l) = Some (f d).
Proof.
  intros Hp. induction l as [| x l IH]; simpl; [discriminate |].
  destruct (p x) eqn:E; intros H; simpl.
  - inversion H; subst. now rewrite Hp, E.
  - rewrite E. auto.
Qed.

Lemma find_first_In (p : Doc F -> bool) (l : list (Doc F)) (d : Doc F) :
  find_first p l = Some d -> In d l /\ p d = true.
Proof.
  induction l as [| x l IH]; simpl; [discriminate |].
  destruct (p x) eqn:E; intros H.
  - inversion H; subst. auto.
  - destruct (IH H). auto.
Qed.

Lemma has_id_eq (i : DocId) (d : Doc F) : has_id i d = true -> doc_id d = i.
Proof.
  unfold has_id, DocId_eqb. destruct (doc_id d), i; intros H; try discriminate;
    apply String.eqb_eq in H; now subst.
Qed.

Lemma apply_set_link (v : pyval F) (d : Doc F) :
  dict_get "memory_id" (doc_fields (apply_set [("embedding", v)] d))
  = dict_get "memory_id" (doc_fields d).
Proof. cbn. apply dict_get_set_other. discriminate. Qed.

(** [update_memory] changes neither the ids nor the links, so it keeps
    the invariant and adds no embedding record; when it finds the
    memory and the update carries a new content, the one linked
    embedding record holds the vector of the new content. *)
Lemma update_memory_consistent (mid : string) (updates : dict F) (w : World F) :
  store_consistent w ->
  faults w = [] ->
  exists b w',
    update_memory env mid updates w = (Ok b, w')
    /\ store_consistent w'
    /\ memory_ids w' = memory_ids w
    /\ embedding_links w' = embedding_links w
    /\ (forall text d,
           dict_get "content" (safe_updates_of updates) = Some (PStr text) ->
           find_first (has_id (StrId mid)) (memories w) = Some d ->
           stored_vectors mid w' = [Some (of_floats (embedding_of env text))]).
Proof.
  intros Hc Hq. unfold update_memory.
  destruct (update_one_quiet MEMORY_COLLECTION (has_id (StrId mid))
              (apply_set (safe_updates_of updates)) w Hq) as (b & Hu).
  unfold bind at 1. rewrite Hu.
  set (w1 := coll_put MEMORY_COLLECTION _ w) in *.
  assert (Hq1 : faults w1 = []) by (unfold w1; now rewrite faults_coll_put).
  assert (Hids1 : memory_ids w1 = memory_ids w).
  { unfold memory_ids, w1. cbn [coll_put coll_get memories].
    apply update_first_map. reflexivity. }
  assert (Hl1 : embedding_links w1 = embedding_links w) by reflexivity.
  assert (Hfind : forall d, find_first (has_id (StrId mid)) (memories w) = Some d ->
                            exists d1, find_first (has_id (StrId mid)) (memories w1) = Some d1).
  { intros d Hd. unfold w1. cbn [coll_put coll_get memories].
    eexists. apply find_first_update_first; [reflexivity | exact Hd]. }
  destruct (dict_get "content" (safe_updates_of updates)) as [new_content |] eqn:Ec.
  - unfold bind at 1. rewrite (find_one_quiet _ _ w1 Hq1). cbn [coll_get].
    destruct (find_first (has_id (StrId mid)) (memories w1)) as [d1 |] eqn:Ef.
    + assert (Hemb : exists v,
                 (match new_content with
                  | PStr text => create_embedding env text
                  | _ => ret zero_vector
                  end) w1 = (Ok v, w1)
                 /\ forall text, new_content = PStr text -> v = embedding_of env text).
      { destruct new_content; try (eexists; split; [reflexivity | intros; discriminate]).
        eexists. split; [apply create_embedding_returns |].
        intros text H. now inversion H. }
      destruct Hemb as (v & Hv & Hvt).
      unfold bind at 1. rewrite Hv.
      destruct (update_one_quiet MEMORY_EMBEDDINGS_COLLECTION
                  (field_is "memory_id" (PStr mid))
                  (apply_set [("embedding", of_floats v)]) w1 Hq1) as (b2 & Hu2).
      unfold bind at 1. rewrite Hu2. unfold ret.
      set (w2 := coll_put MEMORY_EMBEDDINGS_COLLECTION _ w1) in *.
      assert (Hids2 : memory_ids w2 = memory_ids w) by (rewrite <- Hids1; reflexivity).
      assert (Hl2 : embedding_links w2 = embedding_links w).
      { rewrite <- Hl1. unfold embedding_links, w2.
        cbn [coll_put coll_get memory_embeddings].
        apply update_first_map. intros d. apply apply_set_link. }
      exists b, w2. split; [reflexivity |].
      split; [now apply (store_consistent_ext w) |].
      split; [exact Hids2 |]. split; [exact Hl2 |].
      intros text d Ht Hd. inversion Ht; subst new_content.
      pose proof (Hvt text eq_refl) as Hvv.
      unfold stored_vectors, w2. cbn [coll_put coll_get memory_embeddings].
      rewrite filter_update_first.
      * assert (Hone : links_to mid w = 1%nat).
        { destruct Hc as (_ & Hone & _). apply Hone.
          apply find_first_In in Hd. destruct Hd as (Hin & Hid).
          apply has_id_eq in Hid. unfold memory_ids.
          apply in_map_iff. exists d. rewrite Hid. auto. }
        rewrite <- linked_records_count in Hone.
        change (memory_embeddings w1) with (memory_embeddings w).
        destruct (filter _ (memory_embeddings w)) as [| e [| e' r]]; try discriminate.
        cbn [map apply_set doc_fields fold_left fst snd].
        now rewrite dict_get_set_same, Hvv.
      * intros d0. unfold field_is. now rewrite apply_set_link.
    + unfold ret. exists b, w1. split; [reflexivity |].
      split; [now apply (store_consistent_ext w) |].
      split; [exact Hids1 |]. split; [exact Hl1 |].
      intros text d _ Hd. destruct (Hfind d Hd) as (d1 & Hd1). congruence.
  - unfold ret. exists b, w1. split; [reflexivity |].
    split; [now apply (store_consistent_ext w) |].
    split; [exact Hids1 |]. split; [exact Hl1 |].
    intros text d Ht. discriminate.
Qed.

End StoreInvariant.

Section StoreDelete.
Context {F : Type} {SF : Scalar F}.

(** [delete_memory] keeps the invariant.  When it deletes the memory
    it deletes the one embedding record linked to it: no record linked
    to the id is left, and each collection has lost one document.  When
    no memory has the id it changes nothing. *)
Lemma delete_memory_consistent (mid : string) (w : World F) :
  store_consistent w ->
  faults w = [] ->
  exists b w',
    delete_memory mid w = (Ok b, w')
    /\ store_consistent w'
    /\ (b = true ->
        ~ In mid (memory_ids w')
        /\ links_to mid w' = 0%nat
        /\ S (List.length (memories w')) = List.length (memories w)
        /\ S (List.length (memory_embeddings w')) = List.length (memory_embeddings w))
    /\ (b = false -> w' = w).
Proof.
  intros Hc Hq. unfold delete_memory.
  unfold bind at 1. rewrite (delete_one_quiet _ _ w Hq). cbn [coll_get].
  destruct (remove_first_cases (has_id (StrId mid)) (memories w))
    as [(Hf & Hr & _) | (l1 & d & l2 & Hsplit & Hd & Hf & Hr & _)];
    rewrite Hf, Hr.
  - (* no memory has the id *)
    unfold bind, ret.
    assert (E : coll_put MEMORY_COLLECTION (memories w) w = w)
      by apply (coll_put_same MEMORY_COLLECTION w).
    rewrite E. exists false, w.
    split; [reflexivity |]. split; [exact Hc |].
    split; [discriminate | reflexivity].
  - (* the memory [d] goes, and its embedding record with it *)
    set (w1 := coll_put MEMORY_COLLECTION (l1 ++ l2) w).
    assert (Hq1 : faults w1 = []) by (unfold w1; now rewrite faults_coll_put).
    unfold bind at 1. unfold bind at 1.
    rewrite (delete_one_quiet _ _ w1 Hq1). cbn [coll_get].
    change (memory_embeddings w1) with (memory_embeddings w).
    apply has_id_eq in Hd.
    assert (Hids : memory_ids w = map (fun m : Doc F => str_id (doc_id m)) l1
                                  ++ mid :: map (fun m : Doc F => str_id (doc_id m)) l2).
    { unfold memory_ids. rewrite Hsplit, map_app. cbn [map]. now rewrite Hd. }
    assert (Hone : links_to mid w = 1%nat).
    { destruct Hc as (_ & Hone & _). apply Hone. rewrite Hids. apply in_elt. }
    destruct (remove_first_cases (field_is "memory_id" (PStr mid)) (memory_embeddings w))
      as [(_ & _ & Hnone) | (e1 & e & e2 & Hes & He & _ & Hre & _)].
    + exfalso. rewrite <- linked_records_count in Hone.
      assert (Hnil : filter (field_is "memory_id" (PStr mid)) (memory_embeddings w) = []).
      { clear - Hnone. induction (memory_embeddings w) as [| x l IH]; [reflexivity |].
        simpl. rewrite (Hnone x (or_introl eq_refl)). apply IH.
        intros y Hy. apply Hnone. now right. }
      rewrite Hnil in Hone. discriminate.
    + rewrite Hre. unfold bind, ret.
      set (w2 := coll_put MEMORY_EMBEDDINGS_COLLECTION (e1 ++ e2) w1).
      assert (Hlink : dict_get "memory_id" (doc_fields e) = Some (PStr mid)).
      { destruct Hc as (_ & _ & Hlive).
        destruct (Hlive (dict_get "memory_id" (doc_fields e))) as (id' & _ & Hid').
        - unfold embedding_links. apply in_map_iff. exists e. split; [reflexivity |].
          rewrite Hes. apply in_elt.
        - unfold field_is in He. rewrite Hid', link_matches in He.
          apply String.eqb_eq in He. now subst. }
      assert (Hlinks : embedding_links w
                       = map (fun e : Doc F => dict_get "memory_id" (doc_fields e)) e1
                         ++ Some (PStr mid)
                         :: map (fun e : Doc F => dict_get "memory_id" (doc_fields e)) e2).
      { unfold embedding_links. rewrite Hes, map_app. cbn [map]. now rewrite Hlink. }
      unfold store_consistent in Hc. rewrite Hids, Hlinks in Hc.
      destruct (consistent_remove _ _ _ _ _ Hc) as (Hc' & Hnot & Hzero).
      assert (Hids2 : memory_ids w2 = map (fun m : Doc F => str_id (doc_id m)) l1
                                      ++ map (fun m : Doc F => str_id (doc_id m)) l2).
      { unfold memory_ids, w2, w1. cbn [coll_put memories]. apply map_app. }
      assert (Hlinks2 : embedding_links w2
                        = map (fun e : Doc F => dict_get "memory_id" (doc_fields e)) e1
                          ++ map (fun e : Doc F => dict_get "memory_id" (doc_fields e)) e2).
      { unfold embedding_links, w2. cbn [coll_put memory_embeddings]. apply map_app. }
      exists true, w2. split; [reflexivity |].
      split; [unfold store_consistent; now rewrite Hids2, Hlinks2 |].
      split; [| discriminate].
      intros _. split; [now rewrite Hids2 |].
      split; [unfold links_to; now rewrite Hlinks2 |].
      unfold w2, w1. cbn [coll_put memories memory_embeddings].
      rewrite Hsplit, Hes, !length_app. cbn [List.length]. split; lia.
Qed.

End StoreDelete.

(** ** What the read operations leave unchanged *)

Section Frames.
Context {F : Type} {SF : Scalar F}.

(** A relation between the database before and after a computation,
    kept by every step the read operations make: a call of the server
    and the update of access statistics. *)
Variable Rw : World F -> World F -> Prop.
Hypothesis Rw_refl : forall w, Rw w w.
Hypothesis Rw_trans : forall w1 w2 w3, Rw w1 w2 -> Rw w2 w3 -> Rw w1 w3.
Hypothesis Rw_db_call : forall w, Rw w (snd (db_call w)).
Hypothesis Rw_touch :
  forall w p now,
    Rw w (coll_put MEMORY_COLLECTION (update_first p (touch now) (memories w)) w).

Lemma preserves_ret {A} (a : A) : preserves Rw (ret a).
Proof. intros w. apply Rw_refl. Qed.

Lemma preserves_raise {A} (e : string) : preserves Rw (raise (A:=A) e).
Proof. intros w. apply Rw_refl. Qed.

Lemma preserves_lift {A} (o : Outcome A) : preserves Rw (lift o).
Proof. intros w. apply Rw_refl. Qed.

Lemma preserves_get_world : preserves Rw get_world.
Proof. intros w. apply Rw_refl. Qed.

Lemma preserves_utcnow : preserves Rw utcnow.
Proof. intros w. apply Rw_refl. Qed.

Lemma preserves_db_call : preserves Rw db_call.
Proof. exact Rw_db_call. Qed.

Lemma preserves_bind {A B} (m : M A) (k : A -> M B) :
  preserves Rw m -> (forall a, preserves Rw (k a)) -> preserves Rw (bind m k).
Proof.
  intros Hm Hk w. unfold bind. specialize (Hm w).
  destruct (m w) as [[a | e] w1]; cbn [snd] in *.
  - eapply Rw_trans; [exact Hm | apply Hk].
  - exact Hm.
Qed.

Lemma preserves_try_catch {A} (m : M A) (h : string -> M A) :
  preserves Rw m -> (forall e, preserves Rw (h e)) -> preserves Rw (try_catch m h).
Proof.
  intros Hm Hh w. unfold try_catch. specialize (Hm w).
  destruct (m w) as [[a | e] w1]; cbn [snd] in *.
  - exact Hm.
  - eapply Rw_trans; [exact Hm | apply Hh].
Qed.

Lemma preserves_for_each {A B} (body : B -> A -> M B) (l : list A) :
  (forall acc x, preserves Rw (body acc x)) -> forall acc, preserves Rw (for_each body l acc).
Proof.
  intros Hb. induction l as [| x l IH]; intros acc; simpl.
  - apply preserves_ret.
  - apply preserves_bind; [apply Hb | exact IH].
Qed.

Lemma preserves_find_one (c : Collection) (p : Doc F -> bool) : preserves Rw (find_one c p).
Proof.
  unfold find_one. apply preserves_bind; [apply preserves_db_call | intros _].
  apply preserves_bind; [apply preserves_get_world | intros w']. apply preserves_ret.
Qed.

Lemma preserves_find_all (c : Collection) (p : Doc F -> bool) : preserves Rw (find_all c p).
Proof.
  unfold find_all. apply preserves_bind; [apply preserves_db_call | intros _].
  apply preserves_bind; [apply preserves_get_world | intros w']. apply preserves_ret.
Qed.

Lemma preserves_touch (p : Doc F -> bool) (now : N) :
  preserves Rw (update_one MEMORY_COLLECTION p (touch now)).
Proof.
  intros w. unfold update_one, bind. pose proof (Rw_db_call w) as H0.
  destruct (db_call w) as [[[] | e] w1]; cbn [snd] in *; [| exact H0].
  unfold get_world, put_world, ret. cbn [snd coll_get].
  eapply Rw_trans; [exact H0 | apply Rw_touch].
Qed.

Variable env : Env F.

Lemma preserves_get_embedding (text : string) : preserves Rw (get_embedding env text).
Proof.
  unfold get_embedding. apply preserves_try_catch.
  - destruct (encoder env); [apply preserves_lift | apply preserves_raise].
  - intros e. apply preserves_ret.
Qed.

Lemma preserves_create_embedding (text : string) : preserves Rw (create_embedding env text).
Proof.
  unfold create_embedding. apply preserves_try_catch.
  - apply preserves_get_embedding.
  - intros e. apply preserves_raise.
Qed.

Lemma preserves_get_memory (v : pyval F) : preserves Rw (get_memory v).
Proof.
  unfold get_memory. apply preserves_try_catch; [| intros e; apply preserves_ret].
  apply preserves_bind.
  - apply preserves_try_catch.
    + apply preserves_bind; [apply preserves_lift | intros oid; apply preserves_find_one].
    + intros e. apply preserves_find_one.
  - intros [d |]; [| apply preserves_ret].
    apply preserves_bind; [apply preserves_utcnow | intros now].
    apply preserves_bind; [apply preserves_touch | intros b]. apply preserves_ret.
Qed.

Lemma preserves_get_character_memories (cid : string) (limit : Z) (sort_by : string)
      (source : option string) :
  preserves Rw (get_character_memories cid limit sort_by source).
Proof.
  unfold get_character_memories. destruct (limit <? 0); [apply preserves_raise |].
  apply preserves_bind; [apply preserves_find_all | intros found]. apply preserves_ret.
Qed.

Lemma preserves_vector_index_search (cid : string) (qe : list F) (limit : Z) :
  preserves Rw (vector_index_search env cid qe limit).
Proof.
  unfold vector_index_search.
  apply preserves_bind; [apply preserves_db_call | intros _].
  apply preserves_bind; [apply preserves_get_world | intros w0].
  apply preserves_bind; [apply preserves_lift | intros hits].
  apply preserves_bind.
  { destruct (limit <=? 0); [apply preserves_raise | apply preserves_ret]. }
  intros _.
  destruct (firstn _ _) as [| r rs]; [apply preserves_ret |].
  apply preserves_bind; [apply preserves_lift | intros processed].
  apply preserves_bind; [apply preserves_utcnow | intros now].
  apply preserves_bind; [| intros _; apply preserves_ret].
  apply preserves_for_each. intros acc memory.
  apply preserves_bind; [apply preserves_touch | intros b]. apply preserves_ret.
Qed.

Lemma preserves_manual_search (cid : string) (qe : list F) (limit : Z) :
  preserves Rw (manual_search env cid qe limit).
Proof.
  unfold manual_search.
  apply preserves_bind; [apply preserves_find_all | intros docs].
  apply preserves_bind; [apply preserves_lift | intros scored].
  apply preserves_bind; [apply preserves_lift | intros ranked].
  apply preserves_for_each. intros acc result. unfold append_scored_memory.
  apply preserves_bind; [apply preserves_get_memory | intros [[| kv m] |]];
    try apply preserves_ret.
  apply preserves_bind; [apply preserves_lift | intros m']. apply preserves_ret.
Qed.

Lemma preserves_text_search (cid text : string) (limit : Z) :
  preserves Rw (text_search env cid text limit).
Proof.
  unfold text_search.
  apply preserves_bind; [apply preserves_db_call | intros _].
  apply preserves_bind; [apply preserves_lift | intros re].
  apply preserves_bind; [apply preserves_get_world | intros w0]. apply preserves_ret.
Qed.

(** The two similarity rungs of [search_memories]. *)
Lemma preserves_similarity_rungs (cid text : string) (limit : Z) :
  preserves Rw
    (query_embedding <- create_embedding env text ;;
     native <- try_catch (vector_index_search env cid query_embedding limit)
                         (fun _ => ret None) ;;
     match native with
     | Some results => ret results
     | None => manual_search env cid query_embedding limit
     end).
Proof.
  apply preserves_bind; [apply preserves_create_embedding | intros qe].
  apply preserves_bind.
  - apply preserves_try_catch; [apply preserves_vector_index_search |].
    intros e. apply preserves_ret.
  - intros [results |]; [apply preserves_ret | apply preserves_manual_search].
Qed.

Lemma preserves_search_memories (cid text : string) (limit : Z) :
  preserves Rw (search_memories env cid text limit).
Proof.
  unfold search_memories. apply preserves_try_catch.
  - apply preserves_similarity_rungs.
  - intros e. apply preserves_try_catch.
    + apply preserves_bind; [apply preserves_text_search | intros [| r rs]].
      * apply preserves_get_character_memories.
      * apply preserves_ret.
    + intros e'. apply preserves_get_character_memories.
Qed.

End Frames.

Section FrameInstances.
Context {F : Type} {SF : Scalar F}.

Lemma same_links_refl (w : World F) : same_links w w.
Proof. split; reflexivity. Qed.

Lemma same_links_trans (w1 w2 w3 : World F) :
  same_links w1 w2 -> same_links w2 w3 -> same_links w1 w3.
Proof. intros [A1 B1] [A2 B2]. split; congruence. Qed.

Lemma same_links_db_call (w : World F) : same_links w (snd (db_call w)).
Proof.
  destruct (db_call_same_data w) as (o & w' & E & D). rewrite E. cbn [snd].
  destruct D as (_ & Hm & He & _). unfold same_links, memory_ids, embedding_links.
  now rewrite Hm, He.
Qed.

Lemma same_links_touch (w : World F) (p : Doc F -> bool) (now : N) :
  same_links w (coll_put MEMORY_COLLECTION (update_first p (touch now) (memories w)) w).
Proof.
  split; [| reflexivity].
  unfold memory_ids. cbn [coll_put memories]. apply update_first_map. reflexivity.
Qed.

Lemma same_links_consistent (w w' : World F) :
  same_links w w' -> store_consistent w -> store_consistent w'.
Proof. intros [A B]. now apply store_consistent_ext. Qed.

Lemma stays_quiet_refl (w : World F) : stays_quiet w w.
Proof. intros H. exact H. Qed.

Lemma stays_quiet_trans (w1 w2 w3 : World F) :
  stays_quiet w1 w2 -> stays_quiet w2 w3 -> stays_quiet w1 w3.
Proof. unfold stays_quiet. auto. Qed.

Lemma stays_quiet_db_call (w : World F) : stays_quiet w (snd (db_call w)).
Proof. intros H. now rewrite (db_call_quiet w H). Qed.

Lemma stays_quiet_touch (w : World F) (p : Doc F -> bool) (now : N) :
  stays_quiet w (coll_put MEMORY_COLLECTION (update_first p (touch now) (memories w)) w).
Proof. intros H. now rewrite faults_coll_put. Qed.

Lemma similarity_rungs_stay_quiet (env : Env F) (cid text : string) (limit : Z) :
  preserves stays_quiet
    (query_embedding <- create_embedding env text ;;
     native <- try_catch (vector_index_search env cid query_embedding limit)
                         (fun _ => ret None) ;;
     match native with
     | Some results => ret results
     | None => manual_search env cid query_embedding limit
     end).
Proof.
  apply preserves_similarity_rungs;
    first [exact stays_quiet_refl | exact stays_quiet_trans
          | exact stays_quiet_db_call | exact stays_quiet_touch].
Qed.

Lemma text_search_stays_quiet (env : Env F) (cid text : string) (limit : Z) :
  preserves stays_quiet (text_search env cid text limit).
Proof.
  apply preserves_text_search;
    first [exact stays_quiet_refl | exact stays_quiet_trans
          | exact stays_quiet_db_call | exact stays_quiet_touch].
Qed.

(** With a reachable database and a limit that is not negative the
    highest-importance query returns. *)
Lemma get_character_memories_quiet (cid : string) (limit : Z) (sort_by : string)
      (source : option string) (w : World F) :
  faults w = [] -> 0 <= limit ->
  exists l, get_character_memories cid limit sort_by source w = (Ok l, w).
Proof.
  intros Hq Hl. unfold get_character_memories.
  destruct (limit <? 0) eqn:E; [apply Z.ltb_lt in E; lia |].
  unfold bind, find_all, bind. rewrite (db_call_quiet w Hq).
  unfold get_world, ret. eexists. reflexivity.
Qed.

End FrameInstances.

Section StoreWrites.
Context {F : Type} {SF : Scalar F}.
Variable env : Env F.

Lemma db_call_answers (w : World F) (rest : list (option string)) :
  faults w = None :: rest -> db_call w = (Ok tt, with_faults rest w).
Proof. intros H. unfold db_call. now rewrite H. Qed.

Lemma db_call_refuses (w : World F) (e : string) (rest : list (option string)) :
  faults w = Some e :: rest -> db_call w = (Raise e, with_faults rest w).
Proof. intros H. unfold db_call. now rewrite H. Qed.

(** The result of [update_one] on a reachable database. *)
Lemma update_one_exact (c : Collection) (p : Doc F -> bool) (f : Doc F -> Doc F)
      (w : World F) :
  faults w = [] ->
  update_one c p f w
  = (Ok (match find_first p (coll_get c w) with
         | Some d => negb (doc_eqb d (f d))
         | None => false
         end),
     coll_put c (update_first p f (coll_get c w)) w).
Proof.
  intros Hq. unfold update_one, bind. rewrite (db_call_quiet w Hq). reflexivity.
Qed.

Lemma update_first_unmatched (p : Doc F -> bool) (f : Doc F -> Doc F) (l : list (Doc F)) :
  find_first p l = None -> update_first p f l = l.
Proof.
  induction l as [| d l IH]; simpl; [reflexivity |].
  destruct (p d); [discriminate |]. intros H. now rewrite IH.
Qed.

Lemma find_first_app_none (p : Doc F -> bool) (l : list (Doc F)) (d : Doc F) :
  (forall x, In x l -> p x = false) -> p d = false -> find_first p (l ++ [d]) = None.
Proof.
  intros Hl Hd. induction l as [| x l IH]; simpl.
  - now rewrite Hd.
  - rewrite (Hl x (or_introl eq_refl)). apply IH. intros y Hy. apply Hl. now right.
Qed.

(** What [update_memory] does to the memory on a reachable database:
    the safe updates are set on the memory whose [_id] is the string;
    without such a memory nothing changes. *)
Lemma update_memory_result (mid : string) (updates : dict F) (w w' : World F) (b : bool) :
  faults w = [] ->
  update_memory env mid updates w = (Ok b, w') ->
  memories w'
  = update_first (has_id (StrId mid)) (apply_set (safe_updates_of updates)) (memories w)
  /\ b = match find_first (has_id (StrId mid)) (memories w) with
         | Some d => negb (doc_eqb d (apply_set (safe_updates_of updates) d))
         | None => false
         end
  /\ (find_first (has_id (StrId mid)) (memories w) = None -> w' = w).
Proof.
  intros Hq. unfold update_memory. unfold bind at 1.
  rewrite (update_one_exact _ _ _ w Hq). cbn [coll_get].
  set (w1 := coll_put MEMORY_COLLECTION _ w).
  assert (Hq1 : faults w1 = []) by (unfold w1; now rewrite faults_coll_put).
  assert (Hsame : find_first (has_id (StrId mid)) (memories w) = None -> w1 = w).
  { intros Hn. unfold w1. rewrite (update_first_unmatched _ _ _ Hn).
    apply (coll_put_same MEMORY_COLLECTION w). }
  destruct (dict_get "content" (safe_updates_of updates)) as [new_content |].
  - unfold bind at 1. rewrite (find_one_quiet _ _ w1 Hq1). cbn [coll_get].
    destruct (find_first (has_id (StrId mid)) (memories w1)) as [d1 |] eqn:Ef.
    + assert (Hemb : exists v,
                 (match new_content with
                  | PStr text => create_embedding env text
                  | _ => ret zero_vector
                  end) w1 = (Ok v, w1)).
      { destruct new_content; try (eexists; reflexivity).
        eexists. apply create_embedding_returns. }
      destruct Hemb as (v & Hv). unfold bind at 1. rewrite Hv.
      unfold bind at 1. rewrite (update_one_exact _ _ _ w1 Hq1). unfold ret.
      intros H. inversion H; subst. repeat split; try reflexivity.
      intros Hn. exfalso. rewrite (Hsame Hn) in Ef. congruence.
    + unfold ret. intros H. inversion H; subst. repeat split; try reflexivity. exact Hsame.
  - unfold ret. intros H. inversion H; subst. repeat split; try reflexivity. exact Hsame.
Qed.

(** What [delete_memory] does to the memories on a reachable
    database: it removes the memory whose [_id] is the string, and
    says whether there was one. *)
Lemma delete_memory_result (mid : string) (w w' : World F) (b : bool) :
  faults w = [] ->
  delete_memory mid w = (Ok b, w') ->
  memories w' = remove_first (has_id (StrId mid)) (memories w)
  /\ b = match find_first (has_id (StrId mid)) (memories w) with
         | Some _ => true
         | None => false
         end.
Proof.
  intros Hq. unfold delete_memory. unfold bind at 1.
  rewrite (delete_one_quiet _ _ w Hq). cbn [coll_get].
  set (w1 := coll_put MEMORY_COLLECTION _ w).
  assert (Hq1 : faults w1 = []) by (unfold w1; now rewrite faults_coll_put).
  destruct (find_first (has_id (StrId mid)) (memories w)).
  - unfold bind at 1. unfold bind at 1. rewrite (delete_one_quiet _ _ w1 Hq1).
    unfold bind, ret. intros H. inversion H; subst. split; reflexivity.
  - unfold bind, ret. intros H. inversion H; subst. split; reflexivity.
Qed.

(** [update_memory] changes neither the ids of the memories nor the
    links of the embedding records, whatever the database does. *)
Lemma update_memory_same_links (mid : string) (updates : dict F) :
  preserves same_links (update_memory env mid updates).
Proof.
  assert (Hupd : forall c p f,
             (forall w, same_links w (coll_put c (update_first p f (coll_get c w)) w)) ->
             preserves same_links (update_one c p f)).
  { intros c p f Hf w. unfold update_one, bind.
    pose proof (same_links_db_call w) as H0.
    destruct (db_call w) as [[[] | e] w1]; cbn [snd] in *; [| exact H0].
    unfold get_world, put_world, ret. cbn [snd].
    eapply same_links_trans; [exact H0 | apply Hf]. }
  unfold update_memory.
  apply (preserves_bind same_links same_links_trans).
  { apply Hupd. intros w. split; [| reflexivity].
    unfold memory_ids. cbn [coll_put coll_get memories].
    apply update_first_map. reflexivity. }
  intros modified.
  destruct (dict_get "content" (safe_updates_of updates)) as [new_content |];
    [| apply (preserves_ret same_links same_links_refl)].
  apply (preserves_bind same_links same_links_trans);
    [apply (preserves_find_one same_links same_links_refl same_links_trans
              same_links_db_call) |].
  intros [d |]; [| apply (preserves_ret same_links same_links_refl)].
  apply (preserves_bind same_links same_links_trans).
  { destruct new_content;
      try apply (preserves_ret same_links same_links_refl).
    apply (preserves_create_embedding same_links same_links_refl same_links_trans). }
  intros v.
  apply (preserves_bind same_links same_links_trans);
    [| intros _; apply (preserves_ret same_links same_links_refl)].
  apply Hupd. intros w. split; [reflexivity |].
  unfold embedding_links. cbn [coll_put coll_get memory_embeddings].
  apply update_first_map. intros d0. apply apply_set_link.
Qed.

(** [create_memory] when the first insert succeeds and the second is
    refused: the memory is stored, its embedding record is not. *)
Lemma create_memory_second_insert_fails (cid text src : string) (imp : Z)
      (md : option (dict F)) (w : World F) (e : string) (rest : list (option string)) :
  faults w = None :: Some e :: rest ->
  exists m w',
    create_memory env cid text src imp md w = (Raise e, w')
    /\ memories w' = memories w ++ [m]
    /\ doc_id m = ObjectId (gen_oid env (oid_counter w))
    /\ memory_embeddings w' = memory_embeddings w.
Proof.
  intros Hf. unfold create_memory.
  unfold bind at 1, utcnow at 1. unfold bind at 1.
  unfold insert_one at 1. unfold bind at 1. rewrite (db_call_answers w _ Hf).
  unfold bind at 1, get_world at 1. unfold bind at 1, put_world at 1. unfold ret at 1.
  unfold bind at 1. rewrite create_embedding_returns.
  unfold bind at 1. unfold insert_one. unfold bind at 1.
  rewrite (db_call_refuses _ e rest) by reflexivity.
  eexists _, _. split; [reflexivity |].
  cbn. repeat split; reflexivity.
Qed.

(** [delete_memory] when the first delete succeeds and the second is
    refused: the memory is gone, its embedding record is not. *)
Lemma delete_memory_second_delete_fails (mid : string) (w : World F) (d : Doc F)
      (e : string) (rest : list (option string)) :
  faults w = None :: Some e :: rest ->
  find_first (has_id (StrId mid)) (memories w) = Some d ->
  exists w',
    delete_memory mid w = (Raise e, w')
    /\ memories w' = remove_first (has_id (StrId mid)) (memories w)
    /\ memory_embeddings w' = memory_embeddings w.
Proof.
  intros Hf Hd. unfold delete_memory.
  unfold bind at 1. unfold delete_one at 1. unfold bind at 1.
  rewrite (db_call_answers w _ Hf).
  unfold bind at 1, get_world at 1. unfold bind at 1, put_world at 1. unfold ret at 1.
  cbn [coll_get with_faults memories]. rewrite Hd.
  unfold bind at 1. unfold bind at 1. unfold delete_one. unfold bind at 1.
  rewrite (db_call_refuses _ e rest) by reflexivity.
  eexists. split; [reflexivity |].
  cbn. split; reflexivity.
Qed.

End StoreWrites.

Section BrokenStore.
Context {F : Type} {SF : Scalar F}.

(** A live memory without an embedding record breaks the invariant. *)
Lemma unlinked_memory_breaks (w : World F) (id : string) :
  In id (memory_ids w) -> links_to id w = 0%nat -> ~ store_consistent w.
Proof.
  intros Hin Hzero (_ & Hone & _). specialize (Hone id Hin).
  unfold links_to in Hzero. rewrite Hzero in Hone. discriminate.
Qed.

(** An embedding record linked to no live memory breaks it too. *)
Lemma orphan_record_breaks (w : World F) (id : string) :
  ~ In id (memory_ids w) -> links_to id w <> 0%nat -> ~ store_consistent w.
Proof.
  intros Hnot Hlinks (_ & _ & Hlive). apply Hlinks.
  apply (count_links_absent (memory_ids w)); assumption.
Qed.

End BrokenStore.


Lemma empty_store_consistent : store_consistent Demo.empty_world.
Proof.
  split; [constructor | split].
  - intros id [].
  - intros l [].
Qed.

Lemma one_memory_consistent : store_consistent DemoMemory.one_memory.
Proof.
  split; [| split].
  - repeat constructor. intros [].
  - intros id [<- | []]. reflexivity.
  - intros l [<- | []]. exists "m1". split; [now left | reflexivity].
Qed.



(** ** The fallback ladder of memory search *)

Section Ladder.
Context {F : Type} {SF : Scalar F}.
Variable env : Env F.

(** [search_memories] is its two guarded blocks and the last,
    unguarded query. *)
Lemma search_memories_ladder (cid text : string) (limit : Z) :
  search_memories env cid text limit
  = try_catch (similarity_rungs env cid text limit)
              (fun _ =>
                 try_catch (text_rung env cid text limit)
                           (fun _ => get_character_memories cid limit "importance" None)).
Proof. reflexivity. Qed.

(** The highest-importance query raises for two reasons only: a
    negative limit, refused before the query is sent, and a call the
    database refuses. *)
Lemma get_character_memories_raises (cid : string) (limit : Z) (sort_by : string)
      (source : option string) (w w' : World F) (e : string) :
  get_character_memories cid limit sort_by source w = (Raise e, w') ->
  (limit < 0 /\ w' = w) \/ (0 <= limit /\ faults w = Some e :: faults w').
Proof.
  unfold get_character_memories.
  destruct (Z.ltb_spec limit 0) as [Hneg | Hpos].
  - unfold raise. intros H. inversion H. left. split; [exact Hneg | reflexivity].
  - unfold bind, find_all, bind, db_call.
    destruct (faults w) as [| [msg |] rest] eqn:Ef; unfold get_world, ret;
      intros H; inversion H; subst.
    right. split; [exact Hpos | reflexivity].
Qed.

(** The native rung is guarded: when it raises or finds nothing the
    manual scan runs, on the database as the native rung left it. *)
Lemma native_rung_falls_through (cid text : string) (limit : Z) (w w1 : World F) :
  (exists e, vector_index_search env cid (embedding_of env text) limit w = (Raise e, w1))
  \/ vector_index_search env cid (embedding_of env text) limit w = (Ok None, w1) ->
  similarity_rungs env cid text limit w
  = manual_search env cid (embedding_of env text) limit w1.
Proof.
  intros H. unfold similarity_rungs. unfold bind at 1.
  rewrite create_embedding_returns. unfold bind at 1. unfold try_catch.
  destruct H as [(e & ->) | ->]; reflexivity.
Qed.

End Ladder.

(** C4 (as the code has it).  [search_memories] tries the native
    vector index, the manual scan, the text search and the
    highest-importance query.  A native query that raises or finds
    nothing gives way to the manual scan; what the two similarity
    rungs return is the answer; when they raise, the text search
    runs; its results, when it has some, are the answer; when it has
    none the highest-importance query runs, and runs once more when
    it raises; when the text search raises the highest-importance
    query runs.  This last query is not guarded: [search_memories]
    raises exactly when the similarity rungs raise, the text rung
    raises and the last query raises, which it does for a negative
    limit or a call the database refuses, and the exception is the
    one of the last query.  The memory_retrieval stage catches it,
    records it in the error field and continues with an empty list of
    memories, and never raises itself.  With a reachable database and
    a limit that is not negative [search_memories] returns a list,
    whatever the vector index, the scoring and the regex engine do. *)
Theorem C4_search_ladder {F : Type} {SF : Scalar F} (env : Env F)
        (cid text : string) (limit : Z) (w : World F) :
  (forall w1,
      (exists e,
          vector_index_search env cid (embedding_of env text) limit w = (Raise e, w1))
      \/ vector_index_search env cid (embedding_of env text) limit w = (Ok None, w1) ->
      similarity_rungs env cid text limit w
      = manual_search env cid (embedding_of env text) limit w1)
  /\ (forall r w1,
         similarity_rungs env cid text limit w = (Ok r, w1) ->
         search_memories env cid text limit w = (Ok r, w1))
  /\ (forall e1 w1,
         similarity_rungs env cid text limit w = (Raise e1, w1) ->
         (forall r rs w2,
             text_search env cid text limit w1 = (Ok (r :: rs), w2) ->
             search_memories env cid text limit w = (Ok (r :: rs), w2))
         /\ (forall w2 l w3,
                text_search env cid text limit w1 = (Ok [], w2) ->
                get_character_memories cid limit "importance" None w2 = (Ok l, w3) ->
                search_memories env cid text limit w = (Ok l, w3))
         /\ (forall w2 e2 w3,
                text_search env cid text limit w1 = (Ok [], w2) ->
                get_character_memories cid limit "importance" None w2 = (Raise e2, w3) ->
                search_memories env cid text limit w
                = get_character_memories cid limit "importance" None w3)
         /\ (forall e2 w2,
                text_search env cid text limit w1 = (Raise e2, w2) ->
                search_memories env cid text limit w
                = get_character_memories cid limit "importance" None w2))
  /\ (forall e w',
         search_memories env cid text limit w = (Raise e, w') <->
         exists e1 w1 e2 w2,
           similarity_rungs env cid text limit w = (Raise e1, w1)
           /\ text_rung env cid text limit w1 = (Raise e2, w2)
           /\ get_character_memories cid limit "importance" None w2 = (Raise e, w'))
  /\ (forall w2 e w',
         get_character_memories cid limit "importance" None w2 = (Raise e, w') ->
         (limit < 0 /\ w' = w2) \/ (0 <= limit /\ faults w2 = Some e :: faults w'))
  /\ (forall st : GraphState F,
         exists st' w',
           memory_retrieval env st w = (Ok st', w')
           /\ forall e w1,
                search_memories env (character_id st) (user_input st) 3 w = (Raise e, w1) ->
                w' = w1
                /\ character_memories st' = []
                /\ error st' = Some ("Memory retrieval error: " +++ e))
  /\ (faults w = [] -> 0 <= limit ->
      exists l w', search_memories env cid text limit w = (Ok l, w')).
Proof.
  split; [| split; [| split; [| split; [| split; [| split]]]]].
  - intros w1 H. now apply native_rung_falls_through.
  - intros r w1 H. rewrite search_memories_ladder. unfold try_catch at 1. now rewrite H.
  - intros e1 w1 H. rewrite search_memories_ladder.
    unfold try_catch, text_rung, bind. rewrite H.
    split; [| split; [| split]].
    + intros r rs w2 Ht. now rewrite Ht.
    + intros w2 l w3 Ht Hg. now rewrite Ht, Hg.
    + intros w2 e2 w3 Ht Hg. now rewrite Ht, Hg.
    + intros e2 w2 Ht. now rewrite Ht.
  - intros e w'. rewrite search_memories_ladder. unfold try_catch at 1. split.
    + intros H.
      destruct (similarity_rungs env cid text limit w) as [[r | e1] w1] eqn:E1;
        [discriminate |].
      unfold try_catch in H.
      destruct (text_rung env cid text limit w1) as [[r | e2] w2] eqn:E2;
        [discriminate |].
      exists e1, w1, e2, w2.
      split; [first [exact E1 | reflexivity] |]. split; [exact E2 | exact H].
    + intros (e1 & w1 & e2 & w2 & H1 & H2 & H3).
      rewrite H1. unfold try_catch. rewrite H2. exact H3.
  - intros w2 e w' H. exact (get_character_memories_raises cid limit _ _ w2 w' e H).
  - intros st.
    destruct (memory_retrieval_total env st w) as (st' & w' & E).
    exists st', w'. split; [exact E |].
    intros e w1 Hs. unfold memory_retrieval, try_catch, bind in E.
    rewrite Hs in E. unfold ret in E. inversion E; subst.
    repeat split; reflexivity.
  - intros Hq Hl.
    pose proof (text_search_stays_quiet env cid text limit) as Htext.
    pose proof (similarity_rungs_stay_quiet env cid text limit w) as Hbody.
    unfold search_memories. unfold try_catch at 1.
    match goal with
    | |- context [match ?m w with _ => _ end] => destruct (m w) as [[a | e0] w0]
    end.
    + eexists _, _. reflexivity.
    + cbn [snd] in Hbody. specialize (Hbody Hq).
      unfold try_catch, bind. specialize (Htext w0).
      destruct (text_search env cid text limit w0) as [[[| r rs] | e1] w2];
        cbn [snd] in Htext; specialize (Htext Hbody).
      * destruct (get_character_memories_quiet cid limit "importance" None w2 Htext Hl)
          as (l & ->).
        eexists _, _. reflexivity.
      * eexists _, _. reflexivity.
      * destruct (get_character_memories_quiet cid limit "importance" None w2 Htext Hl)
          as (l & ->).
        eexists _, _. reflexivity.
Qed.

(** C4, the claim as stated, fails: with a database that refuses every
    call, each rung raises in turn and the exception of the last one
    leaves [search_memories]. *)
Lemma C4_search_raises_when_unreachable :
  fst (search_memories Demo.env "thor" "hammer" 3 Demo.unreachable_world)
  = Raise "connection refused".
Proof. vm_compute. reflexivity. Qed.

(** ** Runs on concrete inputs *)

(** A run with a cooperative provider: the answer of the model comes
    back, no error is recorded, and one memory with its embedding
    record has been written. *)
Example happy_run :
  match generate_dialogue_response Demo.env "Who are you?" "character_iron_man"
                                   None None None Demo.iron_man_world with
  | (Ok r, w') =>
      (resp_response r, resp_error r, resp_knowledge_used r,
       List.length (memories w'), List.length (memory_embeddings w'))
  | (Raise _, _) => (None, None, [], 0%nat, 0%nat)
  end
  = (Some "Hello from the character", None, [PStr "c"; PStr "a"; PStr "b"], 1%nat, 1%nat).
Proof. vm_compute. reflexivity. Qed.

(** In binary64, a vector has similarity 1 with itself and a zero
    vector has similarity 0 with anything. *)
Example cosine_of_itself :
  cosine_similarity [3%float; 4%float] [3%float; 4%float] = Ok 1%float.
Proof. vm_compute. reflexivity. Qed.

Example cosine_of_zero_vector :
  cosine_similarity [0%float; 0%float] [3%float; 4%float] = Ok 0%float.
Proof. vm_compute. reflexivity. Qed.

Example cosine_of_different_lengths :
  cosine_similarity [1%float] [3%float; 4%float] = Raise "shapes not aligned".
Proof. vm_compute. reflexivity. Qed.

(** A memory written by [create_memory] has an [ObjectId]: [get_memory]
    finds it by the string of its id, while [update_memory] and
    [delete_memory], which filter on the string itself, match nothing
    and leave the store as it is. *)
Example created_memory_is_found_but_not_deleted :
  match create_memory Demo.env "thor" "I met Loki today" "conversation" 5 None
                      Demo.empty_world with
  | (Ok memory_id, w1) =>
      match get_memory (PStr memory_id) w1, delete_memory memory_id w1,
            update_memory Demo.env memory_id [("content", PStr "changed")] w1 with
      | (Ok (Some _), _), (Ok deleted, w2), (Ok modified, w3) =>
          (deleted, List.length (memories w2), List.length (memory_embeddings w2),
           modified, stored_vectors memory_id w3)
      | _, _, _ => (true, 0%nat, 0%nat, true, [])
      end
  | (Raise _, _) => (true, 0%nat, 0%nat, true, [])
  end
  = (false, 1%nat, 1%nat, false, [Some (of_floats [1%float; 0%float])]).
Proof. vm_compute. reflexivity. Qed.

(** The memory_retrieval stage absorbs the exception of an unreachable
    database. *)
Example memory_retrieval_absorbs :
  match memory_retrieval Demo.env Demo.degraded_state Demo.unreachable_world with
  | (Ok st, _) => (character_memories st, error st)
  | (Raise _, _) => ([], None)
  end
  = ([], Some "Memory retrieval error: connection refused").
Proof. vm_compute. reflexivity. Qed.

(** A history entry that is not a dictionary makes the rendering
    raise inside context_assembly: the stage returns, the assembled
    context is the error string (without the sentinel) and the error
    is recorded. *)
Example context_assembly_internal_error :
  match context_assembly Demo.env
          (set_conversation_history (PList [PInt 3]) Demo.degraded_state)
          Demo.empty_world with
  | (Ok st, _) => (assembled_context st, error st)
  | (Raise _, _) => ("", None)
  end
  = ("Error assembling context: object has no attribute 'get'",
     Some "Context assembly error: object has no attribute 'get'").
Proof. vm_compute. reflexivity. Qed.
(** ** More on cosine similarity, in binary64 *)

Lemma SFmul_comm (prec emax : Z) (x y : spec_float) :
  SFmul prec emax x y = SFmul prec emax y x.
Proof.
  destruct x as [sx | sx | | sx mx ex], y as [sy | sy | | sy my ey]; cbn [SFmul];
    rewrite ?(xorb_comm sy sx); try reflexivity.
  now rewrite (Pos.mul_comm my mx), (Z.add_comm ey ex).
Qed.

Lemma float_mul_comm (x y : float) : PrimFloat.mul x y = PrimFloat.mul y x.
Proof.
  rewrite <- (SF2Prim_Prim2SF (PrimFloat.mul x y)),
          <- (SF2Prim_Prim2SF (PrimFloat.mul y x)).
  rewrite !mul_spec. unfold SF64mul. now rewrite SFmul_comm.
Qed.

Lemma dot_in_order_from (v1 v2 : list float) (acc : float) :
  fold_left (fun a p => PrimFloat.add a (PrimFloat.mul (fst p) (snd p))) (combine v1 v2) acc
  = fold_left (fun a p => PrimFloat.add a (PrimFloat.mul (fst p) (snd p))) (combine v2 v1) acc.
Proof.
  revert v2 acc. induction v1 as [| x v1 IH]; intros [| y v2] acc; try reflexivity.
  cbn [combine fold_left fst snd]. rewrite (float_mul_comm y x). apply IH.
Qed.

(** The sum of the products taken in order does not depend on the
    order of the two vectors. *)
Lemma dot_in_order_comm (v1 v2 : list float) : dot_in_order v1 v2 = dot_in_order v2 v1.
Proof. apply dot_in_order_from. Qed.

(** X1.  In binary64, with an [np.dot] that does not depend on the
    order of its two arguments (as the sum of the products taken in a
    fixed order does not), the cosine similarity does not depend on
    the order of its arguments either: on every pair of vectors, of
    equal length or not, [cosine_similarity v1 v2] and
    [cosine_similarity v2 v1] give the same number or both raise. *)
Theorem cosine_similarity_symmetric (np_dot : list float -> list float -> float)
        (Hdot : forall u v, np_dot u v = np_dot v u) (v1 v2 : list float) :
  @cosine_similarity float (Scalar_float_with np_dot) v1 v2
  = @cosine_similarity float (Scalar_float_with np_dot) v2 v1.
Proof.
  unfold cosine_similarity.
  rewrite (Nat.eqb_sym (List.length v2) (List.length v1)).
  destruct (Nat.eqb (List.length v1) (List.length v2)); [| reflexivity].
  rewrite (orb_comm (f_eqb (norm v2) f_zero)).
  destruct (f_eqb (norm v1) f_zero || f_eqb (norm v2) f_zero)%bool; [reflexivity |].
  f_equal. unfold dot. cbn [f_dot f_div f_mul Scalar_float_with].
  now rewrite (Hdot v2 v1), (float_mul_comm (norm v2) (norm v1)).
Qed.

Lemma cosine_similarity_symmetric_witness :
  cosine_similarity [3%float; 4%float] [1%float; 0%float]
  = cosine_similarity [1%float; 0%float] [3%float; 4%float].
Proof.
  exact (cosine_similarity_symmetric dot_in_order dot_in_order_comm
           [3%float; 4%float] [1%float; 0%float]).
Defined.

(** X2.  The similarity is not confined to the range 0 to 1 of the
    docstring.  A vector and its opposite have the similarity -1.
    And a rounded result can lie above 1: the vector [[1; 1; 1]] has
    the squared norm 3, the product of its norms is rounded to
    2.9999999999999996, and its similarity with itself is
    1.0000000000000002. *)
Theorem cosine_similarity_leaves_unit_interval :
  cosine_similarity [3%float; 4%float] [(-3)%float; (-4)%float] = Ok (-1)%float
  /\ cosine_similarity [1%float; 1%float; 1%float] [1%float; 1%float; 1%float]
     = Ok 0x1.0000000000001p+0%float
  /\ PrimFloat.ltb 1%float 0x1.0000000000001p+0%float = true.
Proof. repeat split; vm_compute; reflexivity. Qed.

(** ** Storing and reading back knowledge chunks *)

Section KnowledgeStoreFacts.
Context {F : Type} {SF : Scalar F}.
Variable env : Env F.

Lemma validate_floats (v : list F) :
  map_outcome (validate_float env) (map (@PFloat F) v) = Ok v.
Proof. induction v as [| x v IH]; simpl; [reflexivity | now rewrite IH]. Qed.

Lemma find_first_app_fresh (p : Doc F -> bool) (l : list (Doc F)) (d : Doc F) :
  (forall x, In x l -> p x = false) -> p d = true ->
  find_first p (l ++ [d]) = Some d.
Proof.
  intros Hl Hd. induction l as [| x l IH]; simpl.
  - now rewrite Hd.
  - rewrite (Hl x (or_introl eq_refl)). apply IH. intros y Hy. apply Hl. now right.
Qed.

Lemma find_first_none (p : Doc F -> bool) (l : list (Doc F)) :
  (forall x, In x l -> p x = false) -> find_first p l = None.
Proof.
  intros Hl. induction l as [| x l IH]; simpl; [reflexivity |].
  rewrite (Hl x (or_introl eq_refl)). apply IH. intros y Hy. apply Hl. now right.
Qed.

Lemma update_first_none (p : Doc F -> bool) (f : Doc F -> Doc F) (l : list (Doc F)) :
  (forall x, In x l -> p x = false) -> update_first p f l = l.
Proof.
  intros Hl. induction l as [| x l IH]; simpl; [reflexivity |].
  rewrite (Hl x (or_introl eq_refl)). f_equal. apply IH. intros y Hy. apply Hl. now right.
Qed.

Lemma remove_first_none (p : Doc F -> bool) (l : list (Doc F)) :
  (forall x, In x l -> p x = false) -> remove_first p l = l.
Proof.
  intros Hl. induction l as [| x l IH]; simpl; [reflexivity |].
  rewrite (Hl x (or_introl eq_refl)). f_equal. apply IH. intros y Hy. apply Hl. now right.
Qed.

Lemma DocId_eqb_refl (i : DocId) : DocId_eqb i i = true.
Proof. destruct i; simpl; apply String.eqb_refl. Qed.

Lemma DocId_eqb_eq (i j : DocId) : DocId_eqb i j = true <-> i = j.
Proof.
  destruct i, j; simpl; split; intros H; try discriminate;
    try (apply String.eqb_eq in H; now subst);
    try (injection H as ->; apply String.eqb_refl).
Qed.

Lemma has_id_fresh (i : DocId) (l : list (Doc F)) :
  (forall d, In d l -> doc_id d <> i) -> forall x, In x l -> has_id i x = false.
Proof.
  intros Hl x Hx. unfold has_id.
  destruct (DocId_eqb (doc_id x) i) eqn:E; [| reflexivity].
  apply DocId_eqb_eq in E. now apply Hl in E.
Qed.

Lemma store_chunk_quiet (c : KnowledgeChunk F) (w : World F) :
  faults w = [] ->
  store_chunk env c w =
  (Ok (gen_oid env (oid_counter w)),
   next_oid (coll_put KNOWLEDGE_CHUNKS
               (knowledge_chunks w
                ++ [mkDoc (ObjectId (gen_oid env (oid_counter w)))
                          (chunk_dict (set_vector_embedding (embedding_to_store env c) c))])
               w)).
Proof.
  intros Hq. unfold store_chunk, embedding_to_store, lacks_embedding.
  destruct (vector_embedding c) as [[| x v] |] eqn:E.
  - unfold bind at 1. unfold bind at 1. rewrite get_embedding_returns.
    unfold ret at 1. unfold bind. rewrite insert_one_quiet by exact Hq. reflexivity.
  - unfold bind at 1. unfold ret at 1. unfold bind. rewrite insert_one_quiet by exact Hq.
    unfold ret. simpl coll_get. do 4 f_equal.
    unfold set_vector_embedding. destruct c; simpl in *. now rewrite E.
  - unfold bind at 1. unfold bind at 1. rewrite get_embedding_returns.
    unfold ret at 1. unfold bind. rewrite insert_one_quiet by exact Hq. reflexivity.
Qed.

Lemma chunk_dict_read_back (now : N) (i : DocId) (c : KnowledgeChunk F) (v : list F) :
  KnowledgeChunk_of env now (doc_to_dict (mkDoc i (chunk_dict (set_vector_embedding v c))))
  = Ok (mkChunk (str_id i) (created_at c) now (source c) (content c) (Some v) (metadata c)).
Proof.
  unfold KnowledgeChunk_of, doc_to_dict, chunk_dict, set_vector_embedding, of_floats.
  simpl. now rewrite validate_floats.
Qed.

End KnowledgeStoreFacts.

(** X3.  A chunk stored by [store_chunk] is read back by [get_chunk]
    under the id [store_chunk] returned, when the database answers,
    the driver's new [ObjectId] is well-formed and no stored document
    has it yet: source, content, metadata and creation time are those
    of the stored chunk; the embedding is the chunk's own, or the one
    of [get_embedding] when it had none; the id is the string of the
    new [ObjectId] (not the chunk's own [id] field) and [updated_at]
    is the time of the read. *)
Theorem store_chunk_get_chunk {F : Type} {SF : Scalar F} (env : Env F)
        (c : KnowledgeChunk F) (w : World F)
        (Hquiet : faults w = [])
        (Hoid : well_formed_oid env (oid_counter w))
        (Hfresh : forall d, In d (knowledge_chunks w) ->
                            doc_id d <> ObjectId (gen_oid env (oid_counter w))) :
  exists w1,
    store_chunk env c w = (Ok (gen_oid env (oid_counter w)), w1)
    /\ List.length (knowledge_chunks w1) = S (List.length (knowledge_chunks w))
    /\ get_chunk env (gen_oid env (oid_counter w)) w1
       = (Ok (Some (mkChunk (gen_oid env (oid_counter w)) (created_at c) (clock w)
                            (source c) (content c)
                            (Some (embedding_to_store env c)) (metadata c))),
          w1).
Proof.
  eexists. split; [apply store_chunk_quiet; exact Hquiet |].
  split.
  - simpl. rewrite length_app. simpl. lia.
  - unfold get_chunk. unfold well_formed_oid in Hoid. rewrite Hoid.
    unfold try_catch, bind at 1.
    rewrite find_one_quiet by (simpl; exact Hquiet).
    change (coll_get KNOWLEDGE_CHUNKS
              (next_oid (coll_put KNOWLEDGE_CHUNKS ?l w))) with l.
    rewrite find_first_app_fresh.
    + unfold bind, utcnow, lift. simpl clock.
      rewrite chunk_dict_read_back. reflexivity.
    + apply has_id_fresh. exact Hfresh.
    + unfold has_id. simpl. apply String.eqb_refl.
Qed.

Lemma store_chunk_get_chunk_witness :
  exists w1,
    store_chunk Demo.env (mkChunk "local-id" 7 7 "wiki" "Thor wields Mjolnir" None [])
                Demo.iron_man_world
    = (Ok (gen_oid Demo.env 0), w1)
    /\ List.length (knowledge_chunks w1) = 4%nat
    /\ get_chunk Demo.env (gen_oid Demo.env 0) w1
       = (Ok (Some (mkChunk (gen_oid Demo.env 0) 7 0 "wiki" "Thor wields Mjolnir"
                            (Some [1%float; 0%float]) [])),
          w1).
Proof.
  apply (store_chunk_get_chunk Demo.env
           (mkChunk "local-id" 7 7 "wiki" "Thor wields Mjolnir" None [])
           Demo.iron_man_world).
  - reflexivity.
  - vm_compute. reflexivity.
  - intros d Hd. simpl in Hd.
    destruct Hd as [<- | [<- | [<- | []]]]; discriminate.
Defined.

(** ** Edits of stored chunks *)

Section ChunkEdits.
Context {F : Type} {SF : Scalar F}.

(** A filter that selects nothing: [delete_one] and [update_one]
    report no change and leave the documents as they are. *)
Lemma delete_one_misses (c : Collection) (p : Doc F -> bool) (w : World F) :
  (forall x, In x (coll_get c w) -> p x = false) ->
  exists o w',
    delete_one c p w = (o, w')
    /\ o <> Ok true
    /\ same_data w w'
    /\ (faults w = [] -> o = Ok false /\ w' = w).
Proof.
  intros Hp. unfold delete_one, bind, db_call.
  destruct (faults w) as [| [msg |] rest] eqn:Ef.
  - unfold get_world, put_world, ret.
    rewrite (find_first_none p _ Hp), (remove_first_none p _ Hp), coll_put_same.
    exists (Ok false), w. repeat split; try reflexivity. discriminate.
  - eexists _, _. split; [reflexivity |]. split; [discriminate |].
    split; [repeat split |]. discriminate.
  - unfold get_world, put_world, ret.
    cbn [coll_get]. 
    assert (Hc : forall l, coll_get c (mkWorld (knowledge_chunks w) (memories w)
                   (memory_embeddings w) (characters w) (conversations w) (clock w)
                   (oid_counter w) l) = coll_get c w) by (intros l; destruct c; reflexivity).
    rewrite Hc, (find_first_none p _ Hp), (remove_first_none p _ Hp).
    eexists _, _. split; [reflexivity |]. split; [discriminate |].
    split; [destruct c; repeat split |]. discriminate.
Qed.

Lemma update_one_misses (c : Collection) (p : Doc F -> bool) (f : Doc F -> Doc F)
      (w : World F) :
  (forall x, In x (coll_get c w) -> p x = false) ->
  exists o w',
    update_one c p f w = (o, w')
    /\ o <> Ok true
    /\ same_data w w'
    /\ (faults w = [] -> o = Ok false /\ w' = w).
Proof.
  intros Hp. unfold update_one, bind, db_call.
  destruct (faults w) as [| [msg |] rest] eqn:Ef.
  - unfold get_world, put_world, ret.
    rewrite (find_first_none p _ Hp), (update_first_none p f _ Hp), coll_put_same.
    exists (Ok false), w. repeat split; try reflexivity. discriminate.
  - eexists _, _. split; [reflexivity |]. split; [discriminate |].
    split; [repeat split |]. discriminate.
  - unfold get_world, put_world, ret.
    assert (Hc : forall l, coll_get c (mkWorld (knowledge_chunks w) (memories w)
                   (memory_embeddings w) (characters w) (conversations w) (clock w)
                   (oid_counter w) l) = coll_get c w) by (intros l; destruct c; reflexivity).
    rewrite Hc, (find_first_none p _ Hp), (update_first_none p f _ Hp).
    eexists _, _. split; [reflexivity |]. split; [discriminate |].
    split; [destruct c; repeat split |]. discriminate.
Qed.

Lemma string_id_misses_object_ids (s : string) (l : list (Doc F)) :
  (forall d, In d l -> exists h, doc_id d = ObjectId h) ->
  forall x, In x l -> has_id (StrId s) x = false.
Proof.
  intros Hl x Hx. destruct (Hl x Hx) as [h Hh]. unfold has_id. now rewrite Hh.
Qed.

End ChunkEdits.

Section ObjectIdInvariant.
Context {F : Type} {SF : Scalar F}.
Variable env : Env F.
Variable encode_batch : list string -> Outcome (list (list F)).

Lemma keeps_object_ids_refl (w : World F) : keeps_object_ids w w.
Proof. intros H. exact H. Qed.

Lemma keeps_object_ids_trans (w1 w2 w3 : World F) :
  keeps_object_ids w1 w2 -> keeps_object_ids w2 w3 -> keeps_object_ids w1 w3.
Proof. intros H12 H23 H. apply H23, H12, H. Qed.

Lemma keeps_object_ids_db_call (w : World F) : keeps_object_ids w (snd (db_call w)).
Proof.
  unfold db_call. destruct (faults w) as [| [msg |] rest]; intros H; exact H.
Qed.

Lemma keeps_object_ids_insert (w : World F) (fields : dict F) :
  keeps_object_ids w
    (next_oid (coll_put KNOWLEDGE_CHUNKS
                 (coll_get KNOWLEDGE_CHUNKS w
                  ++ [mkDoc (ObjectId (gen_oid env (oid_counter w))) fields]) w)).
Proof.
  intros H d Hd. simpl in Hd. apply in_app_or in Hd. destruct Hd as [Hd | [<- | []]].
  - apply H, Hd.
  - eexists. reflexivity.
Qed.

Lemma insert_one_keeps_object_ids (fields : dict F) :
  preserves keeps_object_ids (insert_one env KNOWLEDGE_CHUNKS fields).
Proof.
  intros w. unfold insert_one, bind. pose proof (keeps_object_ids_db_call w) as H0.
  destruct (db_call w) as [[[] | e] w1]; cbn [snd] in *; [| exact H0].
  unfold get_world, put_world, ret. cbn [snd].
  eapply keeps_object_ids_trans; [exact H0 | apply keeps_object_ids_insert].
Qed.

Lemma insert_many_keeps_object_ids (documents : list (dict F)) :
  preserves keeps_object_ids (insert_many env KNOWLEDGE_CHUNKS documents).
Proof.
  unfold insert_many. destruct documents as [| f documents].
  - intros w. apply keeps_object_ids_refl.
  - apply preserves_bind; [exact keeps_object_ids_trans | exact keeps_object_ids_db_call |].
    intros _. apply preserves_for_each;
      [exact keeps_object_ids_refl | exact keeps_object_ids_trans |].
    intros acc x w. unfold bind, get_world, put_world, ret. cbn [snd].
    apply keeps_object_ids_insert.
Qed.

Lemma store_chunk_keeps_object_ids (c : KnowledgeChunk F) :
  preserves keeps_object_ids (store_chunk env c).
Proof.
  unfold store_chunk.
  apply preserves_bind; [exact keeps_object_ids_trans | |].
  - destruct (lacks_embedding c).
    + intros w. unfold bind. rewrite get_embedding_returns. apply keeps_object_ids_refl.
    + intros w. apply keeps_object_ids_refl.
  - intros c'. apply preserves_bind; [exact keeps_object_ids_trans | |].
    + apply insert_one_keeps_object_ids.
    + intros i w. apply keeps_object_ids_refl.
Qed.

Lemma get_embeddings_batch_returns (texts : list string) (w : World F) :
  exists rows, get_embeddings_batch env encode_batch texts w = (Ok rows, w).
Proof.
  unfold get_embeddings_batch, try_catch.
  destruct (encoder env) as [enc |].
  - unfold lift. destruct (encode_batch texts) as [rows | e]; eexists; reflexivity.
  - eexists; reflexivity.
Qed.

Lemma store_chunks_batch_keeps_object_ids (chunks : list (KnowledgeChunk F)) :
  preserves keeps_object_ids (store_chunks_batch env encode_batch chunks).
Proof.
  unfold store_chunks_batch.
  apply preserves_bind; [exact keeps_object_ids_trans | |].
  - destruct (filter (lacks_embedding (F:=F)) chunks) as [| c0 rest].
    + intros w. apply keeps_object_ids_refl.
    + intros w. unfold bind.
      destruct (get_embeddings_batch_returns (map (content (F:=F)) (c0 :: rest)) w)
        as [rows ->].
      apply keeps_object_ids_refl.
  - intros cs. apply preserves_bind; [exact keeps_object_ids_trans | |].
    + apply insert_many_keeps_object_ids.
    + intros i w. apply keeps_object_ids_refl.
Qed.

End ObjectIdInvariant.

(** X4.  The knowledge service writes only documents whose [_id] is
    an [ObjectId], and [delete_chunk] and [update_chunk] filter on the
    id as a string: in a collection that holds only such documents
    they never report success and never change a document, whatever id
    they are given; when the database answers, the endpoints built on
    them answer 404 and the database is as before. *)
Theorem stored_chunks_are_never_edited {F : Type} {SF : Scalar F} (env : Env F)
        (encode_batch : list string -> Outcome (list (list F))) (w : World F)
        (Hids : only_object_ids w) :
  (forall c, only_object_ids (snd (store_chunk env c w)))
  /\ (forall chunks, only_object_ids (snd (store_chunks_batch env encode_batch chunks w)))
  /\ (forall id, exists o w',
         delete_chunk id w = (o, w') /\ o <> Ok true /\ same_data w w')
  /\ (forall c, exists o w',
         update_chunk c w = (o, w') /\ o <> Ok true /\ same_data w w')
  /\ (faults w = [] ->
      (forall id,
          delete_chunk_endpoint id w
          = (Ok (HTTPException 404 "Knowledge chunk not found"), w))
      /\ (forall c,
             update_chunk_endpoint c (chunk_id c) w
             = (Ok (HTTPException 404 "Knowledge chunk not found"), w))).
Proof.
  split; [| split; [| split; [| split]]].
  - intros c. apply (store_chunk_keeps_object_ids env c w), Hids.
  - intros chunks.
    apply (store_chunks_batch_keeps_object_ids env encode_batch chunks w), Hids.
  - intros id.
    destruct (delete_one_misses KNOWLEDGE_CHUNKS (has_id (StrId id)) w
                (string_id_misses_object_ids id _ Hids)) as (o & w' & E & Ho & Hs & _).
    exists o, w'. split; [exact E | split; [exact Ho | exact Hs]].
  - intros c.
    destruct (update_one_misses KNOWLEDGE_CHUNKS (has_id (StrId (chunk_id c)))
                (apply_set (dict_pop "id" (chunk_dict c))) w
                (string_id_misses_object_ids _ _ Hids)) as (o & w' & E & Ho & Hs & _).
    exists o, w'. split; [exact E | split; [exact Ho | exact Hs]].
  - intros Hq. split.
    + intros id.
      destruct (delete_one_misses KNOWLEDGE_CHUNKS (has_id (StrId id)) w
                  (string_id_misses_object_ids id _ Hids)) as (o & w' & E & _ & _ & H).
      destruct (H Hq) as [-> ->].
      unfold delete_chunk_endpoint, try_catch, bind, delete_chunk. rewrite E. reflexivity.
    + intros c.
      destruct (update_one_misses KNOWLEDGE_CHUNKS (has_id (StrId (chunk_id c)))
                  (apply_set (dict_pop "id" (chunk_dict c))) w
                  (string_id_misses_object_ids _ _ Hids)) as (o & w' & E & _ & _ & H).
      destruct (H Hq) as [-> ->].
      unfold update_chunk_endpoint, try_catch.
      rewrite String.eqb_refl. cbn [negb].
      unfold bind, update_chunk. rewrite E. reflexivity.
Qed.

(** ** Storing chunks in a batch *)

Section BatchStore.
Context {F : Type} {SF : Scalar F}.
Variable env : Env F.
Variable encode_batch : list string -> Outcome (list (list F)).

Lemma get_embeddings_batch_eq (texts : list string) (w : World F) :
  get_embeddings_batch env encode_batch texts w
  = (Ok (batch_embeddings_of env encode_batch texts), w).
Proof.
  unfold get_embeddings_batch, batch_embeddings_of, try_catch.
  destruct (encoder env) as [enc |]; [| reflexivity].
  unfold lift. destruct (encode_batch texts) as [rows | e]; reflexivity.
Qed.

Lemma new_docs_cons (n : nat) (f : dict F) (documents : list (dict F)) :
  new_docs env n (f :: documents)
  = mkDoc (ObjectId (gen_oid env n)) f :: new_docs env (S n) documents.
Proof.
  unfold new_docs. cbn [List.length seq combine map fst snd].
  rewrite Nat.add_0_r. f_equal.
  rewrite <- seq_shift.
  generalize (seq 0 (List.length documents)) as ks.
  induction documents as [| g documents IH]; intros ks.
  - destruct ks; reflexivity.
  - destruct ks as [| k ks]; [reflexivity |].
    cbn [combine map fst snd]. rewrite IH. rewrite Nat.add_succ_r. reflexivity.
Qed.

Lemma new_docs_length (n : nat) (documents : list (dict F)) :
  List.length (new_docs env n documents) = List.length documents.
Proof.
  unfold new_docs. rewrite length_map, length_combine, length_seq. apply Nat.min_id.
Qed.

Lemma advance_oid_zero (w : World F) : advance_oid 0 w = w.
Proof. unfold advance_oid. rewrite Nat.add_0_r. destruct w; reflexivity. Qed.

(** The loop of [insert_many]. *)
Lemma insert_many_loop (c : Collection) (documents : list (dict F)) :
  forall (ids : list DocId) (w : World F),
    for_each
      (fun (inserted_ids : list DocId) (fields : dict F) =>
         w <- get_world ;;
         let oid := ObjectId (gen_oid env (oid_counter w)) in
         put_world (next_oid (coll_put c (coll_get c w ++ [mkDoc oid fields]) w)) ;;;
         ret (inserted_ids ++ [oid]))
      documents ids w
    = (Ok (ids ++ map (fun k => ObjectId (gen_oid env (oid_counter w + k)))
                      (seq 0 (List.length documents))),
       advance_oid (List.length documents)
         (coll_put c (coll_get c w ++ new_docs env (oid_counter w) documents) w)).
Proof.
  induction documents as [| f documents IH]; intros ids w.
  - simpl. unfold ret. unfold new_docs. simpl.
    rewrite !app_nil_r, coll_put_same, advance_oid_zero. reflexivity.
  - cbn [for_each]. unfold bind at 1. unfold bind at 1. unfold get_world at 1.
    unfold bind at 1. unfold put_world at 1. unfold ret at 1.
    rewrite IH. f_equal.
    + f_equal. rewrite <- app_assoc. f_equal.
      cbn [List.length seq map app]. rewrite Nat.add_0_r. f_equal.
      rewrite <- seq_shift, map_map.
      apply map_ext. intros k. destruct c; simpl; do 2 f_equal; lia.
    + rewrite new_docs_cons.
      unfold advance_oid. destruct c; simpl;
        rewrite <- ?app_assoc; simpl; f_equal; lia.
Qed.

Lemma insert_many_quiet (c : Collection) (documents : list (dict F)) (w : World F) :
  faults w = [] -> documents <> [] ->
  insert_many env c documents w
  = (Ok (map (fun k => ObjectId (gen_oid env (oid_counter w + k)))
             (seq 0 (List.length documents))),
     advance_oid (List.length documents)
       (coll_put c (coll_get c w ++ new_docs env (oid_counter w) documents) w)).
Proof.
  intros Hq Hne. unfold insert_many.
  destruct documents as [| f documents]; [contradiction |].
  unfold bind at 1. rewrite db_call_quiet by exact Hq.
  apply (insert_many_loop c (f :: documents) [] w).
Qed.

Lemma assign_embeddings_length (chunks : list (KnowledgeChunk F)) :
  forall rows, List.length (assign_embeddings chunks rows) = List.length chunks.
Proof.
  induction chunks as [| c chunks IH]; intros rows; simpl; [reflexivity |].
  destruct (lacks_embedding c); [destruct rows |]; simpl; now rewrite ?IH.
Qed.

Lemma stored_as_refl (c : KnowledgeChunk F) : stored_as c c.
Proof. unfold stored_as. repeat split. Qed.

Lemma assign_embeddings_stored_as (chunks : list (KnowledgeChunk F)) :
  forall rows, Forall2 stored_as chunks (assign_embeddings chunks rows).
Proof.
  induction chunks as [| c chunks IH]; intros rows; simpl; [constructor |].
  destruct (lacks_embedding c) eqn:E.
  - destruct rows as [| e rows].
    + constructor; [apply stored_as_refl |].
      clear. induction chunks; constructor; [apply stored_as_refl | assumption].
    + constructor; [| apply IH].
      unfold stored_as, set_vector_embedding. simpl. repeat split. congruence.
  - constructor; [apply stored_as_refl | apply IH].
Qed.

(** With one row per chunk that lacks an embedding, the rows are what
    these chunks are stored with, in order. *)
Lemma assign_embeddings_rows (chunks : list (KnowledgeChunk F)) :
  forall rows,
    List.length rows = List.length (filter (lacks_embedding (F:=F)) chunks) ->
    assigned_embeddings chunks (assign_embeddings chunks rows) = map Some rows.
Proof.
  unfold assigned_embeddings.
  induction chunks as [| c chunks IH]; intros rows Hlen; simpl in *.
  - destruct rows; [reflexivity | discriminate].
  - destruct (lacks_embedding c) eqn:E.
    + destruct rows as [| e rows]; [discriminate |].
      simpl. rewrite E. simpl. f_equal. apply IH. simpl in Hlen. lia.
    + simpl. rewrite E. apply IH. exact Hlen.
Qed.

Lemma assign_embeddings_no_gap (chunks : list (KnowledgeChunk F)) :
  filter (lacks_embedding (F:=F)) chunks = [] ->
  forall rows, assign_embeddings chunks rows = chunks.
Proof.
  induction chunks as [| c chunks IH]; intros Hf rows; simpl in *; [reflexivity |].
  destruct (lacks_embedding c); [discriminate |]. f_equal. now apply IH.
Qed.

Lemma store_chunks_batch_quiet (chunks : list (KnowledgeChunk F)) (w : World F) :
  faults w = [] -> chunks <> [] ->
  store_chunks_batch env encode_batch chunks w
  = (Ok (map (fun k => gen_oid env (oid_counter w + k)) (seq 0 (List.length chunks))),
     advance_oid (List.length chunks)
       (coll_put KNOWLEDGE_CHUNKS
          (knowledge_chunks w
           ++ new_docs env (oid_counter w)
                (map (chunk_dict (F:=F))
                   (assign_embeddings chunks
                      (batch_embeddings_of env encode_batch
                         (map (content (F:=F))
                              (filter (lacks_embedding (F:=F)) chunks))))))
          w)).
Proof.
  intros Hq Hne. unfold store_chunks_batch.
  set (rows := batch_embeddings_of env encode_batch
                 (map (content (F:=F)) (filter (lacks_embedding (F:=F)) chunks))).
  assert (E1 : forall w0,
             match filter (lacks_embedding (F:=F)) chunks with
             | [] => ret chunks
             | _ :: _ =>
                 embeddings <- get_embeddings_batch env encode_batch
                                 (map (content (F:=F))
                                      (filter (lacks_embedding (F:=F)) chunks)) ;;
                 ret (assign_embeddings chunks embeddings)
             end w0 = (Ok (assign_embeddings chunks rows), w0)).
  { intros w0. subst rows.
    destruct (filter (lacks_embedding (F:=F)) chunks) as [| c0 rest] eqn:Ef.
    - rewrite assign_embeddings_no_gap by exact Ef. reflexivity.
    - unfold bind. rewrite get_embeddings_batch_eq. reflexivity. }
  unfold bind at 1. rewrite E1.
  unfold bind at 1.
  rewrite insert_many_quiet.
  - unfold ret. rewrite !length_map, assign_embeddings_length.
    f_equal. f_equal. rewrite map_map. reflexivity.
  - exact Hq.
  - destruct chunks as [| c chunks]; [contradiction |].
    pose proof (assign_embeddings_length (c :: chunks) rows) as Hl.
    destruct (assign_embeddings (c :: chunks) rows); [discriminate | discriminate].
Qed.

End BatchStore.

(** X5.  When the database answers, [store_chunks_batch] on a
    non-empty list stores one document per chunk, in the order of the
    list, and returns their new ids in that order.  Each stored chunk
    is the submitted one, with its own embedding if it had one.  The
    chunks that came without an embedding get the rows of the batch
    encoder in order, when it returns one row per such chunk, and the
    zero vector of 384 entries when the model is missing or its call
    raises. *)
Theorem store_chunks_batch_stores_all {F : Type} {SF : Scalar F} (env : Env F)
        (encode_batch : list string -> Outcome (list (list F)))
        (chunks : list (KnowledgeChunk F)) (w : World F)
        (Hquiet : faults w = []) (Hne : chunks <> []) :
  exists stored w',
    store_chunks_batch env encode_batch chunks w
    = (Ok (map (fun k => gen_oid env (oid_counter w + k)) (seq 0 (List.length chunks))), w')
    /\ knowledge_chunks w'
       = knowledge_chunks w
         ++ new_docs env (oid_counter w) (map (chunk_dict (F:=F)) stored)
    /\ Forall2 stored_as chunks stored
    /\ (forall rows,
           encoder env <> None ->
           encode_batch (map (content (F:=F)) (filter (lacks_embedding (F:=F)) chunks))
           = Ok rows ->
           List.length rows = List.length (filter (lacks_embedding (F:=F)) chunks) ->
           assigned_embeddings chunks stored = map Some rows)
    /\ ((encoder env = None
         \/ exists e,
              encode_batch (map (content (F:=F)) (filter (lacks_embedding (F:=F)) chunks))
              = Raise e) ->
        Forall (fun v => v = Some zero_vector) (assigned_embeddings chunks stored)).
Proof.
  eexists _, _. split; [apply store_chunks_batch_quiet; assumption |].
  split; [reflexivity |].
  split; [apply assign_embeddings_stored_as |].
  split.
  - intros rows Henc Hrows Hlen.
    unfold batch_embeddings_of.
    destruct (encoder env) as [enc |]; [| contradiction].
    rewrite Hrows. apply assign_embeddings_rows. exact Hlen.
  - intros Hdown.
    assert (Hz : batch_embeddings_of env encode_batch
                   (map (content (F:=F)) (filter (lacks_embedding (F:=F)) chunks))
                 = map (fun _ => zero_vector)
                       (map (content (F:=F)) (filter (lacks_embedding (F:=F)) chunks))).
    { unfold batch_embeddings_of. destruct (encoder env) as [enc |]; [| reflexivity].
      destruct Hdown as [Hd | [e He]]; [discriminate | now rewrite He]. }
    rewrite Hz, assign_embeddings_rows by (now rewrite !length_map).
    rewrite !map_map. apply Forall_forall. intros v Hv.
    apply in_map_iff in Hv. destruct Hv as (c & <- & _). reflexivity.
Qed.

(** ** Cutting a text into chunks *)

Section SliceFacts.

Lemma take_length (n : nat) (s : string) :
  String.length (PySeq.take n s) = Nat.min n (String.length s).
Proof.
  revert s. induction n as [| n IH]; intros s; [reflexivity |].
  destruct s as [| c s]; simpl; [reflexivity | now rewrite IH].
Qed.

Lemma drop_length (n : nat) (s : string) :
  String.length (PyStr.drop n s) = (String.length s - n)%nat.
Proof.
  revert s. induction n as [| n IH]; intros s; simpl; [lia |].
  destruct s as [| c s]; simpl; [reflexivity | apply IH].
Qed.

Lemma take_drop (n : nat) (s : string) : PySeq.take n s +++ PyStr.drop n s = s.
Proof.
  revert s. induction n as [| n IH]; intros s; [reflexivity |].
  destruct s as [| c s]; simpl; [reflexivity | now rewrite IH].
Qed.

Lemma take_all (n : nat) (s : string) :
  (String.length s <= n)%nat -> PySeq.take n s = s.
Proof.
  revert s. induction n as [| n IH]; intros s Hl.
  - destruct s; [reflexivity | simpl in Hl; lia].
  - destruct s as [| c s]; simpl; [reflexivity |]. f_equal. apply IH. simpl in Hl. lia.
Qed.

Lemma take_zero (s : string) : PySeq.take 0 s = "".
Proof. reflexivity. Qed.

Lemma take_min (n : nat) (s : string) :
  PySeq.take n s = PySeq.take (Nat.min n (String.length s)) s.
Proof.
  revert s. induction n as [| n IH]; intros s; [reflexivity |].
  destruct s as [| c s]; simpl; [reflexivity | now rewrite <- IH].
Qed.

Lemma drop_all (n : nat) (s : string) :
  (String.length s <= n)%nat -> PyStr.drop n s = "".
Proof.
  revert s. induction n as [| n IH]; intros s Hl.
  - destruct s; [reflexivity | simpl in Hl; lia].
  - destruct s as [| c s]; simpl; [reflexivity |]. apply IH. simpl in Hl. lia.
Qed.

Lemma drop_drop (a b : nat) (s : string) :
  PyStr.drop a (PyStr.drop b s) = PyStr.drop (b + a) s.
Proof.
  revert s. induction b as [| b IH]; intros s; [reflexivity |].
  destruct s as [| c s]; simpl.
  - destruct a; reflexivity.
  - apply IH.
Qed.

Lemma length_zero (s : string) : String.length s = 0%nat -> s = "".
Proof. destruct s; [reflexivity | discriminate]. Qed.

(** The length of a slice. *)
Lemma slice_length (s : string) (a b : Z) :
  Z.of_nat (String.length (PySeq.slice s a b))
  = Z.max 0 (PySeq.bound (Z.of_nat (String.length s)) b
             - PySeq.bound (Z.of_nat (String.length s)) a).
Proof.
  unfold PySeq.slice. rewrite take_length, drop_length.
  set (n := Z.of_nat (String.length s)).
  assert (Hn : 0 <= n) by (subst n; lia).
  assert (Ha : 0 <= PySeq.bound n a <= n).
  { unfold PySeq.bound. destruct (Z.ltb_spec a 0); lia. }
  assert (Hb : 0 <= PySeq.bound n b <= n).
  { unfold PySeq.bound. destruct (Z.ltb_spec b 0); lia. }
  subst n. lia.
Qed.

(** A slice is the segment between its two bounds. *)
Lemma slice_segment (s : string) (a b : Z) :
  PySeq.slice s a b
  = segment s (Z.to_nat (PySeq.bound (Z.of_nat (String.length s)) a))
              (Z.to_nat (PySeq.bound (Z.of_nat (String.length s)) b)).
Proof.
  unfold PySeq.slice, segment.
  set (n := Z.of_nat (String.length s)).
  assert (Ha : 0 <= PySeq.bound n a).
  { unfold PySeq.bound. destruct (Z.ltb_spec a 0); lia. }
  f_equal. lia.
Qed.

End SliceFacts.

Section ChunkFacts.

Lemma chunk_count_spec (n k : nat) (step : Z) :
  0 < step ->
  (k < chunk_count n step)%nat <-> Z.of_nat k * step < Z.of_nat n.
Proof.
  intros Hs. unfold chunk_count.
  pose proof (Z.div_mod (Z.of_nat n + step - 1) step ltac:(lia)) as Hdm.
  pose proof (Z.mod_pos_bound (Z.of_nat n + step - 1) step Hs) as Hm.
  set (q := (Z.of_nat n + step - 1) / step) in *.
  set (r := (Z.of_nat n + step - 1) mod step) in *.
  assert (Hq : 0 <= q) by (subst q; apply Z.div_pos; lia).
  split; intros H.
  - assert (Z.of_nat k < q) by lia. nia.
  - assert (Z.of_nat k < q) by nia. lia.
Qed.

Lemma range0_positive (n : nat) (step : Z) :
  0 < step ->
  PySeq.range0 (Z.of_nat n) step
  = Ok (map (fun k => Z.of_nat k * step) (seq 0 (chunk_count n step))).
Proof.
  intros Hs. unfold PySeq.range0.
  destruct (Z.eqb_spec step 0); [lia |].
  destruct (Z.ltb_spec step 0); [lia |]. reflexivity.
Qed.

Lemma chunk_texts_positive (text : string) (chunk_size chunk_overlap : Z) :
  chunk_overlap < chunk_size ->
  chunk_texts text chunk_size chunk_overlap
  = Ok (map (fun k => chunk_text_at text chunk_size chunk_overlap
                        (Z.of_nat k * (chunk_size - chunk_overlap)))
            (seq 0 (chunk_count (String.length text) (chunk_size - chunk_overlap)))).
Proof.
  intros Hs. unfold chunk_texts.
  rewrite range0_positive by lia. simpl obind. now rewrite map_map.
Qed.

Lemma slice_length_le (s : string) (a size : Z) :
  0 <= size -> Z.of_nat (String.length (PySeq.slice s a (a + size))) <= size.
Proof.
  intros Hs. rewrite slice_length. unfold PySeq.bound.
  destruct (Z.ltb_spec a 0); destruct (Z.ltb_spec (a + size) 0); lia.
Qed.

Lemma chunk_text_at_length (text : string) (chunk_size chunk_overlap i : Z) :
  0 <= chunk_size ->
  Z.of_nat (String.length (chunk_text_at text chunk_size chunk_overlap i)) <= chunk_size.
Proof.
  intros Hs. unfold chunk_text_at.
  destruct ((0 <? i) && (0 <? chunk_overlap))%bool.
  - replace (i + chunk_size - chunk_overlap) with ((i - chunk_overlap) + chunk_size) by lia.
    now apply slice_length_le.
  - now apply slice_length_le.
Qed.

(** A slice with bounds inside the text. *)
Lemma slice_inside (s : string) (a b : Z) :
  0 <= a <= b ->
  PySeq.slice s a b
  = segment s (Z.to_nat (Z.min a (Z.of_nat (String.length s))))
              (Z.to_nat (Z.min b (Z.of_nat (String.length s)))).
Proof.
  intros H. rewrite slice_segment. unfold PySeq.bound.
  destruct (Z.ltb_spec a 0); [lia |]. destruct (Z.ltb_spec b 0); [lia |]. reflexivity.
Qed.

End ChunkFacts.

(** X6.  For an overlap below the chunk size (and not negative),
    [text_to_chunks] cuts [ceil(len(text) / (chunk_size - chunk_overlap))]
    chunks, none longer than [chunk_size], and every position of the
    text lies within a chunk that is a contiguous part of the text. *)
Theorem chunk_texts_cover (text : string) (chunk_size chunk_overlap : Z)
        (Hoverlap : 0 <= chunk_overlap) (Hstep : chunk_overlap < chunk_size) :
  exists chunks,
    chunk_texts text chunk_size chunk_overlap = Ok chunks
    /\ List.length chunks = chunk_count (String.length text) (chunk_size - chunk_overlap)
    /\ (forall c, In c chunks -> Z.of_nat (String.length c) <= chunk_size)
    /\ (forall p, (p < String.length text)%nat ->
                  exists c lo hi,
                    In c chunks /\ c = segment text lo hi
                    /\ (lo <= p < hi)%nat /\ (hi <= String.length text)%nat).
Proof.
  eexists. split; [apply chunk_texts_positive; exact Hstep |].
  set (step := chunk_size - chunk_overlap).
  set (n := String.length text).
  assert (Hs : 0 < step) by (subst step; lia).
  split; [now rewrite length_map, length_seq |].
  split.
  - intros c Hc. apply in_map_iff in Hc. destruct Hc as (k & <- & _).
    apply chunk_text_at_length. lia.
  - intros p Hp.
    (* the chunk that starts at the multiple of the step below p *)
    set (k := Z.to_nat (Z.of_nat p / step)).
    pose proof (Z.div_mod (Z.of_nat p) step ltac:(lia)) as Hdm.
    pose proof (Z.mod_pos_bound (Z.of_nat p) step Hs) as Hm.
    assert (Hq : 0 <= Z.of_nat p / step) by (apply Z.div_pos; lia).
    assert (Hk : Z.of_nat k = Z.of_nat p / step) by (subst k; lia).
    assert (Hi : Z.of_nat k * step <= Z.of_nat p < Z.of_nat k * step + step) by nia.
    assert (Hin : (k < chunk_count n step)%nat).
    { apply chunk_count_spec; [exact Hs | subst n; lia]. }
    assert (H0 : (0 < chunk_count n step)%nat) by lia.
    set (i := Z.of_nat k * step) in *.
    destruct (Z_lt_le_dec i chunk_overlap) as [Hlow | Hhigh].
    + (* the first chunk *)
      exists (chunk_text_at text chunk_size chunk_overlap (Z.of_nat 0 * step)).
      exists 0%nat, (Z.to_nat (Z.min chunk_size (Z.of_nat n))).
      split; [apply in_map_iff; exists 0%nat; split; [reflexivity | apply in_seq; lia] |].
      split.
      * unfold chunk_text_at. simpl Z.mul. simpl andb. cbv iota.
        rewrite slice_inside by lia. fold n. f_equal; lia.
      * subst step n. lia.
    + destruct (Z.eq_dec chunk_overlap 0) as [Hz | Hnz].
      * exists (chunk_text_at text chunk_size chunk_overlap i).
        exists (Z.to_nat i), (Z.to_nat (Z.min (i + chunk_size) (Z.of_nat n))).
        split; [apply in_map_iff; exists k; split; [reflexivity | apply in_seq; lia] |].
        split.
        -- unfold chunk_text_at.
           replace (0 <? chunk_overlap) with false by (symmetry; apply Z.ltb_ge; lia).
           rewrite andb_false_r. rewrite slice_inside by lia. fold n. f_equal; lia.
        -- subst step n. lia.
      * exists (chunk_text_at text chunk_size chunk_overlap i).
        exists (Z.to_nat (i - chunk_overlap)),
               (Z.to_nat (Z.min (i + chunk_size - chunk_overlap) (Z.of_nat n))).
        split; [apply in_map_iff; exists k; split; [reflexivity | apply in_seq; lia] |].
        split.
        -- unfold chunk_text_at.
           replace (0 <? i) with true by (symmetry; apply Z.ltb_lt; lia).
           replace (0 <? chunk_overlap) with true by (symmetry; apply Z.ltb_lt; lia).
           simpl andb. cbv iota.
           rewrite slice_inside by lia. fold n. f_equal; lia.
        -- subst step n. lia.
Qed.

Lemma chunk_texts_cover_witness :
  exists chunks,
    chunk_texts "The quick brown fox jumps over the lazy dog" 10 3 = Ok chunks
    /\ List.length chunks = chunk_count 43 7.
Proof.
  destruct (chunk_texts_cover "The quick brown fox jumps over the lazy dog" 10 3
              ltac:(lia) ltac:(lia)) as (chunks & E & Hlen & _).
  exists chunks. split; [exact E | exact Hlen].
Defined.

Section Partition.

Lemma take_of_empty (n : nat) : PySeq.take n "" = "".
Proof. destruct n; reflexivity. Qed.

Lemma chunk_without_overlap (text : string) (chunk_size : Z) (k : nat) :
  0 < chunk_size ->
  chunk_text_at text chunk_size 0 (Z.of_nat k * chunk_size)
  = PySeq.take (Z.to_nat chunk_size) (PyStr.drop (k * Z.to_nat chunk_size) text).
Proof.
  intros Hs. unfold chunk_text_at. simpl (0 <? 0). rewrite andb_false_r.
  rewrite slice_inside by nia. unfold segment.
  set (n := String.length text).
  set (i := Z.of_nat k * chunk_size).
  assert (Hi : Z.to_nat i = (k * Z.to_nat chunk_size)%nat) by (subst i; nia).
  destruct (Z_le_gt_dec i (Z.of_nat n)) as [Hin | Hout].
  - replace (Z.to_nat (Z.min i (Z.of_nat n))) with (k * Z.to_nat chunk_size)%nat by lia.
    rewrite (take_min (Z.to_nat chunk_size)). rewrite drop_length. fold n.
    f_equal. lia.
  - rewrite (drop_all (k * Z.to_nat chunk_size)) by (fold n; lia).
    rewrite take_of_empty.
    replace (Z.to_nat (Z.min (i + chunk_size) (Z.of_nat n))
             - Z.to_nat (Z.min i (Z.of_nat n)))%nat with 0%nat by lia.
    reflexivity.
Qed.

Lemma join_pieces (size : nat) :
  (0 < size)%nat ->
  forall (m : nat) (text : string),
    (String.length text <= m * size)%nat ->
    join (map (fun k => PySeq.take size (PyStr.drop (k * size) text)) (seq 0 m)) = text.
Proof.
  intros Hs. induction m as [| m IH]; intros text Hl.
  - simpl. symmetry. apply length_zero. simpl in Hl. lia.
  - cbn [seq map join fold_right]. rewrite <- seq_shift, map_map.
    simpl (0 * size)%nat. cbn [PyStr.drop].
    transitivity (PySeq.take size text +++ PyStr.drop size text); [| apply take_drop].
    f_equal.
    transitivity (join (map (fun k => PySeq.take size
                                        (PyStr.drop (k * size) (PyStr.drop size text)))
                            (seq 0 m))).
    + unfold join. f_equal. apply map_ext. intros k.
      rewrite drop_drop. reflexivity.
    + apply IH. rewrite drop_length. simpl in Hl. lia.
Qed.

End Partition.

(** X7.  Without overlap the chunks of [text_to_chunks] partition the
    text: joined in order they give the text back. *)
Theorem chunk_texts_partition (text : string) (chunk_size : Z)
        (Hsize : 0 < chunk_size) :
  exists chunks,
    chunk_texts text chunk_size 0 = Ok chunks /\ join chunks = text.
Proof.
  eexists. split; [apply chunk_texts_positive; lia |].
  rewrite Z.sub_0_r.
  erewrite map_ext by (intros k; apply chunk_without_overlap; exact Hsize).
  apply join_pieces; [lia |].
  set (m := chunk_count (String.length text) chunk_size).
  destruct (Nat.le_gt_cases (String.length text) (m * Z.to_nat chunk_size)) as [H | H];
    [exact H |].
  exfalso.
  assert (Hm : (m < chunk_count (String.length text) chunk_size)%nat).
  { apply chunk_count_spec; [exact Hsize | nia]. }
  subst m. lia.
Qed.

Lemma chunk_texts_partition_witness :
  exists chunks,
    chunk_texts "The quick brown fox jumps over the lazy dog" 10 0 = Ok chunks
    /\ join chunks = "The quick brown fox jumps over the lazy dog".
Proof.
  apply (chunk_texts_partition "The quick brown fox jumps over the lazy dog" 10).
  lia.
Defined.

(** X8.  With an overlap above half the chunk size, the chunks that
    start before position [chunk_overlap] (the first one apart) are
    cut with a negative lower bound, which Python counts from the end
    of the text: for a text of at least [chunk_size] characters each of
    them is the empty string. *)
Theorem chunk_texts_empty_chunks (text : string) (chunk_size chunk_overlap : Z) (k : nat)
        (Hstep : chunk_overlap < chunk_size)
        (Hlong : chunk_size <= Z.of_nat (String.length text))
        (Hk : (0 < k)%nat)
        (Hbefore : Z.of_nat k * (chunk_size - chunk_overlap) < chunk_overlap) :
  exists chunks,
    chunk_texts text chunk_size chunk_overlap = Ok chunks
    /\ nth_error chunks k = Some "".
Proof.
  eexists. split; [apply chunk_texts_positive; exact Hstep |].
  set (step := chunk_size - chunk_overlap) in *.
  assert (Hin : (k < chunk_count (String.length text) step)%nat).
  { apply chunk_count_spec; [subst step; lia | lia]. }
  rewrite nth_error_map, nth_error_nth' with (d := 0%nat) by (rewrite length_seq; exact Hin).
  rewrite seq_nth by exact Hin. simpl option_map. f_equal.
  apply length_zero.
  assert (Hlen := slice_length text (Z.of_nat k * step - chunk_overlap)
                               (Z.of_nat k * step + chunk_size - chunk_overlap)).
  unfold chunk_text_at.
  replace (0 <? Z.of_nat k * step) with true by (symmetry; apply Z.ltb_lt; subst step; nia).
  replace (0 <? chunk_overlap) with true by (symmetry; apply Z.ltb_lt; subst step; nia).
  simpl andb. cbv iota.
  unfold PySeq.bound in Hlen.
  destruct (Z.ltb_spec (Z.of_nat k * step - chunk_overlap) 0); [| lia].
  destruct (Z.ltb_spec (Z.of_nat k * step + chunk_size - chunk_overlap) 0);
    [subst step; nia |].
  subst step. lia.
Qed.

Lemma chunk_texts_empty_chunks_witness :
  exists chunks,
    chunk_texts "The quick brown fox jumps over the lazy dog" 10 7 = Ok chunks
    /\ nth_error chunks 1 = Some "".
Proof.
  apply (chunk_texts_empty_chunks "The quick brown fox jumps over the lazy dog" 10 7 1);
    simpl; lia.
Defined.

(** ** The endpoint [text_to_chunks] *)

Section TextToChunks.
Context {F : Type} {SF : Scalar F}.
Variable env : Env F.
Variable encode_batch : list string -> Outcome (list (list F)).
Variable uuid4 : nat -> string.

Lemma map_snd_combine_seq {A} (l : list A) (start : nat) :
  map snd (combine (seq start (List.length l)) l) = l.
Proof.
  revert start. induction l as [| x l IH]; intros start; simpl; [reflexivity |].
  now rewrite IH.
Qed.

Lemma new_docs_fields (start : nat) (documents : list (dict F)) :
  map (doc_fields (F:=F)) (new_docs env start documents) = documents.
Proof.
  unfold new_docs. rewrite map_map. cbn [doc_fields].
  rewrite <- (map_map snd (fun f : dict F => f)), map_snd_combine_seq. apply map_id.
Qed.

Lemma new_docs_ids (start : nat) (documents : list (dict F)) :
  map (fun d : Doc F => str_id (doc_id d)) (new_docs env start documents)
  = map (fun k => gen_oid env (start + k)) (seq 0 (List.length documents)).
Proof.
  unfold new_docs. rewrite map_map. cbn [doc_id str_id].
  rewrite <- (map_map fst (fun k => gen_oid env (start + k))). f_equal.
  generalize 0%nat as s.
  induction documents as [| x l IH]; intros s; simpl; [reflexivity |]. now rewrite IH.
Qed.

Lemma stored_as_map {B} (g : KnowledgeChunk F -> B) (chunks stored : list (KnowledgeChunk F)) :
  (forall c s, stored_as c s -> g s = g c) ->
  Forall2 stored_as chunks stored -> map g stored = map g chunks.
Proof.
  intros Hg H. induction H as [| c s chunks stored Hcs _ IH]; simpl; [reflexivity |].
  now rewrite IH, (Hg c s Hcs).
Qed.

(** The chunk objects the loop of [text_to_chunks] builds. *)
Lemma built_chunks_content (now : N) (src : string) (md : dict F) (texts : list string) :
  map (content (F:=F))
      (map (fun kt : nat * string => mkChunk (uuid4 (fst kt)) now now src (snd kt) None md)
           (combine (seq 0 (List.length texts)) texts))
  = texts.
Proof.
  rewrite map_map. cbn [content].
  rewrite <- (map_map snd (fun t : string => t)), map_snd_combine_seq. apply map_id.
Qed.

Lemma text_to_chunks_quiet (text src : string) (md : option (dict F))
      (chunk_size chunk_overlap : Z) (texts : list string) (w : World F) :
  faults w = [] ->
  chunk_texts text chunk_size chunk_overlap = Ok texts ->
  texts <> [] ->
  exists added,
    text_to_chunks env encode_batch uuid4 text src md chunk_size chunk_overlap w
    = (Ok (Reply (map (fun k => gen_oid env (oid_counter w + k))
                      (seq 0 (List.length texts)))),
       advance_oid (List.length texts)
         (coll_put KNOWLEDGE_CHUNKS (knowledge_chunks w ++ added) w))
    /\ map (fun d : Doc F => str_id (doc_id d)) added
       = map (fun k => gen_oid env (oid_counter w + k)) (seq 0 (List.length texts))
    /\ map (fun d : Doc F => dict_get "content" (doc_fields d)) added
       = map (fun t => Some (PStr t)) texts
    /\ Forall (fun d : Doc F =>
                 dict_get "source" (doc_fields d) = Some (PStr src)
                 /\ dict_get "metadata" (doc_fields d)
                    = Some (PDict (match md with Some m => m | None => [] end)))
              added.
Proof.
  intros Hq Ht Hne. unfold text_to_chunks.
  set (mk := fun kt : nat * string =>
               mkChunk (uuid4 (fst kt)) (clock w) (clock w) src (snd kt) None
                       (match md with Some m => m | None => [] end)).
  set (chunks := map mk (combine (seq 0 (List.length texts)) texts)).
  assert (Hlen : List.length chunks = List.length texts).
  { subst chunks. rewrite length_map, length_combine, length_seq. apply Nat.min_id. }
  assert (Hcne : chunks <> []).
  { intros E. rewrite E in Hlen. destruct texts; [contradiction | discriminate]. }
  set (stored := assign_embeddings chunks
                   (batch_embeddings_of env encode_batch
                      (map (content (F:=F)) (filter (lacks_embedding (F:=F)) chunks)))).
  pose proof (assign_embeddings_stored_as chunks
                (batch_embeddings_of env encode_batch
                   (map (content (F:=F)) (filter (lacks_embedding (F:=F)) chunks))))
    as Hst.
  fold stored in Hst.
  exists (new_docs env (oid_counter w) (map (chunk_dict (F:=F)) stored)).
  split; [| split; [| split]].
  - unfold try_catch, bind at 1. rewrite Ht. unfold lift.
    unfold bind at 1. unfold utcnow. fold mk. fold chunks.
    unfold bind at 1.
    rewrite (store_chunks_batch_quiet env encode_batch chunks w Hq Hcne).
    fold stored. unfold ret. rewrite Hlen. reflexivity.
  - rewrite new_docs_ids, length_map.
    subst stored. now rewrite assign_embeddings_length, Hlen.
  - rewrite <- (map_map (doc_fields (F:=F)) (dict_get "content")), new_docs_fields.
    rewrite map_map.
    transitivity (map (fun t => Some (PStr t : pyval F)) (map (content (F:=F)) stored)).
    + rewrite map_map. reflexivity.
    + f_equal. rewrite (stored_as_map (content (F:=F)) chunks stored); [| | exact Hst].
      * subst chunks mk. apply built_chunks_content.
      * intros c s H. apply H.
  - apply Forall_forall. intros d Hd.
    assert (Hf : In (doc_fields d)
                    (map (doc_fields (F:=F))
                         (new_docs env (oid_counter w) (map (chunk_dict (F:=F)) stored))))
      by (now apply in_map).
    rewrite new_docs_fields in Hf. apply in_map_iff in Hf.
    destruct Hf as (s & Hs & Hin). rewrite <- Hs.
    destruct (Forall2_In_r _ _ _ _ Hst Hin) as (c & Hc & Hcs).
    destruct Hcs as (_ & _ & _ & Hsrc & _ & Hmd & _).
    subst chunks. apply in_map_iff in Hc. destruct Hc as (kt & <- & _).
    subst mk. cbn [source metadata] in Hsrc, Hmd.
    unfold chunk_dict. simpl. now rewrite Hsrc, Hmd.
Qed.

End TextToChunks.

(** X9.  [text_to_chunks] answers 500 and stores nothing for
    parameters the framework lets through: an overlap equal to the
    chunk size makes the step of the loop zero and [range] raises;
    an overlap above the chunk size, or an empty text, gives no chunk
    at all and the driver refuses the empty batch. *)
Theorem text_to_chunks_rejects {F : Type} {SF : Scalar F} (env : Env F)
        (encode_batch : list string -> Outcome (list (list F))) (uuid4 : nat -> string)
        (text src : string) (md : option (dict F)) (chunk_size chunk_overlap : Z)
        (w : World F) :
  (chunk_size = chunk_overlap ->
   text_to_chunks env encode_batch uuid4 text src md chunk_size chunk_overlap w
   = (Ok (HTTPException 500
            "Error processing text to chunks: range() arg 3 must not be zero"), w))
  /\ (chunk_size < chunk_overlap \/ (text = "" /\ chunk_size <> chunk_overlap) ->
      text_to_chunks env encode_batch uuid4 text src md chunk_size chunk_overlap w
      = (Ok (HTTPException 500
               "Error processing text to chunks: documents must be a non-empty list"), w)).
Proof.
  split.
  - intros ->. unfold text_to_chunks, try_catch, bind, lift, chunk_texts, PySeq.range0.
    rewrite Z.sub_diag. reflexivity.
  - intros H.
    assert (E : chunk_texts text chunk_size chunk_overlap = Ok []).
    { unfold chunk_texts, PySeq.range0.
      destruct (Z.eqb_spec (chunk_size - chunk_overlap) 0) as [E0 | E0].
      - destruct H as [H | [_ H]]; lia.
      - destruct (Z.ltb_spec (chunk_size - chunk_overlap) 0) as [Hneg | Hpos];
          [reflexivity |].
        destruct H as [H | [-> _]]; [lia |].
        simpl String.length. simpl Z.of_nat.
        replace ((0 + (chunk_size - chunk_overlap) - 1) / (chunk_size - chunk_overlap))
          with 0; [reflexivity |].
        symmetry. apply Z.div_small. lia. }
    unfold text_to_chunks, try_catch, bind at 1. rewrite E. reflexivity.
Qed.

(** X10.  For a non-empty text, an overlap below the chunk size and
    a database that answers, [text_to_chunks] stores one document per
    chunk of the text, in order, each with the chunk's text as its
    content and with the source and metadata of the request, and
    returns the ids of these documents in the same order. *)
Theorem text_to_chunks_stores_chunks {F : Type} {SF : Scalar F} (env : Env F)
        (encode_batch : list string -> Outcome (list (list F))) (uuid4 : nat -> string)
        (text src : string) (md : option (dict F)) (chunk_size chunk_overlap : Z)
        (w : World F)
        (Hquiet : faults w = [])
        (Htext : text <> "")
        (Hoverlap : 0 <= chunk_overlap) (Hstep : chunk_overlap < chunk_size) :
  exists texts chunk_ids added w',
    chunk_texts text chunk_size chunk_overlap = Ok texts
    /\ text_to_chunks env encode_batch uuid4 text src md chunk_size chunk_overlap w
       = (Ok (Reply chunk_ids), w')
    /\ knowledge_chunks w' = knowledge_chunks w ++ added
    /\ (0 < List.length texts)%nat
    /\ map (fun d : Doc F => str_id (doc_id d)) added = chunk_ids
    /\ map (fun d : Doc F => dict_get "content" (doc_fields d)) added
       = map (fun t => Some (PStr t)) texts
    /\ Forall (fun d : Doc F =>
                 dict_get "source" (doc_fields d) = Some (PStr src)
                 /\ dict_get "metadata" (doc_fields d)
                    = Some (PDict (match md with Some m => m | None => [] end)))
              added.
Proof.
  pose proof (chunk_texts_positive text chunk_size chunk_overlap Hstep) as Ht.
  set (texts := map (fun k => chunk_text_at text chunk_size chunk_overlap
                                (Z.of_nat k * (chunk_size - chunk_overlap)))
                    (seq 0 (chunk_count (String.length text)
                                        (chunk_size - chunk_overlap)))) in *.
  assert (Hpos : (0 < List.length texts)%nat).
  { subst texts. rewrite length_map, length_seq.
    apply chunk_count_spec; [lia |].
    destruct text; [contradiction | simpl String.length; lia]. }
  assert (Hne : texts <> []) by (intros E; rewrite E in Hpos; simpl in Hpos; lia).
  destruct (text_to_chunks_quiet env encode_batch uuid4 text src md chunk_size
              chunk_overlap texts w Hquiet Ht Hne) as (added & E & Hids & Hcontent & Hrest).
  exists texts, (map (fun k => gen_oid env (oid_counter w + k)) (seq 0 (List.length texts))),
         added.
  eexists. split; [exact Ht |]. split; [exact E |].
  split; [reflexivity |]. split; [exact Hpos |].
  split; [exact Hids |]. split; [exact Hcontent | exact Hrest].
Qed.

Lemma text_to_chunks_stores_chunks_witness :
  exists texts chunk_ids added w',
    chunk_texts "The quick brown fox jumps over the lazy dog" 10 3 = Ok texts
    /\ text_to_chunks Demo.env DemoStore.encode_batch DemoStore.uuid4
         "The quick brown fox jumps over the lazy dog" "fable" None 10 3 Demo.empty_world
       = (Ok (Reply chunk_ids), w')
    /\ knowledge_chunks w' = knowledge_chunks Demo.empty_world ++ added
    /\ (0 < List.length texts)%nat.
Proof.
  destruct (text_to_chunks_stores_chunks Demo.env DemoStore.encode_batch DemoStore.uuid4
              "The quick brown fox jumps over the lazy dog" "fable" None 10 3
              Demo.empty_world eq_refl ltac:(discriminate) ltac:(lia) ltac:(lia))
    as (texts & ids & added & w' & H1 & H2 & H3 & H4 & _).
  exists texts, ids, added, w'. repeat split; assumption.
Defined.

(** Runs of the storage code on binary64 data. *)
Lemma stored_world_only_object_ids : only_object_ids DemoStore.stored_world.
Proof.
  intros d Hd. vm_compute in Hd. destruct Hd as [<- | []]. eexists. reflexivity.
Qed.

Lemma stored_chunks_are_never_edited_witness :
  delete_chunk_endpoint (gen_oid Demo.env 0) DemoStore.stored_world
  = (Ok (HTTPException 404 "Knowledge chunk not found"), DemoStore.stored_world).
Proof.
  apply (proj1 (proj2 (proj2 (proj2 (proj2
           (stored_chunks_are_never_edited Demo.env DemoStore.encode_batch
              DemoStore.stored_world stored_world_only_object_ids)))) eq_refl)).
Defined.

Lemma store_chunks_batch_stores_all_witness :
  exists stored w',
    store_chunks_batch Demo.env DemoStore.encode_batch
      [DemoStore.thor_chunk; DemoStore.loki_chunk] Demo.empty_world
    = (Ok [gen_oid Demo.env 0; gen_oid Demo.env 1], w')
    /\ Forall2 stored_as [DemoStore.thor_chunk; DemoStore.loki_chunk] stored.
Proof.
  destruct (store_chunks_batch_stores_all Demo.env DemoStore.encode_batch
              [DemoStore.thor_chunk; DemoStore.loki_chunk] Demo.empty_world
              eq_refl ltac:(discriminate))
    as (stored & w' & E & _ & Hst & _).
  exists stored, w'. split; [exact E | exact Hst].
Defined.

Example text_to_chunks_overlap_run :
  chunk_texts "The quick brown fox jumps over the lazy dog" 10 3
  = Ok ["The quick "; "quick brow"; "rown fox j"; "x jumps ov"; " over the ";
        "he lazy do"; " dog"].
Proof. vm_compute. reflexivity. Qed.

Example text_to_chunks_large_overlap_run :
  chunk_texts "The quick brown fox jumps over the lazy dog" 10 7
  = Ok ["The quick "; ""; ""; "e quick br"; "uick brown"; "k brown fo"; "rown fox j";
        "n fox jump"; "ox jumps o"; "jumps over"; "ps over th"; "over the l";
        "r the lazy"; "he lazy do"; "lazy dog"].
Proof. vm_compute. reflexivity. Qed.

(** ** Reading a memory back *)

Section MemoryReads.
Context {F : Type} {SF : Scalar F}.

Lemma same_data_trans (w1 w2 w3 : World F) :
  same_data w1 w2 -> same_data w2 w3 -> same_data w1 w3.
Proof.
  unfold same_data. intros (a1 & a2 & a3 & a4 & a5 & a6 & a7) (b1 & b2 & b3 & b4 & b5 & b6 & b7).
  repeat split; congruence.
Qed.

Lemma same_data_db_call (w : World F) : same_data w (snd (db_call w)).
Proof.
  unfold db_call. destruct (faults w) as [| [msg |] rest]; simpl; repeat split.
Qed.

(** A lookup whose filter selects nothing. *)
Lemma find_one_misses (c : Collection) (p : Doc F -> bool) (w : World F) :
  (forall x, In x (coll_get c w) -> p x = false) ->
  exists o w',
    find_one c p w = (o, w')
    /\ (o = Ok None \/ exists e, o = Raise e)
    /\ same_data w w'
    /\ (faults w = [] -> o = Ok None /\ w' = w).
Proof.
  intros Hp. unfold find_one, bind, db_call.
  destruct (faults w) as [| [msg |] rest] eqn:Ef.
  - unfold get_world, ret. rewrite (find_first_none p _ Hp).
    exists (Ok None), w. repeat split; auto.
  - eexists _, _. split; [reflexivity |]. split; [right; eexists; reflexivity |].
    split; [repeat split |]. discriminate.
  - unfold get_world, ret.
    assert (Hc : forall l, coll_get c (mkWorld (knowledge_chunks w) (memories w)
                   (memory_embeddings w) (characters w) (conversations w) (clock w)
                   (oid_counter w) l) = coll_get c w) by (intros l; destruct c; reflexivity).
    rewrite Hc, (find_first_none p _ Hp).
    eexists _, _. split; [reflexivity |]. split; [left; reflexivity |].
    split; [repeat split |]. discriminate.
Qed.

Lemma ObjectId_parse_lower (s : string) (o : DocId) :
  ObjectId_parse s = Ok o -> o = ObjectId (PyStr.lower s).
Proof.
  unfold ObjectId_parse.
  destruct (Nat.eqb (String.length s) 24 && PyStr.all_hex s)%bool; [| discriminate].
  intros H. apply Ok_inj in H. now subst.
Qed.

Lemma unknown_memory_same_data (s : string) (w w' : World F) :
  same_data w w' -> unknown_memory s w -> unknown_memory s w'.
Proof.
  intros (_ & Hm & _) H d Hd. rewrite Hm in Hd. apply H, Hd.
Qed.

Lemma unknown_by_string (s : string) (w : World F) :
  unknown_memory s w ->
  forall x, In x (coll_get MEMORY_COLLECTION w) -> has_id (StrId s) x = false.
Proof.
  intros H x Hx. apply has_id_fresh with (l := memories w); [| exact Hx].
  intros d Hd E. destruct (H d Hd) as [H1 _]. apply H1. now rewrite E.
Qed.

Lemma unknown_by_oid (s : string) (o : DocId) (w : World F) :
  unknown_memory s w -> ObjectId_parse s = Ok o ->
  forall x, In x (coll_get MEMORY_COLLECTION w) -> has_id o x = false.
Proof.
  intros H Hp x Hx. apply ObjectId_parse_lower in Hp. subst o.
  apply has_id_fresh with (l := memories w); [| exact Hx].
  intros d Hd E. destruct (H d Hd) as [_ H2]. apply H2. now rewrite E.
Qed.

(** [get_memory] on an id that no memory has. *)
Lemma get_memory_unknown (s : string) (w : World F) :
  unknown_memory s w ->
  exists w',
    get_memory (PStr s) w = (Ok None, w')
    /\ same_data w w'
    /\ (faults w = [] -> w' = w).
Proof.
  intros Hu. unfold get_memory.
  assert (Hsecond : forall w0,
             same_data w w0 ->
             exists o w',
               find_one MEMORY_COLLECTION (fun d => has_id (StrId s) d) w0 = (o, w')
               /\ (o = Ok None \/ exists e, o = Raise e)
               /\ same_data w w').
  { intros w0 H0.
    destruct (find_one_misses MEMORY_COLLECTION (fun d => has_id (StrId s) d) w0)
      as (o & w' & E & Ho & Hs & _).
    - apply unknown_by_string. eapply unknown_memory_same_data; eassumption.
    - exists o, w'. split; [exact E |]. split; [exact Ho |].
      eapply same_data_trans; eassumption. }
  unfold try_catch at 1. unfold bind at 1. unfold try_catch at 1.
  unfold bind at 1. unfold lift.
  destruct (ObjectId_parse s) as [o |e] eqn:Ep.
  - destruct (find_one_misses MEMORY_COLLECTION (has_id o) w (unknown_by_oid s o w Hu Ep))
      as (r & w1 & E & Hr & Hs & Hq).
    rewrite E. destruct Hr as [-> | [e ->]].
    + exists w1. split; [reflexivity |]. split; [exact Hs |].
      intros Hf. now destruct (Hq Hf).
    + destruct (Hsecond w1 Hs) as (o2 & w2 & E2 & Ho2 & Hs2).
      rewrite E2. destruct Ho2 as [-> | [e2 ->]].
      * exists w2. split; [reflexivity |]. split; [exact Hs2 |].
        intros Hf. destruct (Hq Hf) as [Hx _]. discriminate.
      * exists w2. split; [reflexivity |]. split; [exact Hs2 |].
        intros Hf. destruct (Hq Hf) as [Hx _]. discriminate.
  - destruct (find_one_misses MEMORY_COLLECTION (fun d => has_id (StrId s) d) w
                (unknown_by_string s w Hu)) as (r & w1 & E & Hr & Hs & Hq).
    rewrite E. destruct Hr as [-> | [e2 ->]].
    + exists w1. split; [reflexivity |]. split; [exact Hs |].
      intros Hf. now destruct (Hq Hf).
    + exists w1. split; [reflexivity |]. split; [exact Hs |].
      intros Hf. destruct (Hq Hf) as [Hx _]. discriminate.
Qed.

(** [get_memory] on the id of a stored memory, when the database
    answers. *)
Lemma get_memory_found (s h : string) (d : Doc F) (w : World F) :
  faults w = [] ->
  ObjectId_parse s = Ok (ObjectId h) ->
  memory_with_oid h w = Some d ->
  get_memory (PStr s) w = (Ok (Some (doc_to_dict d)), touched d w).
Proof.
  intros Hq Hp Hd. unfold get_memory.
  unfold try_catch at 1. unfold bind at 1. unfold try_catch at 1.
  unfold bind at 1. unfold lift. rewrite Hp.
  rewrite find_one_quiet by exact Hq.
  unfold memory_with_oid in Hd. unfold coll_get at 1. rewrite Hd.
  unfold bind at 1. unfold utcnow at 1. unfold bind at 1.
  destruct (update_one_quiet MEMORY_COLLECTION (has_id (doc_id d)) (touch (clock w)) w Hq)
    as [b Hb].
  rewrite Hb. reflexivity.
Qed.

Lemma update_first_app_fresh (p : Doc F -> bool) (f : Doc F -> Doc F)
      (l : list (Doc F)) (d : Doc F) :
  (forall x, In x l -> p x = false) -> p d = true ->
  update_first p f (l ++ [d]) = l ++ [f d].
Proof.
  intros Hl Hd. induction l as [| x l IH]; simpl.
  - now rewrite Hd.
  - rewrite (Hl x (or_introl eq_refl)). f_equal. apply IH.
    intros y Hy. apply Hl. now right.
Qed.

End MemoryReads.

Section MemoryRoundTrip.
Context {F : Type} {SF : Scalar F}.
Variable env : Env F.

(** [create_memory] when the database answers. *)
Lemma create_memory_quiet (cid text src : string) (imp : Z) (md : option (dict F))
      (w : World F) :
  faults w = [] ->
  create_memory env cid text src imp md w
  = (Ok (gen_oid env (oid_counter w)),
     next_oid
       (coll_put MEMORY_EMBEDDINGS_COLLECTION
          (memory_embeddings w
           ++ [mkDoc (ObjectId (gen_oid env (S (oid_counter w))))
                     [ ("memory_id", PStr (gen_oid env (oid_counter w)));
                       ("character_id", PStr cid);
                       ("embedding", of_floats (embedding_of env text));
                       ("created_at", PDate (clock w)) ]])
          (next_oid
             (coll_put MEMORY_COLLECTION
                (memories w
                 ++ [mkDoc (ObjectId (gen_oid env (oid_counter w)))
                           [ ("character_id", PStr cid);
                             ("content", PStr text);
                             ("source", PStr src);
                             ("importance", PInt imp);
                             ("metadata", PDict (match md with Some m => m | None => [] end));
                             ("created_at", PDate (clock w));
                             ("last_accessed", PDate (clock w));
                             ("access_count", PInt 0) ]])
                w)))).
Proof.
  intros Hq. unfold create_memory.
  unfold bind at 1. unfold utcnow at 1.
  unfold bind at 1. rewrite insert_one_quiet by exact Hq.
  unfold bind at 1. rewrite create_embedding_returns.
  unfold bind at 1. rewrite insert_one_quiet by (simpl; exact Hq).
  reflexivity.
Qed.

(** The write and the read that follows it. *)
Lemma create_memory_get_memory_steps (cid text src : string) (imp : Z)
      (md : option (dict F)) (w : World F) :
  faults w = [] ->
  well_formed_oid env (oid_counter w) ->
  (forall d, In d (memories w) -> doc_id d <> ObjectId (gen_oid env (oid_counter w))) ->
  let doc := mkDoc (ObjectId (gen_oid env (oid_counter w)))
                   [ ("character_id", PStr cid);
                     ("content", PStr text);
                     ("source", PStr src);
                     ("importance", PInt imp);
                     ("metadata", PDict (match md with Some m => m | None => [] end));
                     ("created_at", PDate (clock w));
                     ("last_accessed", PDate (clock w));
                     ("access_count", PInt 0) ] in
  let w1 := snd (create_memory env cid text src imp md w) in
  create_memory env cid text src imp md w = (Ok (gen_oid env (oid_counter w)), w1)
  /\ get_memory (PStr (gen_oid env (oid_counter w))) w1
     = (Ok (Some (doc_to_dict doc)), touched doc w1).
Proof.
  intros Hq Hoid Hfresh doc w1. subst w1.
  rewrite (create_memory_quiet cid text src imp md w Hq). cbn [snd].
  split; [reflexivity |].
  apply get_memory_found with (h := gen_oid env (oid_counter w)).
  - exact Hq.
  - exact Hoid.
  - unfold memory_with_oid. cbn [memories next_oid coll_put].
    apply find_first_app_fresh.
    + apply has_id_fresh. exact Hfresh.
    + unfold has_id, doc. cbn [doc_id DocId_eqb]. apply String.eqb_refl.
Qed.

End MemoryRoundTrip.

(** X11.  A memory written by [create_memory] is read back by
    [get_memory] under the returned id, when the database answers and
    the driver's new [ObjectId] is well-formed and not yet used: the
    dictionary returned holds the fields as they were written, with
    [access_count] 0 and the id added last, while the stored memory
    now has [access_count] 1; no memory is added or removed by the
    read. *)
Theorem create_memory_get_memory {F : Type} {SF : Scalar F} (env : Env F)
        (cid text src : string) (imp : Z) (md : option (dict F)) (w : World F)
        (Hquiet : faults w = [])
        (Hoid : well_formed_oid env (oid_counter w))
        (Hfresh : forall d, In d (memories w) ->
                            doc_id d <> ObjectId (gen_oid env (oid_counter w))) :
  exists w1 w2,
    create_memory env cid text src imp md w = (Ok (gen_oid env (oid_counter w)), w1)
    /\ get_memory (PStr (gen_oid env (oid_counter w))) w1
       = (Ok (Some [ ("character_id", PStr cid);
                     ("content", PStr text);
                     ("source", PStr src);
                     ("importance", PInt imp);
                     ("metadata", PDict (match md with Some m => m | None => [] end));
                     ("created_at", PDate (clock w));
                     ("last_accessed", PDate (clock w));
                     ("access_count", PInt 0);
                     ("id", PStr (gen_oid env (oid_counter w))) ]),
          w2)
    /\ memories w2
       = memories w
         ++ [mkDoc (ObjectId (gen_oid env (oid_counter w)))
                   [ ("character_id", PStr cid);
                     ("content", PStr text);
                     ("source", PStr src);
                     ("importance", PInt imp);
                     ("metadata", PDict (match md with Some m => m | None => [] end));
                     ("created_at", PDate (clock w));
                     ("last_accessed", PDate (clock w));
                     ("access_count", PInt 1) ]]
    /\ memory_embeddings w2 = memory_embeddings w1.
Proof.
  eexists _, _. split; [apply create_memory_quiet; exact Hquiet |].
  set (oid := gen_oid env (oid_counter w)).
  set (doc := mkDoc (ObjectId oid)
                    [ ("character_id", PStr cid); ("content", PStr text);
                      ("source", PStr src); ("importance", PInt imp);
                      ("metadata", PDict (match md with Some m => m | None => [] end));
                      ("created_at", PDate (clock w)); ("last_accessed", PDate (clock w));
                      ("access_count", PInt 0) ] : Doc F).
  assert (Hfound : find_first (has_id (ObjectId oid)) (memories w ++ [doc]) = Some doc).
  { apply find_first_app_fresh.
    - apply has_id_fresh. exact Hfresh.
    - unfold has_id, doc. simpl. apply String.eqb_refl. }
  split; [| split].
  - erewrite get_memory_found with (h := oid) (d := doc).
    + reflexivity.
    + simpl. exact Hquiet.
    + exact Hoid.
    + exact Hfound.
  - unfold touched. simpl memories.
    rewrite update_first_app_fresh.
    + reflexivity.
    + apply has_id_fresh. exact Hfresh.
    + unfold has_id, doc. simpl. apply String.eqb_refl.
  - reflexivity.
Qed.

Lemma create_memory_get_memory_witness :
  exists w1 w2,
    create_memory Demo.env "thor" "I met Loki today" "conversation" 5 None Demo.empty_world
    = (Ok (gen_oid Demo.env 0), w1)
    /\ get_memory (PStr (gen_oid Demo.env 0)) w1
       = (Ok (Some [ ("character_id", PStr "thor");
                     ("content", PStr "I met Loki today");
                     ("source", PStr "conversation");
                     ("importance", PInt 5);
                     ("metadata", PDict []);
                     ("created_at", PDate 0);
                     ("last_accessed", PDate 0);
                     ("access_count", PInt 0);
                     ("id", PStr (gen_oid Demo.env 0)) ]),
          w2).
Proof.
  destruct (create_memory_get_memory Demo.env "thor" "I met Loki today" "conversation" 5
              None Demo.empty_world eq_refl)
    as (w1 & w2 & H1 & H2 & _).
  - vm_compute. reflexivity.
  - intros d [].
  - exists w1, w2. split; [exact H1 | exact H2].
Defined.

(** X12.  [get_memory] never raises.  For an id that no stored memory
    has (read as an [ObjectId] or as a string) it returns [None] and
    changes no document, whatever the database does in the meantime;
    when the database answers, nothing at all has changed. *)
Theorem get_memory_unknown_id {F : Type} {SF : Scalar F} (v : pyval F) (w : World F) :
  (exists r w', get_memory v w = (Ok r, w'))
  /\ (forall s, v = PStr s -> unknown_memory s w ->
        exists w', get_memory v w = (Ok None, w')
                   /\ same_data w w'
                   /\ (faults w = [] -> w' = w)).
Proof.
  split.
  - unfold get_memory.
    apply (total_try_catch _ (fun _ => ret None)). intros e. apply total_ret.
  - intros s -> Hu. apply get_memory_unknown. exact Hu.
Qed.

(** ** The memory endpoints *)

Section MemoryApiFacts.
Context {F : Type} {SF : Scalar F}.
Variable env : Env F.
Variable http_exception_str : Z -> string -> string.

Lemma doc_to_dict_present (d : Doc F) : absent (Some (doc_to_dict d)) = false.
Proof.
  unfold absent, doc_to_dict. destruct (doc_fields d) as [| [k v] fs]; cbn [dict_set].
  - reflexivity.
  - destruct (String.eqb "id" k); reflexivity.
Qed.

Lemma update_first_ids (p : Doc F -> bool) (f : Doc F -> Doc F) (l : list (Doc F)) :
  (forall d, doc_id (f d) = doc_id d) ->
  map (doc_id (F:=F)) (update_first p f l) = map (doc_id (F:=F)) l.
Proof. intros Hf. apply update_first_map. exact Hf. Qed.

Lemma touch_id (now : N) (d : Doc F) : doc_id (touch now d) = doc_id d.
Proof. reflexivity. Qed.

Lemma touch_other_field (k : string) (now : N) (d : Doc F) :
  k <> "access_count" -> k <> "last_accessed" ->
  dict_get k (doc_fields (touch now d)) = dict_get k (doc_fields d).
Proof.
  intros H1 H2. unfold touch, apply_inc, apply_set. cbn [doc_fields fold_left fst snd].
  rewrite dict_get_set_other by exact H1. now rewrite dict_get_set_other by exact H2.
Qed.

Lemma touched_ids (d : Doc F) (w : World F) :
  map (doc_id (F:=F)) (memories (touched d w)) = map (doc_id (F:=F)) (memories w).
Proof. unfold touched. simpl. apply update_first_ids. intros x. apply touch_id. Qed.

Lemma ids_miss (i : DocId) (l l' : list (Doc F)) :
  map (doc_id (F:=F)) l' = map (doc_id (F:=F)) l ->
  (forall x, In x l -> doc_id x <> i) ->
  forall x, In x l' -> has_id i x = false.
Proof.
  intros Hids Hl. apply has_id_fresh. intros x Hx E.
  assert (Hin : In (doc_id x) (map (doc_id (F:=F)) l)).
  { rewrite <- Hids. now apply in_map. }
  apply in_map_iff in Hin. destruct Hin as (y & Hy & Hyin).
  apply (Hl y Hyin). congruence.
Qed.

(** [delete_memory] and [update_memory] on an id that no memory has
    as a string. *)
Lemma delete_memory_misses (mid : string) (w : World F) :
  faults w = [] ->
  (forall x, In x (memories w) -> has_id (StrId mid) x = false) ->
  delete_memory mid w = (Ok false, w).
Proof.
  intros Hq Hm. unfold delete_memory.
  destruct (delete_one_misses MEMORY_COLLECTION (has_id (StrId mid)) w Hm)
    as (o & w' & E & _ & _ & H).
  destruct (H Hq) as [-> ->].
  unfold bind at 1. rewrite E. reflexivity.
Qed.

Lemma update_memory_misses (mid : string) (updates : dict F) (w : World F) :
  faults w = [] ->
  (forall x, In x (memories w) -> has_id (StrId mid) x = false) ->
  update_memory env mid updates w = (Ok false, w).
Proof.
  intros Hq Hm. unfold update_memory.
  destruct (update_one_misses MEMORY_COLLECTION (has_id (StrId mid))
              (apply_set (safe_updates_of updates)) w Hm)
    as (o & w' & E & _ & _ & H).
  destruct (H Hq) as [-> ->].
  unfold bind at 1. rewrite E.
  destruct (dict_get "content" (safe_updates_of updates)); [| reflexivity].
  unfold bind at 1. rewrite find_one_quiet by exact Hq.
  rewrite (find_first_none (has_id (StrId mid)) (coll_get MEMORY_COLLECTION w) Hm).
  reflexivity.
Qed.

End MemoryApiFacts.

(** X13.  The DELETE endpoint of the memory API never answers 404:
    its handler wraps every exception of the body, the body's own
    [HTTPException]s included, so its answer is the success message
    or a 500.  For an id that no memory has it answers 500 with the
    text of the 404 inside the detail, where the GET endpoint answers
    404 for the same id; neither changes a document. *)
Theorem delete_memory_endpoint_never_404 {F : Type} {SF : Scalar F}
        (http_exception_str : Z -> string -> string) (mid : string) (w : World F) :
  (exists r w',
      delete_memory_endpoint http_exception_str mid w = (Ok r, w')
      /\ (status_of r = 200 \/ status_of r = 500))
  /\ (unknown_memory mid w ->
      exists w',
        delete_memory_endpoint http_exception_str mid w
        = (Ok (HTTPException 500
                 ("Error deleting memory: "
                    +++ http_exception_str 404 "Memory not found")), w')
        /\ get_memory_endpoint mid w = (Ok (HTTPException 404 "Memory not found"), w')
        /\ same_data w w').
Proof.
  split.
  - unfold delete_memory_endpoint, try_catch, bind at 1.
    destruct (get_memory (PStr mid) w) as [[r | e] w1].
    + destruct (absent r).
      * eexists _, _. split; [reflexivity | right; reflexivity].
      * unfold bind. destruct (delete_memory mid w1) as [[[|] | e] w2].
        -- eexists _, _. split; [reflexivity | left; reflexivity].
        -- eexists _, _. split; [reflexivity | right; reflexivity].
        -- eexists _, _. split; [reflexivity | right; reflexivity].
    + eexists _, _. split; [reflexivity | right; reflexivity].
  - intros Hu. destruct (get_memory_unknown mid w Hu) as (w' & E & Hs & _).
    exists w'. split; [| split; [| exact Hs]].
    + unfold delete_memory_endpoint, try_catch, bind. rewrite E. reflexivity.
    + unfold get_memory_endpoint, try_catch, bind. rewrite E. reflexivity.
Qed.

(** X14.  A memory whose [_id] is an [ObjectId] (every memory that
    [create_memory] writes) cannot be deleted or updated through the
    API: [get_memory] finds it by the string of its id, but
    [delete_memory] and [update_memory] filter on the string itself
    and match nothing, so with a database that answers the DELETE
    endpoint answers 500 ('Failed to delete memory', wrapped) and the
    PUT endpoint answers 500 'Failed to update memory'.  All that
    changes is the access statistics of the memory; its content, the
    ids and the embedding records are as before. *)
Theorem object_id_memories_resist_the_api {F : Type} {SF : Scalar F} (env : Env F)
        (http_exception_str : Z -> string -> string)
        (mid h : string) (d : Doc F) (memory_update : MemoryUpdate F) (w : World F)
        (Hquiet : faults w = [])
        (Hparse : ObjectId_parse mid = Ok (ObjectId h))
        (Hfound : memory_with_oid h w = Some d)
        (Hnostr : forall x, In x (memories w) -> doc_id x <> StrId mid) :
  delete_memory_endpoint http_exception_str mid w
  = (Ok (HTTPException 500
           ("Error deleting memory: "
              +++ http_exception_str 500 "Failed to delete memory")),
     touched d w)
  /\ update_memory_endpoint env memory_update mid w
     = (Ok (HTTPException 500 "Failed to update memory"), touched d w)
  /\ map (doc_id (F:=F)) (memories (touched d w)) = map (doc_id (F:=F)) (memories w)
  /\ map (fun x : Doc F => dict_get "content" (doc_fields x)) (memories (touched d w))
     = map (fun x : Doc F => dict_get "content" (doc_fields x)) (memories w)
  /\ memory_embeddings (touched d w) = memory_embeddings w.
Proof.
  assert (Hget : get_memory (PStr mid) w = (Ok (Some (doc_to_dict d)), touched d w))
    by (apply get_memory_found with (h := h); assumption).
  assert (Hq' : faults (touched d w) = []) by exact Hquiet.
  assert (Hmiss : forall x, In x (memories (touched d w)) -> has_id (StrId mid) x = false).
  { apply ids_miss with (l := memories w); [apply touched_ids | exact Hnostr]. }
  split; [| split; [| split; [| split]]].
  - unfold delete_memory_endpoint, try_catch, bind at 1. rewrite Hget.
    rewrite doc_to_dict_present. unfold bind.
    rewrite (delete_memory_misses mid (touched d w) Hq' Hmiss). reflexivity.
  - unfold update_memory_endpoint, try_catch, bind at 1. rewrite Hget.
    rewrite doc_to_dict_present. unfold bind.
    rewrite (update_memory_misses env mid _ (touched d w) Hq' Hmiss). reflexivity.
  - apply touched_ids.
  - unfold touched. simpl memories. apply update_first_map. intros x.
    apply touch_other_field; discriminate.
  - reflexivity.
Qed.

Lemma object_id_memories_resist_the_api_witness :
  let w1 := snd (create_memory Demo.env "thor" "I met Loki today" "conversation" 5 None
                               Demo.empty_world) in
  exists d w2,
    delete_memory_endpoint (fun s detail => string_of_nat (Z.to_nat s) +++ ": " +++ detail)
                           (gen_oid Demo.env 0) w1
    = (Ok (HTTPException 500 "Error deleting memory: 500: Failed to delete memory"), w2)
    /\ memories w2 = [d]
    /\ dict_get "content" (doc_fields d) = Some (PStr "I met Loki today").
Proof.
  intros w1.
  destruct (object_id_memories_resist_the_api Demo.env
              (fun s detail => string_of_nat (Z.to_nat s) +++ ": " +++ detail)
              (gen_oid Demo.env 0) (gen_oid Demo.env 0)
              (mkDoc (ObjectId (gen_oid Demo.env 0))
                     [ ("character_id", PStr "thor");
                       ("content", PStr "I met Loki today");
                       ("source", PStr "conversation");
                       ("importance", PInt 5);
                       ("metadata", PDict []);
                       ("created_at", PDate 0);
                       ("last_accessed", PDate 0);
                       ("access_count", PInt 0) ])
              (mkMemoryUpdate (Some "changed") None None) w1)
    as (Hdel & _).
  - reflexivity.
  - vm_compute. reflexivity.
  - vm_compute. reflexivity.
  - intros x Hx. vm_compute in Hx. destruct Hx as [<- | []]. discriminate.
  - eexists _, _. split; [exact Hdel |]. split; vm_compute; reflexivity.
Defined.

(** ** The memories of a character *)

Section CharacterMemories.
Context {F : Type} {SF : Scalar F}.

Lemma bson_lt_integers (x y : Z) :
  bson_lt (Some (PInt x : pyval F)) (Some (PInt y)) = (x <? y).
Proof. reflexivity. Qed.

Lemma cursor_limit_sorted (Rel : Doc F -> Doc F -> Prop) (n : Z) (l : list (Doc F)) :
  StronglySorted Rel l -> StronglySorted Rel (cursor_limit n l).
Proof.
  intros H. unfold cursor_limit. destruct (n =? 0); [exact H |].
  now apply StronglySorted_firstn.
Qed.

Lemma cursor_limit_In (n : Z) (l : list (Doc F)) (d : Doc F) :
  In d (cursor_limit n l) -> In d l.
Proof.
  unfold cursor_limit. destruct (n =? 0); [auto |]. apply In_firstn.
Qed.

Lemma limited_length (n : Z) (l : list (Doc F)) :
  0 <= n ->
  List.length (firstn (Z.to_nat n) (cursor_limit n l)) = Nat.min (Z.to_nat n) (List.length l).
Proof.
  intros Hn. unfold cursor_limit. destruct (Z.eqb_spec n 0) as [-> | Hne].
  - reflexivity.
  - rewrite !length_firstn. lia.
Qed.

Lemma importance_of_doc (d : Doc F) (z : Z) :
  dict_get "importance" (doc_fields d) = Some (PInt z) ->
  importance_of (doc_to_dict d) = z.
Proof.
  intros H. unfold importance_of, doc_to_dict.
  rewrite dict_get_set_other by discriminate. now rewrite H.
Qed.

(** The sort of [get_character_memories] on memories with integer
    importance. *)
Lemma sort_by_importance_sorted (l : list (Doc F)) :
  Forall integer_importance l ->
  StronglySorted
    (fun a b => importance_of (doc_to_dict a) >= importance_of (doc_to_dict b))
    (sort_desc (fun a b => bson_lt (dict_get "importance" (doc_fields a))
                                   (dict_get "importance" (doc_fields b))) l).
Proof.
  intros HP.
  set (lt := fun a b : Doc F => bson_lt (dict_get "importance" (doc_fields a))
                                        (dict_get "importance" (doc_fields b))).
  apply StronglySorted_weaken with (R1 := not_below lt).
  - intros a b Ha Hb Hab.
    apply sort_desc_In in Ha, Hb. rewrite Forall_forall in HP.
    destruct (HP a Ha) as [x Hx]. destruct (HP b Hb) as [y Hy].
    rewrite (importance_of_doc a x Hx), (importance_of_doc b y Hy).
    unfold not_below, lt in Hab. rewrite Hx, Hy, bson_lt_integers in Hab.
    apply Z.ltb_ge in Hab. lia.
  - apply sort_desc_sorted with (P := integer_importance); [| | exact HP].
    + intros a b [x Hx] [y Hy]. unfold lt. rewrite Hx, Hy, !bson_lt_integers.
      intros H. apply Z.ltb_lt in H. apply Z.ltb_ge. lia.
    + intros a b c [x Hx] [y Hy] [z Hz]. unfold lt.
      rewrite Hx, Hy, Hz, !bson_lt_integers.
      intros H1 H2. apply Z.ltb_ge in H1, H2. apply Z.ltb_ge. lia.
Qed.

Lemma db_call_memories (w w1 : World F) (u : unit) :
  db_call w = (Ok u, w1) -> memories w1 = memories w.
Proof.
  unfold db_call. destruct (faults w) as [| [msg |] rest]; intros H; inversion H; reflexivity.
Qed.

End CharacterMemories.

(** X15.  Whenever [get_character_memories] returns, it returns
    [min(limit, n)] memories for the [n] stored memories of the
    character (and of the source, when one is given), each of them one
    of these memories with its id added; when the sort field is the
    importance (the default, and every [sort_by] other than
    [created_at] and [last_accessed]) and the character's memories have
    integer importance, the list is in descending order of importance. *)
Theorem get_character_memories_top {F : Type} {SF : Scalar F}
        (cid : string) (limit : Z) (sort_by : string)
        (source : option string) (w w' : World F) (l : list (dict F))
        (Hret : get_character_memories cid limit sort_by source w = (Ok l, w')) :
  exists docs,
    l = map (doc_to_dict (F:=F)) docs
    /\ List.length l
       = Nat.min (Z.to_nat limit)
                 (List.length (filter (memory_matches cid source) (memories w)))
    /\ (forall d, In d docs -> In d (memories w) /\ memory_matches cid source d = true)
    /\ (sort_by <> "created_at" -> sort_by <> "last_accessed" ->
        Forall integer_importance (filter (memory_matches cid source) (memories w)) ->
        StronglySorted (fun a b => importance_of a >= importance_of b) l).
Proof.
  unfold get_character_memories in Hret.
  destruct (Z.ltb_spec limit 0) as [Hneg | Hpos]; [discriminate |].
  unfold find_all, bind in Hret.
  destruct (db_call w) as [[u | e] w1] eqn:Edb; [| discriminate].
  unfold get_world, ret in Hret.
  pose proof (db_call_memories w w1 u Edb) as Hm.
  change (coll_get MEMORY_COLLECTION w1) with (memories w1) in Hret. rewrite Hm in Hret.
  fold (memory_matches cid source) in Hret.
  set (found := filter (memory_matches cid source) (memories w)) in *.
  injection Hret as Hl _.
  eexists. split; [symmetry; exact Hl |].
  split; [| split].
  - rewrite <- Hl, length_map, limited_length by exact Hpos.
    now rewrite sort_desc_length.
  - intros d Hd. apply In_firstn, cursor_limit_In in Hd.
    apply sort_desc_In in Hd. subst found. apply filter_In in Hd. exact Hd.
  - intros H1 H2 HP. rewrite <- Hl.
    apply String.eqb_neq in H1, H2. rewrite H1, H2.
    apply StronglySorted_map, StronglySorted_firstn, cursor_limit_sorted.
    apply sort_by_importance_sorted. exact HP.
Qed.

(** Of the four memories of Thor, of importance 2, 9, 5 and 7, a
    limit of three returns those of importance 9, 7 and 5, in this
    order. *)
Lemma get_character_memories_top_witness :
  exists l w',
    get_character_memories "thor" 3 "importance" None DemoMemory.thor_world = (Ok l, w')
    /\ map (importance_of (F:=float)) l = [9; 7; 5]
    /\ List.length l
       = Nat.min (Z.to_nat 3)
                 (List.length (filter (memory_matches "thor" None)
                                      (memories DemoMemory.thor_world)))
    /\ StronglySorted (fun a b => importance_of a >= importance_of b) l.
Proof.
  destruct (get_character_memories "thor" 3 "importance" None DemoMemory.thor_world)
    as [[l | e] w'] eqn:E; [| vm_compute in E; discriminate E].
  exists l, w'. split; [reflexivity |].
  destruct (get_character_memories_top "thor" 3 "importance" None
              DemoMemory.thor_world w' l E)
    as (docs & H1 & H2 & _ & H4).
  split; [vm_compute in E; injection E as <- _; reflexivity |].
  split; [exact H2 |].
  apply H4; [discriminate | discriminate |].
  vm_compute. repeat constructor; eexists; reflexivity.
Defined.

(** ** A recorded error stays recorded *)

Section StageFrames.
Context {F : Type} {SF : Scalar F}.

Variable Rw : World F -> World F -> Prop.
Hypothesis Rw_refl : forall w, Rw w w.
Hypothesis Rw_trans : forall w1 w2 w3, Rw w1 w2 -> Rw w2 w3 -> Rw w1 w3.
Hypothesis Rw_db_call : forall w, Rw w (snd (db_call w)).
Hypothesis Rw_touch :
  forall w p now,
    Rw w (coll_put MEMORY_COLLECTION (update_first p (touch now) (memories w)) w).

Variable env : Env F.

Lemma preserves_count_documents (c : Collection) : preserves Rw (count_documents c).
Proof.
  unfold count_documents.
  apply (preserves_bind Rw Rw_trans); [exact Rw_db_call | intros _].
  apply (preserves_bind Rw Rw_trans); [exact Rw_refl | intros w'].
  apply (preserves_ret Rw Rw_refl).
Qed.

Lemma preserves_retrieve_similar (q : KnowledgeQuery F) :
  preserves Rw (retrieve_similar env q).
Proof.
  unfold retrieve_similar.
  apply (preserves_bind Rw Rw_trans);
    [apply (preserves_get_embedding Rw Rw_refl Rw_trans) | intros qe].
  apply (preserves_bind Rw Rw_trans); [apply preserves_count_documents | intros n].
  apply (preserves_try_catch Rw Rw_trans); [| intros e; apply (preserves_ret Rw Rw_refl)].
  apply (preserves_bind Rw Rw_trans); [| intros matching].
  { unfold find_query.
    apply (preserves_bind Rw Rw_trans); [exact Rw_db_call | intros _].
    apply (preserves_bind Rw Rw_trans); [apply (preserves_lift Rw Rw_refl) | intros selects].
    apply (preserves_bind Rw Rw_trans); [apply (preserves_get_world Rw Rw_refl) | intros w0].
    apply (preserves_ret Rw Rw_refl). }
  apply (preserves_bind Rw Rw_trans); [apply (preserves_utcnow Rw Rw_refl) | intros now].
  apply (preserves_bind Rw Rw_trans); [apply (preserves_lift Rw Rw_refl) | intros chunks].
  apply (preserves_ret Rw Rw_refl).
Qed.

Lemma preserves_recent_messages (conv_id : string) :
  preserves Rw (recent_messages conv_id).
Proof.
  unfold recent_messages.
  apply (preserves_try_catch Rw Rw_trans); [| intros e; apply (preserves_ret Rw Rw_refl)].
  apply (preserves_bind Rw Rw_trans);
    [apply (preserves_find_one Rw Rw_refl Rw_trans Rw_db_call) | intros [d |]].
  - destruct (dict_get "messages" (doc_fields d)) as [[] |];
      apply (preserves_ret Rw Rw_refl).
  - apply (preserves_ret Rw Rw_refl).
Qed.

Lemma preserves_knowledge_retrieval (st : GraphState F) :
  preserves Rw (knowledge_retrieval env st).
Proof.
  unfold knowledge_retrieval.
  apply (preserves_try_catch Rw Rw_trans); [| intros e; apply (preserves_ret Rw Rw_refl)].
  apply (preserves_try_catch Rw Rw_trans); [| intros e; apply (preserves_ret Rw Rw_refl)].
  apply (preserves_bind Rw Rw_trans);
    [apply (preserves_find_one Rw Rw_refl Rw_trans Rw_db_call) | intros character_result].
  apply (preserves_bind Rw Rw_trans); [apply preserves_retrieve_similar | intros chunks].
  apply (preserves_bind Rw Rw_trans); [| intros h; apply (preserves_ret Rw Rw_refl)].
  destruct (truthy_str (conversation_id st));
    [apply preserves_recent_messages | apply (preserves_ret Rw Rw_refl)].
Qed.

Lemma preserves_memory_retrieval (st : GraphState F) :
  preserves Rw (memory_retrieval env st).
Proof.
  unfold memory_retrieval.
  apply (preserves_try_catch Rw Rw_trans); [| intros e; apply (preserves_ret Rw Rw_refl)].
  apply (preserves_try_catch Rw Rw_trans); [| intros e; apply (preserves_ret Rw Rw_refl)].
  apply (preserves_bind Rw Rw_trans);
    [apply (preserves_search_memories Rw Rw_refl Rw_trans Rw_db_call Rw_touch)
    | intros found].
  apply (preserves_bind Rw Rw_trans); [| intros ms; apply (preserves_ret Rw Rw_refl)].
  destruct found;
    [apply (preserves_get_character_memories Rw Rw_refl Rw_trans Rw_db_call)
    | apply (preserves_ret Rw Rw_refl)].
Qed.

Lemma preserves_context_assembly (st : GraphState F) :
  preserves Rw (context_assembly env st).
Proof.
  unfold context_assembly.
  apply (preserves_try_catch Rw Rw_trans); [| intros e; apply (preserves_ret Rw Rw_refl)].
  apply (preserves_bind Rw Rw_trans); [apply (preserves_lift Rw Rw_refl) | intros a].
  apply (preserves_ret Rw Rw_refl).
Qed.

Lemma preserves_dialogue_generation (st : GraphState F) :
  preserves Rw (dialogue_generation env st).
Proof.
  unfold dialogue_generation.
  apply (preserves_try_catch Rw Rw_trans); [| intros e; apply (preserves_ret Rw Rw_refl)].
  apply (preserves_bind Rw Rw_trans); [apply (preserves_lift Rw Rw_refl) | intros a].
  apply (preserves_ret Rw Rw_refl).
Qed.

End StageFrames.

Section Yields.
Context {F : Type}.

Lemma yields_ret {A} (P : A -> Prop) (a : A) : P a -> yields (F:=F) P (ret a).
Proof. intros Ha w b w' H. unfold ret in H. inversion H. now subst. Qed.

Lemma yields_raise {A} (P : A -> Prop) (e : string) : yields (F:=F) P (raise e).
Proof. intros w b w' H. discriminate. Qed.

Lemma yields_bind {A B} (P : B -> Prop) (m : M (F:=F) A) (k : A -> M B) :
  (forall a, yields P (k a)) -> yields P (bind m k).
Proof.
  intros Hk w b w' H. unfold bind in H.
  destruct (m w) as [[a | e] w1]; [| discriminate]. eapply Hk, H.
Qed.

Lemma yields_try_catch {A} (P : A -> Prop) (m : M (F:=F) A) (h : string -> M A) :
  yields P m -> (forall e, yields P (h e)) -> yields P (try_catch m h).
Proof.
  intros Hm Hh w b w' H. unfold try_catch in H.
  destruct (m w) as [[a | e] w1] eqn:E.
  - inversion H; subst. eapply Hm, E.
  - eapply Hh, H.
Qed.

End Yields.

Section ErrorKept.
Context {F : Type} {SF : Scalar F}.
Variable env : Env F.

Lemma error_ensure_character_info (st : GraphState F) :
  error (ensure_character_info st) = error st.
Proof. unfold ensure_character_info. destruct (character_info st); reflexivity. Qed.

Lemma knowledge_retrieval_keeps_error (st : GraphState F) :
  has_error st -> yields (F:=F) has_error (knowledge_retrieval env st).
Proof.
  intros He. unfold knowledge_retrieval.
  assert (Hf : forall e : string,
             yields (F:=F) has_error
               (ret (set_error ("Knowledge retrieval error: " +++ e)
                       (set_conversation_history (PList [])
                          (set_knowledge [] (fallback_character_info (character_id st))
                                         st))))).
  { intros e. apply yields_ret. apply truthy_str_prefixed. discriminate. }
  apply yields_try_catch; [| exact Hf].
  apply yields_try_catch; [| exact Hf].
  apply yields_bind. intros cr. apply yields_bind. intros chunks.
  apply yields_bind. intros h. apply yields_ret. exact He.
Qed.

Lemma memory_retrieval_keeps_error (st : GraphState F) :
  has_error st -> yields (F:=F) has_error (memory_retrieval env st).
Proof.
  intros He. unfold memory_retrieval.
  assert (Hf : forall e : string,
             yields (F:=F) has_error
               (ret (set_character_memories []
                       (set_error ("Memory retrieval error: " +++ e) st)))).
  { intros e. apply yields_ret. apply truthy_str_prefixed. discriminate. }
  apply yields_try_catch; [| exact Hf].
  apply yields_try_catch; [| exact Hf].
  apply yields_bind. intros found. apply yields_bind. intros ms.
  apply yields_ret. exact He.
Qed.

Lemma context_assembly_keeps_error (st : GraphState F) :
  has_error st -> yields (F:=F) has_error (context_assembly env st).
Proof.
  intros He. unfold context_assembly.
  apply yields_try_catch.
  - apply yields_bind. intros a. apply yields_ret.
    unfold has_error. cbn [error set_assembled_context].
    rewrite error_ensure_character_info. exact He.
  - intros e. apply yields_ret. apply truthy_str_prefixed. discriminate.
Qed.

Lemma dialogue_generation_keeps_error (st : GraphState F) :
  has_error st -> yields (F:=F) has_error (dialogue_generation env st).
Proof.
  intros He. unfold dialogue_generation.
  apply yields_try_catch.
  - apply yields_bind. intros a. apply yields_ret.
    unfold has_error. cbn [error set_response].
    rewrite error_ensure_character_info. exact He.
  - intros e. apply yields_ret. apply truthy_str_prefixed. discriminate.
Qed.

Lemma memory_integration_keeps_error (st : GraphState F) :
  has_error st -> yields (F:=F) has_error (memory_integration env st).
Proof.
  intros He w st' w' H. rewrite (memory_integration_skips env st w He) in H.
  inversion H; subst. exact He.
Qed.

Lemma stage_keeps_error (n : NodeNames) (st : GraphState F) :
  has_error st -> yields (F:=F) has_error (stage env n st).
Proof.
  destruct n; simpl.
  - apply knowledge_retrieval_keeps_error.
  - apply memory_retrieval_keeps_error.
  - apply context_assembly_keeps_error.
  - apply dialogue_generation_keeps_error.
  - apply memory_integration_keeps_error.
Qed.

(** With an error recorded, no stage adds or removes a memory or an
    embedding record. *)
Lemma stage_keeps_links (n : NodeNames) (st : GraphState F) :
  has_error st -> preserves same_links (stage env n st).
Proof.
  intros He. destruct n; simpl.
  - apply preserves_knowledge_retrieval;
      first [exact same_links_refl | exact same_links_trans
            | exact same_links_db_call | exact same_links_touch].
  - apply preserves_memory_retrieval;
      first [exact same_links_refl | exact same_links_trans
            | exact same_links_db_call | exact same_links_touch].
  - apply preserves_context_assembly;
      first [exact same_links_refl | exact same_links_trans
            | exact same_links_db_call | exact same_links_touch].
  - apply preserves_dialogue_generation;
      first [exact same_links_refl | exact same_links_trans
            | exact same_links_db_call | exact same_links_touch].
  - intros w. rewrite (memory_integration_skips env st w He). apply same_links_refl.
Qed.

Lemma run_from_step (fuel : nat) (n : NodeNames) (st : GraphState F) :
  run_from (create_dialogue_graph env) (S fuel) n st
  = (state' <- stage env n st ;;
     match lookup n (edges (create_dialogue_graph env)) with
     | Some (Node n') => run_from (create_dialogue_graph env) fuel n' state'
     | _ => ret state'
     end).
Proof. destruct n; reflexivity. Qed.

Lemma run_from_keeps_error (fuel : nat) :
  forall (n : NodeNames) (st final : GraphState F) (w w' : World F),
    has_error st ->
    run_from (create_dialogue_graph env) fuel n st w = (Ok final, w') ->
    has_error final /\ same_links w w' /\ completed final = true.
Proof.
  induction fuel as [| fuel IH]; intros n st final w w' He H.
  - discriminate.
  - rewrite run_from_step in H. unfold bind in H.
    pose proof (stage_keeps_error n st He w) as Hk.
    pose proof (stage_keeps_links n st He w) as Hl.
    destruct (stage env n st w) as [[s1 | e] w1] eqn:E; [| discriminate].
    cbn [snd] in Hl. specialize (Hk s1 w1 eq_refl).
    destruct n; cbn [lookup find create_dialogue_graph] in H.
    + destruct (IH _ _ _ _ _ Hk H) as (H1 & H2 & H3).
      split; [exact H1 |]. split; [eapply same_links_trans; eassumption | exact H3].
    + destruct (IH _ _ _ _ _ Hk H) as (H1 & H2 & H3).
      split; [exact H1 |]. split; [eapply same_links_trans; eassumption | exact H3].
    + destruct (IH _ _ _ _ _ Hk H) as (H1 & H2 & H3).
      split; [exact H1 |]. split; [eapply same_links_trans; eassumption | exact H3].
    + destruct (IH _ _ _ _ _ Hk H) as (H1 & H2 & H3).
      split; [exact H1 |]. split; [eapply same_links_trans; eassumption | exact H3].
    + unfold ret in H. inversion H; subst.
      split; [exact Hk |]. split; [exact Hl |].
      simpl in E. rewrite (memory_integration_skips env st w He) in E.
      inversion E; subst. reflexivity.
Qed.

End ErrorKept.



(** ** What the last stage writes *)

Section IntegrationFacts.
Context {F : Type} {SF : Scalar F}.
Variable env : Env F.

Lemma create_memory_links (cid text src : string) (imp : Z) (md : option (dict F))
      (w : World F) :
  store_consistent w ->
  faults w = [] ->
  ~ In (gen_oid env (oid_counter w)) (memory_ids w) ->
  store_consistent (snd (create_memory env cid text src imp md w)).
Proof.
  intros Hc Hq Hf.
  destruct (create_memory_consistent env cid text src imp md w Hc Hq Hf)
    as (w' & E & Hc' & _).
  rewrite E. exact Hc'.
Qed.

Lemma touched_consistent (d : Doc F) (w : World F) :
  store_consistent w -> store_consistent (touched d w).
Proof.
  apply same_links_consistent. unfold touched. apply same_links_touch.
Qed.

End IntegrationFacts.

(** X17.  When no error is recorded, the model has answered with a
    non-empty text and the database answers, [memory_integration]
    writes exactly one memory for the character: its content is
    "User asked: '<input>'. I responded: '<response>'", its source
    [conversation], its importance 5; one embedding record is written
    with it.  The stage reports the memory as read back right after the
    write ([access_count] 0, the id added), sets [completed] and records
    no error; the invariant of the memory store is kept. *)
Theorem memory_integration_writes_one_memory {F : Type} {SF : Scalar F} (env : Env F)
        (st : GraphState F) (r : string) (w : World F)
        (Hnoerror : truthy_str (error st) = false)
        (Hresponse : response st = Some r)
        (Hnonempty : r <> "")
        (Hquiet : faults w = [])
        (Hoid : well_formed_oid env (oid_counter w))
        (Hfresh : ~ In (gen_oid env (oid_counter w)) (memory_ids w)) :
  exists st' w' m e,
    memory_integration env st w = (Ok st', w')
    /\ completed st' = true
    /\ error st' = error st
    /\ response st' = Some r
    /\ memories w' = memories w ++ [m]
    /\ memory_embeddings w' = memory_embeddings w ++ [e]
    /\ doc_id m = ObjectId (gen_oid env (oid_counter w))
    /\ dict_get "character_id" (doc_fields m) = Some (PStr (character_id st))
    /\ dict_get "content" (doc_fields m)
       = Some (PStr ("User asked: '" +++ user_input st +++ "'. I responded: '" +++ r +++ "'"))
    /\ dict_get "source" (doc_fields m) = Some (PStr "conversation")
    /\ dict_get "importance" (doc_fields m) = Some (PInt 5)
    /\ dict_get "memory_id" (doc_fields e) = Some (PStr (gen_oid env (oid_counter w)))
    /\ dict_get "id" (updated_memory st') = Some (PStr (gen_oid env (oid_counter w)))
    /\ dict_get "content" (updated_memory st')
       = Some (PStr ("User asked: '" +++ user_input st +++ "'. I responded: '" +++ r +++ "'"))
    /\ dict_get "access_count" (updated_memory st') = Some (PInt 0)
    /\ (store_consistent w -> store_consistent w').
Proof.
  assert (Hfresh' : forall d, In d (memories w) ->
                              doc_id d <> ObjectId (gen_oid env (oid_counter w))).
  { intros d Hd E. apply Hfresh. unfold memory_ids.
    apply in_map_iff. exists d. split; [now rewrite E | exact Hd]. }
  set (text := "User asked: '" +++ user_input st +++ "'. I responded: '" +++ r +++ "'").
  set (md := Some [ ("conversation_id",
                      match conversation_id st with Some c => PStr c | None => PNone end);
                    ("timestamp", PStr (py_repr env (PDate (clock w)))) ] : option (dict F)).
  destruct (create_memory_get_memory_steps env (character_id st) text "conversation" 5 md w
              Hquiet Hoid Hfresh') as (Hcreate & Hget).
  pose proof (create_memory_quiet env (character_id st) text "conversation" 5 md w Hquiet)
    as Hexplicit.
  set (doc := mkDoc (ObjectId (gen_oid env (oid_counter w)))
                    [ ("character_id", PStr (character_id st));
                      ("content", PStr text);
                      ("source", PStr "conversation");
                      ("importance", PInt 5);
                      ("metadata", PDict (match md with Some m => m | None => [] end));
                      ("created_at", PDate (clock w));
                      ("last_accessed", PDate (clock w));
                      ("access_count", PInt 0) ] : Doc F) in *.
  set (edoc := mkDoc (ObjectId (gen_oid env (S (oid_counter w))))
                     [ ("memory_id", PStr (gen_oid env (oid_counter w)));
                       ("character_id", PStr (character_id st));
                       ("embedding", of_floats (embedding_of env text));
                       ("created_at", PDate (clock w)) ] : Doc F) in *.
  set (w1 := snd (create_memory env (character_id st) text "conversation" 5 md w)) in *.
  assert (Hm1 : memories w1 = memories w ++ [doc])
    by (subst w1; rewrite Hexplicit; reflexivity).
  assert (He1 : memory_embeddings w1 = memory_embeddings w ++ [edoc])
    by (subst w1; rewrite Hexplicit; reflexivity).
  assert (Hc1 : clock w1 = clock w) by (subst w1; rewrite Hexplicit; reflexivity).
  exists (set_completed (doc_to_dict doc) st), (touched doc w1),
         (touch (clock w) doc), edoc.
  split.
  - unfold memory_integration. unfold try_catch at 1.
    rewrite Hnoerror. cbv iota.
    assert (Ht : truthy_str (response st) = true).
    { rewrite Hresponse. unfold truthy_str.
      destruct (String.eqb r "") eqn:E; [apply String.eqb_eq in E; contradiction |].
      reflexivity. }
    rewrite Ht. cbn [negb]. cbv iota.
    unfold try_catch at 1. unfold bind at 1. unfold utcnow at 1.
    rewrite Hresponse. fold text. fold md.
    unfold bind at 1. rewrite Hcreate.
    unfold bind at 1. rewrite Hget. reflexivity.
  - split; [reflexivity |]. split; [reflexivity |]. split; [exact Hresponse |].
    split.
    { unfold touched. cbn [memories coll_put]. rewrite Hm1, Hc1.
      apply update_first_app_fresh.
      - apply has_id_fresh. exact Hfresh'.
      - unfold has_id. apply DocId_eqb_refl. }
    split; [exact He1 |].
    do 9 (split; [reflexivity |]).
    intros Hc. apply touched_consistent.
    apply (create_memory_links env (character_id st) text "conversation" 5 md w
             Hc Hquiet Hfresh).
Qed.

Lemma memory_integration_writes_one_memory_witness :
  exists st' w' m e,
    memory_integration Demo.env
      (mkState "Who are you?" "thor" None None [] [] [] [] (PList []) ""
               (Some "I am Thor") [] false None)
      Demo.empty_world = (Ok st', w')
    /\ completed st' = true
    /\ memories w' = memories Demo.empty_world ++ [m]
    /\ memory_embeddings w' = memory_embeddings Demo.empty_world ++ [e]
    /\ dict_get "content" (doc_fields m)
       = Some (PStr "User asked: 'Who are you?'. I responded: 'I am Thor'").
Proof.
  destruct (memory_integration_writes_one_memory Demo.env
              (mkState "Who are you?" "thor" None None [] [] [] [] (PList []) ""
                       (Some "I am Thor") [] false None)
              "I am Thor" Demo.empty_world eq_refl eq_refl)
    as (st' & w' & m & e & H1 & H2 & _ & _ & H5 & H6 & _ & _ & H9 & _).
  - discriminate.
  - reflexivity.
  - vm_compute. reflexivity.
  - intros [].
  - exists st', w', m, e. repeat split; assumption.
Defined.

(** ** Rebuilding the embedding records *)

Section RebuildFacts.
Context {F : Type} {SF : Scalar F}.
Variable env : Env F.
Variable encode_value : pyval F -> Outcome (pyval F).

Lemma find_all_quiet (c : Collection) (p : Doc F -> bool) (w : World F) :
  faults w = [] -> find_all c p w = (Ok (filter p (coll_get c w)), w).
Proof.
  intros Hq. unfold find_all, bind. rewrite (db_call_quiet w Hq). reflexivity.
Qed.

Lemma delete_many_quiet (c : Collection) (p : Doc F -> bool) (w : World F) :
  faults w = [] ->
  delete_many c p w
  = (Ok (List.length (filter p (coll_get c w))),
     coll_put c (filter (fun d => negb (p d)) (coll_get c w)) w).
Proof.
  intros Hq. unfold delete_many, bind. rewrite (db_call_quiet w Hq). reflexivity.
Qed.

Lemma filter_none {A} (l : list A) : filter (fun _ => negb true) l = [].
Proof. induction l as [| x l IH]; simpl; [reflexivity | exact IH]. Qed.

Lemma filter_all {A} (l : list A) : filter (fun _ => true) l = l.
Proof. induction l as [| x l IH]; simpl; [reflexivity | now rewrite IH]. Qed.

Lemma create_embedding_value_returns (content : pyval F) (w : World F) :
  exists v,
    create_embedding_value env encode_value content w = (Ok v, w)
    /\ forall text, content = PStr text -> v = of_floats (embedding_of env text).
Proof.
  destruct content as [| b | z | x | s | t | l | d];
    try (unfold create_embedding_value, try_catch, raise, lift, ret;
         destruct (encoder env) as [enc |];
         [destruct (encode_value _) as [v | e] |];
         eexists; (split; [reflexivity | intros text; discriminate])).
  exists (of_floats (embedding_of env s)). split.
  - unfold create_embedding_value, bind. rewrite create_embedding_returns. reflexivity.
  - intros text E. injection E as <-. reflexivity.
Qed.

(** One turn of a rebuild loop appends the record of the memory. *)
Lemma rebuild_turn_all (count : nat) (m : Doc F) (w : World F) :
  faults w = [] ->
  exists b' e,
    (embedding <- create_embedding_value env encode_value
                    (dict_get_default "content" (PStr "") (doc_fields m)) ;;
     _ <- insert_one env MEMORY_EMBEDDINGS_COLLECTION
            (embedding_doc_of m embedding
               (match dict_get "created_at" (doc_fields m) with
                | Some t => t
                | None => PNone
                end)) ;;
     ret (count + 1)%nat) w
    = (Ok b', next_oid (coll_put MEMORY_EMBEDDINGS_COLLECTION (memory_embeddings w ++ [e]) w))
    /\ rebuilt_from env m e.
Proof.
  intros Hq.
  destruct (create_embedding_value_returns
              (dict_get_default "content" (PStr "") (doc_fields m)) w) as (v & Ev & Hv).
  eexists _, _. split.
  - unfold bind at 1. rewrite Ev. unfold bind at 1.
    rewrite insert_one_quiet by exact Hq. reflexivity.
  - split; [reflexivity | split; [reflexivity |]].
    intros text Ht. cbn. f_equal. apply Hv.
    unfold dict_get_default. now rewrite Ht.
Qed.

Lemma rebuild_turn (m : Doc F) (w : World F) :
  faults w = [] ->
  exists b' e,
    (embedding <- create_embedding_value env encode_value
                    (dict_get_default "content" (PStr "") (doc_fields m)) ;;
     now <- utcnow ;;
     _ <- insert_one env MEMORY_EMBEDDINGS_COLLECTION
            (embedding_doc_of m embedding (PDate now)) ;;
     ret tt) w
    = (Ok b', next_oid (coll_put MEMORY_EMBEDDINGS_COLLECTION (memory_embeddings w ++ [e]) w))
    /\ rebuilt_from env m e.
Proof.
  intros Hq.
  destruct (create_embedding_value_returns
              (dict_get_default "content" (PStr "") (doc_fields m)) w) as (v & Ev & Hv).
  eexists _, _. split.
  - unfold bind at 1. rewrite Ev. unfold bind at 1, utcnow at 1. unfold bind at 1.
    rewrite insert_one_quiet by exact Hq. reflexivity.
  - split; [reflexivity | split; [reflexivity |]].
    intros text Ht. cbn. f_equal. apply Hv.
    unfold dict_get_default. now rewrite Ht.
Qed.

(** A loop whose turns each append the record of their memory. *)
Lemma rebuild_loop {B} (body : B -> Doc F -> M (F:=F) B) :
  (forall b m w, faults w = [] ->
     exists b' e,
       body b m w
       = (Ok b', next_oid (coll_put MEMORY_EMBEDDINGS_COLLECTION
                                    (memory_embeddings w ++ [e]) w))
       /\ rebuilt_from env m e) ->
  forall (ms : list (Doc F)) (b : B) (w : World F),
    faults w = [] ->
    exists b' w' recs,
      for_each body ms b w = (Ok b', w')
      /\ faults w' = []
      /\ memories w' = memories w
      /\ same_elsewhere w w'
      /\ memory_embeddings w' = memory_embeddings w ++ recs
      /\ Forall2 (rebuilt_from env) ms recs.
Proof.
  intros Hbody. induction ms as [| m ms IH]; intros b w Hq.
  - exists b, w, []. split; [reflexivity |]. split; [exact Hq |].
    split; [reflexivity |]. split; [repeat split |].
    split; [now rewrite app_nil_r | constructor].
  - destruct (Hbody b m w Hq) as (b1 & e & E1 & He).
    set (w1 := next_oid (coll_put MEMORY_EMBEDDINGS_COLLECTION
                                  (memory_embeddings w ++ [e]) w)) in *.
    assert (Hq1 : faults w1 = []) by exact Hq.
    destruct (IH b1 w1 Hq1) as (b' & w' & recs & E & Hq' & Hm & Hs & Hr & Hf).
    exists b', w', (e :: recs).
    split; [cbn [for_each]; unfold bind at 1; rewrite E1; exact E |].
    split; [exact Hq' |]. split; [exact Hm |].
    split; [exact Hs |].
    split; [rewrite Hr; unfold w1; cbn; now rewrite <- app_assoc |].
    constructor; assumption.
Qed.

Lemma rebuild_all_embeddings_quiet (w : World F) :
  faults w = [] ->
  exists w', rebuild_all_embeddings env encode_value w = (Ok tt, w') /\ rebuilt env w w'.
Proof.
  intros Hq.
  destruct (rebuild_all_embeddings env encode_value w) as [o wf] eqn:Erun.
  unfold rebuild_all_embeddings in Erun.
  unfold try_catch at 1 in Erun. unfold bind at 1 in Erun.
  rewrite find_all_quiet in Erun by exact Hq.
  unfold bind at 1 in Erun. rewrite delete_many_quiet in Erun by exact Hq.
  cbn [coll_get] in Erun. cbv beta iota in Erun. rewrite filter_none, filter_all in Erun.
  unfold bind at 1 in Erun.
  lazymatch type of Erun with
  | context [for_each ?body ?ms ?b ?w0] =>
      destruct (rebuild_loop body rebuild_turn_all ms b w0 Hq)
        as (b' & w' & recs & E & Hq' & Hm & Hs & Hr & Hf)
  end.
  rewrite E in Erun.
  unfold bind at 1 in Erun. rewrite find_one_quiet in Erun by exact Hq'.
  assert (Hend : (o, wf) = (Ok tt, w')).
  { rewrite <- Erun.
    destruct (find_first _ _) as [s |]; [| reflexivity].
    destruct (dict_get "embedding" (doc_fields s)) as [v |]; [| reflexivity].
    destruct (sized v); reflexivity. }
  exists w'. split; [exact Hend |].
  split; [exact Hm |]. split; [rewrite Hr; exact Hf | exact Hs].
Qed.

Lemma rebuild_embeddings_quiet (w : World F) :
  faults w = [] ->
  exists w', rebuild_embeddings env encode_value None w = (Ok tt, w') /\ rebuilt env w w'.
Proof.
  intros Hq.
  destruct (rebuild_embeddings env encode_value None w) as [o wf] eqn:Erun.
  unfold rebuild_embeddings in Erun.
  unfold bind at 1 in Erun. rewrite find_all_quiet in Erun by exact Hq.
  cbn [truthy_str] in Erun. unfold bind at 1 in Erun.
  rewrite delete_many_quiet in Erun by exact Hq.
  cbn [coll_get of_character] in Erun. cbv beta iota in Erun.
  rewrite filter_none, filter_all in Erun.
  lazymatch type of Erun with
  | context [for_each ?body ?ms ?b ?w0] =>
      destruct (rebuild_loop body (fun _ => rebuild_turn) ms b w0 Hq)
        as (b' & w' & recs & E & Hq' & Hm & Hs & Hr & Hf)
  end.
  rewrite E in Erun. destruct b'.
  exists w'. split; [now rewrite <- Erun |].
  split; [exact Hm |]. split; [rewrite Hr; exact Hf | exact Hs].
Qed.

(** The links of rebuilt records are the ids of their memories. *)
Lemma rebuilt_links (ms recs : list (Doc F)) :
  Forall2 (rebuilt_from env) ms recs ->
  map (fun e => dict_get "memory_id" (doc_fields e)) recs
  = map (fun i => Some (PStr i : pyval F)) (map (fun m => str_id (doc_id m)) ms).
Proof.
  induction 1 as [| m e ms recs (Hl & _) _ IH]; [reflexivity |].
  cbn [map]. now rewrite Hl, IH.
Qed.

(** Distinct ids with one link each. *)
Lemma consistent_fresh (ids : list string) :
  NoDup ids -> consistent_lists ids (map (fun i => Some (PStr i : pyval F)) ids).
Proof.
  intros Hnd. split; [exact Hnd |]. split.
  - induction Hnd as [| a l Hnot Hnd IH]; intros id Hin; [destruct Hin |].
    cbn [map]. rewrite count_links_cons_str.
    destruct Hin as [<- | Hin].
    + rewrite String.eqb_refl.
      rewrite (count_links_absent l _ a); [reflexivity | | exact Hnot].
      intros x Hx. apply in_map_iff in Hx. destruct Hx as (i & <- & Hi). now exists i.
    + destruct (String.eqb a id) eqn:E.
      * apply String.eqb_eq in E. subst. contradiction.
      * now rewrite IH.
  - intros x Hx. apply in_map_iff in Hx. destruct Hx as (i & <- & Hi). now exists i.
Qed.

Lemma rebuilt_consistent (w w' : World F) :
  rebuilt env w w' ->
  NoDup (memory_ids w) ->
  ((List.length (memories w) <= 1000)%nat -> store_consistent w')
  /\ (forall m, In m (skipn 1000 (memories w)) -> links_to (str_id (doc_id m)) w' = 0%nat).
Proof.
  intros (Hm & Hf & _) Hnd.
  pose proof (rebuilt_links _ _ Hf) as Hl.
  split.
  - intros Hlen. unfold store_consistent, embedding_links, memory_ids.
    rewrite Hl, Hm, firstn_all2 by exact Hlen.
    apply consistent_fresh. exact Hnd.
  - intros m Hin. unfold links_to, embedding_links. rewrite Hl.
    apply (count_links_absent (map (fun m => str_id (doc_id m)) (firstn 1000 (memories w)))).
    + intros x Hx. apply in_map_iff in Hx. destruct Hx as (i & <- & Hi). now exists i.
    + unfold memory_ids in Hnd.
      rewrite <- (firstn_skipn 1000 (memories w)), map_app in Hnd.
      intros Hfirst.
      apply (in_map (fun m => str_id (doc_id m))) in Hin.
      revert Hnd Hfirst Hin.
      generalize (map (fun m0 : Doc F => str_id (doc_id m0)) (firstn 1000 (memories w))) as l1.
      generalize (map (fun m0 : Doc F => str_id (doc_id m0)) (skipn 1000 (memories w))) as l2.
      generalize (str_id (doc_id m)) as i.
      clear. intros i l2 l1 Hnd H1 H2.
      induction l1 as [| a l1 IH]; [destruct H1 |].
      cbn in Hnd. inversion Hnd as [| ? ? Hnot Hnd']; subst.
      destruct H1 as [-> | H1].
      * apply Hnot. apply in_or_app. now right.
      * now apply IH.
Qed.

End RebuildFacts.

(** X18.  With a database that answers, [rebuild_all_embeddings] and
    [rebuild_embeddings] without a character end normally and leave the
    memories as they were; whatever the embedding collection held
    before, it then holds one record for each of the first 1000
    memories, in order, linked by the id of the memory, with its
    character and, for a content that is a string, the vector of the
    content.  So when the ids are distinct and there are at most 1000
    memories the invariant of the memory store holds afterwards, and a
    memory beyond the first 1000 is left without any embedding
    record. *)
Theorem rebuild_restores_the_store {F : Type} {SF : Scalar F} (env : Env F)
        (encode_value : pyval F -> Outcome (pyval F)) (w : World F)
        (Hquiet : faults w = []) :
  exists w1 w2,
    rebuild_all_embeddings env encode_value w = (Ok tt, w1)
    /\ rebuild_embeddings env encode_value None w = (Ok tt, w2)
    /\ rebuilt env w w1
    /\ rebuilt env w w2
    /\ (NoDup (memory_ids w) -> (List.length (memories w) <= 1000)%nat ->
        store_consistent w1 /\ store_consistent w2)
    /\ (NoDup (memory_ids w) ->
        forall m, In m (skipn 1000 (memories w)) ->
                  links_to (str_id (doc_id m)) w1 = 0%nat
                  /\ links_to (str_id (doc_id m)) w2 = 0%nat).
Proof.
  destruct (rebuild_all_embeddings_quiet env encode_value w Hquiet) as (w1 & E1 & H1).
  destruct (rebuild_embeddings_quiet env encode_value w Hquiet) as (w2 & E2 & H2).
  exists w1, w2.
  split; [exact E1 |]. split; [exact E2 |]. split; [exact H1 |]. split; [exact H2 |].
  split.
  - intros Hnd Hlen. split.
    + apply (proj1 (rebuilt_consistent env w w1 H1 Hnd)). exact Hlen.
    + apply (proj1 (rebuilt_consistent env w w2 H2 Hnd)). exact Hlen.
  - intros Hnd m Hm. split.
    + apply (proj2 (rebuilt_consistent env w w1 H1 Hnd)). exact Hm.
    + apply (proj2 (rebuilt_consistent env w w2 H2 Hnd)). exact Hm.
Qed.

Lemma rebuild_restores_the_store_witness :
  exists w1,
    rebuild_all_embeddings Demo.env DemoMaintenance.encode_value DemoMaintenance.broken_world
    = (Ok tt, w1)
    /\ embedding_links w1
       = [ Some (PStr "65f0c0ffee00000000000001"); Some (PStr "65f0c0ffee00000000000002") ]
    /\ store_consistent w1.
Proof.
  destruct (rebuild_restores_the_store Demo.env DemoMaintenance.encode_value
              DemoMaintenance.broken_world eq_refl)
    as (w1 & w2 & E1 & _ & _ & _ & Hc & _).
  exists w1. split; [exact E1 |]. split.
  - vm_compute in E1. injection E1 as <-. reflexivity.
  - apply Hc.
    + repeat constructor; cbn; intuition discriminate.
    + cbn. lia.
Defined.

(** ** Pruning old memories *)

Section PruneLists.
Context {F : Type} {SF : Scalar F}.

Lemma existsb_map {A B} (f : B -> bool) (g : A -> B) (l : list A) :
  existsb f (map g l) = existsb (fun a => f (g a)) l.
Proof. induction l as [| a l IH]; simpl; [reflexivity | now rewrite IH]. Qed.

Lemma map_filter_comm {A B} (f : A -> B) (p : A -> bool) (q : B -> bool) (l : list A) :
  (forall a, In a l -> p a = q (f a)) ->
  map f (filter p l) = filter q (map f l).
Proof.
  induction l as [| a l IH]; intros H; simpl; [reflexivity |].
  rewrite <- (H a (or_introl eq_refl)).
  destruct (p a); simpl; rewrite IH; auto; intros b Hb; apply H; now right.
Qed.

Lemma NoDup_map_In_inj {A B} (f : A -> B) (l : list A) (a b : A) :
  NoDup (map f l) -> In a l -> In b l -> f a = f b -> a = b.
Proof.
  induction l as [| x l IH]; intros Hnd Ha Hb E; [destruct Ha |].
  cbn in Hnd. inversion Hnd as [| ? ? Hnot Hnd']; subst.
  destruct Ha as [<- | Ha], Hb as [<- | Hb].
  - reflexivity.
  - exfalso. apply Hnot. rewrite E. now apply in_map.
  - exfalso. apply Hnot. rewrite <- E. now apply in_map.
  - now apply IH.
Qed.

(** The links that the filter of the second [delete_many] keeps, for
    links that name memories. *)
Lemma kept_link (removed : list string) (x : string) :
  negb (existsb (fun r => field_matches (Some (PStr x : pyval F)) (PStr r)) removed)
  = negb (existsb (String.eqb x) removed).
Proof.
  f_equal. induction removed as [| r removed IH]; [reflexivity |].
  cbn [existsb]. now rewrite link_matches, IH.
Qed.

(** Removing some ids together with every link that names one of them
    keeps the ids and the links consistent. *)
Lemma consistent_filter (ids : list string) (links : list (option (pyval F)))
      (removed : list string) :
  consistent_lists ids links ->
  consistent_lists
    (filter (fun i => negb (existsb (String.eqb i) removed)) ids)
    (filter (fun l => negb (existsb (fun r => field_matches l (PStr r)) removed)) links).
Proof.
  intros (Hnd & Hone & Hlive).
  split; [apply NoDup_filter; exact Hnd |]. split.
  - intros id Hin. apply filter_In in Hin. destruct Hin as (Hin & Hkeep).
    rewrite <- (Hone id Hin). clear Hone Hnd.
    induction links as [| l links IH]; [reflexivity |].
    destruct (Hlive l (or_introl eq_refl)) as (x & Hx & ->).
    assert (IH' : count_links id
                    (filter (fun l => negb (existsb (fun r => field_matches l (PStr r)) removed))
                            links)
                  = count_links id links).
    { apply IH. intros l Hl. apply Hlive. now right. }
    cbn [filter]. rewrite kept_link.
    destruct (negb (existsb (String.eqb x) removed)) eqn:Ex.
    + rewrite !count_links_cons_str. now rewrite IH'.
    + rewrite count_links_cons_str, IH'.
      destruct (String.eqb x id) eqn:E; [| reflexivity].
      apply String.eqb_eq in E. subst x. rewrite Ex in Hkeep. discriminate.
  - intros l Hl. apply filter_In in Hl. destruct Hl as (Hl & Hkeep).
    destruct (Hlive l Hl) as (x & Hx & ->).
    exists x. split; [| reflexivity].
    apply filter_In. split; [exact Hx |]. now rewrite <- kept_link.
Qed.

(** On a collection with distinct ids, the filter on [_id] selects the
    documents whose id, as a string, is one of the strings. *)
Lemma id_in_strings (ms sel : list (Doc F)) (m : Doc F) :
  NoDup (map (fun d => str_id (doc_id d)) ms) ->
  (forall s, In s sel -> In s ms) ->
  In m ms ->
  id_in (map (doc_id (F:=F)) sel) m
  = existsb (String.eqb (str_id (doc_id m))) (map (fun d => str_id (doc_id d)) sel).
Proof.
  intros Hnd Hsub Hm. unfold id_in. rewrite !existsb_map.
  destruct (existsb (fun a => String.eqb (str_id (doc_id m)) (str_id (doc_id a))) sel) eqn:E.
  - apply existsb_exists in E. destruct E as (s & Hs & E).
    apply String.eqb_eq in E.
    assert (m = s)
      by (apply (NoDup_map_In_inj (fun d => str_id (doc_id d)) ms); auto).
    subst s. apply existsb_exists. exists m. split; [exact Hs | apply DocId_eqb_refl].
  - destruct (existsb (fun a => DocId_eqb (doc_id m) (doc_id a)) sel) eqn:E'; [| reflexivity].
    apply existsb_exists in E'. destruct E' as (s & Hs & E').
    apply DocId_eqb_eq in E'.
    assert (Hex : existsb (fun a => String.eqb (str_id (doc_id m)) (str_id (doc_id a))) sel
                  = true).
    { apply existsb_exists. exists s. split; [exact Hs |].
      rewrite E'. apply String.eqb_refl. }
    rewrite Hex in E. discriminate.
Qed.

Lemma memory_id_in_strings (sel : list (Doc F)) (e : Doc F) :
  memory_id_in (map (doc_id (F:=F)) sel) e
  = existsb (fun r => field_matches (dict_get "memory_id" (doc_fields e)) (PStr r))
            (map (fun d => str_id (doc_id d)) sel).
Proof. unfold memory_id_in, field_is. now rewrite !existsb_map. Qed.

(** Deleting selected memories and the records linked to them keeps
    the invariant of the store. *)
Lemma prune_consistent (w w' : World F) (sel : list (Doc F)) :
  store_consistent w ->
  (forall s, In s sel -> In s (memories w)) ->
  memories w' = filter (fun d => negb (id_in (map (doc_id (F:=F)) sel) d)) (memories w) ->
  memory_embeddings w'
  = filter (fun e => negb (memory_id_in (map (doc_id (F:=F)) sel) e)) (memory_embeddings w) ->
  store_consistent w'.
Proof.
  intros Hc Hsub Hm He.
  pose proof (consistent_filter _ _ (map (fun d => str_id (doc_id d)) sel) Hc) as Hf.
  unfold store_consistent, memory_ids, embedding_links. rewrite Hm, He.
  rewrite (map_filter_comm (fun m => str_id (doc_id m)) _
             (fun i => negb (existsb (String.eqb i) (map (fun d => str_id (doc_id d)) sel)))).
  - rewrite (map_filter_comm (fun e => dict_get "memory_id" (doc_fields e)) _
               (fun l => negb (existsb (fun r => field_matches l (PStr r))
                                       (map (fun d => str_id (doc_id d)) sel)))).
    + exact Hf.
    + intros e _. now rewrite memory_id_in_strings.
  - intros m Hin. f_equal. apply (id_in_strings (memories w)); auto.
    destruct Hc as (Hnd & _). exact Hnd.
Qed.

(** A memory is selected exactly when the filter on [_id] matches it. *)
Lemma id_in_selected (ms sel : list (Doc F)) (m : Doc F) :
  NoDup (map (fun d => str_id (doc_id d)) ms) ->
  (forall s, In s sel -> In s ms) ->
  In m ms ->
  id_in (map (doc_id (F:=F)) sel) m = true <-> In m sel.
Proof.
  intros Hnd Hsub Hm. unfold id_in. rewrite existsb_map. split.
  - intros E. apply existsb_exists in E. destruct E as (s & Hs & E).
    apply DocId_eqb_eq in E.
    assert (m = s) by (apply (NoDup_map_In_inj (fun d => str_id (doc_id d)) ms);
                       auto; now rewrite E).
    now subst.
  - intros Hs. apply existsb_exists. exists m. split; [exact Hs | apply DocId_eqb_refl].
Qed.

End PruneLists.

Section PruneFacts.
Context {F : Type} {SF : Scalar F}.
Variable days_before : N -> Z -> Outcome N.

Lemma preserves_prune_dry_run (character_id : option string) (days max_access_count : Z) :
  preserves (F:=F) same_data (prune_memories days_before character_id days max_access_count true).
Proof.
  unfold prune_memories.
  apply (preserves_bind same_data same_data_trans);
    [apply (preserves_utcnow same_data same_data_refl) |].
  intros now.
  apply (preserves_bind same_data same_data_trans);
    [apply (preserves_lift same_data same_data_refl) |].
  intros cutoff.
  apply (preserves_bind same_data same_data_trans).
  { destruct (fits_int64 max_access_count);
      [apply (preserves_ret same_data same_data_refl)
      | apply (preserves_raise same_data same_data_refl)]. }
  intros _.
  apply (preserves_bind same_data same_data_trans);
    [apply (preserves_find_all same_data same_data_refl same_data_trans same_data_db_call) |].
  intros found.
  destruct (firstn 1000 found) as [| m ms];
    [apply (preserves_ret same_data same_data_refl) |].
  apply (preserves_bind same_data same_data_trans).
  { destruct (forallb _ _);
      [apply (preserves_ret same_data same_data_refl)
      | apply (preserves_raise same_data same_data_refl)]. }
  intros _. apply (preserves_ret same_data same_data_refl).
Qed.

Lemma pruned_stored (character_id : option string) (cutoff : N) (max_access_count : Z)
      (w : World F) (m : Doc F) :
  In m (pruned character_id cutoff max_access_count w) ->
  In m (memories w) /\ prune_query character_id cutoff max_access_count m = true.
Proof.
  intros Hin. unfold pruned in Hin. apply In_firstn in Hin.
  apply filter_In in Hin. exact Hin.
Qed.

(** The run that deletes, on a database that answers. *)
Lemma prune_memories_quiet (character_id : option string) (days max_access_count : Z)
      (cutoff : N) (w : World F) :
  faults w = [] ->
  days_before (clock w) days = Ok cutoff ->
  fits_int64 max_access_count = true ->
  (forall m, In m (memories w) ->
             sliceable (dict_get_default "content" (PStr "") (doc_fields m)) = true) ->
  exists w',
    prune_memories days_before character_id days max_access_count false w = (Ok tt, w')
    /\ memories w'
       = filter (fun d => negb (id_in (map (doc_id (F:=F))
                                           (pruned character_id cutoff max_access_count w)) d))
                (memories w)
    /\ memory_embeddings w'
       = filter (fun e => negb (memory_id_in
                                  (map (doc_id (F:=F))
                                       (pruned character_id cutoff max_access_count w)) e))
                (memory_embeddings w)
    /\ same_elsewhere w w'.
Proof.
  intros Hq Hcut Hfit Hcontent.
  pose proof (pruned_stored character_id cutoff max_access_count w) as Hsel.
  unfold prune_memories.
  unfold bind at 1, utcnow at 1. unfold bind at 1, lift at 1. rewrite Hcut.
  rewrite Hfit. unfold bind at 1, ret at 1.
  unfold bind at 1. rewrite find_all_quiet by exact Hq.
  cbn [coll_get]. cbv beta iota.
  fold (pruned character_id cutoff max_access_count w).
  destruct (pruned character_id cutoff max_access_count w) as [| m ms] eqn:Esel.
  - exists w. split; [reflexivity |].
    split; [| split; [| repeat split]].
    + unfold id_in. cbn [map existsb negb]. symmetry. apply filter_all.
    + unfold memory_id_in. cbn [map existsb negb]. symmetry. apply filter_all.
  - assert (Hprint : forallb (fun memory : Doc F =>
                                sliceable (dict_get_default "content" (PStr "")
                                                            (doc_fields memory)))
                             (firstn 5 (m :: ms)) = true).
    { apply forallb_forall. intros x Hx. apply Hcontent.
      apply In_firstn in Hx. now apply Hsel. }
    rewrite Hprint. unfold bind at 1, ret at 1.
    unfold bind at 1. rewrite delete_many_quiet by exact Hq.
    unfold bind at 1. rewrite delete_many_quiet by exact Hq.
    eexists. split; [reflexivity |].
    split; [reflexivity |]. split; [reflexivity |]. repeat split.
Qed.

End PruneFacts.

(** X19.  A dry run of [prune_memories] writes nothing: in every state
    of the database, answering or not, and whether the run ends
    normally or raises, the documents of all collections, the clock
    and the id counter are afterwards what they were. *)
Theorem prune_dry_run_writes_nothing {F : Type} {SF : Scalar F}
        (days_before : N -> Z -> Outcome N) (character_id : option string)
        (days max_access_count : Z) (w : World F) :
  same_data w (snd (prune_memories days_before character_id days max_access_count true w)).
Proof. apply preserves_prune_dry_run. Qed.

(** X20.  An executed [prune_memories] on a consistent memory store
    (database answering, cutoff date computable, bound within 8 bytes,
    contents that can be sliced for the printed sample) removes exactly
    the selected memories, the first 1000 that match the query, each of
    them of the character, created before the cutoff and accessed at
    most [max_access_count] times; it removes their embedding records
    with them, so the invariant of the store still holds, and it
    touches no other collection. *)
Theorem prune_memories_keeps_the_store {F : Type} {SF : Scalar F}
        (days_before : N -> Z -> Outcome N) (character_id : option string)
        (days max_access_count : Z) (cutoff : N) (w : World F)
        (Hquiet : faults w = [])
        (Hcutoff : days_before (clock w) days = Ok cutoff)
        (Hbound : fits_int64 max_access_count = true)
        (Hcontents : forall m, In m (memories w) ->
                               sliceable (dict_get_default "content" (PStr "") (doc_fields m))
                               = true)
        (Hconsistent : store_consistent w) :
  exists w',
    prune_memories days_before character_id days max_access_count false w = (Ok tt, w')
    /\ (forall m, In m (memories w') <->
                  In m (memories w)
                  /\ ~ In m (pruned character_id cutoff max_access_count w))
    /\ (forall m, In m (pruned character_id cutoff max_access_count w) ->
                  In m (memories w)
                  /\ prune_query character_id cutoff max_access_count m = true
                  /\ links_to (str_id (doc_id m)) w' = 0%nat)
    /\ (List.length (pruned character_id cutoff max_access_count w) <= 1000)%nat
    /\ store_consistent w'
    /\ same_elsewhere w w'.
Proof.
  destruct (prune_memories_quiet days_before character_id days max_access_count cutoff w
              Hquiet Hcutoff Hbound Hcontents) as (w' & Erun & Hm & He & Hs).
  pose proof (pruned_stored character_id cutoff max_access_count w) as Hsel.
  assert (Hsub : forall s, In s (pruned character_id cutoff max_access_count w) ->
                           In s (memories w)) by (intros s Hin; now apply Hsel).
  assert (Hnd : NoDup (map (fun d : Doc F => str_id (doc_id d)) (memories w)))
    by (destruct Hconsistent as (Hnd & _); exact Hnd).
  assert (Hc' : store_consistent w')
    by (apply (prune_consistent w w' _ Hconsistent Hsub Hm He)).
  assert (Hkept : forall m, In m (memories w') <->
                            In m (memories w)
                            /\ ~ In m (pruned character_id cutoff max_access_count w)).
  { intros m. rewrite Hm, filter_In. split.
    - intros (Hin & Hk). split; [exact Hin |]. intros Hp.
      apply (id_in_selected (memories w) _ m Hnd Hsub Hin) in Hp.
      rewrite Hp in Hk. discriminate.
    - intros (Hin & Hn). split; [exact Hin |].
      destruct (id_in _ m) eqn:E; [| reflexivity].
      apply (id_in_selected (memories w) _ m Hnd Hsub Hin) in E. contradiction. }
  exists w'. split; [exact Erun |]. split; [exact Hkept |].
  split; [| split; [apply firstn_le_length | split; [exact Hc' | exact Hs]]].
  intros m Hp. destruct (Hsel m Hp) as (Hin & Hquery).
  split; [exact Hin |]. split; [exact Hquery |].
  destruct Hc' as (_ & _ & Hlive).
  apply (count_links_absent (memory_ids w') _ _ Hlive).
  unfold memory_ids. intros Hid. apply in_map_iff in Hid.
  destruct Hid as (m' & E & Hm').
  apply Hkept in Hm'. destruct Hm' as (Hin' & Hnot).
  assert (m' = m) by (apply (NoDup_map_In_inj (fun d => str_id (doc_id d)) (memories w)); auto).
  subst m'. contradiction.
Qed.

Lemma prune_memories_keeps_the_store_witness :
  exists w',
    prune_memories DemoMaintenance.days_before (Some "thor") 30 0 false
                   DemoMaintenance.sound_world = (Ok tt, w')
    /\ memories w' = [DemoMaintenance.recent_memory]
    /\ store_consistent w'.
Proof.
  destruct (prune_memories_keeps_the_store DemoMaintenance.days_before (Some "thor") 30 0 70
              DemoMaintenance.sound_world eq_refl eq_refl eq_refl)
    as (w' & Erun & _ & _ & _ & Hc & _).
  - intros m [<- | [<- | []]]; reflexivity.
  - split; [| split].
    + repeat constructor; cbn; intuition discriminate.
    + intros id [<- | [<- | []]]; reflexivity.
    + intros l [<- | [<- | []]]; eexists; (split; [| reflexivity]); cbn; auto.
  - exists w'. split; [exact Erun |]. split; [| exact Hc].
    vm_compute in Erun. injection Erun as <-. reflexivity.
Defined.

(** ** The cache of [app/services/embeddings.py] *)

Section LineBreaks.

Lemma prefix_empty (s : string) : String.prefix "" s = true.
Proof. destruct s; reflexivity. Qed.

Lemma prefix_nl (c : ascii) (s : string) :
  String.prefix nl (String c s) = Ascii.eqb (ascii_of_nat 10) c.
Proof.
  unfold nl. cbn [String.prefix]. rewrite prefix_empty.
  destruct (ascii_dec (ascii_of_nat 10) c) as [<- | Hne].
  - now rewrite Ascii.eqb_refl.
  - symmetry. now apply Ascii.eqb_neq.
Qed.

Lemma contains_b_nl_cons (c : ascii) (s : string) :
  PyStr.contains_b nl (String c s)
  = (Ascii.eqb (ascii_of_nat 10) c || PyStr.contains_b nl s)%bool.
Proof. cbn [PyStr.contains_b]. now rewrite prefix_nl. Qed.

(** [text.replace("\n", " ")] leaves no line break. *)
Lemma replace_line_free (s : string) :
  PyStr.contains_b nl (PyStr.replace s nl " ") = false.
Proof.
  unfold PyStr.replace. induction s as [| c s IH]; [reflexivity |].
  cbn [PyStr.replace_from]. rewrite prefix_nl.
  change (String.length nl - 1)%nat with 0%nat.
  destruct (Ascii.eqb (ascii_of_nat 10) c) eqn:E.
  - change (" " +++ PyStr.replace_from nl " " s 0)
      with (String " "%char (PyStr.replace_from nl " " s 0)).
    rewrite contains_b_nl_cons, IH. reflexivity.
  - rewrite contains_b_nl_cons, E, IH. reflexivity.
Qed.

(** It leaves a text without line breaks as it is. *)
Lemma replace_without_line_break (s : string) :
  PyStr.contains_b nl s = false -> PyStr.replace s nl " " = s.
Proof.
  unfold PyStr.replace. induction s as [| c s IH]; intros H; [reflexivity |].
  rewrite contains_b_nl_cons in H. apply orb_false_iff in H. destruct H as (Hc & Hs).
  cbn [PyStr.replace_from]. rewrite prefix_nl, Hc. now rewrite IH.
Qed.

End LineBreaks.

Section CacheFacts.
Context {F : Type}.
Variable OPENAI_API_KEY : option string.
Variable post : string -> string -> Outcome (Embeddings.HttpResponse F).
Variable get_deterministic_embedding : string -> Outcome (pyval F).

Lemma dict_get_In (k : string) (v : pyval F) (d : dict F) :
  dict_get k d = Some v -> In (k, v) d.
Proof.
  induction d as [| [k' v'] d IH]; cbn; [discriminate |].
  destruct (String.eqb k k') eqn:E.
  - apply String.eqb_eq in E. subst. intros H. injection H as <-. now left.
  - intros H. right. now apply IH.
Qed.

Lemma line_free_misses (text : string) (cache : dict F) :
  Embeddings.line_free cache ->
  PyStr.contains_b nl text = true ->
  dict_get text cache = None.
Proof.
  intros Hfree Hnl. destruct (dict_get text cache) as [v |] eqn:E; [| reflexivity].
  apply dict_get_In in E. apply Hfree in E. rewrite E in Hnl. discriminate.
Qed.

Lemma line_free_set (k : string) (v : pyval F) (cache : dict F) :
  Embeddings.line_free cache ->
  PyStr.contains_b nl k = false ->
  Embeddings.line_free (dict_set k v cache).
Proof.
  intros Hfree Hk. induction cache as [| [k' v'] cache IH]; cbn.
  - intros k0 v0 [E | []]. injection E as <- <-. exact Hk.
  - destruct (String.eqb k k') eqn:E.
    + intros k0 v0 [E0 | Hin].
      * injection E0 as <- <-. exact Hk.
      * apply (Hfree k0 v0). now right.
    + intros k0 v0 [E0 | Hin].
      * apply (Hfree k0 v0). now left.
      * assert (Hfree' : Embeddings.line_free cache)
          by (intros k1 v1 H1; apply (Hfree k1 v1); now right).
        exact (IH Hfree' k0 v0 Hin).
Qed.

(** A call that does not find the text in the cache: the layers of
    [try] and [if] come down to the embedding of the API, or to the
    fallback, or to an exception. *)
Lemma get_embedding_uncached (text model : string) (use_cache use_fallback : bool)
      (cache : dict F) :
  (if use_cache then dict_get text cache else None) = None ->
  match Embeddings.api_embedding OPENAI_API_KEY post (PyStr.replace text nl " ") model with
  | Some e =>
      Embeddings.get_embedding OPENAI_API_KEY post get_deterministic_embedding
                               text model use_cache use_fallback cache
      = (Ok e, if use_cache then dict_set (PyStr.replace text nl " ") e cache else cache)
  | None =>
      if use_fallback
      then Embeddings.get_embedding OPENAI_API_KEY post get_deterministic_embedding
                                    text model use_cache use_fallback cache
           = Embeddings.fallback get_deterministic_embedding (PyStr.replace text nl " ")
                                 use_cache cache
      else exists e,
          Embeddings.get_embedding OPENAI_API_KEY post get_deterministic_embedding
                                   text model use_cache use_fallback cache
          = (Raise e, cache)
  end.
Proof.
  intros Hmiss. unfold Embeddings.get_embedding, Embeddings.api_embedding. rewrite Hmiss.
  cbv zeta.
  destruct (truthy_str OPENAI_API_KEY).
  - destruct (post (PyStr.replace text nl " ") model) as [r | e].
    + destruct (Embeddings.status_code r =? 200).
      * destruct (Embeddings.body_embedding r) as [v | e]; [reflexivity |].
        destruct use_fallback; [reflexivity | eexists; reflexivity].
      * destruct use_fallback; [| eexists; reflexivity].
        unfold Embeddings.fallback.
        destruct (get_deterministic_embedding _); reflexivity.
    + destruct use_fallback; [reflexivity | eexists; reflexivity].
  - destruct use_fallback; [| eexists; reflexivity].
    unfold Embeddings.fallback.
    destruct (get_deterministic_embedding _); reflexivity.
Qed.

(** What a call leaves in the cache. *)
Lemma get_embedding_cache (text model : string) (use_cache use_fallback : bool)
      (cache : dict F) :
  let run := Embeddings.get_embedding OPENAI_API_KEY post get_deterministic_embedding
                                      text model use_cache use_fallback cache in
  snd run = cache
  \/ exists v, fst run = Ok v /\ use_cache = true
               /\ dict_get text cache = None
               /\ snd run = dict_set (PyStr.replace text nl " ") v cache.
Proof.
  intros run. subst run.
  destruct (if use_cache then dict_get text cache else None) as [c |] eqn:Hlook.
  - left. unfold Embeddings.get_embedding. rewrite Hlook. reflexivity.
  - pose proof (get_embedding_uncached text model use_cache use_fallback cache Hlook) as H.
    destruct (Embeddings.api_embedding _ _ _ _) as [e |].
    + rewrite H. destruct use_cache; [| now left].
      right. exists e. repeat split. exact Hlook.
    + destruct use_fallback.
      * rewrite H. unfold Embeddings.fallback.
        destruct (get_deterministic_embedding _) as [d | e]; [| now left].
        destruct use_cache; [| now left].
        right. exists d. repeat split. exact Hlook.
      * destruct H as (e & ->). now left.
Qed.

(** A call that misses the cache answers as a call without cache. *)
Lemma get_embedding_same_answer (text model : string) (use_fallback : bool)
      (cache : dict F) :
  dict_get text cache = None ->
  fst (Embeddings.get_embedding OPENAI_API_KEY post get_deterministic_embedding
                                text model true use_fallback cache)
  = fst (Embeddings.get_embedding OPENAI_API_KEY post get_deterministic_embedding
                                  text model false use_fallback cache).
Proof.
  intros Hmiss. unfold Embeddings.get_embedding, Embeddings.fallback. rewrite Hmiss.
  cbv zeta.
  destruct (truthy_str OPENAI_API_KEY);
    [destruct (post _ _) as [r | e];
     [destruct (Embeddings.status_code r =? 200);
      [destruct (Embeddings.body_embedding r) |] |] |];
    destruct use_fallback; try destruct (get_deterministic_embedding _); reflexivity.
Qed.

Lemma batch_get_embeddings_length (model : string) (use_cache : bool) (texts : list string) :
  (forall t, is_ok (get_deterministic_embedding t) = true) ->
  forall (results : list (pyval F)) (cache : dict F),
  exists res cache',
    Embeddings.batch_get_embeddings_from OPENAI_API_KEY post get_deterministic_embedding
                                         results texts model use_cache true cache
    = (Ok res, cache')
    /\ List.length res = (List.length results + List.length texts)%nat.
Proof.
  intros Hdet. induction texts as [| t texts IH]; intros results cache.
  - exists results, cache. split; [reflexivity | cbn; lia].
  - cbn [Embeddings.batch_get_embeddings_from].
    assert (Hok : exists v c,
               Embeddings.get_embedding OPENAI_API_KEY post get_deterministic_embedding
                                        t model use_cache true cache = (Ok v, c)).
    { destruct (if use_cache then dict_get t cache else None) as [c |] eqn:Hlook.
      - unfold Embeddings.get_embedding. rewrite Hlook. eexists _, _. reflexivity.
      - pose proof (get_embedding_uncached t model use_cache true cache Hlook) as H.
        destruct (Embeddings.api_embedding _ _ _ _) as [e |].
        + rewrite H. eexists _, _. reflexivity.
        + cbv iota in H. rewrite H. unfold Embeddings.fallback.
          specialize (Hdet (PyStr.replace t nl " ")).
          destruct (get_deterministic_embedding _) as [d | e]; [| discriminate].
          eexists _, _. reflexivity. }
    destruct Hok as (v & c & ->).
    destruct (IH (results ++ [v]) c) as (res & cache' & E & Hlen).
    exists res, cache'. split; [exact E |].
    rewrite Hlen, length_app. cbn. lia.
Qed.

End CacheFacts.

(** X21.  The cache of [get_embedding] is looked up with the text as
    given and filled under the text with its line breaks replaced.
    Starting from a cache without line breaks in its keys (the empty
    cache of the module), no call ever adds such a key; so a text with
    a line break is never found in the cache, not even right after a
    call for that very text: with [use_cache] the call gives what it
    gives without, from the API or the fallback, every time. *)
Theorem cache_never_serves_line_breaks {F : Type} (OPENAI_API_KEY : option string)
        (post : string -> string -> Outcome (Embeddings.HttpResponse F))
        (get_deterministic_embedding : string -> Outcome (pyval F))
        (text model : string) (use_cache use_fallback : bool) (cache : dict F)
        (Hfree : Embeddings.line_free cache) :
  Embeddings.line_free
    (snd (Embeddings.get_embedding OPENAI_API_KEY post get_deterministic_embedding
                                   text model use_cache use_fallback cache))
  /\ (PyStr.contains_b nl text = true ->
      dict_get text cache = None
      /\ dict_get text
                  (snd (Embeddings.get_embedding OPENAI_API_KEY post
                          get_deterministic_embedding text model true use_fallback cache))
         = None
      /\ fst (Embeddings.get_embedding OPENAI_API_KEY post get_deterministic_embedding
                                       text model true use_fallback cache)
         = fst (Embeddings.get_embedding OPENAI_API_KEY post get_deterministic_embedding
                                         text model false use_fallback cache)).
Proof.
  assert (Hkeeps : forall uc,
             Embeddings.line_free
               (snd (Embeddings.get_embedding OPENAI_API_KEY post get_deterministic_embedding
                                              text model uc use_fallback cache))).
  { intros uc.
    destruct (get_embedding_cache OPENAI_API_KEY post get_deterministic_embedding
                text model uc use_fallback cache) as [-> | (v & _ & _ & _ & ->)];
      [exact Hfree |].
    apply line_free_set; [exact Hfree | apply replace_line_free]. }
  split; [apply Hkeeps |].
  intros Hnl.
  pose proof (line_free_misses text cache Hfree Hnl) as Hmiss.
  split; [exact Hmiss |]. split.
  - apply line_free_misses; [apply Hkeeps | exact Hnl].
  - apply get_embedding_same_answer. exact Hmiss.
Qed.

Lemma cache_never_serves_line_breaks_witness :
  let run := Embeddings.get_embedding (Some "sk-test") DemoEmbeddings.post
               DemoEmbeddings.get_deterministic_embedding
               DemoEmbeddings.two_lines "text-embedding-ada-002" true true [] in
  dict_get DemoEmbeddings.two_lines (snd run) = None
  /\ snd run = [("Thor Odinson", of_floats [1%float; 0%float])].
Proof.
  intros run. split; [| reflexivity].
  destruct (cache_never_serves_line_breaks (Some "sk-test") DemoEmbeddings.post
              DemoEmbeddings.get_deterministic_embedding
              DemoEmbeddings.two_lines "text-embedding-ada-002" true true [])
    as (_ & H).
  - intros k v [].
  - destruct (H eq_refl) as (_ & Hafter & _). exact Hafter.
Defined.

(** X22.  An embedding that a call with [use_cache] has returned for
    a text without line breaks is what every later call with
    [use_cache] returns for that text, with the cache left as it is:
    the API is not asked again, whatever it would answer then, and the
    model asked for plays no part, since the key of the cache is the
    text alone. *)
Theorem cached_embedding_is_served {F : Type} (OPENAI_API_KEY : option string)
        (post : string -> string -> Outcome (Embeddings.HttpResponse F))
        (get_deterministic_embedding : string -> Outcome (pyval F))
        (text model : string) (use_fallback : bool) (cache cache' : dict F) (v : pyval F)
        (Hcall : Embeddings.get_embedding OPENAI_API_KEY post get_deterministic_embedding
                                          text model true use_fallback cache
                 = (Ok v, cache'))
        (Hline : PyStr.contains_b nl text = false) :
  forall (key' : option string)
         (post' : string -> string -> Outcome (Embeddings.HttpResponse F))
         (deterministic' : string -> Outcome (pyval F))
         (model' : string) (use_fallback' : bool),
    Embeddings.get_embedding key' post' deterministic' text model' true use_fallback' cache'
    = (Ok v, cache').
Proof.
  intros key' post' deterministic' model' use_fallback'.
  assert (Hcached : dict_get text cache' = Some v).
  { destruct (dict_get text cache) as [c |] eqn:Hlook.
    - unfold Embeddings.get_embedding in Hcall. rewrite Hlook in Hcall.
      injection Hcall as <- <-. exact Hlook.
    - pose proof (get_embedding_uncached OPENAI_API_KEY post get_deterministic_embedding
                    text model true use_fallback cache Hlook) as H.
      rewrite (replace_without_line_break text Hline) in H.
      destruct (Embeddings.api_embedding _ _ _ _) as [e |].
      + rewrite Hcall in H. injection H as -> ->. apply dict_get_set_same.
      + destruct use_fallback.
        * rewrite Hcall in H. unfold Embeddings.fallback in H.
          destruct (get_deterministic_embedding text) as [d | e]; [| discriminate].
          injection H as -> ->. apply dict_get_set_same.
        * destruct H as (e & H). rewrite Hcall in H. discriminate. }
  unfold Embeddings.get_embedding. rewrite Hcached. reflexivity.
Qed.

Lemma cached_embedding_is_served_witness :
  exists cache',
    Embeddings.get_embedding (Some "sk-test") DemoEmbeddings.post
      DemoEmbeddings.get_deterministic_embedding "Thor" "text-embedding-ada-002" true true []
    = (Ok (of_floats [1%float; 0%float]), cache')
    /\ Embeddings.get_embedding None DemoEmbeddings.post_down
         DemoEmbeddings.get_deterministic_embedding "Thor" "another-model" true false cache'
       = (Ok (of_floats [1%float; 0%float]), cache').
Proof.
  eexists. split; [reflexivity |].
  apply (cached_embedding_is_served (Some "sk-test") DemoEmbeddings.post
           DemoEmbeddings.get_deterministic_embedding "Thor" "text-embedding-ada-002" true []).
  - reflexivity.
  - reflexivity.
Defined.

(** X23.  For a text that the cache does not hold, [get_embedding]
    returns the embedding of the API when there is a key, the call
    returns with status 200 and the body has the expected shape.  In
    every other case (no key, an exception of the call, another
    status, a malformed body) it returns the deterministic embedding of
    the text with its line breaks replaced when [use_fallback] is set,
    and raises when it is not; what it returns is cached under the
    prepared text when [use_cache] is set, and an exception leaves the
    cache as it was.  With the fallback, [batch_get_embeddings] gives
    one embedding per text whenever the deterministic embedding can be
    computed. *)
Theorem get_embedding_falls_back {F : Type} (OPENAI_API_KEY : option string)
        (post : string -> string -> Outcome (Embeddings.HttpResponse F))
        (get_deterministic_embedding : string -> Outcome (pyval F))
        (text model : string) (use_cache : bool) (cache : dict F)
        (Hmiss : use_cache = false \/ dict_get text cache = None) :
  let prepared := PyStr.replace text nl " " in
  let stored (e : pyval F) := if use_cache then dict_set prepared e cache else cache in
  (forall e use_fallback,
      Embeddings.api_embedding OPENAI_API_KEY post prepared model = Some e ->
      Embeddings.get_embedding OPENAI_API_KEY post get_deterministic_embedding
                               text model use_cache use_fallback cache
      = (Ok e, stored e))
  /\ (Embeddings.api_embedding OPENAI_API_KEY post prepared model = None ->
      (forall d, get_deterministic_embedding prepared = Ok d ->
                 Embeddings.get_embedding OPENAI_API_KEY post get_deterministic_embedding
                                          text model use_cache true cache
                 = (Ok d, stored d))
      /\ (forall e, get_deterministic_embedding prepared = Raise e ->
                    Embeddings.get_embedding OPENAI_API_KEY post get_deterministic_embedding
                                             text model use_cache true cache
                    = (Raise e, cache))
      /\ exists e,
          Embeddings.get_embedding OPENAI_API_KEY post get_deterministic_embedding
                                   text model use_cache false cache
          = (Raise e, cache))
  /\ ((forall t, is_ok (get_deterministic_embedding t) = true) ->
      forall texts,
      exists res cache',
        Embeddings.batch_get_embeddings OPENAI_API_KEY post get_deterministic_embedding
                                        texts model use_cache true cache
        = (Ok res, cache')
        /\ List.length res = List.length texts).
Proof.
  intros prepared stored.
  assert (Hlook : (if use_cache then dict_get text cache else None) = None)
    by (destruct Hmiss as [-> | Hm]; [reflexivity | now destruct use_cache]).
  split; [| split].
  - intros e use_fallback Hapi.
    pose proof (get_embedding_uncached OPENAI_API_KEY post get_deterministic_embedding
                  text model use_cache use_fallback cache Hlook) as H.
    fold prepared in H. rewrite Hapi in H. exact H.
  - intros Hapi. split; [| split].
    + intros d Hd.
      pose proof (get_embedding_uncached OPENAI_API_KEY post get_deterministic_embedding
                    text model use_cache true cache Hlook) as H.
      fold prepared in H. rewrite Hapi in H. cbv iota in H. rewrite H.
      unfold Embeddings.fallback. now rewrite Hd.
    + intros e He.
      pose proof (get_embedding_uncached OPENAI_API_KEY post get_deterministic_embedding
                    text model use_cache true cache Hlook) as H.
      fold prepared in H. rewrite Hapi in H. cbv iota in H. rewrite H.
      unfold Embeddings.fallback. now rewrite He.
    + pose proof (get_embedding_uncached OPENAI_API_KEY post get_deterministic_embedding
                    text model use_cache false cache Hlook) as H.
      fold prepared in H. rewrite Hapi in H. exact H.
  - intros Hdet texts.
    destruct (batch_get_embeddings_length OPENAI_API_KEY post get_deterministic_embedding
                model use_cache texts Hdet [] cache) as (res & cache' & E & Hlen).
    exists res, cache'. split; [exact E | exact Hlen].
Qed.

Lemma get_embedding_falls_back_witness :
  Embeddings.get_embedding (Some "sk-test") DemoEmbeddings.post_down
    DemoEmbeddings.get_deterministic_embedding DemoEmbeddings.two_lines
    "text-embedding-ada-002" true true []
  = (Ok (of_floats [0%float; 1%float]),
     [("Thor Odinson", of_floats [0%float; 1%float])]).
Proof.
  destruct (get_embedding_falls_back (Some "sk-test") DemoEmbeddings.post_down
              DemoEmbeddings.get_deterministic_embedding DemoEmbeddings.two_lines
              "text-embedding-ada-002" true [] (or_intror eq_refl))
    as (_ & H & _).
  destruct (H eq_refl) as (Hd & _).
  exact (Hd (of_floats [0%float; 1%float]) eq_refl).
Defined.

(** ** Retrieval over documents it cannot handle *)

Section BadChunk.
Context {F : Type} {SF : Scalar F}.
Variable env : Env F.

Lemma map_outcome_raises {A B} (f : A -> Outcome B) (l : list A) (x : A) (e : string) :
  In x l -> f x = Raise e -> exists e', map_outcome f l = Raise e'.
Proof.
  induction l as [| a l IH]; intros Hin Hx; [destruct Hin |].
  cbn [map_outcome]. destruct Hin as [-> | Hin].
  - rewrite Hx. now exists e.
  - destruct (f a) as [y | e0]; [| now exists e0].
    destruct (IH Hin Hx) as (e' & ->). now exists e'.
Qed.

Lemma map_outcome_In {A B} (f : A -> Outcome B) (l : list A) (ys : list B) (x : A) :
  map_outcome f l = Ok ys -> In x l -> exists y, f x = Ok y /\ In y ys.
Proof.
  revert ys. induction l as [| a l IH]; intros ys H Hin; [destruct Hin |].
  cbn [map_outcome] in H.
  destruct (f a) as [y |] eqn:Ea; [| discriminate].
  destruct (map_outcome f l) as [ys' |] eqn:El; [| discriminate].
  injection H as <-.
  destruct Hin as [-> | Hin].
  - exists y. split; [exact Ea | now left].
  - destruct (IH ys' eq_refl Hin) as (y' & Hy & Hin'). exists y'. split; [exact Hy | now right].
Qed.

Lemma score_chunk_misaligned (qe : list F) (c : KnowledgeChunk F) (x : F) (v : list F) :
  vector_embedding c = Some (x :: v) ->
  List.length (x :: v) <> List.length qe ->
  score_chunk qe c = Raise "shapes not aligned".
Proof.
  intros Hv Hlen. unfold score_chunk. rewrite Hv. unfold cosine_similarity.
  destruct (Nat.eqb (List.length qe) (List.length (x :: v))) eqn:E; [| reflexivity].
  apply Nat.eqb_eq in E. congruence.
Qed.

Lemma rank_chunks_unusable (q : KnowledgeQuery F) (now : N) (results : list (Doc F))
      (d : Doc F) :
  In d results ->
  unusable env q now d ->
  exists e, rank_chunks env now (embedding_of env (query q)) results = Raise e.
Proof.
  intros Hin Hbad. unfold rank_chunks, obind.
  destruct (map_outcome (fun r => KnowledgeChunk_of env now (doc_to_dict r)) results)
    as [chunks | e] eqn:Ec; [| now exists e].
  destruct Hbad as [(e & He) | (c & x & v & Hc & Hv & Hlen)].
  - destruct (map_outcome_raises (fun r => KnowledgeChunk_of env now (doc_to_dict r))
                                 results d e Hin He) as (e' & E').
    rewrite E' in Ec. discriminate.
  - destruct (map_outcome_In _ _ _ d Ec Hin) as (c' & Hc' & Hin').
    cbv beta in Hc'. rewrite Hc in Hc'. injection Hc' as <-.
    destruct (map_outcome_raises (score_chunk (embedding_of env (query q))) chunks c
                                 "shapes not aligned" Hin'
                                 (score_chunk_misaligned _ c x v Hv Hlen)) as (e' & ->).
    now exists e'.
Qed.

End BadChunk.

(** X24.  One document that [retrieve_similar] cannot handle empties
    the whole answer: when one of the fetched documents is refused by
    the schema of [KnowledgeChunk], or holds a non-empty vector of
    another length than the embedding of the query (a vector of
    another model, or any vector of another length than 384 when the
    encoder is down), the exception is caught and the result is the
    empty list, whatever the other documents are. *)
Theorem one_unusable_chunk_empties_retrieval {F : Type} {SF : Scalar F} (env : Env F)
        (q : KnowledgeQuery F) (w : World F) (d : Doc F)
        (Hquiet : faults w = [])
        (Hfetched : In d (fetched env q w))
        (Hbad : unusable env q (clock w) d) :
  retrieve_similar env q w = (Ok [], w).
Proof.
  destruct (rank_chunks_unusable env q (clock w) (fetched env q w) d Hfetched Hbad)
    as (e & He).
  unfold fetched, matching in Hfetched, He.
  unfold retrieve_similar.
  unfold bind at 1. rewrite get_embedding_returns.
  unfold bind at 1. unfold count_documents, bind at 1. rewrite (db_call_quiet w Hquiet).
  unfold bind at 1, get_world at 1, ret at 1.
  unfold try_catch, find_query. unfold bind at 1. unfold bind at 1.
  rewrite (db_call_quiet w Hquiet). unfold bind at 1, lift at 1.
  destruct (read_filter env (filter_query_of q)) as [selects | e0]; [| destruct Hfetched].
  unfold bind, get_world, ret, utcnow, lift.
  cbn [coll_get]. rewrite He. reflexivity.
Qed.

(** A chunk whose vector has three entries where the query has two,
    and a document without content, each among two sound chunks; the
    two sound chunks alone are ranked. *)
Lemma one_unusable_chunk_empties_retrieval_witness :
  retrieve_similar Demo.env (Demo.iron_man_query 2) DemoRetrieval.mixed_world
  = (Ok [], DemoRetrieval.mixed_world)
  /\ retrieve_similar Demo.env (Demo.iron_man_query 2) DemoRetrieval.headless_world
     = (Ok [], DemoRetrieval.headless_world)
  /\ exists res,
      retrieve_similar Demo.env (Demo.iron_man_query 2) Demo.iron_man_world
      = (Ok res, Demo.iron_man_world)
      /\ List.length res = 2%nat.
Proof.
  split; [| split].
  - apply (one_unusable_chunk_empties_retrieval Demo.env (Demo.iron_man_query 2)
             DemoRetrieval.mixed_world (Demo.chunk "odd" [1%float; 0%float; 0%float])).
    + reflexivity.
    + right. left. reflexivity.
    + right. eexists _, _, _. split; [reflexivity |]. split; [reflexivity |].
      vm_compute. discriminate.
  - apply (one_unusable_chunk_empties_retrieval Demo.env (Demo.iron_man_query 2)
             DemoRetrieval.headless_world
             (mkDoc (StrId "headless")
                    [ ("source", PStr "wiki");
                      ("metadata", PDict [("character", PStr "Iron Man")]) ])).
    + reflexivity.
    + right. left. reflexivity.
    + left. eexists. reflexivity.
  - eexists. split; [vm_compute; reflexivity | reflexivity].
Defined.

(** A stored vector that holds integers is valid for the schema and
    is ranked as the vector of their floats: the chunks of vectors
    [[3; 4]], [[0.0; 2.0]] and [[5; 0.0]] are ranked as in the
    scenario of the specification. *)
Example integer_vectors_are_ranked :
  match retrieve_similar Demo.env (Demo.iron_man_query 2) DemoRetrieval.integer_world with
  | (Ok res, _) => map (fun c => (chunk_id c, similarity_key c)) res
  | (Raise _, _) => []
  end = [("c", PFloat 1%float); ("a", PFloat 0x1.3333333333333p-1%float)].
Proof. vm_compute. reflexivity. Qed.

(** ** The text of the recorded error *)

Section ErrorText.
Context {F : Type} {SF : Scalar F}.
Variable env : Env F.

Lemma prefixed_is_recorded (stage_prefix msg : string) (st : GraphState F) :
  In stage_prefix stage_prefixes ->
  error st = Some (stage_prefix +++ msg) -> error_recorded_by_stage st.
Proof.
  intros Hin He e H. rewrite He in H. inversion H; subst.
  right. exists stage_prefix, msg. split; [exact Hin | reflexivity].
Qed.

Lemma same_error_recorded (st st' : GraphState F) :
  error st' = error st -> error_recorded_by_stage st -> error_recorded_by_stage st'.
Proof. intros E H e He. apply H. now rewrite <- E. Qed.

Lemma knowledge_retrieval_records (st : GraphState F) :
  error_recorded_by_stage st ->
  yields (F:=F) error_recorded_by_stage (knowledge_retrieval env st).
Proof.
  intros He. unfold knowledge_retrieval.
  assert (Hf : forall e : string,
             yields (F:=F) error_recorded_by_stage
               (ret (set_error ("Knowledge retrieval error: " +++ e)
                       (set_conversation_history (PList [])
                          (set_knowledge [] (fallback_character_info (character_id st))
                                         st))))).
  { intros e. apply yields_ret.
    apply (prefixed_is_recorded "Knowledge retrieval error: " e); [| reflexivity].
    cbn; tauto. }
  apply yields_try_catch; [| exact Hf].
  apply yields_try_catch; [| exact Hf].
  apply yields_bind. intros cr. apply yields_bind. intros chunks.
  apply yields_bind. intros h. apply yields_ret.
  now apply (same_error_recorded st).
Qed.

Lemma memory_retrieval_records (st : GraphState F) :
  error_recorded_by_stage st ->
  yields (F:=F) error_recorded_by_stage (memory_retrieval env st).
Proof.
  intros He. unfold memory_retrieval.
  assert (Hf : forall e : string,
             yields (F:=F) error_recorded_by_stage
               (ret (set_character_memories []
                       (set_error ("Memory retrieval error: " +++ e) st)))).
  { intros e. apply yields_ret.
    apply (prefixed_is_recorded "Memory retrieval error: " e); [| reflexivity].
    cbn; tauto. }
  apply yields_try_catch; [| exact Hf].
  apply yields_try_catch; [| exact Hf].
  apply yields_bind. intros found. apply yields_bind. intros ms.
  apply yields_ret. now apply (same_error_recorded st).
Qed.

Lemma context_assembly_records (st : GraphState F) :
  error_recorded_by_stage st ->
  yields (F:=F) error_recorded_by_stage (context_assembly env st).
Proof.
  intros He. unfold context_assembly.
  apply yields_try_catch.
  - apply yields_bind. intros a. apply yields_ret.
    apply (same_error_recorded st); [| exact He].
    cbn [error set_assembled_context]. apply error_ensure_character_info.
  - intros e. apply yields_ret.
    apply (prefixed_is_recorded "Context assembly error: " e); [| reflexivity].
    cbn; tauto.
Qed.

Lemma dialogue_generation_records (st : GraphState F) :
  error_recorded_by_stage st ->
  yields (F:=F) error_recorded_by_stage (dialogue_generation env st).
Proof.
  intros He. unfold dialogue_generation.
  apply yields_try_catch.
  - apply yields_bind. intros a. apply yields_ret.
    apply (same_error_recorded st); [| exact He].
    cbn [error set_response]. apply error_ensure_character_info.
  - intros e. apply yields_ret.
    apply (prefixed_is_recorded "Dialogue generation error: " e); [| reflexivity].
    cbn; tauto.
Qed.

Lemma memory_integration_records (st : GraphState F) :
  error_recorded_by_stage st ->
  yields (F:=F) error_recorded_by_stage (memory_integration env st).
Proof.
  intros He. unfold memory_integration.
  assert (Hf : forall e : string,
             yields (F:=F) error_recorded_by_stage
               (ret (set_completed []
                       (set_error ("Memory integration error: " +++ e) st)))).
  { intros e. apply yields_ret.
    apply (prefixed_is_recorded "Memory integration error: " e); [| reflexivity].
    cbn; tauto. }
  apply yields_try_catch; [| exact Hf].
  destruct (truthy_str (error st)).
  { apply yields_ret. now apply (same_error_recorded st). }
  destruct (negb (truthy_str (response st))).
  { apply yields_ret. intros e H. cbn in H. inversion H. left. reflexivity. }
  apply yields_try_catch; [| exact Hf].
  apply yields_bind. intros now. apply yields_bind. intros memory_id.
  apply yields_bind. intros new_memory. apply yields_ret.
  now apply (same_error_recorded st).
Qed.

End ErrorText.

(** C7 (as the code has it).  The caller of generate_dialogue_response
    always receives a response object.  When the run ends with an error
    recorded, the message is the fixed apology followed by " Error: "
    and the recorded error text, the lists of consulted knowledge and
    memories and the updated memory are empty, and the same error text
    is carried in the [error] entry.  The recorded error text is the
    message of an exception a stage caught, behind the prefix of that
    stage, or the sentence "No response to store in memory". *)
Theorem C7_error_response {F : Type} {SF : Scalar F} (env : Env F)
        (text cid : string)
        (conv_id pv_id : option string)
        (ctx : option (dict F)) (w : World F) :
  exists final w',
    ainvoke (create_dialogue_graph env)
      (initial_state text cid conv_id pv_id ctx) w
    = (Ok final, w')
    /\ generate_dialogue_response env text cid conv_id pv_id ctx w
       = (Ok (response_of final), w')
    /\ (forall e,
           error final = Some e -> e <> "" ->
           response_of final =
           mkResponse (Some (APOLOGY +++ " Error: " +++ e)) (conversation_id final)
                      [] [] [] (Some e))
    /\ (forall e, error final = Some e -> recorded_error e).
Proof.
  set (init := initial_state text cid conv_id pv_id ctx).
  destruct (knowledge_retrieval_total env init w) as (s1 & w1 & E1).
  destruct (memory_retrieval_total env s1 w1) as (s2 & w2 & E2).
  destruct (context_assembly_total env s2 w2) as (s3 & w3 & E3).
  destruct (dialogue_generation_total env s3 w3) as (s4 & w4 & E4).
  destruct (memory_integration_completes env s4 w4) as (s5 & w5 & E5 & _).
  assert (Hrun : ainvoke (create_dialogue_graph env) init w = (Ok s5, w5)).
  { rewrite ainvoke_five_stages. unfold bind.
    rewrite E1, E2, E3, E4, E5. reflexivity. }
  exists s5, w5. split; [exact Hrun |]. split; [| split].
  - unfold generate_dialogue_response, bind. fold init. rewrite Hrun. reflexivity.
  - intros e He Hne. unfold response_of. rewrite He.
    unfold truthy_str. apply String.eqb_neq in Hne. rewrite Hne. reflexivity.
  - assert (H0 : error_recorded_by_stage init) by (intros e H; discriminate H).
    pose proof (knowledge_retrieval_records env init H0 w s1 w1 E1) as H1.
    pose proof (memory_retrieval_records env s1 H1 w1 s2 w2 E2) as H2.
    pose proof (context_assembly_records env s2 H2 w2 s3 w3 E3) as H3.
    pose proof (dialogue_generation_records env s3 H3 w3 s4 w4 E4) as H4.
    exact (memory_integration_records env s4 H4 w4 s5 w5 E5).
Qed.

(** C7, the claim as stated, fails: when the language model raises
    "boom", the message the caller receives is not the fixed apology
    alone; it spells out the recorded error text. *)
Lemma C7_message_has_error_text :
  exists r w',
    generate_dialogue_response Demo.env_llm_down "Who are you?" "thor" None None None
                               Demo.empty_world = (Ok r, w')
    /\ resp_error r = Some "Dialogue generation error: boom"
    /\ resp_response r =
       Some "I'm sorry, I'm having trouble responding right now. Error: Dialogue generation error: boom"
    /\ resp_response r <> Some APOLOGY.
Proof.
  eexists _, _. split; [vm_compute; reflexivity |].
  split; [reflexivity |]. split; [reflexivity |]. discriminate.
Qed.

(** A language model that answers with an empty content raises no
    exception: the error the run records, and the message spells out,
    is the sentence of [memory_integration]. *)
Example empty_answer_is_recorded :
  exists r w',
    generate_dialogue_response DemoRetrieval.env_silent "Who are you?" "thor" None None
                               None Demo.empty_world = (Ok r, w')
    /\ resp_error r = Some "No response to store in memory"
    /\ resp_response r =
       Some "I'm sorry, I'm having trouble responding right now. Error: No response to store in memory".
Proof.
  eexists _, _. split; [vm_compute; reflexivity |].
  split; reflexivity.
Qed.
